(* ===== verification/_CoqProject ===== *)
-Q . S2P
Prelude.v
Decimal.v
JsValue.v
Json.v
JsonFuel.v
Config.v
Wire.v
Message.v
Number.v
Client.v
App.v
Steps.v
Invariants.v
Exchange.v
Log.v
Progress.v
Ids.v
Shape.v
Frame.v
Closure.v
Serial.v
Findings.v
JsString.v
ChatInput.v
Spec.v
Refinement.v
Complete.v
Backward.v
Backend.v
Transport.v
Interleave.v
Async.v
Utf16.v
Utf8.v
JsonString.v
Body.v
JsonGrammar.v
