(* ===== verification/Prelude.v ===== *)
(** * MAIRE front end: a verification development

    The program is the React front end of the MAIRE multi-model pipeline:
    [src/src/App.tsx] (the [App] component: configuration state, conversation
    history and the asynchronous handler [handleSendMessage]) and
    [src/src/components/ChatInput.tsx] (the prompt box and its send guard).

    ** Files, in dependency order

    - [Prelude] (this file): the notation scope [js_scope], the state-and-
      exception monad [Eff] in which the handlers are written, its laws and
      [Proper] instances, string lemmas ([str_infix]), the hint databases
      [js] and [jsrw], and the tactics [eff_cases] (the cases of running a
      computation), [other_codes] (character codes that differ), [nlia]
      (arithmetic with quotients and remainders by constants) and
      [out_of_fuel].
    - [Decimal]: [toString], the decimal numeral of a clock value (the ids
      are [Date.now().toString()]), its inverse [parseDecimal], the round
      trip and the number of digits printed.
    - [JsValue]: the values a parsed JSON body can be ([JsValue]), [truthy],
      the operator [||] ([js_or]), property reads ([get_prop], which throws
      a [TypeError] on [null] and [undefined]), [Error] objects and the text
      a template literal prints for them ([error_toString]).
    - [Json]: the text on the wire: [stringify] ([JSON.stringify], line
      47) and [parse] ([JSON.parse], inside [response.json()], line 58) on
      [JsValue], and their round trip.
    - [JsonFuel]: the parser consumes a character for every unit of fuel
      it spends, so its result does not depend on the fuel and the length
      of the text is enough for every text.
    - [Config]: the roster and the topology (lines 19-24 of [App.tsx]),
      [enabledModels] (line 39) and [activeModels] (line 104).
    - [Wire]: the request handed to [fetch] ([run_request], lines 42-52),
      the response status and [ok], the error thrown on a refused status
      (lines 54-56).
    - [Message]: the [Message] interface (lines 7-16) and the three message
      literals [userMessage], [assistantMessage], [errorMessage].
    - [Number]: the ids computed on IEEE 754 binary64 numbers, with the
      Standard Library's [SpecFloat] ([js_add], [of_N], [Number_toString]),
      and their agreement with the ids of [Message] on every clock value a
      [Date] can hold.
    - [Client]: how one exchange ends as a function of what the two
      promises settle with ([Outcome], [fetch_outcome], [json_outcome]) and
      the turn the history receives ([reply]).
    - [App]: the state of [App] ([AppState]), the world around it ([World]),
      the handlers as [Eff] computations ([handleSendMessage], [after_fetch],
      [after_json], [catch_block], the setters), one event ([step]) and a
      list of events ([run]), and what [App] passes down ([render]).
    - [Steps]: the transitions rule by rule ([Step]), proved to be exactly
      what the handlers do ([step_Step]); reachability.
    - [Invariants]: the accounting invariant [Inv] of the reachable worlds
      and the append-only history.
    - [Exchange]: the end-to-end behaviour of one exchange: what a send
      does, how a failure is reported, how an answer is delivered, that no
      promise rejects, that an activation ends after at most two events.
    - [Log]: the console holds the failures shown, one entry per
      diagnostic turn, in order.
    - [Progress]: the settlings that end every exchange in flight
      ([drain]) always run; every prefix of a reachable history is a
      reachable history.
    - [Ids]: under a clock that advances, ids are strictly increasing.
    - [Shape]: what every turn of the history looks like ([well_formed]),
      and the chronological order of the history under a clock that does
      not go back.
    - [Frame]: what each event leaves alone: the configuration changes
      only by its setters, requests are kept as built, request [i] carries
      the prompt of user turn [i].
    - [Closure]: the handlers as closures over the state of the render
      that created them ([handleSendMessage_in], [onToggleConfig_in]) on a
      page that holds the handlers of its last render ([page_step]), and
      their agreement with [App] when a render follows every event.
    - [Serial]: the runs in which a prompt is sent only when no exchange is
      in flight ([serial_run]); their history is a dialogue.
    - [Findings]: runs and values on which the program and its
      specification part ways.
    - [JsString]: the texts of the platform and [String.prototype.trim]
      ([trim], for any characters), as the interface [JsString] (a class
      with [js_trim], the test for the empty text and the law between
      them) and its two instances: UTF-16 code units with the white space
      of ECMAScript ([is_space]) and the 8-bit strings.
    - [ChatInput]: the component of [ChatInput.tsx], for any texts of the
      interface [JsString]: the key handler [handleKeyDown] (lines 13-20),
      the button's [disabled] flag (line 38), and the calls each user
      action makes ([dispatch]).
    - [Spec]: the session controller as the specification describes it
      (sections 3, 4 and 6), a labelled transition system [AStep] over
      turns, results and requests, with the reading of a body as a result
      ([decode_result]).  Nothing in it comes from the source.
    - [Refinement]: the relation [Abs] between worlds and sessions, the
      actions of an event ([action_of]) and the forward simulation.
    - [Complete]: the converse of [Refinement] for single actions: the
      events that make the program take an action of the session
      ([events_for]).
    - [Backward]: the converse of [Refinement] for whole runs: every
      session the specification reaches within the contract is shown by
      a world the program reaches, up to the names of the exchanges and
      the wording of the diagnostics ([Matches]).
    - [Backend]: the backend as a type class ([Backend]), its contract
      ([Conforming]), conversations with a backend ([converse]) and an
      instance ([echo]).
    - [Transport]: the two texts of an exchange: the body determines the
      payload, and the text a backend prints for a result is shown as that
      result.
    - [Interleave]: the conversation, the log, the wait list and the
      counts of a run as functions of its events ([adds], [logs],
      [phase_after]); what the clock decides ([unstamped]) and what the
      order of the events decides ([reordered]).
    - [Async]: [handleSendMessage] written once, as the source has it
      (lines 28-82): a tree of effects ([Prog]) with the two awaits as
      nodes and the [try] as [ptry]; a machine that keeps what each
      suspended activation will do ([Machine], [astep]); its agreement
      with the segments of [App]; the page with both closures and
      continuations ([Browser]) and its agreement with [Closure].
    - [Utf16]: the strings of the platform as sequences of code units,
      and their code points ([StringToCodePoints],
      [UTF16EncodeCodePoint], [IsStringWellFormedUnicode], named as in
      ECMAScript).
    - [Utf8]: the bytes [fetch] sends for a text ([utf8_encode]) and the
      decoder of the receiving end ([utf8_decode]).
    - [JsonString]: the string literal [JSON.stringify] prints for a
      string of code units ([QuoteJSONString]) and the reader of such
      literals ([read_string]).
    - [Body]: the request body for a prompt of code units, as text
      ([body_units]) and as bytes ([body_bytes]), and the prompt the
      receiving end reads in it ([received_prompt]).
    - [JsonGrammar]: the grammar of the texts [Json.parse] reads, as
      inductive relations ([Chars], [Number], [Value], [Elements],
      [Members]), and its equivalence with the parser.

    ** How the program is modelled

    Handlers are written in [Eff World JsError]: a computation takes the
    world, returns a value or a thrown error, and the world it leaves.  A
    [throw] keeps the state changes made before it, as in JavaScript, and
    [try_catch] is the [try { } catch (error) { }] of [App.tsx].
    Computations are compared pointwise ([eff_eq], written [≈]); [ebind],
    [try_catch] and [exec] are [Proper] for it, and [Steps] simplifies each
    segment of the handler by rewriting with the laws of the monad.  An [await]
    ends a run-to-completion segment: [handleSendMessage] is split at its
    two awaits into [handleSendMessage] (lines 28-52), [after_fetch] (lines
    42-58) and [after_json] (lines 58-68), and the activations suspended at
    an await are kept in the world ([inflight], by activation number), so
    that any interleaving of sends and settlings is a list of events.

    The split is not taken on trust.  [Async] writes the function as one
    definition, [Async.handleSendMessage_prog], in which an await is a
    node of a tree whose children are the rest of the function for each
    value the promise can settle to, and the [try] is one [ptry] around
    both awaits.  [Async.interp] runs such a tree, with the operations of
    [App], up to its next await; the machine of [Async] stores the rest of
    the tree under the number of the activation and resumes it when the
    promise settles.  Nothing in that file mentions the three segments
    but the theorem that the two models do the same.  [Async.Browser]
    puts the two refinements together: handlers that are closures of the
    last render, activations that are continuations; it is the model
    closest to the source, and [App] is proved equal to it.

    The clock is an oracle [now : nat -> N]: the k-th read of the clock by
    the program ([Date.now()] or [new Date()]) returns [now k].  Theorems
    that need time to advance say so as a hypothesis on [now] ([steady]).

    The network is the environment: it chooses what each promise settles
    with ([EvFetch], [EvJson]), and the theorems hold for every choice.

    Texts are modelled twice.  The session controller never looks into
    a text: it stores the prompt, hands it to [JSON.stringify] and pastes
    the error into a template; its texts are 8-bit strings ([string]),
    which keeps its statements readable.  Where the characters matter the
    texts are the strings of the platform, sequences of 16-bit code units
    ([list N]): the guard of [ChatInput] ([trim] and the white space of
    ECMAScript) and the way of a prompt from [JSON.stringify] to the
    bytes on the wire ([Utf16], [JsonString], [Utf8], [Body]).  The two
    agree where both apply, through [JsString.units], the code units of an
    8-bit string ([JsString.trim_units], [JsonString.QuoteJSONString_units],
    [Body.body_units_latin1]).  On the wire an 8-bit text can also be
    read as bytes in UTF-8, and [Json.print] is exact in that reading for
    every well-formed prompt ([Body.body_bytes_print]).

    Every definition that models code is executable.  Equality is
    decidable on the values, messages, requests, events and worlds
    ([EqDecision] instances), and so is the relation of [Refinement]
    between a world and a session ([Refinement.Abs_dec]): the instances
    the witnesses need are checked by computation.

    ** What the theorems show

    - the code and the rules agree ([Steps.step_Step]); the function
      written once and its three segments agree on every list of events
      ([Async.async_agrees]); a [try] covers what follows an await inside
      it ([Async.interp_ptry_run]), so no activation ends in an unhandled
      rejection ([Async.no_unhandled_rejection]); the page with closures
      and continuations is the page of [Closure] and, rendered after
      every event, the program of [App] ([Async.browser_agrees]);
    - every reachable world is accounted for: one user turn and one request
      per activation, one assistant turn per ended activation
      ([Invariants.history_accounting]); the history only grows
      ([Invariants.history_append_only]);
    - what a run shows, logs and leaves waiting is a function of its
      events ([Interleave.conversation_of_events]); the clock decides the
      ids and the timestamps and nothing else
      ([Interleave.clock_only_stamps]); the order in which the network
      events come decides the order of the turns and nothing else of
      what is shown: events that do not conflict commute
      ([Interleave.events_commute]), and two runs of the same events
      in two orders show the same turns, log the same errors and leave
      the same activations waiting ([Interleave.order_only_orders]);
    - a send shows the prompt at once and sends the request of the
      configuration of that moment ([Exchange.send_starts_exchange]); a
      failure gives the diagnostic turn ([Exchange.failure_reported]) and
      one entry of the log, and nothing else is logged
      ([Log.failures_logged_once]); a
      success the answer and its trace ([Exchange.answer_delivered]); no
      rejection escapes ([Exchange.handlers_never_throw]); an exchange on
      its own adds two turns ([Exchange.exchange_adds_two]); whatever the
      network answers the exchanges in flight can all be ended
      ([Progress.every_exchange_ends]), and a reply never comes before
      its prompt ([Progress.replies_follow_prompts]);
    - the ids sent are the enabled ones in roster order
      ([Config.enabledModels_spec]); printing an id is injective
      ([Decimal.toString_roundtrip]);
    - ids are unique under a steady clock ([Ids.ids_unique]) and not in
      general ([Findings.id_collision]); every turn is well formed
      ([Shape.history_well_formed]) and the history is chronological when
      the clock does not go back ([Shape.history_chronological]);
    - the program implements the session of the specification on every
      run whose bodies are within the wire contract
      ([Refinement.refinement], step by step [Refinement.refinement_step]),
      and takes every action the session can take within the contract
      ([Complete.action_performed]), hence shows every session the
      specification can reach ([Backward.session_performed]); outside the contract it does not
      implement it: every body but [null] is a success
      ([Findings.success_is_lenient]);
    - when the user waits for each reply the history alternates user and
      assistant turns ([Serial.serial_history]); when not, it need not
      ([Findings.replies_out_of_order]);
    - a conversation with any backend never gets stuck
      ([Backend.converse_any]) and with a conforming one shows the
      transcript of the specification ([Backend.converse_conforming]);
    - reading the current state instead of the state of the render is
      sound: the closures of each render and the handlers of [App] give
      the same worlds when a render follows every event
      ([Closure.closures_agree]), and differ when none does
      ([Closure.stale_toggle], [Closure.stale_send]), though never in the
      history ([Closure.stale_closures_lose_nothing]);
    - the configuration and the requests are framed ([Frame.config_frame],
      [Frame.request_frozen], [Frame.requests_match_prompts]);
    - the numbers of the program are exact: for every clock value a
      [Date] can hold, the ids computed on binary64 are the numerals of
      [now] and [now + 1] of the model ([Number.ids_exact]), because the
      addition does not round on safe integers ([Number.js_add_exact]);
      an id has at most 16 characters ([Number.ids_bounded]), [toString]
      printing as many digits as the number has, with any fuel above
      their number ([Decimal.toString_length]);
    - the parser stops by itself: its result does not depend on the fuel
      ([JsonFuel.parse_value_fuel]) and [parse] answers as the unbounded
      parser does ([JsonFuel.parse_complete]);
    - the parser reads a value in a text exactly when the grammar
      derives it ([JsonGrammar.parse_grammar]);
    - [JSON.parse] reads back what [JSON.stringify] prints
      ([Json.parse_stringify]), so the body of a request determines its
      payload whatever the prompt holds ([Transport.request_text]);
    - a prompt is received as typed: for every string of code units,
      surrogates that stand alone included, the literal of
      [JSON.stringify] is read back to the string
      ([JsonString.read_string_QuoteJSONString]) and is well formed
      ([JsonString.QuoteJSONString_well_formed]); a text is sent in UTF-8
      without loss exactly when it is well formed ([Utf8.utf8_lossless]),
      the decoder accepting the encodings of scalar values and nothing
      else ([Utf8.utf8_decode_spec]); so the bytes of the body decode to
      its text and the prompt read from it is the prompt
      ([Body.prompt_received]);
    - [ChatInput] never sends a blank prompt nor sends while disabled
      ([ChatInput.send_guard]), its two guards agree
      ([ChatInput.key_button_agree]), and [trim] is the text between the
      blank margins ([JsString.trim_spec]); on 8-bit strings it is the
      [trim] of the code units ([JsString.trim_units]), and the component
      makes the same calls on a text and on its image under a map that
      [trim] goes through ([ChatInput.dispatch_hom]).

    ** Bounds and fuel

    [toString] prints with fuel [2 + log2 n], which exceeds the number of
    decimal digits of [n] ([Decimal.digits_from_fuel] shows that more fuel
    changes nothing, [Decimal.toString_length] that the digits printed are
    all the digits).  [Json.parse] runs with the length of the text as
    fuel: a value needs [Json.size] units, one per value and one per
    element or member, and its text is at least that long
    ([Json.size_length]); [Json.parse_stringify] is proved with that fuel,
    not for "some" fuel, and [JsonFuel.parse_complete] shows that on any
    text, printed by [stringify] or not, this fuel gives what any fuel
    gives.  Numbers are binary64 in [Number], with precision 53 and
    exponents up to 1024; the naturals of the model are exact up to
    [Number.MAX_SAFE_INTEGER] = 2^53 - 1, and a time value is at most
    8.64e15 ([Number.max_time], the range of ECMAScript's [Date]), which
    is below.  [Async.interp] runs a handler to its next [await] by
    structural recursion on the program, and [JsString.trim],
    [Utf16.StringToCodePoints], [Utf8.utf8_decode] and
    [JsonString.read_string] by structural recursion on the text: none
    has fuel.  Code units are naturals below [0x10000]
    ([Utf16.code_units]), code points naturals below [0x110000], bytes
    naturals below 256 ([Utf8.utf8_encode_bytes]); the theorems on texts
    take the first bound as a hypothesis and prove the others.  Nothing else is bounded:
    histories and rosters are lists, the number of activations in flight
    is not limited.

    ** What is assumed, and what is not modelled

    - JSON numbers are integers ([VNum] of [Z]).  The texts of the
      session controller are sequences of 8-bit characters.  A prompt
      with a code above 255 is covered by the guard of [ChatInput] and by
      [Body], from [JSON.stringify] to the bytes; the theorems on
      histories are stated for 8-bit prompts, the controller handling a
      prompt as a whole.
    - The receiving end of the request is the backend, which is not
      among the sources: [Utf8.utf8_decode], [Body.read_prompt] and
      [Body.received_prompt] are written from the wire contract (JSON in
      UTF-8, section 6 of the specification).  The decoder is strict: it
      fails where a decoder of the platform would put [U+FFFD].  A reader
      of whole JSON texts on code units is not modelled; [Json.parse]
      reads the 8-bit ones.
    - A disabled button fires no click ([ChatInput.onClick]): this is the
      behaviour of the DOM.
    - The handlers work on values: the request body is the value handed
      to [JSON.stringify], and a response body is the value
      [response.json()] gives or the error it rejects with.  [Json] and
      [Transport] relate the values to the texts.  Numbers are integers
      printed in decimal, and [Json.parse] refuses fractions, exponents and
      escapes above [\u00ff], which the platform accepts: these are the
      rules [Number] and [Chars_hex] of [JsonGrammar], and the only two
      where its grammar is smaller than that of JSON.
    - [new Date()] is its time value; the [Date] object is not modelled.
      The clock is not before 1970: time values are naturals.
    - [Number.Number_toString] is defined on the naturals up to
      [MAX_SAFE_INTEGER] only, where the platform prints every digit; the
      shortest-digits printing of larger and of fractional numbers is not
      modelled, the program printing none.
    - The handler reads the state of the render in which it was created;
      [App] reads the current state.  [Closure] proves that the two agree
      when a render separates any two events; that React renders between
      two events of the user or of the network is assumed, not modelled.
    - The children [Header], [ConfigPanel], [ChatInterface] and the
      styling are not among the sources; [render] gives what [App] passes
      to them.  How [ChatInterface] wires [ChatInput] to
      [handleSendMessage] is therefore not modelled: [ChatInput] is
      verified as a component on its own.
    - The backend is the environment, not a component: its routing over
      the topology is not modelled, only its side of the wire contract
      ([Backend.Conforming]).
*)

From stdpp Require Export base tactics option list strings gmap relations.
From Stdlib Require Export NArith ZArith Lia.
From Stdlib Require Export Ascii.

Declare Scope js_scope.
Delimit Scope js_scope with js.

(** ** The effect monad: state and exceptions *)

Section Eff.
Context {S E : Type}.

Definition Eff (A : Type) : Type := S → (E + A) * S.

Definition eret {A} (a : A) : Eff A := λ s, (inr a, s).

Definition ebind {A B} (m : Eff A) (k : A → Eff B) : Eff B :=
  λ s, match m s with
       | (inr a, s') => k a s'
       | (inl e, s') => (inl e, s')
       end.

Definition throw {A} (e : E) : Eff A := λ s, (inl e, s).

Definition try_catch {A} (m : Eff A) (h : E → Eff A) : Eff A :=
  λ s, match m s with
       | (inl e, s') => h e s'
       | (inr a, s') => (inr a, s')
       end.

Definition gets {A} (f : S → A) : Eff A := λ s, (inr (f s), s).

Definition modify (f : S → S) : Eff unit := λ s, (inr tt, f s).

(** The state a computation leaves, whether it returned or threw. *)
Definition exec {A} (m : Eff A) (s : S) : S := (m s).2.

(** The computation returns: no exception escapes it. *)
Definition returns {A} (m : Eff A) (s : S) : Prop := ∃ a, (m s).1 = inr a.

(** Computations are compared pointwise. *)
Definition eff_eq {A} (m1 m2 : Eff A) : Prop := ∀ s, m1 s = m2 s.

End Eff.

Arguments Eff : clear implicits.

Notation "x <- c ;; k" := (ebind c (λ x, k))
  (at level 100, c at next level, right associativity) : js_scope.
Notation "c ;; k" := (ebind c (λ _, k))
  (at level 100, right associativity) : js_scope.
Infix "≈" := eff_eq (at level 70, no associativity) : js_scope.

Open Scope js_scope.

Create HintDb js discriminated.
Create Rewrite HintDb jsrw.

(** ** Tactics *)

(** [eff_cases m s]: what the computation [m] does in state [s], a throw
    or a return, with the operations of the monad unfolded. *)
Ltac eff_cases m s :=
  unfold returns, exec, try_catch, ebind, eret in *;
  destruct (m s) as [[?e|?a] ?s] eqn:?; simplify_eq/=.

(** [other_codes n]: the comparisons of the code [n] with constants it
    differs from, by arithmetic on what is known of [n]. *)
Ltac other_codes n :=
  repeat (replace (n =? _)%N with false by (symmetry; apply N.eqb_neq; lia)).

(** [nlia]: linear arithmetic with quotients and remainders by
    constants, on [N] and [Z]. *)
Ltac nlia := zify; Z.to_euclidean_division_equations; lia.

(** [out_of_fuel]: the case of no fuel, excluded by the bound on the fuel. *)
Ltac out_of_fuel :=
  match goal with
  | H : (_ ≤ 0)%nat |- _ => simpl in H; lia
  end.

Section EffLaws.
Context {S E : Type}.
Implicit Types s : S.

#[export] Instance eff_eq_equivalence {A} : Equivalence (@eff_eq S E A).
Proof.
  split.
  - by intros m s.
  - by intros m1 m2 H s.
  - intros m1 m2 m3 H1 H2 s. by rewrite H1.
Qed.

#[export] Instance ebind_proper {A B} :
  Proper (eff_eq ==> pointwise_relation A eff_eq ==> eff_eq) (@ebind S E A B).
Proof.
  intros m1 m2 Hm k1 k2 Hk s. unfold ebind. rewrite Hm.
  destruct (m2 s) as [[e|a] s']; [done|apply Hk].
Qed.

#[export] Instance try_catch_proper {A} :
  Proper (eff_eq ==> pointwise_relation E eff_eq ==> eff_eq) (@try_catch S E A).
Proof.
  intros m1 m2 Hm h1 h2 Hh s. unfold try_catch. rewrite Hm.
  destruct (m2 s) as [[e|a] s']; [apply Hh|done].
Qed.

#[export] Instance exec_proper {A} :
  Proper (eff_eq ==> eq ==> eq) (@exec S E A).
Proof. intros m1 m2 Hm s _ <-. unfold exec. by rewrite Hm. Qed.

Lemma ebind_ret_l {A B} (a : A) (k : A → Eff S E B) : (x <- eret a ;; k x) ≈ k a.
Proof. done. Qed.

Lemma ebind_ret_r {A} (m : Eff S E A) : (x <- m ;; eret x) ≈ m.
Proof. intros s. by eff_cases m s. Qed.

Lemma ebind_assoc {A B C} (m : Eff S E A) (k : A → Eff S E B) (h : B → Eff S E C) :
  (y <- (x <- m ;; k x) ;; h y) ≈ (x <- m ;; y <- k x ;; h y).
Proof. intros s. by eff_cases m s. Qed.

Lemma ebind_throw {A B} (e : E) (k : A → Eff S E B) : (x <- throw e ;; k x) ≈ throw e.
Proof. done. Qed.

Lemma try_catch_ret {A} (a : A) (h : E → Eff S E A) : try_catch (eret a) h ≈ eret a.
Proof. done. Qed.

Lemma try_catch_throw {A} (e : E) (h : E → Eff S E A) : try_catch (throw e) h ≈ h e.
Proof. done. Qed.

(** A [try] whose handler returns lets no exception escape. *)
Lemma try_catch_returns {A} (m : Eff S E A) (h : E → Eff S E A) s :
  (∀ e s', returns (h e) s') → returns (try_catch m h) s.
Proof.
  intros Hh. eff_cases m s; [apply Hh|by eexists].
Qed.

Lemma returns_ret {A} (a : A) s : returns (eret (S:=S) (E:=E) a) s.
Proof. by exists a. Qed.

Lemma returns_gets {A} (f : S → A) s : returns (gets (E:=E) f) s.
Proof. by exists (f s). Qed.

Lemma returns_modify (f : S → S) s : returns (modify (E:=E) f) s.
Proof. by exists tt. Qed.

Lemma returns_bind {A B} (m : Eff S E A) (k : A → Eff S E B) s :
  returns m s → (∀ a s', returns (k a) s') → returns (x <- m ;; k x) s.
Proof.
  intros [a Ha] Hk. unfold returns, ebind in *.
  destruct (m s) as [[e|a'] s']; simplify_eq/=. apply Hk.
Qed.

(** A computation that always returns needs no handler. *)
Lemma try_catch_safe {A} (m : Eff S E A) (h : E → Eff S E A) :
  (∀ s, returns m s) → try_catch m h ≈ m.
Proof.
  intros Hm s. destruct (Hm s) as [a Ha]. by eff_cases m s.
Qed.

(** The handler can be entered after a step that always returns: what the
    step did to the state is kept either way. *)
Lemma try_catch_bind_safe {A B} (m : Eff S E A) (k : A → Eff S E B) (h : E → Eff S E B) :
  (∀ s, returns m s) → try_catch (x <- m ;; k x) h ≈ (x <- m ;; try_catch (k x) h).
Proof.
  intros Hm s. destruct (Hm s) as [a Ha]. by eff_cases m s.
Qed.

Lemma exec_bind {A B} (m : Eff S E A) (k : A → Eff S E B) s a :
  (m s).1 = inr a → exec (x <- m ;; k x) s = exec (k a) (exec m s).
Proof.
  unfold exec, ebind. destruct (m s) as [[e|a'] s']; naive_solver.
Qed.

End EffLaws.

#[export] Hint Resolve returns_ret returns_gets returns_modify
  returns_bind try_catch_returns : js.

(** ** Strings *)

Lemma str_app_cons (a : ascii) (s t : string) : String a s +:+ t = String a (s +:+ t).
Proof. done. Qed.

Lemma str_app_nil_l (s : string) : "" +:+ s = s.
Proof. done. Qed.

Lemma str_app_assoc (s1 s2 s3 : string) : (s1 +:+ s2) +:+ s3 = s1 +:+ (s2 +:+ s3).
Proof. induction s1 as [|a s1 IH]; [done|by rewrite !str_app_cons, IH]. Qed.

Lemma str_app_nil_r (s : string) : s +:+ "" = s.
Proof. induction s as [|a s IH]; [done|by rewrite str_app_cons, IH]. Qed.

Lemma str_app_length (s1 s2 : string) :
  String.length (s1 +:+ s2) = String.length s1 + String.length s2.
Proof. induction s1 as [|a s1 IH]; [done|by rewrite str_app_cons; simpl; rewrite IH]. Qed.

(** Induction on a list two elements at a time. *)
Lemma omap_length_le {A B} (f : A → option B) (l : list A) :
  length (omap f l) ≤ length l.
Proof.
  induction l as [|a l IH]; [done|].
  change (omap f (a :: l)) with (match f a with Some y => y :: omap f l | None => omap f l end).
  destruct (f a); simpl; lia.
Qed.

(** [existsb] looks at the elements, not at their order. *)
#[export] Instance existsb_Permutation {A} (f : A → bool) :
  Proper ((≡ₚ) ==> (=)) (existsb f).
Proof.
  induction 1 as [|a l1 l2 _ IH|a b l|l1 l2 l3 _ IH1 _ IH2]; simpl;
    [done|by rewrite IH|by destruct (f a), (f b)|congruence].
Qed.

Lemma forallb_Forall {A} (f : A → bool) (l : list A) :
  forallb f l = true ↔ Forall (λ x, f x = true) l.
Proof.
  induction l as [|x l IH]; simpl; [by split|].
  rewrite andb_true_iff, Forall_cons, IH. done.
Qed.

Lemma list_pair_ind {A} (P : list A → Prop) :
  P [] → (∀ x, P [x]) → (∀ x y l, P l → P (x :: y :: l)) → ∀ l, P l.
Proof.
  intros Hnil Hone Hcons l. cut (P l ∧ ∀ x, P (x :: l)); [by intros []|].
  induction l as [|y l [IH1 IH2]]; split; auto.
Qed.

(** [str_infix s t]: the text [s] occurs in [t]. *)
Definition str_infix (s t : string) : Prop := ∃ l r, t = l +:+ s +:+ r.

Lemma str_infix_refl s : str_infix s s.
Proof. exists "", "". by rewrite str_app_nil_r. Qed.

Lemma str_infix_app_l s t u : str_infix s t → str_infix s (u +:+ t).
Proof. intros (l & r & ->). exists (u +:+ l), r. by rewrite str_app_assoc. Qed.

Lemma str_infix_app_r s t u : str_infix s t → str_infix s (t +:+ u).
Proof.
  intros (l & r & ->). exists l, (r +:+ u). by rewrite !str_app_assoc.
Qed.

#[export] Hint Resolve str_infix_refl str_infix_app_l str_infix_app_r : js.
#[export] Hint Rewrite str_app_assoc str_app_nil_l str_app_nil_r str_app_length : jsrw.
