(* ===== verification/Decimal.v ===== *)
(** * Decimal: [Number.prototype.toString] on the integers the program prints

    [App.tsx] turns two kinds of numbers into text: the clock value of
    [Date.now()] (the message ids, [Date.now().toString()] and
    [(Date.now() + 1).toString()]) and the HTTP status inside the template
    literal of the thrown error.  Both are non-negative integers far below
    2^53, where [toString] prints the decimal digits with no leading zero,
    no sign and no exponent.  [toString] models that; [parseDecimal] is its
    inverse on canonical numerals and exists to prove that printing is
    injective, which is what makes an id determine its clock value. *)

From S2P Require Import Prelude.

Local Open Scope N_scope.

(** The character of a digit: the code of "0" is 48. *)
Definition digit_char (d : N) : ascii := ascii_of_N (48 + d).

(** The digits of [n], least significant first, pushed in front of [acc].
    One unit of fuel is spent per digit. *)
Fixpoint digits_from (fuel : nat) (n : N) (acc : string) : string :=
  match fuel with
  | O => acc
  | S fuel' =>
      let acc' := String (digit_char (n mod 10)) acc in
      if n <? 10 then acc' else digits_from fuel' (n / 10) acc'
  end.

(** A number below [2 ^ f] has at most [f] decimal digits, and at least one
    digit is always printed. *)
Definition toString (n : N) : string :=
  digits_from (S (S (N.to_nat (N.log2 n)))) n "".

Definition char_digit (c : ascii) : option N :=
  let code := N_of_ascii c in
  if (48 <=? code) && (code <=? 57) then Some (code - 48) else None.

Fixpoint parse_digits (s : string) (acc : N) : option N :=
  match s with
  | EmptyString => Some acc
  | String c s' =>
      match char_digit c with
      | Some d => parse_digits s' (10 * acc + d)
      | None => None
      end
  end.

(** Canonical numerals only: no empty text, no leading zero but in "0". *)
Definition parseDecimal (s : string) : option N :=
  match s with
  | EmptyString => None
  | String c s' =>
      if decide (c = "0"%char)
      then (if decide (s' = EmptyString) then Some 0 else None)
      else parse_digits s 0
  end.

(** ** Digits *)

Lemma char_digit_char d : d < 10 → char_digit (digit_char d) = Some d.
Proof.
  intros Hd. unfold char_digit, digit_char.
  rewrite N_ascii_embedding by lia.
  rewrite (proj2 (N.leb_le _ _)), (proj2 (N.leb_le _ _)) by lia.
  simpl. f_equal. lia.
Qed.

Lemma digit_char_digit c d : char_digit c = Some d → digit_char d = c ∧ d < 10.
Proof.
  unfold char_digit, digit_char.
  destruct (_ && _) eqn:Hc; [|done]. intros [= <-].
  apply andb_true_iff in Hc as [H1%N.leb_le H2%N.leb_le].
  split; [|lia]. rewrite <- (ascii_N_embedding c) at 2. f_equal. lia.
Qed.

Lemma digit_char_zero d : d < 10 → digit_char d = "0"%char → d = 0.
Proof.
  intros Hd Hc. apply char_digit_char in Hd. rewrite Hc in Hd.
  vm_compute in Hd. by simplify_eq.
Qed.

(** ** Fuel *)

Lemma lt_pow2_log2 n : n < 2 ^ N.of_nat (S (N.to_nat (N.log2 n))).
Proof.
  rewrite Nat2N.inj_succ, N2Nat.id.
  destruct (decide (n = 0)) as [->|Hn]; [done|].
  apply N.log2_spec. lia.
Qed.

Lemma div10_lt_pow2 n f : 10 ≤ n → n < 2 ^ N.of_nat (S f) → n / 10 < 2 ^ N.of_nat f.
Proof.
  intros Hn Hlt. rewrite Nat2N.inj_succ, N.pow_succ_r' in Hlt.
  apply N.Div0.div_lt_upper_bound. lia.
Qed.

Lemma ge10_fuel n f : 10 ≤ n → n < 2 ^ N.of_nat f → ∃ f', f = S f'.
Proof.
  intros Hn Hlt. destruct f as [|f']; [|by eauto].
  simpl in Hlt. lia.
Qed.

Lemma digits_from_S f n acc :
  digits_from (S f) n acc =
  if n <? 10 then String (digit_char (n mod 10)) acc
  else digits_from f (n / 10) (String (digit_char (n mod 10)) acc).
Proof. done. Qed.

(** The printed text does not depend on the fuel once there is enough. *)
Lemma digits_from_fuel f1 f2 n acc :
  n < 2 ^ N.of_nat f1 → n < 2 ^ N.of_nat f2 →
  digits_from (S f1) n acc = digits_from (S f2) n acc.
Proof.
  revert f2 n acc. induction f1 as [|f1 IH]; intros f2 n acc H1 H2;
    rewrite (digits_from_S _ n), (digits_from_S f2 n);
    destruct (n <? 10) eqn:Hn; try done; apply N.ltb_ge in Hn.
  - simpl in H1. lia.
  -
    destruct (ge10_fuel n f2) as [f2' ->]; [done..|].
    apply IH; by apply div10_lt_pow2.
Qed.

Lemma digits_from_acc f n acc :
  n < 2 ^ N.of_nat f → digits_from (S f) n acc = digits_from (S f) n "" +:+ acc.
Proof.
  revert n acc. induction f as [|f IH]; intros n acc Hlt.
  - simpl. by case_match.
  - rewrite !(digits_from_S _ n). destruct (n <? 10) eqn:Hn; [done|].
    apply N.ltb_ge in Hn.
    rewrite IH, (IH _ (String _ "")) by (by apply div10_lt_pow2).
    by rewrite str_app_assoc.
Qed.

(** ** The two equations of [toString] *)

Lemma toString_small n : n < 10 → toString n = String (digit_char n) "".
Proof.
  intros Hn. unfold toString. rewrite digits_from_S.
  apply N.ltb_lt in Hn as Hb. rewrite Hb. by rewrite N.mod_small by lia.
Qed.

Lemma toString_step n :
  10 ≤ n → toString n = toString (n / 10) +:+ String (digit_char (n mod 10)) "".
Proof.
  intros Hn. unfold toString at 1. rewrite digits_from_S.
  apply N.ltb_ge in Hn as Hb. rewrite Hb.
  rewrite digits_from_acc by (apply div10_lt_pow2, lt_pow2_log2; done).
  f_equal. unfold toString.
  apply digits_from_fuel; [apply div10_lt_pow2, lt_pow2_log2; done|].
  apply N.lt_le_trans with (2 ^ N.of_nat (S (N.to_nat (N.log2 (n / 10)))));
    [apply lt_pow2_log2|].
  apply N.pow_le_mono_r; lia.
Qed.

(** Induction following the two equations. *)
Lemma decimal_ind (P : N → Prop) :
  (∀ n, n < 10 → P n) → (∀ n, 10 ≤ n → P (n / 10) → P n) → ∀ n, P n.
Proof.
  intros Hsmall Hstep n. induction (N.lt_wf_0 n) as [n _ IH].
  destruct (decide (n < 10)) as [?|Hn]; [by apply Hsmall|].
  apply Hstep; [lia|]. apply IH. apply N.div_lt; lia.
Qed.

Lemma toString_cons n : ∃ c s, toString n = String c s ∧ (0 < n → c ≠ "0"%char).
Proof.
  induction n as [n Hn|n Hn (c & s & Heq & Hc)] using decimal_ind.
  - rewrite toString_small by done. eexists _, _. split; [done|].
    intros Hpos Hz. apply digit_char_zero in Hz; lia.
  - rewrite toString_step, Heq by done. eexists _, _. split; [done|].
    intros _. apply Hc. apply N.div_str_pos. lia.
Qed.

Lemma toString_zero : toString 0 = "0".
Proof. done. Qed.

(** ** Parsing what [toString] prints *)

Lemma parse_digits_snoc s c acc :
  parse_digits (s +:+ String c "") acc =
  m ← parse_digits s acc; d ← char_digit c; Some (10 * m + d).
Proof.
  revert acc. induction s as [|a s IH]; intros acc; simpl.
  - by destruct (char_digit c).
  - rewrite ?str_app_cons. simpl. destruct (char_digit a); [apply IH|done].
Qed.

Lemma parse_digits_toString n : parse_digits (toString n) 0 = Some n.
Proof.
  induction n as [n Hn|n Hn IH] using decimal_ind.
  - rewrite toString_small by done. simpl. by rewrite char_digit_char.
  - rewrite toString_step, parse_digits_snoc, IH by done. simpl.
    rewrite char_digit_char by (apply N.mod_lt; lia). simpl.
    f_equal. pose proof (N.div_mod n 10). lia.
Qed.

Lemma toString_snoc acc d :
  0 < acc → d < 10 →
  toString (10 * acc + d) = toString acc +:+ String (digit_char d) "".
Proof.
  intros Hacc Hd. rewrite toString_step by lia.
  replace ((10 * acc + d) / 10) with acc by (apply N.div_unique with d; lia).
  replace ((10 * acc + d) mod 10) with d by (apply N.mod_unique with acc; lia).
  done.
Qed.

(** A digit string read after a non-zero prefix [acc] is what [toString]
    prints for the value read. *)
Lemma parse_digits_sound s acc n :
  0 < acc → parse_digits s acc = Some n → toString n = toString acc +:+ s.
Proof.
  revert acc. induction s as [|c s IH]; intros acc Hacc Hp; simpl in Hp.
  - simplify_eq. by rewrite str_app_nil_r.
  - destruct (char_digit c) as [d|] eqn:Hc; [|done].
    apply digit_char_digit in Hc as [<- Hd].
    apply IH in Hp; [|lia]. by rewrite Hp, toString_snoc, str_app_assoc.
Qed.

(** ** Round trip *)

Lemma parseDecimal_toString n : parseDecimal (toString n) = Some n.
Proof.
  destruct (toString_cons n) as (c & s & Heq & Hc).
  pose proof (parse_digits_toString n) as Hp. rewrite Heq in *.
  unfold parseDecimal. destruct (decide (n = 0)) as [->|Hn].
  - by rewrite toString_zero in Heq; simplify_eq.
  - by rewrite decide_False by (apply Hc; lia).
Qed.

#[export] Instance toString_inj : Inj (=) (=) toString.
Proof.
  intros n m Heq. apply (inj Some).
  by rewrite <- !parseDecimal_toString, Heq.
Qed.

(** Every canonical numeral is printed by [toString]. *)
Lemma toString_parseDecimal s n : parseDecimal s = Some n → toString n = s.
Proof.
  destruct s as [|c s]; [done|]. unfold parseDecimal.
  destruct (decide (c = "0"%char)) as [->|Hc].
  { case_decide; [|done]. by intros; simplify_eq. }
  simpl. destruct (char_digit c) as [d|] eqn:Hd; [|done].
  apply digit_char_digit in Hd as [<- Hd]. simpl. intros Hp.
  assert (0 < d) by (destruct (decide (d = 0)) as [->|]; [done|lia]).
  apply parse_digits_sound in Hp; [|done]. by rewrite Hp, toString_small.
Qed.

(** Printing and reading are inverse: a text is what [toString] prints
    for [n] exactly when it is the canonical numeral that reads as [n].
    So a message id determines the clock value it was made from. *)
Theorem toString_roundtrip n s : toString n = s ↔ parseDecimal s = Some n.
Proof.
  split; [intros <-; apply parseDecimal_toString|apply toString_parseDecimal].
Qed.

Example toString_clock : toString 1731067200000 = "1731067200000".
Proof. vm_compute. done. Qed.

(** The text never is empty and starts with "0" only for zero. *)
Lemma toString_ne_empty n : toString n ≠ "".
Proof. by destruct (toString_cons n) as (c & s & -> & _). Qed.

Lemma toString_succ_ne n : toString (n + 1) ≠ toString n.
Proof. intros Heq%(inj toString). lia. Qed.

(** ** The number of digits *)

Lemma toString_length_step n :
  10 ≤ n → String.length (toString n) = S (String.length (toString (n / 10))).
Proof. intros Hn. rewrite toString_step, str_app_length by done. simpl. lia. Qed.

Lemma pow10_S (k : nat) : 10 ^ N.of_nat (S k) = 10 * 10 ^ N.of_nat k.
Proof. by rewrite Nat2N.inj_succ, N.pow_succ_r'. Qed.

(** The digits printed are all the digits, and no more. *)
Lemma toString_digits n :
  ∃ k, String.length (toString n) = S k
    ∧ n < 10 ^ N.of_nat (S k) ∧ (10 ≤ n → 10 ^ N.of_nat k ≤ n).
Proof.
  induction n as [n Hn|n Hn (k & Hlen & Hlt & Hge)] using decimal_ind.
  - exists 0%nat. rewrite toString_small by done. split_and!; [done| |lia].
    by change (10 ^ N.of_nat 1) with 10.
  - exists (S k). rewrite toString_length_step, Hlen by done.
    pose proof (N.div_mod n 10 ltac:(done)). pose proof (N.mod_lt n 10 ltac:(done)).
    rewrite (pow10_S (S k)), (pow10_S k) in *. split; [done|].
    destruct (decide (10 ≤ n / 10)) as [H10|H10].
    + set (p := 10 ^ N.of_nat k) in *. set (q := n / 10) in *. set (d := n mod 10) in *.
      clearbody p q d. lia.
    + rewrite toString_small in Hlen by lia. injection Hlen as <-.
      change (10 ^ N.of_nat 0) with 1 in *. lia.
Qed.

(** As many units of fuel as there are digits are enough. *)
Lemma digits_from_enough f n acc :
  n < 10 ^ N.of_nat (S f) → digits_from (S f) n acc = toString n +:+ acc.
Proof.
  revert n acc. induction f as [|f IH]; intros n acc Hn; rewrite digits_from_S;
    destruct (n <? 10) eqn:Hlt; try apply N.ltb_lt in Hlt; try apply N.ltb_ge in Hlt.
  - by rewrite toString_small, N.mod_small by done.
  - change (10 ^ N.of_nat 1) with 10 in Hn. lia.
  - by rewrite toString_small, N.mod_small by done.
  - rewrite IH; [by rewrite (toString_step n), str_app_assoc|].
    rewrite pow10_S in Hn. apply N.Div0.div_lt_upper_bound. lia.
Qed.

(** [toString] prints as many digits as the number has, and stops by
    itself: the text of [n] has [k + 1] characters, where [n] is below
    [10 ^ (k + 1)] and, from two digits on, at least [10 ^ k]; and the loop
    of [digits_from] gives this text with any fuel above [k], so it stops
    at its own test and never for want of fuel. *)
Theorem toString_length n :
  ∃ k, String.length (toString n) = S k
    ∧ n < 10 ^ N.of_nat (S k) ∧ (10 ≤ n → 10 ^ N.of_nat k ≤ n)
    ∧ ∀ f, (k < f)%nat → digits_from f n "" = toString n.
Proof.
  destruct (toString_digits n) as (k & Hlen & Hlt & Hge). exists k. split_and!; [done..|].
  intros [|f] Hf; [lia|]. rewrite digits_from_enough, str_app_nil_r; [done|].
  eapply N.lt_le_trans; [exact Hlt|]. apply N.pow_le_mono_r; lia.
Qed.
