(* ===== verification/JsValue.v ===== *)
(** * JsValue: the JavaScript values and operators [App.tsx] computes with

    [data], the result of [response.json()], may be any JSON value, and
    [handleSendMessage] reads properties of it ([data.final_response],
    [data.header_stack]), tests one for truthiness ([||]) and prints the
    caught [error] in a template literal.  This file models exactly those
    operators:

    - [JsValue]: the values, [VUndefined] included (what reading a missing
      property gives).  Numbers are integers: the program only tests a
      number for being zero.  An object is the list of its members in the
      order of the JSON text; a key written twice has its last value, as
      [JSON.parse] has it.
    - [truthy] (ToBoolean), [js_or] (the [||] operator), [get_prop] (a
      property read, which throws a [TypeError] on [null] and [undefined]).
      The property names the program reads are not names of built-in
      properties, so a read on a string, number, boolean or array gives
      [VUndefined].
    - [JsError]: a thrown Error object by its [name] and [message], and
      [error_toString], the text a template literal prints for it
      (Error.prototype.toString). *)

From S2P Require Import Prelude.

Inductive JsValue : Type :=
| VUndefined
| VNull
| VBool (b : bool)
| VNum (n : Z)
| VStr (s : string)
| VArr (vs : list JsValue)
| VObj (members : list (string * JsValue)).

Record JsError : Type := mkError { err_name : string; err_message : string }.

#[export] Instance JsError_eq_dec : EqDecision JsError.
Proof. solve_decision. Defined.

(** Equality of values is decidable; the elements of an array and the
    members of an object are compared by the same procedure. *)
#[export] Instance JsValue_eq_dec : EqDecision JsValue.
Proof.
  refine (fix go (v1 v2 : JsValue) {struct v1} : Decision (v1 = v2) :=
    match v1, v2 with
    | VUndefined, VUndefined | VNull, VNull => left _
    | VBool b1, VBool b2 => cast_if (decide (b1 = b2))
    | VNum n1, VNum n2 => cast_if (decide (n1 = n2))
    | VStr s1, VStr s2 => cast_if (decide (s1 = s2))
    | VArr vs1, VArr vs2 => cast_if (@list_eq_dec _ go vs1 vs2)
    | VObj ms1, VObj ms2 => cast_if (@list_eq_dec _ (@prod_eq_dec _ _ _ go) ms1 ms2)
    | _, _ => right _
    end); congruence.
Defined.

(** ToBoolean. *)
Definition truthy (v : JsValue) : bool :=
  match v with
  | VUndefined | VNull => false
  | VBool b => b
  | VNum n => negb (n =? 0)%Z
  | VStr s => negb (String.eqb s "")
  | VArr _ | VObj _ => true
  end.

(** [a || b]: [a] when it is truthy, [b] otherwise. *)
Definition js_or (a b : JsValue) : JsValue := if truthy a then a else b.

(** The value a key has in a member list: the last one written. *)
Fixpoint member (key : string) (ms : list (string * JsValue)) : option JsValue :=
  match ms with
  | [] => None
  | (k, v) :: ms' =>
      match member key ms' with
      | Some v' => Some v'
      | None => if decide (k = key) then Some v else None
      end
  end.

(** [new TypeError(...)] as V8 words it for a property read on null or
    undefined. *)
Definition cannot_read (what key : string) : JsError :=
  mkError "TypeError"
    ("Cannot read properties of " +:+ what +:+ " (reading '" +:+ key +:+ "')").

(** [v.key], for a [key] that is no built-in property. *)
Definition get_prop (v : JsValue) (key : string) : JsError + JsValue :=
  match v with
  | VUndefined => inl (cannot_read "undefined" key)
  | VNull => inl (cannot_read "null" key)
  | VObj ms => inr (default VUndefined (member key ms))
  | VBool _ | VNum _ | VStr _ | VArr _ => inr VUndefined
  end.

(** [new Error(message)]. *)
Definition new_Error (message : string) : JsError := mkError "Error" message.

(** Error.prototype.toString: what [`${error}`] prints. *)
Definition error_toString (e : JsError) : string :=
  if decide (err_name e = "") then err_message e
  else if decide (err_message e = "") then err_name e
  else err_name e +:+ ": " +:+ err_message e.

Definition is_string (v : JsValue) : bool :=
  match v with VStr _ => true | _ => false end.

(** Induction on values, through the lists of arrays and objects. *)
Lemma JsValue_ind_nested (P : JsValue → Prop) :
  P VUndefined → P VNull → (∀ b, P (VBool b)) → (∀ n, P (VNum n)) → (∀ s, P (VStr s)) →
  (∀ vs, Forall P vs → P (VArr vs)) →
  (∀ ms, Forall (λ kv, P kv.2) ms → P (VObj ms)) →
  ∀ v, P v.
Proof.
  intros Hu Hn Hb Hz Hs Harr Hobj. fix IH 1.
  intros [| |b|n|s|vs|ms]; [exact Hu|exact Hn|apply Hb|apply Hz|apply Hs|..].
  - apply Harr. induction vs as [|v vs IHvs]; constructor; [apply IH|apply IHvs].
  - apply Hobj. induction ms as [|[k v] ms IHms]; constructor; [apply IH|apply IHms].
Qed.

(** ** Truthiness and [||] *)

Lemma truthy_str s : truthy (VStr s) = true ↔ s ≠ "".
Proof.
  simpl. rewrite negb_true_iff. destruct (String.eqb_spec s ""); naive_solver.
Qed.

Lemma truthy_num n : truthy (VNum n) = true ↔ n ≠ 0%Z.
Proof. simpl. rewrite negb_true_iff, Z.eqb_neq. done. Qed.

Lemma js_or_truthy a b : truthy a = true → js_or a b = a.
Proof. unfold js_or. by intros ->. Qed.

Lemma js_or_falsy a b : truthy a = false → js_or a b = b.
Proof. unfold js_or. by intros ->. Qed.

(** [a || b] is [a] or [b], and is truthy as soon as [b] is. *)
Lemma js_or_cases a b : js_or a b = a ∧ truthy a = true ∨ js_or a b = b ∧ truthy a = false.
Proof. unfold js_or. destruct (truthy a); auto. Qed.

Lemma js_or_truthy_r a b : truthy b = true → truthy (js_or a b) = true.
Proof. unfold js_or. by destruct (truthy a) eqn:?. Qed.

(** With a string fallback, [||] gives a string whenever its left operand
    is a string or is missing. *)
Lemma js_or_is_string a s :
  is_string a = true ∨ a = VUndefined ∨ a = VNull → is_string (js_or a (VStr s)) = true.
Proof.
  unfold js_or. intros [Ha|[->| ->]]; [|done..].
  destruct a; try done. by destruct (truthy _).
Qed.

(** ** Members and property reads *)

Lemma member_app key ms1 ms2 :
  member key (ms1 ++ ms2) = match member key ms2 with
                            | Some v => Some v
                            | None => member key ms1
                            end.
Proof.
  induction ms1 as [|[k v] ms1 IH]; simpl.
  - by destruct (member key ms2).
  - rewrite IH. by destruct (member key ms2).
Qed.

Lemma member_None key ms : member key ms = None ↔ key ∉ ms.*1.
Proof.
  induction ms as [|[k v] ms IH]; simpl.
  - split; [intros _; apply not_elem_of_nil|done].
  - rewrite not_elem_of_cons, <- IH.
    destruct (member key ms); [naive_solver|].
    case_decide; naive_solver.
Qed.

Lemma member_Some_elem key ms v : member key ms = Some v → (key, v) ∈ ms.
Proof.
  induction ms as [|[k w] ms IH]; simpl; [done|].
  destruct (member key ms) eqn:Hm.
  - intros; simplify_eq. right. by apply IH.
  - case_decide; [|done]. intros; simplify_eq. left.
Qed.

(** On a member list without a repeated key, [member] finds the member. *)
Lemma member_NoDup key ms v :
  NoDup ms.*1 → (key, v) ∈ ms → member key ms = Some v.
Proof.
  induction ms as [|[k w] ms IH]; simpl; [by intros _ ?%elem_of_nil|].
  intros [Hk Hnd]%NoDup_cons [Heq|Hin]%elem_of_cons.
  - simplify_eq. apply member_None in Hk as ->. by rewrite decide_True.
  - by rewrite (IH Hnd Hin).
Qed.

(** A property read throws exactly on [null] and [undefined]. *)
Lemma get_prop_throws v key :
  (∃ e, get_prop v key = inl e) ↔ v = VUndefined ∨ v = VNull.
Proof. destruct v; naive_solver. Qed.

Lemma get_prop_missing ms key : key ∉ ms.*1 → get_prop (VObj ms) key = inr VUndefined.
Proof. intros Hk%member_None. simpl. by rewrite Hk. Qed.

(** ** Printing errors *)

Lemma error_toString_new_Error msg :
  msg ≠ "" → error_toString (new_Error msg) = "Error: " +:+ msg.
Proof. intros Hm. unfold error_toString. simpl. by rewrite decide_False. Qed.

(** The message of an error occurs in its printed form. *)
Lemma error_toString_message e : str_infix (err_message e) (error_toString e).
Proof.
  unfold error_toString. case_decide as Hn; [apply str_infix_refl|].
  case_decide as Hm.
  - rewrite Hm. exists (err_name e), "". by rewrite str_app_nil_r.
  - apply str_infix_app_l, str_infix_app_l, str_infix_refl.
Qed.

#[export] Hint Resolve error_toString_message : js.
#[export] Hint Rewrite js_or_truthy js_or_falsy using done : jsrw.
