(* ===== verification/Json.v ===== *)
(** * Json: the text on the wire

    The request body is [JSON.stringify] of the payload (line 47 of
    [App.tsx]) and the value of [response.json()] is [JSON.parse] of the
    response text (line 58).  This file models both on the values of
    [JsValue]:

    - [stringify] prints a value as ECMAScript does: strings quoted with
      the short escapes and [\u00XX] for the other control characters,
      integers in decimal, arrays and objects without white space, a
      member whose value is [undefined] left out and an [undefined]
      element printed as [null]; it gives [None] for [undefined] itself;
    - [parse] reads a text by recursive descent, white space allowed
      between tokens, with fuel; the length of the text is fuel enough.

    Numbers are integers, as in [JsValue]: [parse] refuses a fraction or
    an exponent, and [stringify] prints every integer in decimal (the
    platform switches to exponent notation from [1e21]).  Characters are
    8-bit: [parse] refuses an escape [\uXXXX] above [\u00ff].  An object is printed
    member by member as listed, so it should list each key once, as the
    objects of the program do. *)

From S2P Require Import Prelude Decimal JsValue.

Local Open Scope N_scope.

(** ** Printing *)

Definition dquote : ascii := ascii_of_N 34.
Definition backslash : ascii := ascii_of_N 92.

Definition hex_char (n : N) : ascii :=
  if n <? 10 then ascii_of_N (48 + n) else ascii_of_N (87 + n).

(** QuoteJSONString, one character. *)
Definition escape (c : ascii) : string :=
  let n := N_of_ascii c in
  if n =? 34 then String backslash (String dquote "")
  else if n =? 92 then String backslash (String backslash "")
  else if n =? 8 then String backslash "b"
  else if n =? 12 then String backslash "f"
  else if n =? 10 then String backslash "n"
  else if n =? 13 then String backslash "r"
  else if n =? 9 then String backslash "t"
  else if n <? 32 then
    String backslash
      (String "u" (String "0" (String "0"
         (String (hex_char (n / 16)) (String (hex_char (n mod 16)) "")))))
  else String c "".

Fixpoint escape_all (s : string) : string :=
  match s with
  | EmptyString => EmptyString
  | String c s' => escape c +:+ escape_all s'
  end.

Definition quote (s : string) : string :=
  String dquote (escape_all s +:+ String dquote "").

Definition print_int (z : Z) : string :=
  if (z <? 0)%Z then String "-" (toString (Z.to_N (- z))) else toString (Z.to_N z).

(** The texts of a list, separated by commas. *)
Fixpoint join (ts : list string) : string :=
  match ts with
  | [] => ""
  | [t] => t
  | t :: ts' => t +:+ String "," (join ts')
  end.

Fixpoint stringify (v : JsValue) : option string :=
  match v with
  | VUndefined => None
  | VNull => Some "null"
  | VBool b => Some (if b then "true" else "false")
  | VNum z => Some (print_int z)
  | VStr s => Some (quote s)
  | VArr vs =>
      Some (String "[" (join (map (λ v, default "null" (stringify v)) vs) +:+ "]"))
  | VObj ms =>
      Some (String "{"
              (join (omap (λ kv, (λ t, quote kv.1 +:+ String ":" t) <$> stringify kv.2) ms)
               +:+ "}"))
  end.

(** ** Parsing *)

Definition is_ws (c : ascii) : bool :=
  let n := N_of_ascii c in (n =? 32) || (n =? 9) || (n =? 10) || (n =? 13).

Fixpoint skip_ws (s : string) : string :=
  match s with
  | EmptyString => EmptyString
  | String c s' => if is_ws c then skip_ws s' else s
  end.

Definition hex_value (c : ascii) : option N :=
  let n := N_of_ascii c in
  if (48 <=? n) && (n <=? 57) then Some (n - 48)
  else if (97 <=? n) && (n <=? 102) then Some (n - 87)
  else if (65 <=? n) && (n <=? 70) then Some (n - 55)
  else None.

(** The character of [\uXXXX], when it is an 8-bit character. *)
Definition hex4 (h1 h2 h3 h4 : ascii) : option ascii :=
  a ← hex_value h1; b ← hex_value h2; c ← hex_value h3; d ← hex_value h4;
  if (a =? 0) && (b =? 0) then Some (ascii_of_N (16 * c + d)) else None.

(** The character of a short escape. *)
Definition short_escape (e : ascii) : option ascii :=
  let n := N_of_ascii e in
  if n =? 34 then Some dquote
  else if n =? 92 then Some backslash
  else if n =? 47 then Some "/"%char
  else if n =? 98 then Some (ascii_of_N 8)
  else if n =? 102 then Some (ascii_of_N 12)
  else if n =? 110 then Some (ascii_of_N 10)
  else if n =? 114 then Some (ascii_of_N 13)
  else if n =? 116 then Some (ascii_of_N 9)
  else None.

(** A string literal after its opening quote: its text and what follows
    the closing quote. *)
Fixpoint parse_string (s : string) : option (string * string) :=
  match s with
  | EmptyString => None
  | String c s1 =>
      if N_of_ascii c =? 34 then Some ("", s1)
      else if N_of_ascii c =? 92 then
        match s1 with
        | EmptyString => None
        | String e s2 =>
            match short_escape e with
            | Some c' => '(t, r) ← parse_string s2; Some (String c' t, r)
            | None =>
                match s2 with
                | String h1 (String h2 (String h3 (String h4 s3))) =>
                    if N_of_ascii e =? 117 then
                      c' ← hex4 h1 h2 h3 h4;
                      '(t, r) ← parse_string s3; Some (String c' t, r)
                    else None
                | _ => None
                end
            end
        end
      else if N_of_ascii c <? 32 then None
      else '(t, r) ← parse_string s1; Some (String c t, r)
  end.

Definition is_digit (c : ascii) : bool :=
  let n := N_of_ascii c in (48 <=? n) && (n <=? 57).

(** The longest prefix of digits, and the rest. *)
Fixpoint span_digits (s : string) : string * string :=
  match s with
  | EmptyString => ("", "")
  | String c s' =>
      if is_digit c then (String c (span_digits s').1, (span_digits s').2) else ("", s)
  end.

(** A number may not go on as a fraction or an exponent. *)
Definition ends_number (s : string) : bool :=
  match s with
  | EmptyString => true
  | String c _ =>
      let n := N_of_ascii c in negb ((n =? 46) || (n =? 101) || (n =? 69))
  end.

Definition parse_nat (s : string) : option (N * string) :=
  n ← parseDecimal (span_digits s).1;
  if ends_number (span_digits s).2 then Some (n, (span_digits s).2) else None.

Definition parse_number (s : string) : option (Z * string) :=
  match s with
  | String c s' =>
      if N_of_ascii c =? 45
      then '(n, r) ← parse_nat s'; Some ((- Z.of_N n)%Z, r)
      else '(n, r) ← parse_nat s; Some (Z.of_N n, r)
  | EmptyString => None
  end.

(** [s] without the prefix [p]. *)
Fixpoint after (p s : string) : option string :=
  match p, s with
  | EmptyString, _ => Some s
  | String a p', String b s' => if decide (a = b) then after p' s' else None
  | String _ _, EmptyString => None
  end.

(** The head of a text, as a code. *)
Definition next (s : string) : option (N * string) :=
  match s with
  | EmptyString => None
  | String c s' => Some (N_of_ascii c, s')
  end.

Fixpoint parse_value (fuel : nat) (s : string) : option (JsValue * string) :=
  match fuel with
  | O => None
  | S fuel' =>
      '(c, s1) ← next (skip_ws s);
      if c =? 34 then '(t, r) ← parse_string s1; Some (VStr t, r)
      else if c =? 91 then
        '(c', r) ← next (skip_ws s1);
        if c' =? 93 then Some (VArr [], r)
        else '(vs, r) ← parse_elements fuel' s1; Some (VArr vs, r)
      else if c =? 123 then
        '(c', r) ← next (skip_ws s1);
        if c' =? 125 then Some (VObj [], r)
        else '(ms, r) ← parse_members fuel' s1; Some (VObj ms, r)
      else if c =? 110 then r ← after "ull" s1; Some (VNull, r)
      else if c =? 116 then r ← after "rue" s1; Some (VBool true, r)
      else if c =? 102 then r ← after "alse" s1; Some (VBool false, r)
      else '(z, r) ← parse_number (skip_ws s); Some (VNum z, r)
  end
with parse_elements (fuel : nat) (s : string) : option (list JsValue * string) :=
  match fuel with
  | O => None
  | S fuel' =>
      '(v, s1) ← parse_value fuel' s;
      '(c, s2) ← next (skip_ws s1);
      if c =? 44 then '(vs, r) ← parse_elements fuel' s2; Some (v :: vs, r)
      else if c =? 93 then Some ([v], s2)
      else None
  end
with parse_members (fuel : nat) (s : string)
    : option (list (string * JsValue) * string) :=
  match fuel with
  | O => None
  | S fuel' =>
      '(q, s1) ← next (skip_ws s);
      if q =? 34 then
        '(k, s2) ← parse_string s1;
        '(colon, s3) ← next (skip_ws s2);
        if colon =? 58 then
          '(v, s4) ← parse_value fuel' s3;
          '(c, s5) ← next (skip_ws s4);
          if c =? 44 then '(ms, r) ← parse_members fuel' s5; Some ((k, v) :: ms, r)
          else if c =? 125 then Some ([(k, v)], s5)
          else None
        else None
      else None
  end.

(** [JSON.parse]: one value, and white space only after it. *)
Definition parse (text : string) : option JsValue :=
  '(v, r) ← parse_value (String.length text) text;
  if decide (skip_ws r = "") then Some v else None.

(** A value that prints as itself: no [undefined] in it. *)
Fixpoint json (v : JsValue) : bool :=
  match v with
  | VUndefined => false
  | VArr vs => forallb json vs
  | VObj ms => forallb (λ kv, json kv.2) ms
  | _ => true
  end.

(** The fuel a value needs. *)
Fixpoint size (v : JsValue) : nat :=
  match v with
  | VArr vs => S (list_sum (map (λ v, S (size v)) vs))
  | VObj ms => S (list_sum (map (λ kv, S (size kv.2)) ms))
  | _ => 1
  end.

(** The text of a value as an element of an array. *)
Definition print (v : JsValue) : string := default "null" (stringify v).

(** The text of a member of an object. *)
Definition print_member (kv : string * JsValue) : string :=
  quote kv.1 +:+ String ":" (print kv.2).

(** What may follow a value inside a text: nothing, a comma or a closing
    bracket. *)
Definition delimited (r : string) : bool :=
  match r with
  | EmptyString => true
  | String c _ => let n := N_of_ascii c in (n =? 44) || (n =? 93) || (n =? 125)
  end.

(** The first character of a printed value: no white space, no comma, no
    closing bracket. *)
Definition token (s : string) : bool :=
  match s with
  | EmptyString => false
  | String c _ =>
      let n := N_of_ascii c in
      negb (is_ws c || (n =? 44) || (n =? 93) || (n =? 125))
  end.

Fixpoint all_digits (s : string) : bool :=
  match s with
  | EmptyString => true
  | String c s' => is_digit c && all_digits s'
  end.

(** ** Strings *)

Section strings.
Implicit Types (c : ascii) (s t r : string).

(** An escaped character is read back as the character. *)
Lemma parse_string_escape c t :
  parse_string (escape c +:+ t) = '(u, r) ← parse_string t; Some (String c u, r).
Proof. by destruct c as [[] [] [] [] [] [] [] []]. Qed.

Lemma parse_string_escape_all s r :
  parse_string (escape_all s +:+ String dquote r) = Some (s, r).
Proof.
  induction s as [|c s IH]; [done|]. cbn [escape_all].
  by rewrite str_app_assoc, parse_string_escape, IH.
Qed.

Lemma quote_app s r : quote s +:+ r = String dquote (escape_all s +:+ String dquote r).
Proof. unfold quote. by rewrite str_app_cons, str_app_assoc, str_app_cons. Qed.

End strings.

(** ** Numbers *)

Section numbers.
Implicit Types (n : N) (z : Z) (s d r : string).

Lemma is_digit_digit_char n : n < 10 → is_digit (digit_char n) = true.
Proof.
  intros Hn. unfold is_digit, digit_char.
  rewrite N_ascii_embedding by lia. apply andb_true_iff. split; apply N.leb_le; lia.
Qed.

Lemma all_digits_app d1 d2 : all_digits (d1 +:+ d2) = all_digits d1 && all_digits d2.
Proof.
  induction d1 as [|c d1 IH]; [done|].
  rewrite str_app_cons. simpl. by rewrite IH, andb_assoc.
Qed.

Lemma all_digits_toString n : all_digits (toString n) = true.
Proof.
  induction n as [n Hn|n Hn IH] using decimal_ind.
  - rewrite toString_small by done. simpl. by rewrite is_digit_digit_char.
  - rewrite toString_step, all_digits_app, IH by done. simpl.
    rewrite is_digit_digit_char; [done|]. by apply N.mod_lt.
Qed.

(** A delimiter is not a digit, and a number may end before it. *)
Lemma delimited_ends r : delimited r = true → ends_number r = true ∧ span_digits r = ("", r).
Proof.
  destruct r as [|c r]; [done|]. unfold delimited, ends_number, span_digits, is_digit.
  intros H. repeat (apply orb_prop in H as [H|H]); apply N.eqb_eq in H; by rewrite H.
Qed.

Lemma span_digits_app d r :
  all_digits d = true → span_digits r = ("", r) → span_digits (d +:+ r) = (d, r).
Proof.
  intros Hd Hr. induction d as [|c d IH]; [done|].
  rewrite str_app_cons. simpl in *. apply andb_prop in Hd as [-> Hd]. by rewrite IH.
Qed.

Lemma parse_nat_toString n r :
  delimited r = true → parse_nat (toString n +:+ r) = Some (n, r).
Proof.
  intros [He Hs]%delimited_ends. unfold parse_nat.
  rewrite span_digits_app by (done || apply all_digits_toString). simpl.
  by rewrite parseDecimal_toString, He.
Qed.

(** The first character of a numeral is a digit. *)
Lemma toString_head n : ∃ c s, toString n = String c s ∧ is_digit c = true.
Proof.
  pose proof (all_digits_toString n) as Hd.
  destruct (toString n) as [|c s] eqn:Hn; [by destruct (toString_ne_empty n)|].
  exists c, s. split; [done|]. by apply andb_prop in Hd as [? _].
Qed.

Lemma is_digit_code c : is_digit c = true → (48 ≤ N_of_ascii c ≤ 57).
Proof. unfold is_digit. intros [?%N.leb_le ?%N.leb_le]%andb_prop. lia. Qed.

Lemma parse_number_print_int z r :
  delimited r = true → parse_number (print_int z +:+ r) = Some (z, r).
Proof.
  intros Hr. unfold print_int. destruct (z <? 0)%Z eqn:Hz.
  - rewrite str_app_cons. simpl. rewrite parse_nat_toString by done. simpl.
    do 2 f_equal. apply Z.ltb_lt in Hz. lia.
  - destruct (toString_head (Z.to_N z)) as (c & s & Hc & Hd%is_digit_code).
    pose proof (parse_nat_toString (Z.to_N z) r Hr) as Hp. rewrite Hc in *.
    rewrite str_app_cons in *. unfold parse_number.
    other_codes (N_of_ascii c).
    rewrite Hp. simpl. do 2 f_equal. apply Z.ltb_ge in Hz. lia.
Qed.

End numbers.

(** ** Values *)

Section values.
Implicit Types (v : JsValue) (vs : list JsValue) (ms : list (string * JsValue)).
Implicit Types (s t r : string) (fuel : nat).

(** [v] is read back from its text, before any delimiter and with any
    fuel from [size v]. *)
Definition reads (v : JsValue) : Prop :=
  ∀ fuel r, (size v ≤ fuel)%nat → delimited r = true →
    parse_value fuel (print v +:+ r) = Some (v, r).

Lemma parse_value_S fuel s :
  parse_value (S fuel) s =
  '(c, s1) ← next (skip_ws s);
  if c =? 34 then '(t, r) ← parse_string s1; Some (VStr t, r)
  else if c =? 91 then
    '(c', r) ← next (skip_ws s1);
    if c' =? 93 then Some (VArr [], r)
    else '(vs, r) ← parse_elements fuel s1; Some (VArr vs, r)
  else if c =? 123 then
    '(c', r) ← next (skip_ws s1);
    if c' =? 125 then Some (VObj [], r)
    else '(ms, r) ← parse_members fuel s1; Some (VObj ms, r)
  else if c =? 110 then r ← after "ull" s1; Some (VNull, r)
  else if c =? 116 then r ← after "rue" s1; Some (VBool true, r)
  else if c =? 102 then r ← after "alse" s1; Some (VBool false, r)
  else '(z, r) ← parse_number (skip_ws s); Some (VNum z, r).
Proof. done. Qed.

Lemma parse_elements_S fuel s :
  parse_elements (S fuel) s =
  '(v, s1) ← parse_value fuel s;
  '(c, s2) ← next (skip_ws s1);
  if c =? 44 then '(vs, r) ← parse_elements fuel s2; Some (v :: vs, r)
  else if c =? 93 then Some ([v], s2)
  else None.
Proof. done. Qed.

Lemma stringify_json v : json v = true → stringify v = Some (print v).
Proof. unfold print. by destruct v. Qed.

(** A printed value starts with a character of its own. *)
Lemma token_print v r : json v = true → token (print v +:+ r) = true.
Proof.
  destruct v as [| |[]|z|s|vs|ms]; try done. intros _.
  unfold print, stringify, print_int. destruct (z <? 0)%Z; [done|]. simpl.
  destruct (toString_head (Z.to_N z)) as (c & t & -> & Hc%is_digit_code).
  rewrite str_app_cons. unfold token, is_ws.
  by other_codes (N_of_ascii c).
Qed.

(** White space is not skipped at a token, and a token is no bracket. *)
Lemma token_next s :
  token s = true →
  ∃ c t, s = String c t ∧ skip_ws s = s
    ∧ (N_of_ascii c =? 93) = false ∧ (N_of_ascii c =? 125) = false.
Proof.
  destruct s as [|c t]; [done|]. simpl.
  intros [[[Hw H1]%orb_false_elim H2]%orb_false_elim H3]%negb_true_iff%orb_false_elim.
  exists c, t. by rewrite Hw.
Qed.

Lemma json_forallb vs (P : JsValue → Prop) :
  forallb json vs = true → Forall (λ v, json v = true → P v) vs →
  Forall (λ v, json v = true ∧ P v) vs.
Proof.
  intros Hj HP. rewrite forallb_forall in Hj. rewrite Forall_forall in *.
  intros v Hv. split; [|apply HP; [done|]]; by apply Hj, list_elem_of_In.
Qed.

Lemma next_skip c t : is_ws c = false → next (skip_ws (String c t)) = Some (N_of_ascii c, t).
Proof. simpl. by intros ->. Qed.

(** One element and what follows it. *)
Lemma parse_elements_more fuel s v t :
  parse_value fuel s = Some (v, String "," t) →
  parse_elements (S fuel) s = '(vs, r) ← parse_elements fuel t; Some (v :: vs, r).
Proof. intros Hv. by rewrite parse_elements_S, Hv. Qed.

Lemma parse_elements_last fuel s v r :
  parse_value fuel s = Some (v, String "]" r) → parse_elements (S fuel) s = Some ([v], r).
Proof. intros Hv. by rewrite parse_elements_S, Hv. Qed.

(** The elements of an array, up to its closing bracket. *)
Lemma parse_elements_join vs fuel r :
  vs ≠ [] → Forall (λ v, json v = true ∧ reads v) vs →
  (list_sum (map (λ v, S (size v)) vs) ≤ fuel)%nat →
  parse_elements fuel (join (map print vs) +:+ String "]" r) = Some (vs, r).
Proof.
  intros Hne Hall. revert fuel. induction Hall as [|v vs [Hj Hv] Hall IH]; [done|].
  intros [|fuel] Hf; simpl in Hf; [lia|]. destruct vs as [|v' vs'].
  - apply parse_elements_last, Hv; [lia|done].
  - change (join (map print (v :: v' :: vs')))
      with (print v +:+ String "," (join (map print (v' :: vs')))).
    rewrite str_app_assoc, str_app_cons.
    erewrite parse_elements_more by (apply Hv; [lia|done]).
    by rewrite IH by (done || lia).
Qed.

(** One member and what follows it. *)
Lemma print_member_app k v t :
  print_member (k, v) +:+ t
  = String dquote (escape_all k +:+ String dquote (String ":" (print v +:+ t))).
Proof. unfold print_member. simpl. by rewrite str_app_assoc, str_app_cons, quote_app. Qed.

Lemma parse_members_string fuel k s :
  parse_members (S fuel) (String dquote (escape_all k +:+ String dquote (String ":" s)))
  = '(v, s4) ← parse_value fuel s;
    '(c, s5) ← next (skip_ws s4);
    if c =? 44 then '(ms, r) ← parse_members fuel s5; Some ((k, v) :: ms, r)
    else if c =? 125 then Some ([(k, v)], s5)
    else None.
Proof.
  transitivity
    ('(k', s2) ← parse_string (escape_all k +:+ String dquote (String ":" s));
     '(colon, s3) ← next (skip_ws s2);
     if colon =? 58 then
       '(v, s4) ← parse_value fuel s3;
       '(c, s5) ← next (skip_ws s4);
       if c =? 44 then '(ms, r) ← parse_members fuel s5; Some ((k', v) :: ms, r)
       else if c =? 125 then Some ([(k', v)], s5)
       else None
     else None); [done|].
  by rewrite parse_string_escape_all.
Qed.

Lemma parse_members_more fuel k s v t :
  parse_value fuel s = Some (v, String "," t) →
  parse_members (S fuel) (String dquote (escape_all k +:+ String dquote (String ":" s)))
  = '(ms, r) ← parse_members fuel t; Some ((k, v) :: ms, r).
Proof. intros Hv. by rewrite parse_members_string, Hv. Qed.

Lemma parse_members_last fuel k s v r :
  parse_value fuel s = Some (v, String "}" r) →
  parse_members (S fuel) (String dquote (escape_all k +:+ String dquote (String ":" s)))
  = Some ([(k, v)], r).
Proof. intros Hv. by rewrite parse_members_string, Hv. Qed.

(** The members of an object, up to its closing bracket. *)
Lemma parse_members_join ms fuel r :
  ms ≠ [] → Forall (λ kv, json kv.2 = true ∧ reads kv.2) ms →
  (list_sum (map (λ kv, S (size kv.2)) ms) ≤ fuel)%nat →
  parse_members fuel (join (map print_member ms) +:+ String "}" r) = Some (ms, r).
Proof.
  intros Hne Hall. revert fuel. induction Hall as [|[k v] ms [Hj Hv] Hall IH]; [done|].
  intros [|fuel] Hf; simpl in Hf, Hv; [lia|]. destruct ms as [|kv' ms']; simpl in Hf.
  - cbn [map join]. rewrite print_member_app. apply parse_members_last, Hv; [lia|done].
  - change (join (map print_member ((k, v) :: kv' :: ms')))
      with (print_member (k, v) +:+ String "," (join (map print_member (kv' :: ms')))).
    rewrite str_app_assoc, print_member_app, str_app_cons.
    erewrite parse_members_more by (apply Hv; [lia|done]).
    by rewrite IH by (done || simpl; lia).
Qed.

(** ** A value is read back from its text *)

Lemma print_int_head z r :
  ∃ c t, print_int z +:+ r = String c t ∧ (N_of_ascii c = 45 ∨ 48 ≤ N_of_ascii c ≤ 57).
Proof.
  unfold print_int. destruct (z <? 0)%Z.
  - eexists _, _. split; [by rewrite str_app_cons|by left].
  - destruct (toString_head (Z.to_N z)) as (c & t & -> & Hc%is_digit_code).
    eexists _, _. split; [by rewrite str_app_cons|by right].
Qed.

Lemma parse_value_number fuel z r :
  delimited r = true → parse_value (S fuel) (print_int z +:+ r) = Some (VNum z, r).
Proof.
  intros Hr. pose proof (parse_number_print_int z r Hr) as Hz.
  destruct (print_int_head z r) as (c & t & Heq & Hc). rewrite Heq in *.
  rewrite parse_value_S. assert (is_ws c = false) as Hws.
  { unfold is_ws. by other_codes (N_of_ascii c). }
  rewrite next_skip by done. cbn [mbind option_bind skip_ws]. rewrite Hws.
  other_codes (N_of_ascii c).
  by rewrite Hz.
Qed.

Lemma parse_value_string fuel s r : parse_value (S fuel) (quote s +:+ r) = Some (VStr s, r).
Proof.
  rewrite quote_app.
  transitivity ('(t, r') ← parse_string (escape_all s +:+ String dquote r); Some (VStr t, r'));
    [done|by rewrite parse_string_escape_all].
Qed.

(** What follows an opening bracket that is not closed at once. *)
Lemma parse_value_array fuel s :
  token s = true →
  parse_value (S fuel) (String "[" s) = '(vs, r) ← parse_elements fuel s; Some (VArr vs, r).
Proof.
  intros (c & t & -> & Hskip & Hc & _)%token_next.
  transitivity ('(c', r) ← next (skip_ws (String c t));
                if c' =? 93 then Some (VArr [], r)
                else '(vs, r) ← parse_elements fuel (String c t); Some (VArr vs, r)); [done|].
  rewrite Hskip. simpl. by rewrite Hc.
Qed.

Lemma parse_value_object fuel s :
  token s = true →
  parse_value (S fuel) (String "{" s) = '(ms, r) ← parse_members fuel s; Some (VObj ms, r).
Proof.
  intros (c & t & -> & Hskip & _ & Hc)%token_next.
  transitivity ('(c', r) ← next (skip_ws (String c t));
                if c' =? 125 then Some (VObj [], r)
                else '(ms, r) ← parse_members fuel (String c t); Some (VObj ms, r)); [done|].
  rewrite Hskip. simpl. by rewrite Hc.
Qed.

(** A list of texts joined starts with the first of them. *)
Lemma join_cons_app (t : string) (ts : list string) (close : string) :
  ∃ rest, join (t :: ts) +:+ close = t +:+ rest.
Proof.
  destruct ts as [|t' ts]; [by exists close|].
  eexists. change (join (t :: t' :: ts)) with (t +:+ String "," (join (t' :: ts))).
  by rewrite str_app_assoc.
Qed.

Lemma omap_print_member ms :
  forallb (λ kv, json kv.2) ms = true →
  omap (λ kv, (λ t, quote kv.1 +:+ String ":" t) <$> stringify kv.2) ms
  = map print_member ms.
Proof.
  induction ms as [|[k v] ms IH]; [done|]. simpl.
  intros [Hv Hms]%andb_prop. rewrite (stringify_json v) by done. simpl.
  f_equal. by apply IH.
Qed.

Lemma print_array vs : print (VArr vs) = String "[" (join (map print vs) +:+ "]").
Proof. done. Qed.

Lemma print_object ms :
  forallb (λ kv, json kv.2) ms = true →
  print (VObj ms) = String "{" (join (map print_member ms) +:+ "}").
Proof. intros Hj. by rewrite <- omap_print_member. Qed.

Lemma reads_array vs :
  forallb json vs = true → Forall (λ v, json v = true → reads v) vs → reads (VArr vs).
Proof.
  intros Hj IH%json_forallb; [|done]. intros [|fuel] r Hf Hr; [out_of_fuel|simpl in Hf].
  assert (print (VArr vs) +:+ r = String "[" (join (map print vs) +:+ String "]" r)) as ->.
  { by rewrite print_array, str_app_cons, str_app_assoc. }
  destruct vs as [|v vs]; [done|].
  destruct (join_cons_app (print v) (map print vs) (String "]" r)) as [rest Hrest].
  rewrite parse_value_array.
  - rewrite parse_elements_join; [done..|lia].
  - change (map print (v :: vs)) with (print v :: map print vs). rewrite Hrest.
    apply token_print. by apply Forall_inv in IH as [? _].
Qed.

Lemma reads_object ms :
  forallb (λ kv, json kv.2) ms = true →
  Forall (λ kv, json kv.2 = true ∧ reads kv.2) ms → reads (VObj ms).
Proof.
  intros Hj IH [|fuel] r Hf Hr; [out_of_fuel|simpl in Hf].
  assert (print (VObj ms) +:+ r
          = String "{" (join (map print_member ms) +:+ String "}" r)) as ->.
  { by rewrite print_object, str_app_cons, str_app_assoc. }
  destruct ms as [|[k v] ms]; [done|].
  destruct (join_cons_app (print_member (k, v)) (map print_member ms) (String "}" r))
    as [rest Hrest].
  rewrite parse_value_object.
  - rewrite parse_members_join; [done..|lia].
  - change (map print_member ((k, v) :: ms)) with (print_member (k, v) :: map print_member ms).
    rewrite Hrest. unfold print_member, quote. by rewrite !str_app_cons.
Qed.

Lemma reads_json v : json v = true → reads v.
Proof.
  induction v as [| |b|z|s|vs IH|ms IH] using JsValue_ind_nested; intros Hj.
  - done.
  - by intros [|fuel] r Hf Hr; [out_of_fuel|].
  - by intros [|fuel] r Hf Hr; [out_of_fuel|destruct b].
  - intros [|fuel] r Hf Hr; [out_of_fuel|]. by apply parse_value_number.
  - intros [|fuel] r Hf Hr; [out_of_fuel|]. apply parse_value_string.
  - by apply reads_array.
  - apply reads_object; [done|]. simpl in Hj. rewrite forallb_forall in Hj.
    rewrite Forall_forall in *. intros kv Hkv.
    assert (json kv.2 = true) by by apply Hj, list_elem_of_In. auto.
Qed.

End values.

(** ** The length of the text is fuel enough *)

Section fuel.
Implicit Types (v : JsValue) (t : string) (ts : list string).

Lemma join_length ts :
  (list_sum (map (λ t, S (String.length t)) ts) ≤ S (String.length (join ts)))%nat.
Proof.
  induction ts as [|t [|t' ts] IH]; simpl in *; [lia..|].
  rewrite str_app_length. simpl. lia.
Qed.

Lemma list_sum_le {A} (f g : A → nat) (l : list A) :
  Forall (λ x, f x ≤ g x)%nat l → (list_sum (map f l) ≤ list_sum (map g l))%nat.
Proof. induction 1; simpl; lia. Qed.

Lemma print_member_length kv :
  (String.length (print kv.2) ≤ String.length (print_member kv))%nat.
Proof. unfold print_member. rewrite str_app_length. simpl. lia. Qed.

Lemma size_length v : json v = true → (size v ≤ String.length (print v))%nat.
Proof.
  induction v as [| |b|z|s|vs IH|ms IH] using JsValue_ind_nested; intros Hj; try done.
  - vm_compute. lia.
  - destruct b; vm_compute; lia.
  - simpl. destruct (print_int_head z "") as (c & t & Heq & _).
    rewrite str_app_nil_r in Heq. unfold print. simpl. rewrite Heq. simpl. lia.
  - simpl. lia.
  - rewrite print_array. simpl. rewrite str_app_length. simpl.
    pose proof (join_length (map print vs)) as Hlen. rewrite map_map in Hlen.
    apply json_forallb in IH; [|done].
    assert (Forall (λ v, S (size v) ≤ S (String.length (print v)))%nat vs) as Hle.
    { eapply Forall_impl; [done|]. intros v [? ?]. simpl. lia. }
    apply list_sum_le in Hle. lia.
  - rewrite print_object by done. simpl. rewrite str_app_length. simpl.
    pose proof (join_length (map print_member ms)) as Hlen. rewrite map_map in Hlen.
    assert (Forall (λ kv, S (size kv.2) ≤ S (String.length (print_member kv)))%nat ms) as Hle.
    { simpl in Hj. rewrite forallb_forall in Hj. rewrite Forall_forall in *.
      intros kv Hkv. pose proof (print_member_length kv).
      assert (size kv.2 ≤ String.length (print kv.2))%nat; [|lia].
      by apply IH, Hj, list_elem_of_In. }
    apply list_sum_le in Hle. lia.
Qed.

End fuel.

Lemma parse_print v : json v = true → parse (print v) = Some v.
Proof.
  intros Hj. unfold parse.
  pose proof (reads_json v Hj (String.length (print v)) "" (size_length v Hj) eq_refl) as Hr.
  rewrite str_app_nil_r in Hr. by rewrite Hr.
Qed.

(** Two values with the same text are the same value. *)
Lemma print_inj v1 v2 : json v1 = true → json v2 = true → print v1 = print v2 → v1 = v2.
Proof. intros H1%parse_print H2%parse_print Heq. rewrite Heq in H1. congruence. Qed.

(** C30. Printing and parsing are inverse: the text [JSON.stringify] gives
    for a value without [undefined] in it is read back by [JSON.parse] as
    that value, strings with quotes, backslashes and control characters
    included, with the length of the text as fuel. *)
Theorem parse_stringify v text :
  json v = true → stringify v = Some text → parse text = Some v.
Proof.
  intros Hj Hs. rewrite stringify_json in Hs by done. simplify_eq. by apply parse_print.
Qed.

Lemma parse_stringify_witness :
  parse (String "[" (String "1" (String "," (quote "a" +:+ "]"))))
  = Some (VArr [VNum 1; VStr "a"]).
Proof. exact (parse_stringify (VArr [VNum 1; VStr "a"]) _ eq_refl eq_refl). Defined.
