(* ===== verification/JsonFuel.v ===== *)
(** * JsonFuel: the parser stops by itself

    [Json.parse_value] is written with fuel, and [Json.parse] hands it the
    length of the text.  This file proves that the fuel never decides:
    each unit of fuel the parser spends is paid by a character it reads,
    so a parse that succeeds with some fuel succeeds, with the same value
    and the same rest, with any fuel from the number of characters it
    consumed on.  Hence [parse] gives a value exactly when some fuel does
    ([parse_complete]); a text it refuses is refused for what it holds. *)

From S2P Require Import Prelude Decimal JsValue Json.

Local Open Scope nat_scope.

(** [p], run with [fuel], consumes at least one character, and gives the
    same result with any fuel from the number of characters consumed. *)
Definition tight {A} (p : nat → string → option (A * string)) (fuel : nat) : Prop :=
  ∀ s x r, p fuel s = Some (x, r) →
    String.length r < String.length s
    ∧ ∀ fuel', String.length s - String.length r ≤ fuel' → p fuel' s = Some (x, r).

(** ** The tokens consume what they read *)

Section tokens.
Implicit Types (s r t : string) (c : N).

Lemma skip_ws_length s : String.length (skip_ws s) ≤ String.length s.
Proof. induction s as [|a s IH]; simpl; [done|]. destruct (is_ws a); simpl; lia. Qed.

Lemma next_length s c r : next s = Some (c, r) → String.length s = S (String.length r).
Proof. destruct s; [done|]. by intros [= _ ->]. Qed.

Lemma next_skip_length s c r :
  next (skip_ws s) = Some (c, r) → String.length r < String.length s.
Proof. intros Hn%next_length. pose proof (skip_ws_length s). lia. Qed.

Lemma after_length p s r : after p s = Some r → String.length r ≤ String.length s.
Proof.
  revert s. induction p as [|a p IH]; intros [|b s]; simpl; try done.
  - by intros [= <-].
  - by intros [= <-].
  - case_decide; [|done]. intros ?%IH. lia.
Qed.

End tokens.

(** ** Strings and numbers consume what they read *)

Section literals.
Implicit Types (s r t d : string).

Lemma parse_string_length s :
  ∀ t r, parse_string s = Some (t, r) → String.length r < String.length s.
Proof.
  induction s as [s IH] using (induction_ltof1 _ String.length). unfold ltof in IH.
  intros t r H. destruct s as [|c s1]; [done|]. cbn [parse_string] in H.
  destruct (N_of_ascii c =? 34)%N; [simplify_eq; simpl; lia|].
  destruct (N_of_ascii c =? 92)%N.
  - destruct s1 as [|e s2]; [done|]. destruct (short_escape e).
    + destruct (parse_string s2) as [[t' r']|] eqn:E; [|done].
      simplify_eq/=. apply IH in E; simpl in *; lia.
    + destruct s2 as [|h1 [|h2 [|h3 [|h4 s3]]]]; try done.
      destruct (_ =? 117)%N; [|done]. destruct (hex4 _ _ _ _); [|done].
      destruct (parse_string s3) as [[t' r']|] eqn:E; [|done].
      simplify_eq/=. apply IH in E; simpl in *; lia.
  - destruct (_ <? 32)%N; [done|].
    destruct (parse_string s1) as [[t' r']|] eqn:E; [|done].
    simplify_eq/=. apply IH in E; simpl in *; lia.
Qed.

Lemma span_digits_length s :
  String.length (span_digits s).1 + String.length (span_digits s).2 = String.length s.
Proof. induction s as [|c s IH]; [done|]. simpl. destruct (is_digit c); simpl; lia. Qed.

Lemma parse_nat_length s n r : parse_nat s = Some (n, r) → String.length r < String.length s.
Proof.
  unfold parse_nat. pose proof (span_digits_length s) as Hlen.
  destruct (span_digits s) as [d r']. simpl in *.
  destruct d as [|c d]; [done|]. destruct (parseDecimal _); [|done]. simpl.
  destruct (ends_number r'); [|done]. intros [= _ <-]. simpl in Hlen. lia.
Qed.

Lemma parse_number_length s z r :
  parse_number s = Some (z, r) → String.length r < String.length s.
Proof.
  destruct s as [|c s]; [done|]. simpl. destruct (N_of_ascii c =? 45)%N.
  - destruct (parse_nat s) as [[n r']|] eqn:E; [|done]. intros [= _ <-].
    apply parse_nat_length in E. simpl. lia.
  - destruct (parse_nat (String c s)) as [[n r']|] eqn:E; [|done]. intros [= _ <-].
    by apply parse_nat_length in E.
Qed.

End literals.

(** ** Values *)

Lemma parse_members_S fuel s :
  parse_members (S fuel) s =
  '(q, s1) ← next (skip_ws s);
  if (q =? 34)%N then
    '(k, s2) ← parse_string s1;
    '(colon, s3) ← next (skip_ws s2);
    if (colon =? 58)%N then
      '(v, s4) ← parse_value fuel s3;
      '(c, s5) ← next (skip_ws s4);
      if (c =? 44)%N then '(ms, r) ← parse_members fuel s5; Some ((k, v) :: ms, r)
      else if (c =? 125)%N then Some ([(k, v)], s5)
      else None
    else None
  else None.
Proof. done. Qed.

(** What a successful step [E] says about lengths, and, for a recursive
    call, about other fuels. *)
Ltac learn_length E :=
  try pose proof (next_skip_length _ _ _ E);
  try pose proof (parse_string_length _ _ _ E);
  try pose proof (after_length _ _ _ E);
  try pose proof (parse_number_length _ _ _ E);
  try match type of E with context [skip_ws ?s] => pose proof (skip_ws_length s) end;
  try match goal with
      | IH : tight ?p ?f |- _ =>
          match type of E with p f _ = Some _ => destruct (IH _ _ _ E) as [? ?] end
      end.

(** The steps of a run that gave a result: every bind succeeded, every
    test went one way. *)
Ltac bind_inv H :=
  repeat match type of H with
  | mbind _ ?m = Some _ =>
      let E := fresh "E" in
      first [destruct m as [[? ?]|] eqn:E | destruct m as [?|] eqn:E];
      [cbn [mbind option_bind] in H; learn_length E|discriminate H]
  | (if ?b then _ else _) = Some _ => destruct b eqn:?
  | None = Some _ => discriminate H
  end.

(** The same steps, taken again with another fuel. *)
Ltac replay :=
  repeat (cbn [mbind option_bind];
          match goal with
          | H : ?x = _ |- context [?x] => rewrite H
          | H : ∀ fuel', _ → ?p fuel' ?s = Some _ |- context [?p ?n ?s] =>
              rewrite (H n) by (simpl in *; lia)
          end).

Section values.
Implicit Types (s r : string) (fuel : nat).

Lemma tight_0 {A} (p : nat → string → option (A * string)) :
  (∀ s, p 0 s = None) → tight p 0.
Proof. intros H0 s x r Hp. by rewrite H0 in Hp. Qed.

Lemma tight_value fuel :
  tight parse_elements fuel → tight parse_members fuel → tight parse_value (S fuel).
Proof.
  intros IHe IHm s v r H. rewrite parse_value_S in H. bind_inv H; simplify_eq.
  all: (split; [simpl in *; lia|]).
  all: intros [|fuel'] Hf; [simpl in *; lia|]; rewrite parse_value_S; by replay.
Qed.

Lemma tight_elements fuel :
  tight parse_value fuel → tight parse_elements fuel → tight parse_elements (S fuel).
Proof.
  intros IHv IHe s v r H. rewrite parse_elements_S in H. bind_inv H; simplify_eq.
  all: (split; [simpl in *; lia|]).
  all: intros [|fuel'] Hf; [simpl in *; lia|]; rewrite parse_elements_S; by replay.
Qed.

Lemma tight_members fuel :
  tight parse_value fuel → tight parse_members fuel → tight parse_members (S fuel).
Proof.
  intros IHv IHm s v r H. rewrite parse_members_S in H. bind_inv H; simplify_eq.
  all: (split; [simpl in *; lia|]).
  all: intros [|fuel'] Hf; [simpl in *; lia|]; rewrite parse_members_S; by replay.
Qed.

Lemma tight_all fuel :
  tight parse_value fuel ∧ tight parse_elements fuel ∧ tight parse_members fuel.
Proof.
  induction fuel as [|fuel (IHv & IHe & IHm)]; [by split_and!; apply tight_0|].
  split_and!; [by apply tight_value|by apply tight_elements|by apply tight_members].
Qed.

(** A parse that succeeds consumes as many characters as its value needs
    fuel: it succeeds with the length of the text. *)
Lemma parse_value_length fuel s v r :
  parse_value fuel s = Some (v, r) → parse_value (String.length s) s = Some (v, r).
Proof. intros H. destruct (tight_all fuel) as [Hv _]. apply (Hv s v r H). lia. Qed.

(** The fuel never decides: when [parse_value] succeeds with some
    fuel, it has consumed at least one character, and it gives the same
    value and the same rest with every fuel from the number of characters
    consumed on, more fuel or less than it had. *)
Theorem parse_value_fuel fuel s v r :
  parse_value fuel s = Some (v, r) →
  String.length r < String.length s
  ∧ ∀ fuel', String.length s - String.length r ≤ fuel' → parse_value fuel' s = Some (v, r).
Proof. intros H. destruct (tight_all fuel) as [Hv _]. exact (Hv s v r H). Qed.

(** C32. [parse] terminates with the answer of the unbounded parser: it
    gives a value exactly when [parse_value] gives that value with some
    fuel and leaves white space only.  So a text that [parse] refuses is
    refused for what it holds, never for want of fuel. *)
Theorem parse_complete text v :
  parse text = Some v
  ↔ ∃ fuel r, parse_value fuel text = Some (v, r) ∧ skip_ws r = "".
Proof.
  unfold parse. split.
  - destruct (parse_value _ text) as [[v' r]|] eqn:E; [|done]. simpl.
    case_decide; [|done]. intros [= ->]. by exists (String.length text), r.
  - intros (fuel & r & ->%parse_value_length & Hr). simpl. by rewrite decide_True.
Qed.

End values.

Lemma parse_value_fuel_witness :
  String.length "," < String.length "[1 ],"
  ∧ ∀ fuel', String.length "[1 ]," - String.length "," ≤ fuel' →
      parse_value fuel' "[1 ]," = Some (VArr [VNum 1], ",").
Proof. exact (parse_value_fuel 9 "[1 ]," (VArr [VNum 1]) "," eq_refl). Defined.
