(* ===== verification/Config.v ===== *)
(** * Config: the model roster and the topology

    [App.tsx] keeps the topology and the roster of models in two state
    cells (lines 19-24) and derives from the roster the two things the rest
    of the program uses: the ids of the enabled models, in roster order
    ([models.filter((m) => m.enabled).map((m) => m.id)], line 39), sent with
    every request, and their number (line 104), shown by the chat panel.

    The types [Topology] and [LLMModel] are declared in [ConfigPanel], which
    is not among the sources: [Topology] is a union of string literals, a
    string at run time, and [LLMModel] is read off the initial roster.
    [setEnabled] models the panel's switch from the specification:
    it flips one model's flag and hands the new roster to [setModels]. *)

From S2P Require Import Prelude.

Definition Topology : Type := string.

Record LLMModel : Type := mkModel {
  m_id : string;
  m_name : string;
  m_enabled : bool;
}.

#[export] Instance LLMModel_eq_dec : EqDecision LLMModel.
Proof. solve_decision. Defined.

Definition initial_topology : Topology := "standard-chain".

Definition initial_models : list LLMModel :=
  [ mkModel "grok" "Grok" true;
    mkModel "claude" "Claude" true;
    mkModel "gpt-4" "GPT-4" true ].

(** [models.filter((m) => m.enabled).map((m) => m.id)] *)
Definition enabledModels (models : list LLMModel) : list string :=
  m_id <$> filter (λ m, m_enabled m) models.

(** [models.filter((m) => m.enabled).length] *)
Definition activeModels (models : list LLMModel) : nat :=
  length (filter (λ m, m_enabled m) models).

(** The panel's switch: the roster with the flag of the models named [id]
    set to [b], everything else and the order kept. *)
Definition setEnabled (id : string) (b : bool) (models : list LLMModel) : list LLMModel :=
  (λ m, if decide (m_id m = id) then mkModel (m_id m) (m_name m) b else m) <$> models.

Section roster.
Implicit Types (models : list LLMModel) (m : LLMModel) (x id : string).

Lemma enabledModels_cons m models :
  enabledModels (m :: models) =
  if m_enabled m then m_id m :: enabledModels models else enabledModels models.
Proof.
  unfold enabledModels. rewrite filter_cons.
  destruct (m_enabled m); by rewrite ?decide_True, ?decide_False by naive_solver.
Qed.

Lemma enabledModels_app models1 models2 :
  enabledModels (models1 ++ models2) = enabledModels models1 ++ enabledModels models2.
Proof. unfold enabledModels. by rewrite filter_app, fmap_app. Qed.

Lemma elem_of_enabledModels x models :
  x ∈ enabledModels models ↔ ∃ m, m ∈ models ∧ m_id m = x ∧ m_enabled m = true.
Proof.
  unfold enabledModels. rewrite list_elem_of_fmap.
  setoid_rewrite list_elem_of_filter. setoid_rewrite Is_true_true. naive_solver.
Qed.

Lemma enabledModels_sublist models : enabledModels models `sublist_of` (m_id <$> models).
Proof. unfold enabledModels. apply fmap_sublist, sublist_filter. Qed.

Lemma enabledModels_NoDup models : NoDup (m_id <$> models) → NoDup (enabledModels models).
Proof. intros Hnd. eapply sublist_NoDup; [done|apply enabledModels_sublist]. Qed.

(** The number the chat panel shows is the number of ids sent. *)
Lemma activeModels_length models : activeModels models = length (enabledModels models).
Proof. unfold activeModels, enabledModels. by rewrite length_fmap. Qed.

Lemma activeModels_le models : activeModels models ≤ length models.
Proof. apply length_filter. Qed.

Lemma enabledModels_all models :
  Forall (λ m, m_enabled m = true) models → enabledModels models = m_id <$> models.
Proof.
  induction 1 as [|m models Hm _ IH]; [done|].
  by rewrite enabledModels_cons, Hm, IH.
Qed.

(** ** The switch *)

Lemma setEnabled_ids id b models : m_id <$> setEnabled id b models = m_id <$> models.
Proof.
  unfold setEnabled. rewrite <- list_fmap_compose. apply list_fmap_ext.
  intros i m _. simpl. by case_decide.
Qed.

Lemma setEnabled_length id b models : length (setEnabled id b models) = length models.
Proof. apply length_fmap. Qed.

Lemma setEnabled_cons id b m models :
  setEnabled id b (m :: models) =
  (if decide (m_id m = id) then mkModel (m_id m) (m_name m) b else m)
    :: setEnabled id b models.
Proof. done. Qed.

Lemma setEnabled_false id models :
  enabledModels (setEnabled id false models) = filter (λ x, x ≠ id) (enabledModels models).
Proof.
  induction models as [|m models IH]; [done|].
  rewrite setEnabled_cons, !enabledModels_cons.
  case_decide as Hid; simpl.
  - rewrite IH. destruct (m_enabled m); [|done].
    by rewrite filter_cons, decide_False by naive_solver.
  - destruct (m_enabled m); [|done].
    by rewrite filter_cons, decide_True, IH by done.
Qed.

Lemma setEnabled_false_not_elem id models : id ∉ enabledModels (setEnabled id false models).
Proof.
  rewrite setEnabled_false, list_elem_of_filter. naive_solver.
Qed.

(** Switching a model on puts its id among those sent, when the roster has it. *)
Lemma setEnabled_true_elem id models :
  id ∈ (m_id <$> models) → id ∈ enabledModels (setEnabled id true models).
Proof.
  intros (m & -> & Hm)%list_elem_of_fmap. apply elem_of_enabledModels.
  exists (mkModel (m_id m) (m_name m) true). split_and!; [|done..].
  unfold setEnabled. apply list_elem_of_fmap. exists m. by rewrite decide_True.
Qed.

(** ** What the roster promises the request *)

(** C10. The ids sent with a request are the ids of the enabled models and
    nothing else, in roster order: a subsequence of the roster's ids, and
    the number the chat panel shows is their count. *)
Theorem enabledModels_spec models :
  enabledModels models `sublist_of` (m_id <$> models)
  ∧ (∀ x, x ∈ enabledModels models ↔ ∃ m, m ∈ models ∧ m_id m = x ∧ m_enabled m = true)
  ∧ activeModels models = length (enabledModels models).
Proof.
  split_and!; [apply enabledModels_sublist|intros x; apply elem_of_enabledModels|
    apply activeModels_length].
Qed.

(** Switching a model off takes its id out of what is sent, keeps
    the other ids sent and their order, and leaves the roster's ids and
    length untouched: the model is disabled, not removed. *)
Theorem setEnabled_false_spec id models :
  id ∉ enabledModels (setEnabled id false models)
  ∧ enabledModels (setEnabled id false models) = filter (λ x, x ≠ id) (enabledModels models)
  ∧ m_id <$> setEnabled id false models = m_id <$> models.
Proof.
  split_and!; [apply setEnabled_false_not_elem|apply setEnabled_false|
    apply setEnabled_ids].
Qed.

End roster.

Example enabledModels_initial : enabledModels initial_models = ["grok"; "claude"; "gpt-4"].
Proof. done. Qed.

#[export] Hint Rewrite enabledModels_app setEnabled_ids setEnabled_length : jsrw.
#[export] Hint Resolve enabledModels_sublist setEnabled_false_not_elem : js.
