(* ===== verification/Wire.v ===== *)
(** * Wire: what goes to and comes from [/maire/run]

    The request of [handleSendMessage] ([App.tsx], lines 42-52): a POST to
    [/maire/run] whose body is the JSON text of an object with the members
    [original_prompt], [topology] and [models], in that order.  The body is
    kept as the value handed to [JSON.stringify]; the text itself is the
    platform's business.

    The response, as far as the program looks at it: its [status], from
    which the Fetch standard derives [ok] (a status from 200 to 299), and
    the error the program throws for a response that is not [ok]
    (line 55). *)

From S2P Require Import Prelude Decimal JsValue Config.

Record Request : Type := mkRequest {
  req_url : string;
  req_method : string;
  req_headers : list (string * string);
  req_body : JsValue;
}.

(** The object literal of lines 47-51. *)
Definition request_payload (content : string) (topology : Topology)
    (enabledModels : list string) : JsValue :=
  VObj [ ("original_prompt", VStr content);
         ("topology", VStr topology);
         ("models", VArr (VStr <$> enabledModels)) ].

(** The arguments of [fetch], lines 42-52. *)
Definition run_request (content : string) (topology : Topology)
    (enabledModels : list string) : Request :=
  mkRequest "/maire/run" "POST" [("Content-Type", "application/json")]
    (request_payload content topology enabledModels).

#[export] Instance Request_eq_dec : EqDecision Request.
Proof. solve_decision. Defined.

Record Response : Type := mkResponse { status : N }.

#[export] Instance Response_eq_dec : EqDecision Response.
Proof. solve_decision. Defined.

(** [response.ok] *)
Definition ok (response : Response) : bool :=
  (200 <=? status response)%N && (status response <=? 299)%N.

(** [new Error(`HTTP error! status: ${response.status}`)], line 55. *)
Definition http_error (response : Response) : JsError :=
  new_Error ("HTTP error! status: " +:+ toString (status response)).

(** What an awaited promise settles with. *)
Definition Settled (A : Type) : Type := JsError + A.

Section wire.
Implicit Types (content : string) (topology : Topology) (ids : list string).

Lemma ok_range response : ok response = true ↔ (200 ≤ status response ≤ 299)%N.
Proof. unfold ok. rewrite andb_true_iff, !N.leb_le. done. Qed.

#[export] Instance VStr_inj : Inj (=) (=) VStr.
Proof. by intros s1 s2 [=]. Qed.

(** Two requests with the same body were built from the same prompt,
    topology and ids. *)
Lemma request_payload_inj content1 topology1 ids1 content2 topology2 ids2 :
  request_payload content1 topology1 ids1 = request_payload content2 topology2 ids2 →
  content1 = content2 ∧ topology1 = topology2 ∧ ids1 = ids2.
Proof. intros [= -> -> Hids]. by apply (inj (fmap VStr)) in Hids. Qed.

Lemma http_error_toString response :
  error_toString (http_error response) =
  "Error: HTTP error! status: " +:+ toString (status response).
Proof. done. Qed.

(** The status of a refused response can be read off the error text. *)
Lemma http_error_inj response1 response2 :
  error_toString (http_error response1) = error_toString (http_error response2) →
  status response1 = status response2.
Proof.
  rewrite !http_error_toString. intros Heq%(inj (String.app _)).
  by apply (inj toString).
Qed.

End wire.

(** The request built for the prompt "hello" under the topology
    "standard-chain" with grok and claude enabled and gpt-4 disabled is a
    POST to /maire/run whose body has the three members of the wire
    contract, the disabled model left out. *)
Theorem run_request_scenario :
  run_request "hello" "standard-chain"
    (enabledModels [mkModel "grok" "Grok" true; mkModel "claude" "Claude" true;
                    mkModel "gpt-4" "GPT-4" false])
  = mkRequest "/maire/run" "POST" [("Content-Type", "application/json")]
      (VObj [ ("original_prompt", VStr "hello");
              ("topology", VStr "standard-chain");
              ("models", VArr [VStr "grok"; VStr "claude"]) ]).
Proof. done. Qed.
