(* ===== verification/Message.v ===== *)
(** * Message: the turns of the conversation

    [Message] is the interface of [App.tsx], lines 7-16, with the values its
    fields hold at run time: [content] is declared a string, but an
    assistant turn stores [data.final_response || 'Response from MAIRE'],
    whatever the backend sent, and [headerStack] stores [data.header_stack]
    as it came.  Both are therefore [JsValue]s here.  A field that is left
    out of a message reads as [VUndefined], like one set to [undefined].
    [timestamp] is the clock value of [new Date()], in milliseconds.

    The three object literals of [handleSendMessage] are [userMessage]
    (lines 29-34), [assistantMessage] (lines 60-66) and [errorMessage]
    (lines 73-78); each takes the clock values read while it is built. *)

From S2P Require Import Prelude Decimal JsValue.

Inductive Role : Type := User | Assistant.

#[export] Instance Role_eq_dec : EqDecision Role.
Proof. solve_decision. Defined.

Record Message : Type := mkMessage {
  msg_id : string;
  msg_role : Role;
  msg_content : JsValue;
  msg_timestamp : N;
  msg_headerStack : JsValue;
}.

#[export] Instance Message_eq_dec : EqDecision Message.
Proof. solve_decision. Defined.

(** The line feed of the template literal's [\n]. *)
Definition nl : string := String (ascii_of_nat 10) "".

Definition fallback_answer : string := "Response from MAIRE".

Definition unable_to_connect : string :=
  "Error: Unable to connect to MAIRE backend. Make sure the Go server is running on port 8080."
  +:+ nl +:+ nl +:+ "Error details: ".

(** Lines 29-34; [now] is the value of [Date.now()], [date] of [new Date()]. *)
Definition userMessage (now date : N) (content : string) : Message :=
  mkMessage (toString now) User (VStr content) date VUndefined.

(** Lines 60-66. *)
Definition assistantMessage (now date : N) (final_response header_stack : JsValue) : Message :=
  mkMessage (toString (now + 1)) Assistant
    (js_or final_response (VStr fallback_answer)) date header_stack.

(** Lines 73-78. *)
Definition errorMessage (now date : N) (error : JsError) : Message :=
  mkMessage (toString (now + 1)) Assistant
    (VStr (unable_to_connect +:+ error_toString error)) date VUndefined.

Definition is_user (m : Message) : Prop := msg_role m = User.
Definition is_assistant (m : Message) : Prop := msg_role m = Assistant.

#[export] Instance is_user_dec m : Decision (is_user m).
Proof. unfold is_user. apply _. Defined.
#[export] Instance is_assistant_dec m : Decision (is_assistant m).
Proof. unfold is_assistant. apply _. Defined.

(** The text of a message whose content is a string. *)
Definition content_text (m : Message) : option string :=
  match msg_content m with VStr s => Some s | _ => None end.

Section messages.
Implicit Types (now date : N) (m : Message).

Lemma role_cases m : is_user m ∨ is_assistant m.
Proof. unfold is_user, is_assistant. destruct (msg_role m); auto. Qed.

Lemma role_exclusive m : is_user m → is_assistant m → False.
Proof. unfold is_user, is_assistant. congruence. Qed.

Lemma userMessage_is_user now date content : is_user (userMessage now date content).
Proof. reflexivity. Qed.

Lemma assistantMessage_is_assistant now date fr hs :
  is_assistant (assistantMessage now date fr hs).
Proof. reflexivity. Qed.

Lemma errorMessage_is_assistant now date error : is_assistant (errorMessage now date error).
Proof. reflexivity. Qed.

(** The diagnostic turn says the backend is unreachable and quotes the
    error as the template literal prints it. *)
Lemma errorMessage_content now date error :
  content_text (errorMessage now date error) =
  Some (unable_to_connect +:+ error_toString error).
Proof. done. Qed.

Lemma errorMessage_mentions now date error s :
  content_text (errorMessage now date error) = Some s →
  str_infix "Unable to connect" s ∧ str_infix (err_message error) s.
Proof.
  rewrite errorMessage_content. intros [= <-]. split.
  - apply str_infix_app_r. by exists "Error: ",
      (" to MAIRE backend. Make sure the Go server is running on port 8080."
       +:+ nl +:+ nl +:+ "Error details: ").
  - apply str_infix_app_l, error_toString_message.
Qed.

(** Ids are the decimal text of a clock value: two user turns share an id
    exactly when they were made in the same millisecond. *)
Lemma userMessage_id_inj now1 date1 c1 now2 date2 c2 :
  msg_id (userMessage now1 date1 c1) = msg_id (userMessage now2 date2 c2) ↔ now1 = now2.
Proof. simpl. split; [apply (inj toString)|by intros ->]. Qed.

End messages.

#[export] Hint Resolve userMessage_is_user assistantMessage_is_assistant
  errorMessage_is_assistant : js.
