(* ===== verification/Number.v ===== *)
(** * Number: the arithmetic of [Date.now() + 1] is exact

    A JavaScript number is an IEEE 754 binary64 value.  The program computes
    with numbers in one place, [Date.now() + 1] (lines 61 and 74 of
    [App.tsx]), and prints numbers in three: the two ids and the status of
    the template literal of line 55.  [Message] and [Wire] model these on
    [N], with the addition and the numerals of the naturals.

    This file models them on binary64, with the operations of the Standard
    Library's [SpecFloat] at precision 53 ([js_add] is [SFadd]), and proves
    that the two models agree on the values the program can meet: a time
    value is at most 8.64e15 (the range of ECMAScript's [Date]), which is
    below 2^53, where every natural is a binary64 value, the addition of
    naturals is exact and [toString] prints all the digits.  Above 2^53
    they part ([absorbed]). *)

From Stdlib Require Import SpecFloat.
From S2P Require Import Prelude Decimal JsValue Message.

Local Open Scope Z_scope.

(** ** binary64 *)

Definition prec : Z := 53.
Definition emax : Z := 1024.

(** The number nearest to a natural, ties to even: what a numeric literal
    or an integer result of the platform is as a number. *)
Definition of_N (n : N) : spec_float := binary_normalize prec emax (Z.of_N n) 0 false.

(** The operator [+] on two numbers. *)
Definition js_add (a b : spec_float) : spec_float := SFadd prec emax a b.

(** The natural a number is, when it is one. *)
Definition integer_value (x : spec_float) : option N :=
  match x with
  | S754_zero _ => Some 0%N
  | S754_finite false m e =>
      if 0 <=? e then Some (Z.to_N (Z.pos m * 2 ^ e))
      else if Z.pos m mod 2 ^ (- e) =? 0 then Some (Z.to_N (Z.pos m / 2 ^ (- e)))
      else None
  | _ => None
  end.

(** [Number.MAX_SAFE_INTEGER], and the largest time value of a [Date]. *)
Definition MAX_SAFE_INTEGER : N := 2 ^ 53 - 1.
Definition max_time : N := 8640000000000000.

(** [Number.prototype.toString] on the naturals up to [MAX_SAFE_INTEGER],
    where it prints every digit; other numbers are not modelled. *)
Definition Number_toString (x : spec_float) : option string :=
  n ← integer_value x;
  if (n <=? MAX_SAFE_INTEGER)%N then Some (toString n) else None.

(** Line 30: [Date.now().toString()]. *)
Definition user_id (now : N) : option string := Number_toString (of_N now).

(** Lines 61 and 74: [(Date.now() + 1).toString()]. *)
Definition reply_id (now : N) : option string :=
  Number_toString (js_add (of_N now) (of_N 1)).

(** A mantissa of 53 bits [q] and an exponent [e] in range that stand for
    the natural [n]: [q * 2 ^ e = n], stated on integers by scaling both
    sides by [2 ^ 1074]. *)
Definition scaled (m : positive) (e : Z) : Z := Z.pos m * 2 ^ (e + 1074).

Record repr (n : N) (q : positive) (e : Z) : Prop := mkRepr {
  repr_size : Z.pos (Pos.size q) = 53;
  repr_range : -1074 ≤ e ≤ 971;
  repr_value : scaled q e = Z.of_N n * 2 ^ 1074;
}.

(** The mantissa and the exponent of a positive below 2^53. *)
Definition canon (p : positive) : positive * Z :=
  (Pos.shiftl p (Z.to_N (53 - Z.pos (Pos.size p))), Z.pos (Pos.size p) - 53).

(** ** Positive numbers: size and shifts *)

Lemma digits2_size p : digits2_pos p = Pos.size p.
Proof. induction p; simpl; by f_equal. Qed.

Lemma iter_xO_value p d : Z.pos (Pos.iter xO p d) = Z.pos p * 2 ^ Z.pos d.
Proof.
  induction d as [|d IH] using Pos.peano_ind; [simpl; lia|].
  rewrite Pos.iter_succ, Pos2Z.inj_xO, IH, Pos2Z.inj_succ, Z.pow_succ_r by lia. lia.
Qed.

Lemma iter_xO_size p d : Pos.size (Pos.iter xO p d) = (Pos.size p + d)%positive.
Proof.
  induction d as [|d IH] using Pos.peano_ind; simpl; [lia|].
  rewrite Pos.iter_succ. simpl. rewrite IH. lia.
Qed.

Lemma iter_pos_iter {A} (f : A → A) n x : SpecFloat.iter_pos f n x = Pos.iter f x n.
Proof.
  revert x. induction n as [n IH|n IH|]; intros x; simpl; [|by rewrite !IH|done].
  by rewrite !IH, !Pos.iter_swap.
Qed.

(** A positive is determined by its value. *)
Lemma iter_xO_eq (m q : positive) d : Z.pos m = Z.pos q * 2 ^ Z.pos d → m = Pos.iter xO q d.
Proof. rewrite <- iter_xO_value. by intros [= ->]. Qed.

Lemma size_bound p : Z.pos p < 2 ^ 53 → Z.pos (Pos.size p) ≤ 53.
Proof.
  intros Hp. pose proof (Pos.size_le p) as Hle.
  apply Pos2Z.pos_le_pos in Hle. rewrite Pos2Z.inj_pow in Hle.
  apply Z.nlt_ge. intros Hlt.
  assert (2 * 2 ^ 53 ≤ 2 ^ Z.pos (Pos.size p)); [|lia].
  change (2 * 2 ^ 53) with (2 ^ 54). apply Z.pow_le_mono_r; lia.
Qed.

(** Powers of two cancel. *)
Lemma pow2_pos k : 0 < 2 ^ k ∨ k < 0.
Proof. destruct (decide (0 ≤ k)); [left; by apply Z.pow_pos_nonneg|right; lia]. Qed.

Lemma scaled_shift m e k : 0 ≤ k → -1074 ≤ e → scaled m (e + k) = Z.pos m * 2 ^ k * 2 ^ (e + 1074).
Proof.
  intros Hk He. unfold scaled.
  replace (e + k + 1074) with (k + (e + 1074)) by lia.
  rewrite Z.pow_add_r by lia. lia.
Qed.

Lemma scaled_inj m e x : -1074 ≤ e → scaled m e = x * 2 ^ (e + 1074) → Z.pos m = x.
Proof.
  intros He Heq. unfold scaled in Heq. apply Z.mul_reg_r in Heq; [done|].
  destruct (pow2_pos (e + 1074)); lia.
Qed.

(** ** Rounding a mantissa of 53 bits changes nothing *)

Lemma fexp_eq x : fexp prec emax x = Z.max (x - 53) (-1074).
Proof. done. Qed.

Lemma shr_exact q d :
  SpecFloat.iter_pos shr_1 d (Build_shr_record (Z.pos (Pos.iter xO q d)) false false)
  = Build_shr_record (Z.pos q) false false.
Proof.
  rewrite iter_pos_iter. induction d as [|d IH] using Pos.peano_ind; [done|].
  by rewrite Pos.iter_succ_r, Pos.iter_succ.
Qed.

Lemma shr_fexp_exact q e :
  Z.pos (Pos.size q) = 53 → -1074 ≤ e →
  shr_fexp prec emax (Z.pos q) e loc_Exact = (Build_shr_record (Z.pos q) false false, e).
Proof.
  intros Hq He. unfold shr_fexp. cbn [Zdigits2]. rewrite digits2_size, Hq, fexp_eq.
  by replace (Z.max (53 + e - 53) (-1074) - e) with 0 by lia.
Qed.

Lemma shr_fexp_shift q d e :
  Z.pos (Pos.size q) = 53 → -1074 ≤ e →
  shr_fexp prec emax (Z.pos (Pos.iter xO q d)) e loc_Exact
  = (Build_shr_record (Z.pos q) false false, e + Z.pos d).
Proof.
  intros Hq He. unfold shr_fexp. cbn [Zdigits2].
  rewrite digits2_size, iter_xO_size, Pos2Z.inj_add, Hq, fexp_eq.
  replace (Z.max (53 + Z.pos d + e - 53) (-1074) - e) with (Z.pos d) by lia.
  cbn [shr shr_record_of_loc]. by rewrite shr_exact.
Qed.

Lemma round_aux_exact q e :
  Z.pos (Pos.size q) = 53 → -1074 ≤ e ≤ 971 →
  binary_round_aux prec emax false (Z.pos q) e loc_Exact = S754_finite false q e.
Proof.
  intros Hq He. unfold binary_round_aux.
  rewrite shr_fexp_exact by lia. cbn [shr_m loc_of_shr_record round_nearest_even].
  rewrite shr_fexp_exact by lia. cbn [shr_m].
  by rewrite (proj2 (Z.leb_le _ _)) by (unfold emax, prec; lia).
Qed.

Lemma round_aux_shift q d e :
  Z.pos (Pos.size q) = 53 → -1074 ≤ e → e + Z.pos d ≤ 971 →
  binary_round_aux prec emax false (Z.pos (Pos.iter xO q d)) e loc_Exact
  = S754_finite false q (e + Z.pos d).
Proof.
  intros Hq He He'. unfold binary_round_aux.
  rewrite shr_fexp_shift by lia. cbn [shr_m loc_of_shr_record round_nearest_even].
  rewrite shr_fexp_exact by lia. cbn [shr_m].
  by rewrite (proj2 (Z.leb_le _ _)) by (unfold emax, prec; lia).
Qed.

Lemma shl_align_ge m e e' : e ≤ e' → shl_align m e e' = (m, e).
Proof. intros He. unfold shl_align. by destruct (e' - e) eqn:?; [..|lia]. Qed.

Lemma shl_align_lt m e d : shl_align m (e + Z.pos d) e = (Pos.iter xO m d, e).
Proof. unfold shl_align. by replace (e - (e + Z.pos d)) with (Z.neg d) by lia. Qed.

Lemma shl_align_value m e e' :
  e' ≤ e → Z.pos (fst (shl_align m e e')) = Z.pos m * 2 ^ (e - e').
Proof.
  intros He. destruct (e - e') as [|d|d] eqn:Hd; [|..|lia].
  - rewrite shl_align_ge by lia. simpl. lia.
  - replace e with (e' + Z.pos d) by lia. rewrite shl_align_lt. apply iter_xO_value.
Qed.

(** What [binary_round] makes of a mantissa at the exponent of its size. *)
Lemma round_at m e :
  binary_round prec emax false m e =
  let '(mz, ez) := shl_align m e (Z.max (Z.pos (Pos.size m) + e - 53) (-1074)) in
  binary_round_aux prec emax false (Z.pos mz) ez loc_Exact.
Proof. unfold binary_round. by rewrite digits2_size, fexp_eq. Qed.

(** Rounding is exact on a value that a mantissa of 53 bits stands for. *)
Lemma round_repr m e q e' :
  Z.pos (Pos.size q) = 53 → -1074 ≤ e → -1074 ≤ e' ≤ 971 → scaled m e = scaled q e' →
  binary_round prec emax false m e = S754_finite false q e'.
Proof.
  intros Hq He He' Heq. rewrite round_at. destruct (e' - e) as [|d|d] eqn:Hd.
  - assert (e' = e) as -> by lia. unfold scaled at 2 in Heq.
    apply scaled_inj in Heq as [= ->]; [|done].
    rewrite Hq, shl_align_ge by lia. by apply round_aux_exact.
  - assert (e' = e + Z.pos d) as -> by lia. rewrite scaled_shift in Heq by lia.
    apply scaled_inj, iter_xO_eq in Heq as ->; [|done].
    rewrite iter_xO_size, Pos2Z.inj_add, Hq, shl_align_ge by lia.
    apply round_aux_shift; lia.
  - assert (e = e' + Z.pos d) as -> by lia. symmetry in Heq.
    rewrite scaled_shift in Heq by lia. apply scaled_inj, iter_xO_eq in Heq as ->; [|lia].
    rewrite iter_xO_size, Pos2Z.inj_add in Hq.
    replace (Z.max _ _) with e' by lia. rewrite shl_align_lt.
    apply round_aux_exact; [by rewrite iter_xO_size, Pos2Z.inj_add|done].
Qed.

(** ** Every natural below 2^53 is a number *)

Lemma canon_repr p : Z.pos p < 2 ^ 53 → repr (N.pos p) (canon p).1 (canon p).2.
Proof.
  intros Hp%size_bound. unfold canon. cbn [fst snd].
  destruct (53 - Z.pos (Pos.size p)) as [|d|d] eqn:Hd; [| |lia]; unfold Pos.shiftl; cbn [Z.to_N].
  - split; [lia..|]. by replace (Z.pos (Pos.size p) - 53) with 0 by lia.
  - split; [rewrite iter_xO_size; lia|lia|].
    unfold scaled. rewrite iter_xO_value, <- Z.mul_assoc, <- Z.pow_add_r by lia.
    by replace (Z.pos d + (Z.pos (Pos.size p) - 53 + 1074)) with 1074 by lia.
Qed.

Lemma repr_pos n q e : repr n q e → (0 < n)%N.
Proof.
  intros [_ He Hv]. destruct n; [|lia]. unfold scaled in Hv.
  destruct (pow2_pos (e + 1074)); lia.
Qed.

Lemma of_N_repr n q e : repr n q e → of_N n = S754_finite false q e.
Proof.
  intros Hr. pose proof (repr_pos _ _ _ Hr). destruct Hr as [Hq He Hv].
  destruct n as [|p]; [lia|]. apply round_repr; [done|lia|done|].
  by rewrite Hv.
Qed.

Lemma of_N_finite n :
  (0 < n ≤ MAX_SAFE_INTEGER)%N → ∃ q e, repr n q e.
Proof.
  intros Hn. destruct n as [|p]; [lia|]. eexists _, _. apply canon_repr.
  change (2 ^ 53) with (Z.of_N MAX_SAFE_INTEGER + 1). lia.
Qed.

Lemma repr_value_nonneg n q e : repr n q e → 0 ≤ e → Z.pos q * 2 ^ e = Z.of_N n.
Proof.
  intros [_ He Hv] H0. unfold scaled in Hv. rewrite Z.pow_add_r, Z.mul_assoc in Hv by lia.
  by apply Z.mul_reg_r in Hv.
Qed.

Lemma repr_value_neg n q e : repr n q e → e < 0 → Z.pos q = Z.of_N n * 2 ^ (- e).
Proof.
  intros [_ He Hv] H0. unfold scaled in Hv.
  replace 1074 with (- e + (e + 1074)) in Hv at 2 by lia.
  rewrite (Z.pow_add_r 2 (- e)), Z.mul_assoc in Hv by lia.
  apply Z.mul_reg_r in Hv; [done|]. destruct (pow2_pos (e + 1074)); lia.
Qed.

Lemma integer_value_repr n q e : repr n q e → integer_value (S754_finite false q e) = Some n.
Proof.
  intros Hr. unfold integer_value. destruct (Z.leb_spec 0 e) as [He|He].
  - rewrite (repr_value_nonneg n) by done. by rewrite N2Z.id.
  - assert (0 < 2 ^ (- e)) by (apply Z.pow_pos_nonneg; lia).
    rewrite (repr_value_neg n q e), Z.mod_mul, Z.div_mul by (done || lia).
    by rewrite N2Z.id.
Qed.

(** ** The addition of two numbers that are naturals *)

Lemma scaled_align q e e' :
  -1074 ≤ e' ≤ e → Z.pos q * 2 ^ (e - e') * 2 ^ (e' + 1074) = scaled q e.
Proof.
  intros He. unfold scaled. rewrite <- Z.mul_assoc, <- Z.pow_add_r by lia.
  by replace (e - e' + (e' + 1074)) with (e + 1074) by lia.
Qed.

Lemma js_add_repr a b qa ea qb eb qc ec :
  repr a qa ea → repr b qb eb → repr (a + b) qc ec →
  js_add (S754_finite false qa ea) (S754_finite false qb eb) = S754_finite false qc ec.
Proof.
  intros [_ Hea Ha] [_ Heb Hb] [Hq Hec Hc]. unfold js_add, SFadd.
  cbn [cond_Zopp Z.add binary_normalize]. apply round_repr; [done|lia|done|].
  unfold scaled at 1. rewrite Pos2Z.inj_add, !shl_align_value by lia.
  rewrite Z.mul_add_distr_r, !scaled_align by lia.
  rewrite Hc, Ha, Hb. lia.
Qed.

Lemma of_N_zero : of_N 0 = S754_zero false.
Proof. done. Qed.

(** Zero is neutral on the naturals that are numbers. *)
Lemma js_add_zero n :
  (n ≤ MAX_SAFE_INTEGER)%N →
  js_add (of_N 0) (of_N n) = of_N n ∧ js_add (of_N n) (of_N 0) = of_N n.
Proof.
  intros Hn. destruct (decide (n = 0%N)) as [->|H0]; [done|].
  destruct (of_N_finite n) as (q & e & Hr); [lia|].
  by rewrite (of_N_repr _ _ _ Hr).
Qed.

Lemma js_add_of_N a b :
  (a + b ≤ MAX_SAFE_INTEGER)%N → js_add (of_N a) (of_N b) = of_N (a + b).
Proof.
  intros Hab.
  destruct (decide (a = 0%N)) as [->|Ha]; [by apply js_add_zero|].
  destruct (decide (b = 0%N)) as [->|Hb]; [rewrite N.add_0_r; apply js_add_zero; lia|].
  destruct (of_N_finite a) as (qa & ea & Hra); [lia|].
  destruct (of_N_finite b) as (qb & eb & Hrb); [lia|].
  destruct (of_N_finite (a + b)) as (qc & ec & Hrc); [lia|].
  rewrite (of_N_repr _ _ _ Hra), (of_N_repr _ _ _ Hrb), (of_N_repr _ _ _ Hrc).
  by eapply js_add_repr.
Qed.

Lemma integer_value_of_N n :
  (n ≤ MAX_SAFE_INTEGER)%N → integer_value (of_N n) = Some n.
Proof.
  intros Hn. destruct (decide (n = 0%N)) as [->|H0]; [done|].
  destruct (of_N_finite n) as (q & e & Hr); [lia|].
  rewrite (of_N_repr _ _ _ Hr). by apply integer_value_repr.
Qed.

Lemma Number_toString_of_N n :
  (n ≤ MAX_SAFE_INTEGER)%N → Number_toString (of_N n) = Some (toString n).
Proof.
  intros Hn. unfold Number_toString. rewrite integer_value_of_N by done. simpl.
  by rewrite (proj2 (N.leb_le _ _)).
Qed.

(** ** The program's numbers *)

Lemma max_time_safe t : (t ≤ max_time)%N → (t + 1 ≤ MAX_SAFE_INTEGER)%N.
Proof. unfold max_time, MAX_SAFE_INTEGER. change (2 ^ 53)%N with 9007199254740992%N. lia. Qed.

Lemma reply_id_toString t : (t ≤ max_time)%N → reply_id t = Some (toString (t + 1)).
Proof.
  intros Ht%max_time_safe. unfold reply_id.
  by rewrite js_add_of_N, Number_toString_of_N.
Qed.

(** Addition is exact on safe integers: when the sum of two naturals
    is at most [Number.MAX_SAFE_INTEGER], the binary64 sum of the two
    numbers is the number of the sum, with no rounding, and it reads back
    as that natural. *)
Theorem js_add_exact a b :
  (a + b ≤ MAX_SAFE_INTEGER)%N →
  js_add (of_N a) (of_N b) = of_N (a + b)
  ∧ integer_value (js_add (of_N a) (of_N b)) = Some (a + b)%N.
Proof.
  intros Hab. rewrite js_add_of_N by done. by rewrite integer_value_of_N.
Qed.

(** C33. The ids are what the model says they are: for every clock value in
    the range of a [Date], [Date.now().toString()] and
    [(Date.now() + 1).toString()], computed on binary64 numbers, are the
    decimal numerals of [now] and of [now + 1] that [userMessage],
    [assistantMessage] and [errorMessage] carry as ids. *)
Theorem ids_exact t date content final_response header_stack error :
  (t ≤ max_time)%N →
  user_id t = Some (msg_id (userMessage t date content))
  ∧ reply_id t = Some (msg_id (assistantMessage t date final_response header_stack))
  ∧ reply_id t = Some (msg_id (errorMessage t date error)).
Proof.
  intros Ht. pose proof (max_time_safe t Ht).
  split_and!; [apply Number_toString_of_N; lia|by apply reply_id_toString..].
Qed.

Lemma toString_width n : (n < 10 ^ 16)%N → (String.length (toString n) ≤ 16)%nat.
Proof.
  intros Hn. destruct (decide (n < 10)%N) as [Hs|Hs].
  { rewrite toString_small by done. simpl. lia. }
  destruct (toString_digits n) as (k & -> & _ & Hge).
  apply Nat.nlt_ge. intros Hk.
  assert (10 ^ 16 ≤ 10 ^ N.of_nat k)%N by (apply N.pow_le_mono_r; lia).
  specialize (Hge ltac:(lia)). lia.
Qed.

(** The ids are short: for every clock value in the range of a [Date]
    the id of a user turn and the id of an assistant turn have at most 16
    characters. *)
Theorem ids_bounded t date content final_response header_stack :
  (t ≤ max_time)%N →
  (String.length (msg_id (userMessage t date content)) ≤ 16)%nat
  ∧ (String.length (msg_id (assistantMessage t date final_response header_stack)) ≤ 16)%nat.
Proof.
  intros Ht. unfold max_time in Ht.
  split; apply toString_width; change (10 ^ 16)%N with 10000000000000000%N; lia.
Qed.

(** Above the safe integers the addition rounds: 2^53 + 1 is 2^53. *)
Example absorbed :
  js_add (of_N (2 ^ 53)) (of_N 1) = of_N (2 ^ 53)
  ∧ integer_value (js_add (of_N (2 ^ 53)) (of_N 1)) = Some (2 ^ 53)%N.
Proof. by vm_compute. Qed.

Lemma js_add_exact_witness :
  js_add (of_N 1731067200000) (of_N 1) = of_N (1731067200000 + 1)
  ∧ integer_value (js_add (of_N 1731067200000) (of_N 1)) = Some (1731067200000 + 1)%N.
Proof. apply js_add_exact. by vm_compute. Defined.

Lemma ids_exact_witness :
  user_id 1731067200000 = Some (msg_id (userMessage 1731067200000 0 "hello"))
  ∧ reply_id 1731067200000
    = Some (msg_id (assistantMessage 1731067200000 0 VUndefined VUndefined))
  ∧ reply_id 1731067200000
    = Some (msg_id (errorMessage 1731067200000 0 (new_Error "Failed to fetch"))).
Proof. apply ids_exact. by vm_compute. Defined.

Lemma ids_bounded_witness :
  (String.length (msg_id (userMessage 1731067200000 0 "hello")) ≤ 16)%nat
  ∧ (String.length (msg_id (assistantMessage 1731067200000 0 VUndefined VUndefined)) ≤ 16)%nat.
Proof. apply ids_bounded. by vm_compute. Defined.
