(* ===== verification/Client.v ===== *)
(** * Client: how an exchange with the backend ends

    [handleSendMessage] has no function for the client: the classification
    of what came back is the control flow of its [try] block ([App.tsx],
    lines 41-69).  This file names it.  An exchange ends in a [Failure] when
    the fetch rejects, when the response is not [ok], when the body does
    not parse, or when reading [final_response] off the parsed body throws;
    it ends in a [Success] otherwise, with the two properties read off the
    body.  [fetch_outcome] is what the settling of [fetch] decides ([None]:
    the body is awaited next), [json_outcome] what the settling of
    [response.json()] decides.

    [reply] is the assistant turn the outcome is shown as, and
    [reply_content], [reply_trace] its two fields that come from the
    outcome. *)

From S2P Require Import Prelude Decimal JsValue Config Wire Message.

Inductive Outcome : Type :=
| Success (final_response header_stack : JsValue)
| Failure (error : JsError).

#[export] Instance Outcome_eq_dec : EqDecision Outcome.
Proof. solve_decision. Defined.

Definition fetch_outcome (o : Settled Response) : option Outcome :=
  match o with
  | inl e => Some (Failure e)
  | inr response =>
      if ok response then None else Some (Failure (http_error response))
  end.

Definition json_outcome (o : Settled JsValue) : Outcome :=
  match o with
  | inl e => Failure e
  | inr data =>
      match get_prop data "final_response", get_prop data "header_stack" with
      | inr final_response, inr header_stack => Success final_response header_stack
      | inl e, _ | _, inl e => Failure e
      end
  end.

(** The steps of the clock an outcome costs before the catch block runs:
    a body whose property read throws has had [Date.now()] read for the id
    of the assistant turn that is then not built. *)
Definition wasted_reads (o : Settled JsValue) : nat :=
  match o with
  | inr data => if get_prop data "final_response" is inl _ then 1 else 0
  | inl _ => 0
  end.

Definition reply_content (o : Outcome) : JsValue :=
  match o with
  | Success final_response _ => js_or final_response (VStr fallback_answer)
  | Failure e => VStr (unable_to_connect +:+ error_toString e)
  end.

Definition reply_trace (o : Outcome) : JsValue :=
  match o with
  | Success _ header_stack => header_stack
  | Failure _ => VUndefined
  end.

Definition reply (now date : N) (o : Outcome) : Message :=
  match o with
  | Success final_response header_stack =>
      assistantMessage now date final_response header_stack
  | Failure e => errorMessage now date e
  end.

Section client.
Implicit Types (o : Outcome) (now date : N).

Lemma reply_fields now date o :
  reply now date o =
  mkMessage (toString (now + 1)) Assistant (reply_content o) date (reply_trace o).
Proof. by destruct o. Qed.

Lemma reply_is_assistant now date o : is_assistant (reply now date o).
Proof. by destruct o. Qed.

Lemma msg_content_reply now date o : msg_content (reply now date o) = reply_content o.
Proof. by destruct o. Qed.

Lemma msg_headerStack_reply now date o : msg_headerStack (reply now date o) = reply_trace o.
Proof. by destruct o. Qed.

(** An exchange succeeds exactly when the transport delivered a response
    with a status from 200 to 299. *)
Lemma fetch_outcome_None (fo : Settled Response) :
  fetch_outcome fo = None ↔ ∃ response, fo = inr response ∧ (200 ≤ status response ≤ 299)%N.
Proof.
  destruct fo as [e|response]; simpl; [naive_solver|].
  destruct (ok response) eqn:Hok.
  - apply ok_range in Hok. naive_solver.
  - split; [done|]. intros (? & [= <-] & Hr%ok_range). congruence.
Qed.

(** The body gives a success exactly when it parsed to a value that is
    neither [null] nor [undefined]. *)
Lemma json_outcome_Success (jo : Settled JsValue) fr hs :
  json_outcome jo = Success fr hs ↔
  ∃ data, jo = inr data ∧ get_prop data "final_response" = inr fr
          ∧ get_prop data "header_stack" = inr hs.
Proof.
  destruct jo as [e|data]; simpl.
  { split; [done|]. by intros (? & ? & _). }
  destruct (get_prop data "final_response") eqn:Hfr,
    (get_prop data "header_stack") eqn:Hhs;
    (split; [intros; simplify_eq; eauto|intros (? & [= <-] & ? & ?); congruence]).
Qed.

Lemma json_outcome_nullish data e :
  get_prop data "final_response" = inl e → json_outcome (inr data) = Failure e.
Proof. simpl. by intros ->. Qed.

Lemma wasted_reads_Success jo fr hs : json_outcome jo = Success fr hs → wasted_reads jo = 0.
Proof. intros (data & -> & Hfr & _)%json_outcome_Success. simpl. by rewrite Hfr. Qed.

(** The body of the specification's success example: both members present. *)
Lemma json_outcome_object ms :
  json_outcome (inr (VObj ms)) =
  Success (default VUndefined (member "final_response" ms))
          (default VUndefined (member "header_stack" ms)).
Proof. done. Qed.

End client.

#[export] Hint Resolve reply_is_assistant msg_content_reply msg_headerStack_reply : js.
