(* ===== verification/App.v ===== *)
(** * App: the [App] component and its handlers

    [AppState] is the four state cells of [App] ([App.tsx], lines 19-26).
    [World] adds what the program does not hold in a variable but its
    behaviour depends on: the activations of [handleSendMessage] suspended
    at an [await] ([inflight], by activation number), the requests handed
    to [fetch] ([sent]), the console, and the number of clock reads made.

    [handleSendMessage] (lines 28-82) is an async function with two awaits.
    It is modelled as the three segments that run to completion:
    [handleSendMessage] up to [await fetch(...)], [after_fetch] from there
    to [await response.json()], [after_json] from there to the end, the
    last two inside the [try] whose handler is [catch_block] (lines 69-81).
    The first segment reads the state of the render it was created in; the
    model reads the current state, which is the same whenever a render
    separates two events, as React guarantees for discrete events.

    [setMessages] is always called with an updater function, so it acts on
    the latest history whatever the handler captured.

    [step] runs one event: a user action or the settling of a promise an
    activation waits on.  [run] runs a list of events. *)

From S2P Require Import Prelude Decimal JsValue Config Wire Message.

Record AppState : Type := mkApp {
  topology : Topology;
  models : list LLMModel;
  messages : list Message;
  isConfigOpen : bool;
}.

#[export] Instance AppState_eq_dec : EqDecision AppState.
Proof. solve_decision. Defined.

(** The initial values of the four [useState] cells. *)
Definition initial_app : AppState := mkApp initial_topology initial_models [] true.

(** Where a suspended activation waits: at [await fetch(...)] (line 42) or
    at [await response.json()] (line 58). *)
Inductive Phase : Type := AwaitFetch | AwaitJson.

#[export] Instance Phase_eq_dec : EqDecision Phase.
Proof. solve_decision. Defined.

Record World : Type := mkWorld {
  app : AppState;
  inflight : gmap nat Phase;
  calls : nat;
  sent : list Request;
  console : list (string * JsError);
  reads : nat;
}.

#[export] Instance World_eq_dec : EqDecision World.
Proof. solve_decision. Defined.

Definition initial_world : World := mkWorld initial_app ∅ 0 [] [] 0.

(** Field updates. *)
Definition with_topology (t : Topology) (a : AppState) : AppState :=
  mkApp t (models a) (messages a) (isConfigOpen a).
Definition with_models (ms : list LLMModel) (a : AppState) : AppState :=
  mkApp (topology a) ms (messages a) (isConfigOpen a).
Definition with_messages (f : list Message → list Message) (a : AppState) : AppState :=
  mkApp (topology a) (models a) (f (messages a)) (isConfigOpen a).
Definition with_isConfigOpen (b : bool) (a : AppState) : AppState :=
  mkApp (topology a) (models a) (messages a) b.

Definition on_app (f : AppState → AppState) (w : World) : World :=
  mkWorld (f (app w)) (inflight w) (calls w) (sent w) (console w) (reads w).
Definition on_inflight (f : gmap nat Phase → gmap nat Phase) (w : World) : World :=
  mkWorld (app w) (f (inflight w)) (calls w) (sent w) (console w) (reads w).
Definition on_calls (f : nat → nat) (w : World) : World :=
  mkWorld (app w) (inflight w) (f (calls w)) (sent w) (console w) (reads w).
Definition on_sent (f : list Request → list Request) (w : World) : World :=
  mkWorld (app w) (inflight w) (calls w) (f (sent w)) (console w) (reads w).
Definition on_console (f : list (string * JsError) → list (string * JsError))
    (w : World) : World :=
  mkWorld (app w) (inflight w) (calls w) (sent w) (f (console w)) (reads w).
Definition on_reads (f : nat → nat) (w : World) : World :=
  mkWorld (app w) (inflight w) (calls w) (sent w) (console w) (f (reads w)).

(** What the user and the network can do to the program. *)
Inductive Event : Type :=
| EvSend (content : string)
| EvFetch (x : nat) (outcome : Settled Response)
| EvJson (x : nat) (outcome : Settled JsValue)
| EvTopology (t : Topology)
| EvModels (ms : list LLMModel)
| EvToggleConfig.

#[export] Instance Event_eq_dec : EqDecision Event.
Proof. solve_decision. Defined.

Section handlers.
(** The clock: the k-th read returns [now k]. *)
Context (now : nat → N).

Notation Js := (Eff World JsError).

(** [Date.now()] *)
Definition Date_now : Js N :=
  λ w, (inr (now (reads w)), on_reads S w).

(** [new Date()], as its time value. *)
Definition new_Date : Js N := Date_now.

Definition setTopology (t : Topology) : Js unit := modify (on_app (with_topology t)).
Definition setModels (ms : list LLMModel) : Js unit := modify (on_app (with_models ms)).
Definition setMessages (f : list Message → list Message) : Js unit :=
  modify (on_app (with_messages f)).
Definition setIsConfigOpen (b : bool) : Js unit := modify (on_app (with_isConfigOpen b)).

(** [console.error(label, error)] *)
Definition console_error (label : string) (error : JsError) : Js unit :=
  modify (on_console (λ log, log ++ [(label, error)])).

(** The call of [fetch]: the request leaves. *)
Definition fetch (request : Request) : Js unit :=
  modify (on_sent (λ rs, rs ++ [request])).

(** [await]: activation [x] is suspended in phase [p]. *)
Definition await (x : nat) (p : Phase) : Js unit :=
  modify (on_inflight (insert x p)).

(** A settled promise resumes its activation with a value or a throw. *)
Definition settled {A} (outcome : Settled A) : Js A :=
  match outcome with inl e => throw e | inr a => eret a end.

(** Lines 69-81. *)
Definition catch_block (error : JsError) : Js unit :=
  console_error "Error calling MAIRE backend:" error ;;
  t <- Date_now ;;
  date <- new_Date ;;
  setMessages (λ prev, prev ++ [errorMessage t date error]).

(** Lines 28-52: from the call to the first [await]. *)
Definition handleSendMessage (content : string) : Js unit :=
  t <- Date_now ;;
  date <- new_Date ;;
  setMessages (λ prev, prev ++ [userMessage t date content]) ;;
  enabled <- gets (λ w, enabledModels (models (app w))) ;;
  topo <- gets (λ w, topology (app w)) ;;
  x <- gets calls ;;
  modify (on_calls S) ;;
  try_catch
    (fetch (run_request content topo enabled) ;;
     await x AwaitFetch)
    catch_block.

(** Lines 42-58: from the settling of [fetch] to the second [await]. *)
Definition after_fetch (x : nat) (outcome : Settled Response) : Js unit :=
  try_catch
    (response <- settled outcome ;;
     (if negb (ok response) then throw (http_error response) else eret tt) ;;
     await x AwaitJson)
    catch_block.

(** Lines 58-68: from the settling of [response.json()] to the end. *)
Definition after_json (outcome : Settled JsValue) : Js unit :=
  try_catch
    (data <- settled outcome ;;
     t <- Date_now ;;
     final_response <- settled (get_prop data "final_response") ;;
     date <- new_Date ;;
     header_stack <- settled (get_prop data "header_stack") ;;
     setMessages (λ prev, prev ++ [assistantMessage t date final_response header_stack]))
    catch_block.

(** Line 88: [() => setIsConfigOpen(!isConfigOpen)]. *)
Definition onToggleConfig : Js unit :=
  b <- gets (λ w, isConfigOpen (app w)) ;;
  setIsConfigOpen (negb b).

(** The activation leaves the wait list when it is resumed. *)
Definition resume (x : nat) (w : World) : World := on_inflight (delete x) w.

(** One event.  A settling is an event of the program only for an
    activation that waits for it. *)
Definition step (w : World) (ev : Event) : option World :=
  match ev with
  | EvSend content => Some (exec (handleSendMessage content) w)
  | EvFetch x outcome =>
      match inflight w !! x with
      | Some AwaitFetch => Some (exec (after_fetch x outcome) (resume x w))
      | _ => None
      end
  | EvJson x outcome =>
      match inflight w !! x with
      | Some AwaitJson => Some (exec (after_json outcome) (resume x w))
      | _ => None
      end
  | EvTopology t => Some (exec (setTopology t) w)
  | EvModels ms => Some (exec (setModels ms) w)
  | EvToggleConfig => Some (exec onToggleConfig w)
  end.

Fixpoint run (w : World) (evs : list Event) : option World :=
  match evs with
  | [] => Some w
  | ev :: evs' =>
      match step w ev with
      | Some w' => run w' evs'
      | None => None
      end
  end.

End handlers.

(** What [App] hands to its children (lines 84-108). *)
Record View : Type := mkView {
  header_isConfigOpen : bool;
  panel_isOpen : bool;
  panel_topology : Topology;
  panel_models : list LLMModel;
  chat_messages : list Message;
  chat_topology : Topology;
  chat_activeModels : nat;
}.

Definition render (a : AppState) : View :=
  mkView (isConfigOpen a) (isConfigOpen a) (topology a) (models a)
    (messages a) (topology a) (activeModels (models a)).

(** A clock for the examples: it starts at a date of November 2024 and
    advances ten milliseconds between two reads. *)
Definition example_clock (k : nat) : N := (1731067200000 + 10 * N.of_nat k)%N.
