(* ===== verification/Steps.v ===== *)
(** * Steps: the transitions of the program, rule by rule

    [Step now w ev w'] says what each event does to the world, one rule per
    path through [handleSendMessage]: the send, the three ways a request
    fails after it was sent (the fetch rejects, the response is not [ok],
    the body does not parse), the failure of reading a property of a body
    that is [null], the answer, and the three configuration events.  The
    worlds the rules name are written out field by field ([submitted],
    [failed], [answered]).

    [step_Step] proves that the handlers of [App], run by [step], take
    exactly these transitions; the invariants of the program are then
    proved by induction on [Step]. *)

From S2P Require Import Prelude Decimal JsValue Config Wire Message App.

Definition console_label : string := "Error calling MAIRE backend:".

Section steps.
Context (now : nat → N).
Implicit Types (w : World) (x : nat) (e : JsError) (content : string).

(** The world after [handleSendMessage content] reached its first await. *)
Definition submitted content w : World :=
  mkWorld
    (with_messages
       (λ prev, prev ++ [userMessage (now (reads w)) (now (S (reads w))) content])
       (app w))
    (<[calls w := AwaitFetch]> (inflight w))
    (S (calls w))
    (sent w ++ [run_request content (topology (app w)) (enabledModels (models (app w)))])
    (console w)
    (S (S (reads w))).

(** The world after the catch block ran for [e]. *)
Definition failed e w : World :=
  mkWorld
    (with_messages
       (λ prev, prev ++ [errorMessage (now (reads w)) (now (S (reads w))) e])
       (app w))
    (inflight w) (calls w) (sent w)
    (console w ++ [(console_label, e)])
    (S (S (reads w))).

(** The world after the assistant turn was appended. *)
Definition answered (final_response header_stack : JsValue) w : World :=
  mkWorld
    (with_messages
       (λ prev, prev ++ [assistantMessage (now (reads w)) (now (S (reads w)))
                           final_response header_stack])
       (app w))
    (inflight w) (calls w) (sent w) (console w)
    (S (S (reads w))).

Inductive Step : World → Event → World → Prop :=
| Step_send w content :
    Step w (EvSend content) (submitted content w)
| Step_fetch_rejected w x e :
    inflight w !! x = Some AwaitFetch →
    Step w (EvFetch x (inl e)) (failed e (resume x w))
| Step_fetch_refused w x response :
    inflight w !! x = Some AwaitFetch →
    ok response = false →
    Step w (EvFetch x (inr response)) (failed (http_error response) (resume x w))
| Step_fetch_ok w x response :
    inflight w !! x = Some AwaitFetch →
    ok response = true →
    Step w (EvFetch x (inr response)) (on_inflight (insert x AwaitJson) w)
| Step_json_rejected w x e :
    inflight w !! x = Some AwaitJson →
    Step w (EvJson x (inl e)) (failed e (resume x w))
| Step_json_nullish w x data e :
    inflight w !! x = Some AwaitJson →
    get_prop data "final_response" = inl e →
    Step w (EvJson x (inr data)) (failed e (on_reads S (resume x w)))
| Step_json_answer w x data final_response header_stack :
    inflight w !! x = Some AwaitJson →
    get_prop data "final_response" = inr final_response →
    get_prop data "header_stack" = inr header_stack →
    Step w (EvJson x (inr data)) (answered final_response header_stack (resume x w))
| Step_topology w t :
    Step w (EvTopology t) (on_app (with_topology t) w)
| Step_models w ms :
    Step w (EvModels ms) (on_app (with_models ms) w)
| Step_toggle w :
    Step w EvToggleConfig (on_app (with_isConfigOpen (negb (isConfigOpen (app w)))) w).

(** One transition, whatever the event. *)
Definition trans w w' : Prop := ∃ ev, Step w ev w'.

(** The worlds the program can be in. *)
Definition reachable w : Prop := rtc trans initial_world w.

(** ** The segments, simplified

    Each segment is equal, as a computation, to the part of it that runs:
    the catch block when the awaited promise rejects or the status is
    refused, the rest of the [try] block otherwise. *)

Lemma after_fetch_rejected x e : after_fetch now x (inl e) ≈ catch_block now e.
Proof. unfold after_fetch. cbn [settled]. by rewrite ebind_throw, try_catch_throw. Qed.

Lemma after_fetch_refused x response :
  ok response = false → after_fetch now x (inr response) ≈ catch_block now (http_error response).
Proof.
  intros Hok. unfold after_fetch. cbn [settled]. rewrite ebind_ret_l, Hok. cbn [negb].
  by rewrite ebind_throw, try_catch_throw.
Qed.

Lemma after_fetch_ok x response :
  ok response = true → after_fetch now x (inr response) ≈ await x AwaitJson.
Proof.
  intros Hok. unfold after_fetch. cbn [settled]. rewrite ebind_ret_l, Hok. cbn [negb].
  rewrite ebind_ret_l. apply try_catch_safe. intros w. apply returns_modify.
Qed.

Lemma after_json_rejected e : after_json now (inl e) ≈ catch_block now e.
Proof. unfold after_json. cbn [settled]. by rewrite ebind_throw, try_catch_throw. Qed.

Lemma returns_Date_now w : returns (Date_now now) w.
Proof. by eexists. Qed.

(** The id clock is read before the property read throws. *)
Lemma after_json_nullish data e :
  get_prop data "final_response" = inl e →
  after_json now (inr data) ≈ (Date_now now ;; catch_block now e).
Proof.
  intros Hfr. unfold after_json. cbn [settled]. rewrite ebind_ret_l, Hfr.
  rewrite try_catch_bind_safe by apply returns_Date_now.
  apply ebind_proper; [done|]. intros t. cbn [settled].
  by rewrite ebind_throw, try_catch_throw.
Qed.

Lemma after_json_answer data fr hs :
  get_prop data "final_response" = inr fr →
  get_prop data "header_stack" = inr hs →
  after_json now (inr data) ≈
    (t <- Date_now now ;; date <- new_Date now ;;
     setMessages (λ prev, prev ++ [assistantMessage t date fr hs])).
Proof.
  intros Hfr Hhs. unfold after_json. cbn [settled]. rewrite ebind_ret_l, Hfr, Hhs.
  cbn [settled]. apply try_catch_safe. intros w.
  unfold new_Date, setMessages. eauto 10 using returns_Date_now with js.
Qed.

(** The [try] of the first segment never throws: its handler is dead code. *)
Lemma handleSendMessage_no_catch content :
  handleSendMessage now content ≈
    (t <- Date_now now ;; date <- new_Date now ;;
     setMessages (λ prev, prev ++ [userMessage t date content]) ;;
     enabled <- gets (λ w, enabledModels (models (app w))) ;;
     topo <- gets (λ w, topology (app w)) ;;
     x <- gets calls ;;
     modify (on_calls S) ;;
     fetch (run_request content topo enabled) ;;
     await x AwaitFetch).
Proof.
  unfold handleSendMessage. do 7 (apply ebind_proper; [done|]; intros ?).
  apply try_catch_safe. intros w. unfold fetch, await. eauto with js.
Qed.

(** ** What each segment does to the world *)

Lemma exec_handleSendMessage content w :
  exec (handleSendMessage now content) w = submitted content w.
Proof. by rewrite handleSendMessage_no_catch. Qed.

Lemma exec_after_fetch_refused x response w :
  ok response = false →
  exec (after_fetch now x (inr response)) w = failed (http_error response) w.
Proof. intros Hok. by rewrite after_fetch_refused. Qed.

Lemma exec_after_fetch_ok x response w :
  ok response = true →
  exec (after_fetch now x (inr response)) w = on_inflight (insert x AwaitJson) w.
Proof. intros Hok. by rewrite after_fetch_ok. Qed.

Lemma exec_after_json_nullish data e w :
  get_prop data "final_response" = inl e →
  exec (after_json now (inr data)) w = failed e (on_reads S w).
Proof. intros Hfr. by rewrite after_json_nullish. Qed.

(** A value whose [final_response] can be read has a readable [header_stack]. *)
Lemma get_prop_both data fr :
  get_prop data "final_response" = inr fr → ∃ hs, get_prop data "header_stack" = inr hs.
Proof. destruct data; naive_solver. Qed.

Lemma exec_after_json_answer data fr hs w :
  get_prop data "final_response" = inr fr →
  get_prop data "header_stack" = inr hs →
  exec (after_json now (inr data)) w = answered fr hs w.
Proof. intros Hfr Hhs. by rewrite after_json_answer. Qed.

Lemma resume_insert x p w :
  on_inflight (insert x p) (resume x w) = on_inflight (insert x p) w.
Proof. unfold resume, on_inflight. simpl. by rewrite insert_delete_eq. Qed.

(** ** The handlers take the transitions of [Step], and no others *)

Lemma step_sound w ev w' : step now w ev = Some w' → Step w ev w'.
Proof.
  destruct ev as [content|x [e|response]|x [e|data]|t|ms|]; simpl;
    repeat case_match; intros; simplify_eq; try by constructor.
  - destruct (ok response) eqn:Hok.
    + rewrite exec_after_fetch_ok, resume_insert by done. by constructor.
    + rewrite exec_after_fetch_refused by done. by constructor.
  - destruct (get_prop data "final_response") as [e|fr] eqn:Hfr.
    + rewrite (exec_after_json_nullish _ e) by done. by constructor.
    + destruct (get_prop_both _ _ Hfr) as [hs Hhs].
      rewrite (exec_after_json_answer _ fr hs) by done. by constructor.
Qed.

Lemma step_complete w ev w' : Step w ev w' → step now w ev = Some w'.
Proof.
  destruct 1; simpl; rewrite ?H; f_equal; try done.
  - by apply exec_after_fetch_refused.
  - by rewrite exec_after_fetch_ok, resume_insert.
  - by apply exec_after_json_nullish.
  - by apply exec_after_json_answer.
Qed.

(** C1. The handlers of [App], run by [step], take exactly the transitions
    of [Step]: an event is enabled for the code when a rule applies to it,
    and the code leaves the world the rule names. *)
Theorem step_Step w ev w' : step now w ev = Some w' ↔ Step w ev w'.
Proof. split; [apply step_sound|apply step_complete]. Qed.

Lemma Step_deterministic w ev w1 w2 : Step w ev w1 → Step w ev w2 → w1 = w2.
Proof. intros H1%step_complete H2%step_complete. congruence. Qed.

(** [run] follows [Step] event by event. *)
Inductive Steps : World → list Event → World → Prop :=
| Steps_nil w : Steps w [] w
| Steps_cons w ev w' evs w'' : Step w ev w' → Steps w' evs w'' → Steps w (ev :: evs) w''.

Lemma run_Steps w evs w' : run now w evs = Some w' ↔ Steps w evs w'.
Proof.
  revert w. induction evs as [|ev evs IH]; intros w; simpl.
  - split; [intros [= <-]; constructor|by inversion 1].
  - split.
    + destruct (step now w ev) as [w1|] eqn:Hstep; [|done].
      intros Hrun. econstructor; [by apply step_sound|by apply IH].
    + inversion 1 as [|? ? w1 ? ? Hstep Hsteps]; subst.
      rewrite (step_complete _ _ _ Hstep). by apply IH.
Qed.

Lemma run_app w evs1 evs2 :
  run now w (evs1 ++ evs2) = w1 ← run now w evs1; run now w1 evs2.
Proof.
  revert w. induction evs1 as [|ev evs1 IH]; intros w; simpl; [done|].
  destruct (step now w ev); [apply IH|done].
Qed.

Lemma Steps_rtc w evs w' : Steps w evs w' → rtc trans w w'.
Proof.
  induction 1 as [|w ev w' evs w'' Hstep _ IH]; [done|].
  eapply rtc_l; [by exists ev|done].
Qed.

Lemma rtc_Steps w w' : rtc trans w w' → ∃ evs, Steps w evs w'.
Proof.
  induction 1 as [w|w w1 w' [ev Hstep] _ [evs IH]].
  - exists []. constructor.
  - exists (ev :: evs). by econstructor.
Qed.

(** The reachable worlds are those a list of events leads to. *)
Lemma reachable_run w : reachable w ↔ ∃ evs, run now initial_world evs = Some w.
Proof.
  unfold reachable. split.
  - intros (evs & Hsteps)%rtc_Steps. exists evs. by apply run_Steps.
  - intros (evs & Hrun). by apply Steps_rtc with evs, run_Steps.
Qed.

(** Induction on the worlds the program reaches. *)
Lemma reachable_ind (P : World → Prop) :
  P initial_world → (∀ w ev w', Step w ev w' → P w → P w') → ∀ w, reachable w → P w.
Proof.
  intros Hinit Hstep w Hr. unfold reachable in Hr.
  refine (rtc_ind_r (R:=trans) P initial_world Hinit _ w Hr).
  intros w1 w2 _ [ev Hev] IH. by eapply Hstep.
Qed.

End steps.

#[export] Hint Constructors Step Steps : js.
