(* ===== verification/Invariants.v ===== *)
(** * Invariants: what holds in every world the program reaches

    [Inv] ties the history to the activations of [handleSendMessage]:
    every activation appended one user turn when it was called and appends
    one assistant turn when it ends, so with [calls] activations of which
    [waiting] are suspended the history has [calls] user turns and
    [calls - waiting] assistant turns.  It also bounds the activation
    numbers, counts the requests sent (one per activation) and the console
    lines (at most one per assistant turn), and counts the clock reads.

    The history only grows, at its end ([Step_history], [Steps_prefix]). *)

From S2P Require Import Prelude Decimal JsValue Config Wire Message Client App Steps.

(** The measures of a world. *)
Definition history (w : World) : list Message := messages (app w).
Definition users (w : World) : nat := length (filter is_user (history w)).
Definition assistants (w : World) : nat := length (filter is_assistant (history w)).
Definition waiting (w : World) : nat := size (inflight w).

Record Inv (w : World) : Prop := mkInv {
  inv_fresh : ∀ x p, inflight w !! x = Some p → x < calls w;
  inv_users : users w = calls w;
  inv_assistants : assistants w + waiting w = calls w;
  inv_sent : length (sent w) = calls w;
  inv_console : length (console w) ≤ assistants w;
  inv_reads : 2 * length (history w) ≤ reads w;
}.

Section counting.
Implicit Types (l : list Message) (m : Message).

Lemma users_snoc l m :
  length (filter is_user (l ++ [m])) =
  length (filter is_user l) + (if decide (is_user m) then 1 else 0).
Proof. rewrite filter_app, length_app, filter_cons. by case_decide. Qed.

Lemma assistants_snoc l m :
  length (filter is_assistant (l ++ [m])) =
  length (filter is_assistant l) + (if decide (is_assistant m) then 1 else 0).
Proof. rewrite filter_app, length_app, filter_cons. by case_decide. Qed.

(** Every turn is a user turn or an assistant turn, and not both. *)
Lemma users_assistants l :
  length (filter is_user l) + length (filter is_assistant l) = length l.
Proof.
  induction l as [|m l IH]; [done|]. rewrite !filter_cons.
  destruct (role_cases m); repeat case_decide; simpl; try lia;
    try done; by destruct (role_exclusive m).
Qed.

End counting.

Section invariants.
Context (now : nat → N).
Implicit Types (w : World) (x : nat) (e : JsError).

Lemma Inv_initial : Inv initial_world.
Proof. by split. Qed.

Lemma waiting_resume x p w :
  inflight w !! x = Some p → S (waiting (resume x w)) = waiting w.
Proof.
  intros Hx. unfold waiting, resume. simpl.
  rewrite map_size_delete_Some by eauto.
  assert (size (inflight w) ≠ 0); [|lia].
  intros Hz%map_size_empty_iff. by rewrite Hz, lookup_empty in Hx.
Qed.

Lemma fresh_resume x w :
  (∀ y p, inflight w !! y = Some p → y < calls w) →
  ∀ y p, inflight (resume x w) !! y = Some p → y < calls w.
Proof. unfold resume. simpl. intros Hw y p [_ Hy]%lookup_delete_Some. eauto. Qed.

(** The number of the next activation is not in use. *)
Lemma Inv_next w : Inv w → inflight w !! calls w = None.
Proof.
  intros HI. destruct (inflight w !! calls w) eqn:Hx; [|done].
  apply (inv_fresh _ HI) in Hx. lia.
Qed.

(** A send starts an activation with a number no activation has. *)
Lemma Inv_submitted content w : Inv w → Inv (submitted now content w).
Proof.
  intros HI. pose proof (Inv_next w HI) as Hnone. destruct HI as [Hfresh Hu Ha Hs Hc Hr].
  split; unfold users, assistants, waiting, history in *; simpl.
  - intros x p [[-> _]|[_ Hx]]%lookup_insert_Some; [lia|]. apply Hfresh in Hx. lia.
  - rewrite users_snoc. simpl. lia.
  - rewrite assistants_snoc, map_size_insert_None by done. simpl. lia.
  - rewrite length_app. simpl. lia.
  - rewrite assistants_snoc. simpl. lia.
  - rewrite length_app. simpl. lia.
Qed.

(** An activation that ends appends its assistant turn. *)
Lemma Inv_ended x p w w' m (extra : nat) :
  Inv w → inflight w !! x = Some p → is_assistant m →
  history w' = history w ++ [m] →
  inflight w' = delete x (inflight w) →
  calls w' = calls w → sent w' = sent w →
  length (console w') ≤ S (length (console w)) →
  reads w' = extra + S (S (reads w)) →
  Inv w'.
Proof.
  intros [Hfresh Hu Ha Hs Hc Hr] Hx Hm Hh Hi Hcalls Hsent Hcons Hreads.
  pose proof (waiting_resume x p w Hx) as Hwait.
  split; unfold users, assistants, waiting, history, resume in *; simpl in *;
    rewrite ?Hh, ?Hi, ?Hcalls, ?Hsent, ?Hreads.
  - by apply (fresh_resume x w).
  - rewrite users_snoc, decide_False; [lia|]. intros ?. by eapply role_exclusive.
  - rewrite assistants_snoc, decide_True by done. lia.
  - done.
  - rewrite assistants_snoc, decide_True by done. lia.
  - rewrite length_app. simpl. lia.
Qed.

Lemma Inv_failed x p e w :
  Inv w → inflight w !! x = Some p → Inv (failed now e (resume x w)).
Proof.
  intros Hw Hx. eapply (Inv_ended x p w _ _ 0); try done; [auto with js|].
  simpl. rewrite length_app. simpl. lia.
Qed.

Lemma Inv_failed_late x p e w :
  Inv w → inflight w !! x = Some p → Inv (failed now e (on_reads S (resume x w))).
Proof.
  intros Hw Hx. eapply (Inv_ended x p w _ _ 1); try done; [auto with js|].
  simpl. rewrite length_app. simpl. lia.
Qed.

Lemma Inv_answered x p fr hs w :
  Inv w → inflight w !! x = Some p → Inv (answered now fr hs (resume x w)).
Proof.
  intros Hw Hx. eapply (Inv_ended x p w _ _ 0); try done; [auto with js|].
  simpl. lia.
Qed.

(** An activation that moves to its second await stays in flight. *)
Lemma Inv_rephase x p q w :
  Inv w → inflight w !! x = Some p → Inv (on_inflight (insert x q) w).
Proof.
  intros [Hfresh Hu Ha Hs Hc Hr] Hx.
  split; unfold users, assistants, waiting, history in *; simpl; try done.
  - intros y r [[-> _]|[_ Hy]]%lookup_insert_Some; eauto.
  - by rewrite map_size_insert_Some by eauto.
Qed.

(** The configuration events touch no counted field. *)
Lemma Inv_config (f : AppState → AppState) w :
  (∀ a, messages (f a) = messages a) → Inv w → Inv (on_app f w).
Proof.
  intros Hf [Hfresh Hu Ha Hs Hc Hr].
  split; unfold users, assistants, waiting, history in *; simpl; by rewrite ?Hf.
Qed.

(** With [calls] activations of which [waiting] are suspended, the history
    has [2 * calls - waiting] turns. *)
Lemma Inv_length w : Inv w → length (history w) + waiting w = 2 * calls w.
Proof.
  intros [_ Hu Ha _ _ _]. pose proof (users_assistants (history w)) as Hl.
  unfold users, assistants in *. lia.
Qed.

Lemma Step_Inv w ev w' : Step now w ev w' → Inv w → Inv w'.
Proof.
  destruct 1; intros Hw;
    eauto using Inv_submitted, Inv_failed, Inv_failed_late, Inv_answered,
      Inv_rephase, Inv_config.
Qed.

Lemma Steps_Inv w evs w' : Steps now w evs w' → Inv w → Inv w'.
Proof. induction 1; eauto using Step_Inv. Qed.

Lemma reachable_Inv w : reachable now w → Inv w.
Proof.
  apply reachable_ind; [apply Inv_initial|apply Step_Inv].
Qed.

(** ** The history only grows *)

(** What a transition appends to the history. *)
Lemma Step_history w ev w' :
  Step now w ev w' →
  ∃ ms, history w' = history w ++ ms ∧
        length ms = match ev with
                    | EvSend _ => 1
                    | EvFetch _ (inr response) => if ok response then 0 else 1
                    | EvFetch _ (inl _) | EvJson _ _ => 1
                    | _ => 0
                    end.
Proof.
  destruct 1; unfold history; simpl;
    try (by eexists [_]); try (exists []; by rewrite app_nil_r).
  - rewrite H0. by eexists [_].
  - rewrite H0. exists []. by rewrite app_nil_r.
Qed.

(** A turn of the history is made from two consecutive clock reads. *)
Inductive made (k : nat) : Message → Prop :=
| made_user content : made k (userMessage (now k) (now (S k)) content)
| made_reply o : made k (reply (now k) (now (S k)) o).

(** A transition leaves the history and the clock alone, or appends one
    turn made from clock reads not used before. *)
Lemma Step_made w ev w' :
  Step now w ev w' →
  (history w' = history w ∧ reads w' = reads w)
  ∨ ∃ k m, history w' = history w ++ [m] ∧ made k m
           ∧ reads w ≤ k ∧ reads w' = S (S k).
Proof.
  assert (∀ k m, history w' = history w ++ [m] → made k m → reads w ≤ k →
            reads w' = S (S k) → ∃ k m, history w' = history w ++ [m] ∧ made k m
                                         ∧ reads w ≤ k ∧ reads w' = S (S k))
    as turn by eauto 10.
  destruct 1; try (by left); right.
  - by apply (turn (reads w) _ eq_refl (made_user _ _)).
  - by apply (turn (reads w) _ eq_refl (made_reply _ (Failure e))).
  - by apply (turn (reads w) _ eq_refl (made_reply _ (Failure (http_error response)))).
  - by apply (turn (reads w) _ eq_refl (made_reply _ (Failure e))).
  - apply (turn (S (reads w)) _ eq_refl (made_reply _ (Failure e))); simpl; lia.
  - by apply (turn (reads w) _ eq_refl (made_reply _ (Success final_response header_stack))).
Qed.

(** A property of the turns the program makes holds of every turn of the
    history. *)
Lemma reachable_made (P : Message → Prop) w :
  (∀ k m, made k m → P m) → reachable now w → Forall P (history w).
Proof.
  intros HP. revert w. apply (reachable_ind now (λ w, Forall P (history w))); [constructor|].
  intros w ev w' [[-> _]|(k & m & -> & Hm & _)]%Step_made Hw; [done|].
  apply Forall_app. split; [done|]. repeat constructor. by eapply HP.
Qed.

Lemma Step_prefix w ev w' : Step now w ev w' → history w `prefix_of` history w'.
Proof. intros (ms & -> & _)%Step_history. by apply prefix_app_r. Qed.

Lemma Steps_prefix w evs w' : Steps now w evs w' → history w `prefix_of` history w'.
Proof.
  induction 1 as [|w ev w1 evs w' Hstep _ IH]; [done|].
  etrans; [by eapply Step_prefix|done].
Qed.

(** ** The accounting of the history *)

(** C5. In every world the program reaches, each activation of
    [handleSendMessage] has put one user turn in the history and sent one
    request, and each activation that is no longer waiting has put one
    assistant turn there: with [calls] activations of which [waiting] are
    suspended, the history has [2 * calls - waiting] turns. *)
Theorem history_accounting w :
  reachable now w →
  users w = calls w
  ∧ assistants w + waiting w = calls w
  ∧ length (history w) + waiting w = 2 * calls w
  ∧ length (sent w) = calls w
  ∧ (∀ x p, inflight w !! x = Some p → x < calls w).
Proof.
  intros HI%reachable_Inv. pose proof (Inv_length w HI) as Hl.
  destruct HI as [Hfresh Hu Ha Hs _ _]. by split_and!.
Qed.

(** C11. The history is append-only: whatever events happen, the history
    before them is a prefix of the history after them.  No turn is ever
    changed, removed or reordered. *)
Theorem history_append_only w evs w' :
  run now w evs = Some w' → history w `prefix_of` history w'.
Proof. intros Hrun%run_Steps. by eapply Steps_prefix. Qed.

End invariants.

Lemma history_accounting_witness :
  let w := submitted example_clock "hello" initial_world in
  users w = calls w
  ∧ assistants w + waiting w = calls w
  ∧ length (history w) + waiting w = 2 * calls w
  ∧ length (sent w) = calls w
  ∧ (∀ x p, inflight w !! x = Some p → x < calls w).
Proof.
  apply (history_accounting example_clock).
  apply reachable_run. by exists [EvSend "hello"].
Defined.

Lemma history_append_only_witness :
  history initial_world `prefix_of`
  history (failed example_clock (http_error (mkResponse 503))
             (resume 0 (submitted example_clock "hello" initial_world))).
Proof.
  apply (history_append_only example_clock initial_world
           [EvSend "hello"; EvFetch 0 (inr (mkResponse 503))]).
  done.
Defined.
