(* ===== verification/Exchange.v ===== *)
(** * Exchange: what a send and its settling do, end to end

    The theorems of this file are the behaviour of [handleSendMessage] as
    its callers see it: a send always starts an exchange and shows the
    user's turn at once; the exchange ends with exactly one assistant turn,
    the answer or the diagnostic, whatever the network does; no error
    escapes the handler; and an exchange run without interleaving adds
    exactly the user's turn and the reply to the history. *)

From S2P Require Import Prelude Decimal JsValue Config Wire Message Client App Steps Invariants.

(** What an event decides about an exchange: the activation it ends, and how. *)
Definition event_outcome (ev : Event) : option (nat * Outcome) :=
  match ev with
  | EvFetch x fo => pair x <$> fetch_outcome fo
  | EvJson x jo => Some (x, json_outcome jo)
  | _ => None
  end.

Definition event_wasted (ev : Event) : nat :=
  match ev with EvJson _ jo => wasted_reads jo | _ => 0 end.

(** How one exchange ends, given what the two promises settle with. *)
Definition exchange_outcome (fo : Settled Response) (jo : Settled JsValue) : Outcome :=
  default (json_outcome jo) (fetch_outcome fo).

(** The settlings an exchange consumes. *)
Definition exchange_events (x : nat) (fo : Settled Response) (jo : Settled JsValue)
    : list Event :=
  match fetch_outcome fo with
  | Some _ => [EvFetch x fo]
  | None => [EvFetch x fo; EvJson x jo]
  end.

Section exchange.
Context (now : nat → N).
Implicit Types (w : World) (x : nat) (e : JsError) (o : Outcome) (content : string).

(** The world after activation [x] ended with [o], its reply built from the
    clock reads [k] and [k + 1]. *)
Definition ended x o (k : nat) w : World :=
  mkWorld
    (with_messages (λ prev, prev ++ [reply (now k) (now (S k)) o]) (app w))
    (delete x (inflight w)) (calls w) (sent w)
    (match o with
     | Failure e => console w ++ [(console_label, e)]
     | Success _ _ => console w
     end)
    (S (S k)).

Lemma Step_ended w ev w' x o :
  Step now w ev w' → event_outcome ev = Some (x, o) →
  w' = ended x o (event_wasted ev + reads w) w.
Proof.
  destruct 1; simpl; intros Ho; simplify_eq/=; try done.
  - rewrite H0 in Ho. by simplify_eq/=.
  - rewrite H0 in Ho. by simplify_eq/=.
  - by rewrite H0.
  - by rewrite H0, H1.
Qed.

(** The phase in which an activation must wait for an event to resume it. *)
Definition event_phase (ev : Event) : option (nat * Phase) :=
  match ev with
  | EvFetch x _ => Some (x, AwaitFetch)
  | EvJson x _ => Some (x, AwaitJson)
  | _ => None
  end.

Lemma step_enabled w ev x p :
  event_phase ev = Some (x, p) → inflight w !! x = Some p → is_Some (step now w ev).
Proof. destruct ev; simpl; intros; simplify_eq; by rewrite H0. Qed.

Lemma step_ended w ev x p o :
  event_phase ev = Some (x, p) → inflight w !! x = Some p →
  event_outcome ev = Some (x, o) →
  step now w ev = Some (ended x o (event_wasted ev + reads w) w).
Proof.
  intros Hp Hx Ho. destruct (step_enabled w ev x p Hp Hx) as [w' Hstep].
  rewrite Hstep. f_equal. apply Step_ended; [by apply step_sound|done].
Qed.

Lemma step_fetch_ok w x fo :
  inflight w !! x = Some AwaitFetch → fetch_outcome fo = None →
  step now w (EvFetch x fo) = Some (on_inflight (insert x AwaitJson) w).
Proof.
  intros Hx (response & -> & Hok%ok_range)%fetch_outcome_None.
  apply step_complete. by constructor.
Qed.

Lemma ended_history x o k w :
  history (ended x o k w) = history w ++ [reply (now k) (now (S k)) o].
Proof. done. Qed.

Lemma ended_inflight x o k w : inflight (ended x o k w) !! x = None.
Proof. simpl. apply lookup_delete_eq. Qed.

(** ** No error escapes *)

Lemma returns_catch_block e w : returns (catch_block now e) w.
Proof.
  unfold catch_block, console_error, new_Date, setMessages.
  eauto 10 using returns_Date_now with js.
Qed.

(** C16. No activation of [handleSendMessage] ends in a rejected promise:
    each of its three segments returns, whatever the promises settle with,
    every throw inside the [try] being caught. *)
Theorem handlers_never_throw w content x (fo : Settled Response) (jo : Settled JsValue) :
  returns (handleSendMessage now content) w
  ∧ returns (after_fetch now x fo) w
  ∧ returns (after_json now jo) w.
Proof.
  split_and!; [|by apply try_catch_returns, returns_catch_block..].
  unfold handleSendMessage, new_Date, setMessages.
  eauto 20 using returns_Date_now, returns_catch_block with js.
Qed.

(** ** The send *)

(** C7. A send is always possible, with exchanges in flight or not.  It
    appends the user's turn to the history at once, hands one request to
    [fetch], built from the prompt, the topology and the enabled models of
    that moment, suspends a new activation at [await fetch], and leaves
    the configuration and the console alone. *)
Theorem send_starts_exchange w content :
  ∃ w', step now w (EvSend content) = Some w'
    ∧ history w' = history w ++ [userMessage (now (reads w)) (now (S (reads w))) content]
    ∧ sent w' = sent w ++ [run_request content (topology (app w))
                             (enabledModels (models (app w)))]
    ∧ inflight w' = <[calls w := AwaitFetch]> (inflight w)
    ∧ calls w' = S (calls w)
    ∧ topology (app w') = topology (app w)
    ∧ models (app w') = models (app w)
    ∧ console w' = console w.
Proof. eexists. by split_and!. Qed.

(** ** The two ways an exchange ends *)

(** C8. Every failure is reported: when an event ends an exchange in a
    failure with error [e] (the fetch rejected, the status was not 2xx, the
    body did not parse, or the body was null), exactly one assistant turn is
    appended; its text says the backend cannot be reached and quotes the
    message of [e]; it carries no trace; the error goes to the console; and
    the activation is over. *)
Theorem failure_reported w ev w' x e :
  step now w ev = Some w' → event_outcome ev = Some (x, Failure e) →
  ∃ m s, history w' = history w ++ [m]
    ∧ is_assistant m
    ∧ content_text m = Some s
    ∧ str_infix "Unable to connect" s ∧ str_infix (err_message e) s
    ∧ msg_headerStack m = VUndefined
    ∧ console w' = console w ++ [(console_label, e)]
    ∧ inflight w' !! x = None.
Proof.
  intros Hstep%step_sound Ho. rewrite (Step_ended _ _ _ _ _ Hstep Ho).
  set (k := event_wasted ev + reads w).
  destruct (errorMessage_mentions (now k) (now (S k)) e _ eq_refl) as [Hu He].
  exists (errorMessage (now k) (now (S k)) e), (unable_to_connect +:+ error_toString e).
  split_and!; try done. apply lookup_delete_eq.
Qed.

(** C9. Every answer is delivered as it came: when an event ends an
    exchange in a success, exactly one assistant turn is appended; its
    content is the backend's [final_response] when that is truthy and the
    text "Response from MAIRE" otherwise; its [headerStack] is the
    backend's [header_stack], untouched; nothing goes to the console; and
    the activation is over. *)
Theorem answer_delivered w ev w' x fr hs :
  step now w ev = Some w' → event_outcome ev = Some (x, Success fr hs) →
  ∃ m, history w' = history w ++ [m]
    ∧ is_assistant m
    ∧ msg_content m = (if truthy fr then fr else VStr "Response from MAIRE")
    ∧ msg_headerStack m = hs
    ∧ console w' = console w
    ∧ inflight w' !! x = None.
Proof.
  intros Hstep%step_sound Ho. rewrite (Step_ended _ _ _ _ _ Hstep Ho).
  eexists. split_and!; try done. apply lookup_delete_eq.
Qed.

(** A body without [final_response] and [header_stack], the empty
    object [{}] for one, is a success: the assistant turn shows the
    fallback text "Response from MAIRE" and has no trace. *)
Theorem empty_body_fallback w x ms :
  inflight w !! x = Some AwaitJson →
  member "final_response" ms = None → member "header_stack" ms = None →
  ∃ w' m, step now w (EvJson x (inr (VObj ms))) = Some w'
    ∧ history w' = history w ++ [m]
    ∧ is_assistant m
    ∧ msg_content m = VStr "Response from MAIRE"
    ∧ msg_headerStack m = VUndefined
    ∧ console w' = console w.
Proof.
  intros Hx Hfr Hhs.
  rewrite (step_ended w _ x AwaitJson (Success VUndefined VUndefined));
    [|done..|by simpl; rewrite Hfr, Hhs].
  by eexists _, _.
Qed.

(** ** Every exchange ends *)

Lemma run_exchange_events w x fo jo :
  inflight w !! x = Some AwaitFetch →
  run now w (exchange_events x fo jo) =
  Some (ended x (exchange_outcome fo jo)
          (match fetch_outcome fo with Some _ => 0 | None => wasted_reads jo end + reads w)
          w).
Proof.
  intros Hx. unfold exchange_events, exchange_outcome.
  destruct (fetch_outcome fo) as [o|] eqn:Hfo; cbn [run default].
  - rewrite (step_ended w _ x AwaitFetch o); simpl; by rewrite ?Hfo.
  - rewrite step_fetch_ok by done.
    rewrite (step_ended _ _ x AwaitJson (json_outcome jo)); simpl;
      [|done|by rewrite lookup_insert_eq|done].
    unfold ended. simpl. by rewrite delete_insert_eq.
Qed.

(** C18. Whatever the network does, an activation that waits for its
    fetch ends after the settlings of its exchange, at most two events,
    with exactly one more turn in the history: the reply to its outcome.
    The program never waits for anything else. *)
Theorem activation_ends w x (fo : Settled Response) (jo : Settled JsValue) :
  inflight w !! x = Some AwaitFetch →
  ∃ w' m, run now w (exchange_events x fo jo) = Some w'
    ∧ length (exchange_events x fo jo) ≤ 2
    ∧ inflight w' = delete x (inflight w)
    ∧ history w' = history w ++ [m]
    ∧ is_assistant m
    ∧ msg_content m = reply_content (exchange_outcome fo jo)
    ∧ msg_headerStack m = reply_trace (exchange_outcome fo jo).
Proof.
  intros Hx. eexists _, (reply _ _ _). split; [by apply run_exchange_events|].
  split_and!; auto with js.
  unfold exchange_events. case_match; simpl; lia.
Qed.

(** ** An exchange on its own *)

(** A send and the settlings of its exchange, one after the other. *)
Lemma run_send_exchange w content fo jo :
  run now w (EvSend content :: exchange_events (calls w) fo jo) =
  Some (ended (calls w) (exchange_outcome fo jo)
          (match fetch_outcome fo with Some _ => 0 | None => wasted_reads jo end
           + S (S (reads w)))
          (submitted now content w)).
Proof.
  cbn [run step]. rewrite (exec_handleSendMessage now).
  by rewrite run_exchange_events by (simpl; apply lookup_insert_eq).
Qed.

(** The exchange leaves in flight what was in flight before it. *)
Lemma inflight_send_exchange w content o k :
  Inv w → inflight (ended (calls w) o k (submitted now content w)) = inflight w.
Proof. intros HI. simpl. by rewrite delete_insert_eq, delete_id by by apply Inv_next. Qed.

Lemma history_send_exchange w content o k :
  history (ended (calls w) o k (submitted now content w)) =
  history w ++ [userMessage (now (reads w)) (now (S (reads w))) content; reply (now k) (now (S k)) o].
Proof. unfold history. simpl. by rewrite <- app_assoc. Qed.

(** A send followed by the settlings of its own exchange, with nothing
    in between, adds exactly two turns to the history: the user's prompt
    and then the reply to the outcome.  The activations in flight before
    are still in flight after, and one request was sent. *)
Theorem exchange_adds_two w content (fo : Settled Response) (jo : Settled JsValue) :
  Inv w →
  ∃ w' u a, run now w (EvSend content :: exchange_events (calls w) fo jo) = Some w'
    ∧ history w' = history w ++ [u; a]
    ∧ is_user u ∧ msg_content u = VStr content
    ∧ is_assistant a
    ∧ msg_content a = reply_content (exchange_outcome fo jo)
    ∧ msg_headerStack a = reply_trace (exchange_outcome fo jo)
    ∧ inflight w' = inflight w
    ∧ length (sent w') = S (length (sent w)).
Proof.
  intros HI. eexists _, (userMessage _ _ _), (reply _ _ _).
  split; [apply run_send_exchange|]. rewrite history_send_exchange.
  split_and!; auto with js; [by apply inflight_send_exchange|].
  simpl. rewrite length_app. simpl. lia.
Qed.

End exchange.

Lemma failure_reported_witness :
  ∃ m s,
    history (failed example_clock (http_error (mkResponse 503))
               (resume 0 (submitted example_clock "hello" initial_world)))
    = history (submitted example_clock "hello" initial_world) ++ [m]
    ∧ is_assistant m
    ∧ content_text m = Some s
    ∧ str_infix "Unable to connect" s
    ∧ str_infix "HTTP error! status: 503" s
    ∧ msg_headerStack m = VUndefined
    ∧ console (failed example_clock (http_error (mkResponse 503))
                 (resume 0 (submitted example_clock "hello" initial_world)))
      = console (submitted example_clock "hello" initial_world)
        ++ [(console_label, http_error (mkResponse 503))]
    ∧ inflight (failed example_clock (http_error (mkResponse 503))
                  (resume 0 (submitted example_clock "hello" initial_world))) !! 0 = None.
Proof.
  exact (failure_reported example_clock
           (submitted example_clock "hello" initial_world)
           (EvFetch 0 (inr (mkResponse 503)))
           (failed example_clock (http_error (mkResponse 503))
              (resume 0 (submitted example_clock "hello" initial_world)))
           0 (http_error (mkResponse 503)) eq_refl eq_refl).
Defined.

(** The body of the specification's success scenario. *)
Definition scenario_trace : JsValue :=
  VArr [ VObj [("model", VStr "grok"); ("response", VStr "draft")];
         VObj [("model", VStr "claude"); ("response", VStr "hi there")] ].

Definition scenario_body : JsValue :=
  VObj [("final_response", VStr "hi there"); ("header_stack", scenario_trace)].

(** The world in which the first exchange waits for its body. *)
Definition scenario_waiting : World :=
  on_inflight (insert 0 AwaitJson) (submitted example_clock "hello" initial_world).

Lemma answer_delivered_witness :
  let w' := answered example_clock (VStr "hi there") scenario_trace
              (resume 0 scenario_waiting) in
  ∃ m, history w' = history scenario_waiting ++ [m]
    ∧ is_assistant m
    ∧ msg_content m = VStr "hi there"
    ∧ msg_headerStack m = scenario_trace
    ∧ console w' = console scenario_waiting
    ∧ inflight w' !! 0 = None.
Proof.
  exact (answer_delivered example_clock scenario_waiting (EvJson 0 (inr scenario_body))
           _ 0 (VStr "hi there") scenario_trace eq_refl eq_refl).
Defined.

Lemma activation_ends_witness :
  let w := submitted example_clock "hello" initial_world in
  let fo : Settled Response := inr (mkResponse 200) in
  let jo : Settled JsValue := inr (VObj []) in
  ∃ w' m, run example_clock w (exchange_events 0 fo jo) = Some w'
    ∧ length (exchange_events 0 fo jo) ≤ 2
    ∧ inflight w' = delete 0 (inflight w)
    ∧ history w' = history w ++ [m]
    ∧ is_assistant m
    ∧ msg_content m = VStr "Response from MAIRE"
    ∧ msg_headerStack m = VUndefined.
Proof.
  exact (activation_ends example_clock (submitted example_clock "hello" initial_world) 0
           (inr (mkResponse 200)) (inr (VObj [])) eq_refl).
Defined.

Lemma exchange_adds_two_witness :
  let fo : Settled Response := inl (mkError "TypeError" "Failed to fetch") in
  let jo : Settled JsValue := inr VNull in
  ∃ w' u a,
    run example_clock initial_world (EvSend "hello" :: exchange_events 0 fo jo) = Some w'
    ∧ history w' = [u; a]
    ∧ is_user u ∧ msg_content u = VStr "hello"
    ∧ is_assistant a
    ∧ msg_content a = reply_content (Failure (mkError "TypeError" "Failed to fetch"))
    ∧ msg_headerStack a = VUndefined
    ∧ inflight w' = ∅
    ∧ length (sent w') = 1.
Proof.
  exact (exchange_adds_two example_clock initial_world "hello"
           (inl (mkError "TypeError" "Failed to fetch")) (inr VNull) Inv_initial).
Defined.

Lemma empty_body_fallback_witness :
  ∃ w' m, step example_clock scenario_waiting (EvJson 0 (inr (VObj []))) = Some w'
    ∧ history w' = history scenario_waiting ++ [m]
    ∧ is_assistant m
    ∧ msg_content m = VStr "Response from MAIRE"
    ∧ msg_headerStack m = VUndefined
    ∧ console w' = console scenario_waiting.
Proof.
  exact (empty_body_fallback example_clock scenario_waiting 0 [] eq_refl eq_refl eq_refl).
Defined.
