(* ===== verification/Log.v ===== *)
(** * Log: every failure is shown once and logged once

    The catch block of [handleSendMessage] (lines 69-81 of [App.tsx]) does
    two things with an error: it logs it with [console.error] and it
    appends the diagnostic turn.  Nothing else writes to the console and
    nothing else appends an assistant turn but the success path.  So the
    assistant turns of a reachable history are the replies to a list of
    outcomes, one per exchange that ended, in the order they ended, and
    the console holds the failures among these outcomes, in that order:
    no failure is shown without being logged, none is logged twice, and a
    success logs nothing. *)

From S2P Require Import Prelude Decimal JsValue Config Wire Message Client App Steps.
From S2P Require Import Invariants Exchange.

(** What the catch block logs for an outcome. *)
Definition logged_for (o : Outcome) : option (string * JsError) :=
  match o with
  | Failure e => Some (console_label, e)
  | Success _ _ => None
  end.

(** The assistant turns of the history. *)
Definition replies (w : World) : list Message := filter is_assistant (history w).

(** A turn that is the reply to an outcome. *)
Definition reply_to (m : Message) (o : Outcome) : Prop := ∃ n d, m = reply n d o.

(** The outcomes [os] account for the replies and for the console. *)
Record Accounted (w : World) (os : list Outcome) : Prop := mkAccounted {
  acc_replies : Forall2 reply_to (replies w) os;
  acc_console : console w = omap logged_for os;
}.

Section log.
Context (now : nat → N).
Implicit Types (w : World) (o : Outcome) (os : list Outcome).

Lemma replies_snoc_reply (ms : list Message) n d o :
  filter is_assistant (ms ++ [reply n d o]) = filter is_assistant ms ++ [reply n d o].
Proof.
  rewrite filter_app, filter_cons, decide_True by apply reply_is_assistant. done.
Qed.

Lemma replies_snoc_user (ms : list Message) n d content :
  filter is_assistant (ms ++ [userMessage n d content]) = filter is_assistant ms.
Proof. rewrite filter_app, filter_cons, decide_False by done. apply app_nil_r. Qed.

Lemma Accounted_ended x o k w os :
  Accounted w os → Accounted (ended now x o k w) (os ++ [o]).
Proof.
  intros [Hr Hc]. split.
  - unfold replies. rewrite ended_history, replies_snoc_reply.
    apply Forall2_app; [done|]. repeat constructor. by eexists _, _.
  - rewrite omap_app. destruct o; simpl; rewrite Hc; [by rewrite app_nil_r|done].
Qed.

(** An event that ends no exchange leaves the replies and the console. *)
Lemma Step_quiet w ev w' :
  Step now w ev w' → event_outcome ev = None →
  replies w' = replies w ∧ console w' = console w.
Proof.
  destruct 1; simpl; intros Ho; try done.
  - split; [apply replies_snoc_user|done].
  - by rewrite H0 in Ho.
Qed.

Lemma Step_Accounted w ev w' os :
  Step now w ev w' → Accounted w os →
  Accounted w' (os ++ from_option (λ xo, [xo.2]) [] (event_outcome ev)).
Proof.
  intros Hstep Hw. destruct (event_outcome ev) as [[x o]|] eqn:Ho; simpl.
  - rewrite (Step_ended now _ _ _ _ _ Hstep Ho). by apply Accounted_ended.
  - destruct (Step_quiet _ _ _ Hstep Ho) as [Hr Hc], Hw as [Hr' Hc'].
    rewrite app_nil_r. split; by rewrite ?Hr, ?Hc.
Qed.

Lemma reachable_Accounted w : reachable now w → ∃ os, Accounted w os.
Proof.
  revert w. apply (reachable_ind now (λ w, ∃ os, Accounted w os)).
  - exists []. split; [constructor|done].
  - intros w ev w' Hstep [os Hw]. eexists. by eapply Step_Accounted.
Qed.


End log.

