(* ===== verification/Progress.v ===== *)
(** * Progress: every exchange can end, and the history was built turn by turn

    Two consequences of the transitions that the invariants do not state:

    - whatever the network answers, the settlings of the exchanges in
      flight ([drain]) run to the end and leave nothing in flight: the
      program never waits for anything but the network, and a session with
      [n] sends has then [2 * n] turns ([every_exchange_ends]);
    - every prefix of a reachable history is itself a reachable history
      ([prefix_reachable]), so what holds of every history holds at every
      point of it: a reply never comes before its prompt
      ([replies_follow_prompts]). *)

From S2P Require Import Prelude Decimal JsValue Config Wire Message Client App Steps.
From S2P Require Import Invariants Exchange.

(** What the network answers to each exchange. *)
Definition Network : Type := nat → Settled Response * Settled JsValue.

(** The settlings that end activation [x], waiting in phase [p]. *)
Definition settle_with (net : Network) (xp : nat * Phase) : list Event :=
  match xp.2 with
  | AwaitFetch => exchange_events xp.1 (net xp.1).1 (net xp.1).2
  | AwaitJson => [EvJson xp.1 (net xp.1).2]
  end.

(** The settlings that end every activation in flight. *)
Definition drain (net : Network) (w : World) : list Event :=
  map_to_list (inflight w) ≫= settle_with net.

Section progress.
Context (now : nat → N).
Implicit Types (w : World) (x : nat) (p : Phase) (net : Network) (l : list (nat * Phase)).

(** ** Every exchange can end *)

Lemma run_settle_with net x p w :
  inflight w !! x = Some p →
  ∃ o k, run now w (settle_with net (x, p)) = Some (ended now x o k w).
Proof.
  intros Hx. destruct p; cbn [settle_with fst snd].
  - eexists _, _. by apply run_exchange_events.
  - eexists _, _. cbn [run].
    by rewrite (step_ended now w _ x AwaitJson (json_outcome (net x).2)).
Qed.

Lemma run_drain_list net l w :
  NoDup l.*1 → (∀ x p, (x, p) ∈ l → inflight w !! x = Some p) →
  ∃ w', run now w (l ≫= settle_with net) = Some w'
    ∧ (∀ y, inflight w' !! y = if decide (y ∈ l.*1) then None else inflight w !! y)
    ∧ length (history w') = length (history w) + length l
    ∧ calls w' = calls w ∧ sent w' = sent w.
Proof.
  revert w. induction l as [|[x p] l IH]; intros w Hnd Hl.
  { exists w. split_and!; [done| |simpl; lia|done..]. intros y. case_decide as Hy; [|done]. by apply elem_of_nil in Hy. }
  apply NoDup_cons in Hnd as [Hx Hnd].
  destruct (run_settle_with net x p w) as (o & k & Hrun); [apply Hl; left|].
  destruct (IH (ended now x o k w)) as (w' & Hrun' & Hin & Hlen & Hc & Hs); [done| |].
  { intros y q Hy. simpl. rewrite lookup_delete_ne; [apply Hl; by right|].
    intros ->. apply Hx. by apply (list_elem_of_fmap_2 fst _ (y, q)). }
  exists w'. cbn [mbind list_bind]. rewrite run_app, Hrun. split; [done|].
  split_and!; [|rewrite Hlen, ended_history, length_app; simpl; lia|done..].
  intros y. rewrite Hin. simpl. destruct (decide (y = x)) as [->|Hne].
  - rewrite lookup_delete_eq. repeat case_decide; try done; set_solver.
  - rewrite lookup_delete_ne by done. repeat case_decide; try done; set_solver.
Qed.

Lemma run_drain net w :
  ∃ w', run now w (drain net w) = Some w'
    ∧ inflight w' = ∅
    ∧ length (history w') = length (history w) + waiting w
    ∧ calls w' = calls w ∧ sent w' = sent w.
Proof.
  destruct (run_drain_list net (map_to_list (inflight w)) w) as (w' & Hrun & Hin & Hlen & Hc & Hs);
    [apply NoDup_fst_map_to_list|intros x p Hxp; by apply elem_of_map_to_list|].
  exists w'. rewrite length_map_to_list in Hlen. split_and!; [done| |done..].
  apply map_empty. intros y. rewrite Hin. case_decide as Hy; [done|].
  apply eq_None_not_Some. intros [q Hq]. apply Hy.
  apply (list_elem_of_fmap_2 fst _ (y, q)). by apply elem_of_map_to_list.
Qed.

(** ** The history was built turn by turn *)

Lemma prefix_snoc_cases {A} (ms h : list A) (a : A) :
  ms `prefix_of` h ++ [a] → ms `prefix_of` h ∨ ms = h ++ [a].
Proof.
  intros [k Hk]. destruct k as [|b k _] using rev_ind.
  - right. by rewrite app_nil_r in Hk.
  - left. rewrite app_assoc in Hk. apply app_inj_tail in Hk as [-> _]. by exists k.
Qed.

Lemma reachable_step w ev w' : reachable now w → Step now w ev w' → reachable now w'.
Proof. intros Hw Hstep. eapply rtc_r; [done|by exists ev]. Qed.

Lemma prefix_reachable w (ms : list Message) :
  reachable now w → ms `prefix_of` history w → ∃ w0, reachable now w0 ∧ history w0 = ms.
Proof.
  intros Hw. revert ms.
  cut (reachable now w ∧
       ∀ ms, ms `prefix_of` history w → ∃ w0, reachable now w0 ∧ history w0 = ms);
    [by intros [_ ?]|].
  revert w Hw. apply (reachable_ind now (λ w, reachable now w ∧
    ∀ ms, ms `prefix_of` history w → ∃ w0, reachable now w0 ∧ history w0 = ms)).
  - split; [apply rtc_refl|]. change (history initial_world) with (@nil Message).
    intros ms ->%prefix_nil_inv. exists initial_world. split; [apply rtc_refl|done].
  - intros w ev w' Hstep [Hw IH]. pose proof (reachable_step w ev w' Hw Hstep) as Hw'.
    split; [done|]. intros ms Hms.
    destruct (Step_made now w ev w' Hstep) as [[Heq _]|(k & m & Heq & _)];
      rewrite Heq in Hms; [by apply IH|].
    apply prefix_snoc_cases in Hms as [?| ->]; [by apply IH|]. by exists w'.
Qed.

(** C19. Every exchange can end, whatever the network answers: in any
    world the settlings of the activations in flight, one or two each,
    run to the end and leave nothing in flight; no send is lost and none
    is added, and in a world the program reaches the history has then
    two turns per send, with the history before as its prefix. *)
Theorem every_exchange_ends net w :
  reachable now w →
  ∃ w', run now w (drain net w) = Some w'
    ∧ inflight w' = ∅
    ∧ calls w' = calls w ∧ sent w' = sent w
    ∧ length (history w') = 2 * calls w
    ∧ history w `prefix_of` history w'.
Proof.
  intros HI%reachable_Inv. destruct (run_drain net w) as (w' & Hrun & Hin & Hlen & Hc & Hs).
  exists w'. split_and!; [done..| |].
  - rewrite Hlen. by apply Inv_length.
  - apply run_Steps in Hrun. by eapply Steps_prefix.
Qed.

(** C13. A reply never comes before its prompt: at every point of a
    reachable history there are at most as many assistant turns as user
    turns before it, whatever the order in which the network answered. *)
Theorem replies_follow_prompts w (ms : list Message) :
  reachable now w → ms `prefix_of` history w →
  length (filter is_assistant ms) ≤ length (filter is_user ms).
Proof.
  intros Hw Hms. destruct (prefix_reachable w ms Hw Hms) as (w0 & [_ Hu Ha _ _ _]%reachable_Inv & <-).
  unfold users, assistants in *. lia.
Qed.

End progress.

Definition down_network : Network :=
  λ _, (inl (mkError "TypeError" "Failed to fetch"), inl (mkError "SyntaxError" "")).

Lemma every_exchange_ends_witness :
  let w := submitted example_clock "b" (submitted example_clock "a" initial_world) in
  ∃ w', run example_clock w (drain down_network w) = Some w'
    ∧ inflight w' = ∅
    ∧ calls w' = calls w ∧ sent w' = sent w
    ∧ length (history w') = 2 * calls w
    ∧ history w `prefix_of` history w'.
Proof.
  apply (every_exchange_ends example_clock down_network).
  apply reachable_run. by exists [EvSend "a"; EvSend "b"].
Defined.

Lemma replies_follow_prompts_witness :
  let w := submitted example_clock "a" initial_world in
  length (filter is_assistant (history w)) ≤ length (filter is_user (history w)).
Proof.
  apply (replies_follow_prompts example_clock (submitted example_clock "a" initial_world)).
  - apply reachable_run. by exists [EvSend "a"].
  - done.
Defined.
