(* ===== verification/Ids.v ===== *)
(** * Ids: when message ids are unique

    A message id is the decimal text of a clock value: [Date.now()] for a
    user turn, [Date.now() + 1] for an assistant turn.  Nothing in the
    program compares or reserves ids, so whether they are unique depends on
    the clock alone.  [steady] is a condition on the clock under which they
    are: time never goes back, and two milliseconds pass over any two
    consecutive reads (each handler run reads the clock twice, so this says
    that handler runs are two milliseconds apart).  Under it the ids of the
    history are strictly increasing as numbers, hence pairwise different.

    [Findings] shows that a clock that is merely increasing from one
    handler run to the next does not suffice. *)

From stdpp Require Import sorting.
From S2P Require Import Prelude Decimal JsValue Config Wire Message Client App Steps Invariants.

Local Open Scope N_scope.

(** The number an id prints. *)
Definition id_number (m : Message) : option N := parseDecimal (msg_id m).

Definition id_lt (m1 m2 : Message) : Prop :=
  ∃ n1 n2, id_number m1 = Some n1 ∧ id_number m2 = Some n2 ∧ n1 < n2.

Definition steady (now : nat → N) : Prop :=
  (∀ k, now k ≤ now (S k)) ∧ (∀ k, now k + 2 ≤ now (S (S k))).

(** The ids of the history increase, and all lie before the next clock read. *)
Record IdsInv (now : nat → N) (w : World) : Prop := mkIdsInv {
  ids_sorted : StronglySorted id_lt (history w);
  ids_past : Forall (λ m, ∃ n, id_number m = Some n ∧ n < now (reads w)) (history w);
}.

Lemma id_number_userMessage t date content : id_number (userMessage t date content) = Some t.
Proof. apply parseDecimal_toString. Qed.

Lemma id_number_reply t date o : id_number (reply t date o) = Some (t + 1).
Proof. unfold id_number. rewrite reply_fields. apply parseDecimal_toString. Qed.

Lemma id_lt_ne m1 m2 : id_lt m1 m2 → msg_id m1 ≠ msg_id m2.
Proof.
  intros (n1 & n2 & H1 & H2 & Hlt) Heq. unfold id_number in *.
  rewrite Heq in H1. simplify_eq. lia.
Qed.

Lemma sorted_ids_NoDup (l : list Message) :
  StronglySorted id_lt l → NoDup (msg_id <$> l).
Proof.
  induction 1 as [|m l _ IH Hall]; csimpl; constructor; [|done].
  intros (m' & Heq & Hin)%list_elem_of_fmap.
  rewrite Forall_forall in Hall. by apply (id_lt_ne m m'); [apply Hall|].
Qed.

Section ids.
Context (now : nat → N) (Hsteady : steady now).
Implicit Types (w : World) (m : Message).

Lemma steady_mono (j k : nat) : (j ≤ k)%nat → now j ≤ now k.
Proof.
  induction 1 as [|k _ IH]; [done|].
  etrans; [exact IH|apply Hsteady].
Qed.

Lemma IdsInv_initial : IdsInv now initial_world.
Proof. split; constructor. Qed.

(** A turn made from the clock read [k], not before the reads so far, goes
    after every turn of the history. *)
Lemma IdsInv_snoc w w' m (k : nat) n :
  IdsInv now w → (reads w ≤ k)%nat →
  history w' = history w ++ [m] → reads w' = S (S k) →
  id_number m = Some n → now k ≤ n ≤ now k + 1 →
  IdsInv now w'.
Proof.
  intros [Hs Hp] Hk Hh Hr Hm Hn. pose proof (steady_mono _ _ Hk) as Hmono.
  pose proof (proj2 Hsteady k) as Hgap. rewrite Forall_forall in Hp.
  split; rewrite Hh, ?Hr.
  - apply StronglySorted_app_2; [|done|repeat constructor].
    intros m1 m2 (n1 & H1 & Hlt)%Hp ->%list_elem_of_singleton.
    exists n1, n. split_and!; [done..|lia].
  - apply Forall_app. split; [|repeat constructor; exists n; split; [done|lia]].
    apply Forall_forall. intros m1 (n1 & H1 & Hlt)%Hp.
    exists n1. split; [done|lia].
Qed.

Lemma IdsInv_same w w' :
  IdsInv now w → history w' = history w → (reads w ≤ reads w')%nat → IdsInv now w'.
Proof.
  intros [Hs Hp] Hh Hr. pose proof (steady_mono _ _ Hr).
  split; rewrite Hh; [done|]. eapply Forall_impl; [done|].
  intros m (n & ? & ?). exists n. split; [done|lia].
Qed.

(** The id of a turn is the first of its two clock reads, or one more. *)
Lemma made_id (k : nat) m :
  made now k m → ∃ n, id_number m = Some n ∧ now k ≤ n ≤ now k + 1.
Proof.
  destruct 1 as [content|o]; eexists;
    (split; [apply id_number_userMessage || apply id_number_reply|lia]).
Qed.

Lemma Step_IdsInv w ev w' : Step now w ev w' → IdsInv now w → IdsInv now w'.
Proof.
  intros [[Hh Hr]|(k & m & Hh & (n & Hn & Hk)%made_id & Hle & Hr)]%Step_made Hw.
  - eapply IdsInv_same; [done..|lia].
  - by eapply (IdsInv_snoc w w' m k n).
Qed.

Lemma reachable_IdsInv w : reachable now w → IdsInv now w.
Proof.
  apply reachable_ind; [apply IdsInv_initial|apply Step_IdsInv].
Qed.

(** C35. Under a steady clock the ids of the history are strictly
    increasing as numbers, in history order, and therefore pairwise
    different: an id identifies its turn and tells its place. *)
Theorem ids_unique w :
  reachable now w →
  StronglySorted id_lt (history w) ∧ NoDup (msg_id <$> history w).
Proof.
  intros [Hs _]%reachable_IdsInv. split; [done|by apply sorted_ids_NoDup].
Qed.

End ids.

Lemma example_clock_steady : steady example_clock.
Proof. unfold example_clock. split; intros k; lia. Qed.

Lemma ids_unique_witness :
  let w := failed example_clock (http_error (mkResponse 503))
             (resume 0 (submitted example_clock "hello" initial_world)) in
  StronglySorted id_lt (history w) ∧ NoDup (msg_id <$> history w).
Proof.
  apply (ids_unique example_clock example_clock_steady).
  apply reachable_run. by exists [EvSend "hello"; EvFetch 0 (inr (mkResponse 503))].
Defined.
