(* ===== verification/Shape.v ===== *)
(** * Shape: what every turn of the history looks like

    The [Message] interface promises an [id] and a [content] that are
    strings, a role, a [timestamp] and an optional [headerStack].  Nothing
    checks these at run time: the fields hold what the handler put there.
    This file proves what the handler guarantees whatever the backend
    sends ([well_formed]): the id is the decimal numeral of a number; a
    user turn holds the prompt as a string and has no trace; an assistant
    turn holds something truthy, so the chat never shows an empty reply;
    and what it does not guarantee is in [Findings].

    When the clock does not go back ([monotone]), the turns are in
    chronological order and an id is at most one more than its timestamp. *)

From stdpp Require Import sorting.
From S2P Require Import Prelude Decimal JsValue Config Wire Message Client App Steps.
From S2P Require Import Invariants.

Definition well_formed (m : Message) : Prop :=
  (∃ n, msg_id m = toString n)
  ∧ match msg_role m with
    | User => (∃ prompt, msg_content m = VStr prompt) ∧ msg_headerStack m = VUndefined
    | Assistant => truthy (msg_content m) = true
    end.

Definition monotone (now : nat → N) : Prop := ∀ k, (now k ≤ now (S k))%N.

Definition earlier (m1 m2 : Message) : Prop := (msg_timestamp m1 ≤ msg_timestamp m2)%N.

Section shape.
Context (now : nat → N).
Implicit Types (w : World) (m : Message) (k : nat).

Lemma unable_to_connect_ne s : unable_to_connect +:+ s ≠ "".
Proof.
  assert (∃ c t, unable_to_connect = String c t) as (c & t & ->) by (by eexists _, _).
  by rewrite str_app_cons.
Qed.

Lemma truthy_reply_content o : truthy (reply_content o) = true.
Proof.
  destruct o as [fr hs|e]; cbn [reply_content].
  - unfold js_or. by destruct (truthy fr) eqn:Hfr.
  - apply truthy_str, unable_to_connect_ne.
Qed.

Lemma made_well_formed k m : made now k m → well_formed m.
Proof.
  destruct 1 as [content|o]; (split; [rewrite ?reply_fields; by eexists|]); simpl.
  - eauto.
  - rewrite reply_is_assistant, msg_content_reply. apply truthy_reply_content.
Qed.

(** The two clock values of a turn. *)
Lemma made_clock k m :
  made now k m →
  msg_timestamp m = now (S k)
  ∧ ∃ n, msg_id m = toString n ∧ (now k ≤ n ≤ now k + 1)%N.
Proof.
  destruct 1 as [content|o]; (split; [by rewrite ?reply_fields|]).
  - exists (now k). split; [done|lia].
  - exists (now k + 1)%N. rewrite reply_fields. split; [done|lia].
Qed.

Section chronology.
Context (Hmono : monotone now).

Lemma monotone_le (j k : nat) : j ≤ k → (now j ≤ now k)%N.
Proof. induction 1 as [|k _ IH]; [done|]. etrans; [exact IH|apply Hmono]. Qed.

(** The timestamps are in order, and all of them are in the past. *)
Record Chrono (w : World) : Prop := mkChrono {
  chrono_sorted : StronglySorted earlier (history w);
  chrono_past : Forall (λ m, ∃ j, j < reads w ∧ msg_timestamp m = now j) (history w);
}.

Lemma Step_Chrono w ev w' : Step now w ev w' → Chrono w → Chrono w'.
Proof.
  intros [[Hh Hr]|(k & m & Hh & [Ht _]%made_clock & Hle & Hr)]%Step_made [Hs Hp];
    split; rewrite Hh, ?Hr; try done.
  - apply StronglySorted_app_2; [|done|repeat constructor].
    intros m1 m2 Hm1 ->%list_elem_of_singleton.
    rewrite Forall_forall in Hp. destruct (Hp m1 Hm1) as (j & Hj & Hj').
    unfold earlier. rewrite Hj', Ht. apply monotone_le. lia.
  - apply Forall_app. split; [|repeat constructor; exists (S k); split; [lia|done]].
    eapply Forall_impl; [done|]. intros m1 (j & ? & ?). exists j. split; [lia|done].
Qed.

Lemma reachable_Chrono w : reachable now w → Chrono w.
Proof.
  apply (reachable_ind now Chrono); [split; constructor|apply Step_Chrono].
Qed.

End chronology.

(** C24. Every turn of the history is well formed, whatever the backend
    sent: its id is the decimal numeral of a number; a user turn holds
    the prompt, a string, and no trace; the content of an assistant turn
    is truthy, so no reply is shown empty. *)
Theorem history_well_formed w : reachable now w → Forall well_formed (history w).
Proof. apply reachable_made, made_well_formed. Qed.

(** With a clock that does not go back the history is in chronological
    order: timestamps never decrease along the history; and the id of a
    turn is a number no more than its timestamp plus one. *)
Theorem history_chronological w :
  monotone now → reachable now w →
  StronglySorted earlier (history w)
  ∧ Forall (λ m, ∃ n, msg_id m = toString n ∧ (n ≤ msg_timestamp m + 1)%N) (history w).
Proof.
  intros Hmono Hw. split; [by apply reachable_Chrono|].
  apply (reachable_made now); [|done]. intros k m (-> & n & Hn & Hle)%made_clock.
  exists n. split; [done|]. pose proof (Hmono k). lia.
Qed.

End shape.

Lemma example_clock_monotone : monotone example_clock.
Proof. intros k. unfold example_clock. lia. Qed.

Lemma history_well_formed_witness :
  Forall well_formed
    (history (failed example_clock (http_error (mkResponse 503))
                (resume 0 (submitted example_clock "hello" initial_world)))).
Proof.
  apply (history_well_formed example_clock).
  apply reachable_run. by exists [EvSend "hello"; EvFetch 0 (inr (mkResponse 503))].
Defined.

Lemma history_chronological_witness :
  let w := failed example_clock (http_error (mkResponse 503))
             (resume 0 (submitted example_clock "hello" initial_world)) in
  StronglySorted earlier (history w)
  ∧ Forall (λ m, ∃ n, msg_id m = toString n ∧ (n ≤ msg_timestamp m + 1)%N) (history w).
Proof.
  apply (history_chronological example_clock _ example_clock_monotone).
  apply reachable_run. by exists [EvSend "hello"; EvFetch 0 (inr (mkResponse 503))].
Defined.
