(* ===== verification/Frame.v ===== *)
(** * Frame: what each event leaves alone

    The configuration changes only through its two setters, and the setters
    change nothing else; the panel toggle changes only the panel.  The
    requests sent are kept as they were built: the list of requests only
    grows, so a change of configuration reaches the next request and no
    request already sent.  Request number [i] carries the prompt of user
    turn number [i], whatever the interleaving. *)

From S2P Require Import Prelude Decimal JsValue Config Wire Message Client App Steps.
From S2P Require Import Invariants.

(** The events that are not a change of configuration. *)
Definition is_config (ev : Event) : bool :=
  match ev with EvTopology _ | EvModels _ => true | _ => false end.

(** The prompt a request carries. *)
Definition request_prompt (q : Request) : JsError + JsValue :=
  get_prop (req_body q) "original_prompt".

(** The user turns of the history, in order. *)
Definition prompts (w : World) : list Message := filter is_user (history w).

Section frame.
Context (now : nat → N).
Implicit Types (w : World) (ev : Event).

Lemma Step_config_frame w ev w' :
  Step now w ev w' → is_config ev = false →
  topology (app w') = topology (app w) ∧ models (app w') = models (app w).
Proof. by destruct 1. Qed.

Lemma Step_setter_frame w ev w' :
  Step now w ev w' → is_config ev = true →
  history w' = history w ∧ inflight w' = inflight w ∧ sent w' = sent w
  ∧ console w' = console w ∧ reads w' = reads w
  ∧ isConfigOpen (app w') = isConfigOpen (app w).
Proof. by destruct 1. Qed.

(** What a transition adds to the requests: the request of a send. *)
Lemma Step_sent w ev w' :
  Step now w ev w' →
  sent w' = sent w ++
    match ev with
    | EvSend content =>
        [run_request content (topology (app w)) (enabledModels (models (app w)))]
    | _ => []
    end.
Proof. destruct 1; simpl; by rewrite ?app_nil_r. Qed.

Lemma Step_sent_prefix w ev w' : Step now w ev w' → sent w `prefix_of` sent w'.
Proof. intros ->%Step_sent. by apply prefix_app_r. Qed.

Lemma Steps_sent_prefix w evs w' : Steps now w evs w' → sent w `prefix_of` sent w'.
Proof.
  induction 1 as [|w ev w1 evs w' Hstep _ IH]; [done|].
  etrans; [by eapply Step_sent_prefix|done].
Qed.

(** What a transition adds to the user turns: the prompt of a send. *)
Lemma Step_prompts w ev w' :
  Step now w ev w' →
  prompts w' = prompts w ++
    match ev with
    | EvSend content => [userMessage (now (reads w)) (now (S (reads w))) content]
    | _ => []
    end.
Proof.
  destruct 1; unfold prompts, history; simpl;
    rewrite ?filter_app, ?filter_cons, ?filter_nil, ?app_nil_r; try done;
    case_decide as Hu; try done; by destruct Hu.
Qed.

Definition carries (q : Request) (m : Message) : Prop :=
  request_prompt q = inr (msg_content m).

Lemma Step_carries w ev w' :
  Step now w ev w' → Forall2 carries (sent w) (prompts w) →
  Forall2 carries (sent w') (prompts w').
Proof.
  intros Hstep Hw. rewrite (Step_sent _ _ _ Hstep), (Step_prompts _ _ _ Hstep).
  apply Forall2_app; [done|]. destruct ev; repeat constructor.
Qed.

Lemma reachable_carries w : reachable now w → Forall2 carries (sent w) (prompts w).
Proof.
  apply (reachable_ind now (λ w, Forall2 carries (sent w) (prompts w)));
    [constructor|apply Step_carries].
Qed.

(** The configuration changes only through its setters, and the setters
    change only the configuration: an event that is not [setTopology] or
    [setModels] leaves the topology and the roster as they are; these two
    leave the history, the exchanges in flight, the requests sent, the
    console and the panel as they are. *)
Theorem config_frame w ev w' :
  step now w ev = Some w' →
  if is_config ev
  then history w' = history w ∧ inflight w' = inflight w ∧ sent w' = sent w
       ∧ console w' = console w ∧ isConfigOpen (app w') = isConfigOpen (app w)
  else topology (app w') = topology (app w) ∧ models (app w') = models (app w).
Proof.
  intros Hstep%step_sound. destruct (is_config ev) eqn:Hc.
  - destruct (Step_setter_frame _ _ _ Hstep Hc) as (? & ? & ? & ? & _ & ?). done.
  - by apply (Step_config_frame w ev).
Qed.

(** A request is kept as it was built: whatever happens after a send,
    changes of topology and roster included, the requests sent before are
    still the first requests of the list, unchanged and in order. *)
Theorem request_frozen w evs w' :
  run now w evs = Some w' → sent w `prefix_of` sent w'.
Proof. intros Hrun%run_Steps. by eapply Steps_sent_prefix. Qed.

(** C26. Requests and prompts correspond: in every world the program reaches,
    there are as many requests sent as user turns in the history, and
    request number [i] carries the text of user turn number [i] as its
    [original_prompt]. *)
Theorem requests_match_prompts w :
  reachable now w →
  length (sent w) = length (prompts w)
  ∧ ∀ i q m, sent w !! i = Some q → prompts w !! i = Some m →
      request_prompt q = inr (msg_content m).
Proof.
  intros Hw%reachable_carries. split; [by eapply Forall2_length|].
  intros i q m Hq Hm. by eapply (Forall2_lookup_lr carries).
Qed.

(** A change of configuration reaches the next request: a send after
    [setTopology t] and [setModels ms] sends [t] and the enabled ids of
    [ms], whatever the configuration was before. *)
Theorem next_request_uses_config w t ms content :
  ∃ w', run now w [EvTopology t; EvModels ms; EvSend content] = Some w'
    ∧ sent w' = sent w ++ [run_request content t (enabledModels ms)]
    ∧ history w' = history w ++ [userMessage (now (reads w)) (now (S (reads w))) content].
Proof. by eexists. Qed.

(** The number of active models the chat panel shows is the number of
    ids the next request carries: what [App] displays (line 104) and what
    it sends (line 39) are computed from the same roster. *)
Theorem displayed_count_is_sent w content :
  ∃ w' ids, step now w (EvSend content) = Some w'
    ∧ sent w' = sent w ++ [run_request content (chat_topology (render (app w))) ids]
    ∧ length ids = chat_activeModels (render (app w)).
Proof.
  eexists _, _. split; [done|]. split; [done|]. simpl. by rewrite activeModels_length.
Qed.

End frame.

Lemma config_frame_witness :
  history (on_app (with_topology "parallel") initial_world) = history initial_world
  ∧ inflight (on_app (with_topology "parallel") initial_world) = inflight initial_world
  ∧ sent (on_app (with_topology "parallel") initial_world) = sent initial_world
  ∧ console (on_app (with_topology "parallel") initial_world) = console initial_world
  ∧ isConfigOpen (app (on_app (with_topology "parallel") initial_world))
    = isConfigOpen (app initial_world).
Proof.
  exact (config_frame example_clock initial_world (EvTopology "parallel") _ eq_refl).
Defined.

Lemma request_frozen_witness :
  sent (submitted example_clock "hello" initial_world)
  `prefix_of`
  sent (on_app (with_models [])
          (on_app (with_topology "parallel") (submitted example_clock "hello" initial_world))).
Proof.
  exact (request_frozen example_clock (submitted example_clock "hello" initial_world)
           [EvTopology "parallel"; EvModels []] _ eq_refl).
Defined.

Lemma requests_match_prompts_witness :
  let w := submitted example_clock "hello" initial_world in
  length (sent w) = length (prompts w)
  ∧ ∀ i q m, sent w !! i = Some q → prompts w !! i = Some m →
      request_prompt q = inr (msg_content m).
Proof.
  apply (requests_match_prompts example_clock).
  apply reachable_run. by exists [EvSend "hello"].
Defined.
