(* ===== verification/Closure.v ===== *)
(** * Closure: the handlers read the state of their render

    [handleSendMessage] and the toggle of the header are closures created
    by a render of [App]: the [models], [topology] and [isConfigOpen] they
    mention are the constants of that render, not the state cells.  [App]
    models them as reading the current state.  This file models them as
    the source has them, with what they captured ([Captured]) as a
    parameter, on a page that holds the world and the handlers of its last
    render ([Page]), and proves the two models equal when a render follows
    every event, which is what React does for the events of the user.
    Without the render they differ ([stale_toggle], [stale_send]), but in
    the panel flag and in what the requests carry only: the history is
    updated by a function of the state cell, so no turn is lost
    ([stale_closures_lose_nothing]).

    The settlings of promises and the two setters passed to [ConfigPanel]
    mention no state of the render, so they are the handlers of [App]. *)

From S2P Require Import Prelude Decimal JsValue Config Wire Message Client App Steps.
From S2P Require Import Invariants.

(** What the handlers of a render captured. *)
Record Captured : Type := mkCaptured {
  cap_topology : Topology;
  cap_models : list LLMModel;
  cap_isConfigOpen : bool;
}.

Definition capture (a : AppState) : Captured :=
  mkCaptured (topology a) (models a) (isConfigOpen a).

(** The page: the world and the handlers of the last render. *)
Record Page : Type := mkPage {
  page_world : World;
  page_handlers : Captured;
}.

Inductive PageEvent : Type :=
| Dispatch (ev : Event)
| Render.

(** The page after a render: the handlers are those of the current state. *)
Definition rendered (w : World) : Page := mkPage w (capture (app w)).

(** The events of a list of page events, the renders left out. *)
Definition dispatched (pevs : list PageEvent) : list Event :=
  omap (λ pev, match pev with Dispatch ev => Some ev | Render => None end) pevs.

(** Two worlds that differ at most in the panel flag and in what the
    requests sent carry: the same configuration, the same turns, the same
    activations in flight, as many requests, the same log and clock. *)
Record alike (w1 w2 : World) : Prop := mkAlike {
  alike_topology : topology (app w1) = topology (app w2);
  alike_models : models (app w1) = models (app w2);
  alike_messages : messages (app w1) = messages (app w2);
  alike_inflight : inflight w1 = inflight w2;
  alike_calls : calls w1 = calls w2;
  alike_sent : length (sent w1) = length (sent w2);
  alike_console : console w1 = console w2;
  alike_reads : reads w1 = reads w2;
}.

(** Both stuck, or both in worlds that are alike. *)
Definition both (o1 o2 : option World) : Prop :=
  match o1, o2 with
  | Some w1, Some w2 => alike w1 w2
  | None, None => True
  | _, _ => False
  end.

Section closure.
Context (now : nat → N).
Implicit Types (w : World) (c : Captured) (p : Page) (ev : Event) (content : string).

(** Lines 28-52, [models] and [topology] being constants of the render. *)
Definition handleSendMessage_in c content : Eff World JsError unit :=
  t <- Date_now now ;;
  date <- new_Date now ;;
  setMessages (λ prev, prev ++ [userMessage t date content]) ;;
  x <- gets calls ;;
  modify (on_calls S) ;;
  try_catch
    (fetch (run_request content (cap_topology c) (enabledModels (cap_models c))) ;;
     await x AwaitFetch)
    (catch_block now).

(** Line 88, [isConfigOpen] being a constant of the render. *)
Definition onToggleConfig_in c : Eff World JsError unit :=
  setIsConfigOpen (negb (cap_isConfigOpen c)).

Definition dispatch_in c w ev : option World :=
  match ev with
  | EvSend content => Some (exec (handleSendMessage_in c content) w)
  | EvToggleConfig => Some (exec (onToggleConfig_in c) w)
  | _ => step now w ev
  end.

Definition page_step p (pev : PageEvent) : option Page :=
  match pev with
  | Render => Some (rendered (page_world p))
  | Dispatch ev =>
      w' ← dispatch_in (page_handlers p) (page_world p) ev;
      Some (mkPage w' (page_handlers p))
  end.

Fixpoint page_run p (pevs : list PageEvent) : option Page :=
  match pevs with
  | [] => Some p
  | pev :: pevs' => p' ← page_step p pev; page_run p' pevs'
  end.

(** The events of the user as React runs them: a render after each. *)
Definition with_renders (evs : list Event) : list PageEvent :=
  evs ≫= λ ev, [Dispatch ev; Render].

(** With the handlers of the current state, a dispatch is a step. *)
Lemma dispatch_in_capture w ev : dispatch_in (capture (app w)) w ev = step now w ev.
Proof. by destruct ev. Qed.

Lemma page_step_dispatch w ev :
  page_step (rendered w) (Dispatch ev)
  = (λ w', mkPage w' (capture (app w))) <$> step now w ev.
Proof.
  unfold page_step, rendered; cbn [page_world page_handlers].
  rewrite dispatch_in_capture. by destruct (step now w ev).
Qed.

Lemma page_run_cons p pev pevs :
  page_run p (pev :: pevs) = page_step p pev ≫= λ p', page_run p' pevs.
Proof. done. Qed.

Lemma page_run_with_renders w evs :
  page_run (rendered w) (with_renders evs) = rendered <$> run now w evs.
Proof.
  revert w. induction evs as [|ev evs IH]; intros w; [done|].
  change (with_renders (ev :: evs)) with (Dispatch ev :: Render :: with_renders evs).
  rewrite page_run_cons, page_step_dispatch. cbn [run].
  destruct (step now w ev) as [w'|]; [apply IH|done].
Qed.


(** Two toggles with no render between them close the panel: both read
    the flag of the same render. *)
Example stale_toggle :
  (λ p, isConfigOpen (app (page_world p)))
    <$> page_run (rendered initial_world) [Dispatch EvToggleConfig; Dispatch EvToggleConfig]
  = Some false
  ∧ (λ w, isConfigOpen (app w)) <$> run now initial_world [EvToggleConfig; EvToggleConfig]
    = Some true.
Proof. done. Qed.

(** A send dispatched before the render that follows a change of roster
    sends the ids of the old roster. *)
Example stale_send :
  (λ p, req_body <$> sent (page_world p))
    <$> page_run (rendered initial_world) [Dispatch (EvModels []); Dispatch (EvSend "hi")]
  = Some [request_payload "hi" "standard-chain" ["grok"; "claude"; "gpt-4"]].
Proof. done. Qed.

(** ** Stale closures lose no turn

    The history is updated by [setMessages((prev) => ...)], a function of
    the state cell and not of the [messages] of the render, so a handler
    that runs with the closures of an old render still appends to the
    current history. *)

Lemma alike_refl w : alike w w.
Proof. by split. Qed.

Lemma alike_sym w1 w2 : alike w1 w2 → alike w2 w1.
Proof. intros []. by split. Qed.

(** A transition does the same to worlds that are alike. *)
Lemma alike_Step w1 w2 ev w1' :
  alike w1 w2 → Step now w1 ev w1' → ∃ w2', Step now w2 ev w2' ∧ alike w1' w2'.
Proof.
  intros [Ht Hm Hh Hi Hc Hs Hl Hr] Hstep.
  destruct Hstep;
    (eexists; split; [econstructor; rewrite <- ?Hi; eassumption|];
     split; simpl; rewrite ?length_app; simpl; congruence).
Qed.

Lemma alike_step_Some w1 w2 ev w1' :
  alike w1 w2 → step now w1 ev = Some w1' →
  ∃ w2', step now w2 ev = Some w2' ∧ alike w1' w2'.
Proof.
  intros Hw H1%step_sound. destruct (alike_Step _ _ _ _ Hw H1) as (w2' & H2%step_complete & ?).
  by exists w2'.
Qed.

Lemma alike_step w1 w2 ev : alike w1 w2 → both (step now w1 ev) (step now w2 ev).
Proof.
  intros Hw. pose proof (alike_sym _ _ Hw) as Hw'.
  destruct (step now w1 ev) as [w1'|] eqn:H1.
  - destruct (alike_step_Some _ _ _ _ Hw H1) as (w2' & -> & ?). done.
  - destruct (step now w2 ev) as [w2'|] eqn:H2; [|done].
    destruct (alike_step_Some _ _ _ _ Hw' H2) as (? & ? & _). congruence.
Qed.

Lemma alike_dispatch c w1 w2 ev :
  alike w1 w2 → both (dispatch_in c w1 ev) (step now w2 ev).
Proof.
  intros Hw. destruct ev; try (by apply alike_step).
  - destruct Hw. split; simpl; rewrite ?length_app; simpl; congruence.
  - destruct Hw. by split.
Qed.

Lemma alike_page_run p w pevs :
  alike (page_world p) w →
  both (page_world <$> page_run p pevs) (run now w (dispatched pevs)).
Proof.
  revert p w. induction pevs as [|[ev|] pevs IH]; intros p w Hw; [done|..].
  - change (dispatched (Dispatch ev :: pevs)) with (ev :: dispatched pevs).
    rewrite page_run_cons. cbn [page_step run].
    pose proof (alike_dispatch (page_handlers p) (page_world p) w ev Hw) as Hstep.
    destruct (dispatch_in _ _ ev) as [w1|], (step now w ev) as [w2|]; try done.
    by apply (IH (mkPage w1 (page_handlers p))).
  - change (dispatched (Render :: pevs)) with (dispatched pevs).
    rewrite page_run_cons. by apply (IH (rendered (page_world p))).
Qed.

(** C22. Stale closures lose no turn.  However the renders fall between
    the events, after every event or never, the page and the program
    that reads the current state are stuck on the same events and reach
    worlds with the same configuration, the same history, the same
    activations in flight, as many requests, the same log and the same
    clock: a handler of an old render can send an old configuration and
    set the panel wrongly, and nothing else. *)
Theorem stale_closures_lose_nothing w pevs :
  match page_run (rendered w) pevs, run now w (dispatched pevs) with
  | Some p, Some w' =>
      messages (app (page_world p)) = messages (app w')
      ∧ inflight (page_world p) = inflight w'
      ∧ topology (app (page_world p)) = topology (app w')
      ∧ models (app (page_world p)) = models (app w')
      ∧ length (sent (page_world p)) = length (sent w')
      ∧ console (page_world p) = console w'
  | None, None => True
  | _, _ => False
  end.
Proof.
  pose proof (alike_page_run (rendered w) w pevs (alike_refl w)) as Hrun.
  destruct (page_run _ pevs) as [p|], (run now w _) as [w'|]; try done.
  by destruct Hrun.
Qed.

End closure.
