(* ===== verification/Serial.v ===== *)
(** * Serial: one exchange at a time

    The specification states as an invariant of the history that every
    user turn is followed immediately by its assistant turn, "no
    interleaving of concurrent submissions" being considered (section 3).
    The program does not enforce this ([Findings.replies_out_of_order]);
    this file proves it for the runs in which the user is patient: a
    prompt is sent only when no exchange is in flight.

    [serial_run] runs a list of events and stops at the first impatient
    send.  [dialogue] is the shape of a history made of exchanges one after
    the other: user, assistant, user, assistant and so on, ending with a
    user turn while its exchange is in flight. *)

From S2P Require Import Prelude Decimal JsValue Config Wire Message Client App Steps.
From S2P Require Import Invariants.

(** The user waits for the reply before sending again. *)
Definition patient (w : World) (ev : Event) : bool :=
  match ev with
  | EvSend _ => bool_decide (inflight w = ∅)
  | _ => true
  end.

Fixpoint dialogue (l : list Message) : Prop :=
  match l with
  | [] => True
  | [u] => is_user u
  | u :: a :: l' => is_user u ∧ is_assistant a ∧ dialogue l'
  end.

Section serial.
Context (now : nat → N).
Implicit Types (w : World) (ev : Event) (l : list Message) (m u a : Message).

Fixpoint serial_run (w : World) (evs : list Event) : option World :=
  match evs with
  | [] => Some w
  | ev :: evs' =>
      if patient w ev then w' ← step now w ev; serial_run w' evs' else None
  end.

Record Serial (w : World) : Prop := mkSerial {
  serial_inv : Inv w;
  serial_one : waiting w ≤ 1;
  serial_dialogue : dialogue (history w);
}.

(** ** Dialogues *)

Lemma dialogue_snoc_user l u n :
  dialogue l → length l = 2 * n → is_user u → dialogue (l ++ [u]).
Proof.
  revert n. induction l as [|x|x y l IH] using list_pair_ind; intros n; simpl.
  - done.
  - lia.
  - intros (? & ? & ?) Hn ?. split_and!; [done..|]. apply (IH (n - 1)); [done|lia|done].
Qed.

Lemma dialogue_snoc_assistant l a n :
  dialogue l → length l = 2 * n + 1 → is_assistant a → dialogue (l ++ [a]).
Proof.
  revert n. induction l as [|x|x y l IH] using list_pair_ind; intros n; simpl.
  - lia.
  - done.
  - intros (? & ? & ?) Hn ?. split_and!; [done..|]. apply (IH (n - 1)); [done|lia|done].
Qed.

(** In a dialogue the turns at even positions are the user's, the turns at
    odd positions the assistant's. *)
Lemma dialogue_lookup l i m :
  dialogue l → l !! i = Some m → if Nat.even i then is_user m else is_assistant m.
Proof.
  revert i. induction l as [|x|x y l IH] using list_pair_ind; intros i; simpl.
  - done.
  - destruct i as [|i]; [naive_solver|done].
  - intros (? & ? & ?). destruct i as [|[|i]]; [naive_solver..|]. simpl. by apply IH.
Qed.

(** ** The invariant of the patient runs *)

Lemma Serial_initial : Serial initial_world.
Proof. split; [apply Inv_initial|vm_compute; lia|done]. Qed.

Lemma Serial_submitted content w :
  Serial w → inflight w = ∅ → Serial (submitted now content w).
Proof.
  intros [HI Hone Hd] Hempty. pose proof (Inv_length w HI) as Hl.
  assert (waiting w = 0) as Hw by (unfold waiting; by rewrite Hempty).
  split; [by apply Inv_submitted| |].
  - unfold waiting. simpl. by rewrite Hempty, insert_empty, map_size_singleton.
  - apply (dialogue_snoc_user (history w) _ (calls w)); [done|lia|done].
Qed.

(** The one exchange in flight ends with an assistant turn. *)
Lemma Serial_ended x p w w' a :
  Serial w → inflight w !! x = Some p → Inv w' →
  history w' = history w ++ [a] → is_assistant a →
  inflight w' = delete x (inflight w) →
  Serial w'.
Proof.
  intros [HI Hone Hd] Hx HI' Hh Ha Hi. pose proof (Inv_length w HI) as Hl.
  pose proof (waiting_resume x p w Hx) as Hw. unfold waiting, resume in *. simpl in Hw.
  split; [done| |].
  - unfold waiting. rewrite Hi. lia.
  - rewrite Hh. apply (dialogue_snoc_assistant _ _ (calls w - 1)); [done|lia|done].
Qed.

Lemma Serial_same w w' :
  Serial w → Inv w' → history w' = history w → waiting w' = waiting w → Serial w'.
Proof. intros [HI Hone Hd] HI' Hh Hw. split; [done|lia|by rewrite Hh]. Qed.

Lemma Step_Serial w ev w' :
  Step now w ev w' → patient w ev = true → Serial w → Serial w'.
Proof.
  intros Hstep Hp Hw. pose proof (Step_Inv now _ _ _ Hstep (serial_inv _ Hw)) as HI'.
  destruct Hstep; simpl in Hp;
    try (by eapply Serial_ended; eauto with js);
    try (by eapply Serial_same; eauto).
  - apply Serial_submitted; [done|]. by apply bool_decide_eq_true in Hp.
  - eapply Serial_same; eauto. unfold waiting. simpl.
    by rewrite map_size_insert_Some by eauto.
Qed.

Lemma serial_run_run w evs w' : serial_run w evs = Some w' → run now w evs = Some w'.
Proof.
  revert w. induction evs as [|ev evs IH]; intros w; simpl; [done|].
  destruct (patient w ev); [|done]. destruct (step now w ev); simpl; [apply IH|done].
Qed.

Lemma serial_run_Serial w evs w' : serial_run w evs = Some w' → Serial w → Serial w'.
Proof.
  revert w. induction evs as [|ev evs IH]; intros w; simpl; [by intros [= <-]|].
  destruct (patient w ev) eqn:Hp; [|done].
  destruct (step now w ev) as [w1|] eqn:Hstep; simpl; [|done].
  intros Hrun Hw. apply (IH w1 Hrun). apply (Step_Serial w ev); [by apply step_sound|done..].
Qed.

(** C25. When the user sends a prompt only while no exchange is in flight,
    the history is a dialogue: the turns at even positions are user turns
    and the turns at odd positions assistant turns, so every user turn but
    a last one still waiting is followed immediately by its assistant
    turn; at most one exchange is in flight, and the history has two turns
    per exchange, less one while the last exchange is in flight. *)
Theorem serial_history evs w :
  serial_run initial_world evs = Some w →
  (∀ i m, history w !! i = Some m → if Nat.even i then is_user m else is_assistant m)
  ∧ waiting w ≤ 1
  ∧ length (history w) + waiting w = 2 * calls w.
Proof.
  intros [HI Hone Hd]%serial_run_Serial; [|apply Serial_initial].
  split_and!; [|done|by apply Inv_length]. intros i m. by apply dialogue_lookup.
Qed.

(** A patient run is a run: [serial_run] takes the transitions of
    [run], and refuses only the sends made while an exchange is in flight. *)
Theorem serial_run_spec w evs w' :
  serial_run w evs = Some w' ↔
  run now w evs = Some w'
  ∧ ∀ evs1 content evs2 w1, evs = evs1 ++ EvSend content :: evs2 →
      run now w evs1 = Some w1 → inflight w1 = ∅.
Proof.
  revert w. induction evs as [|ev evs IH]; intros w; simpl.
  { split; [intros [= <-]; split; [done|]|by intros []]. by intros [|??] ???. }
  destruct (patient w ev) eqn:Hp, (step now w ev) as [w2|] eqn:Hstep; simpl.
  - rewrite IH. split; intros [Hrun Hq]; (split; [done|]).
    + intros [|ev1 evs1] content evs2 w1 [= ??]; simplify_eq/=.
      * intros [= <-]. by apply bool_decide_eq_true in Hp.
      * rewrite Hstep. by eapply Hq.
    + intros evs1 content evs2 w1 -> Hrun1.
      apply (Hq (ev :: evs1) content evs2); [done|]. simpl. by rewrite Hstep.
  - split; [done|]. by intros [].
  - split; [done|]. intros [_ Hq]. destruct ev; try done. simpl in Hp.
    apply bool_decide_eq_false in Hp. destruct Hp. by apply (Hq [] content evs w).
  - split; [done|]. by intros [].
Qed.

End serial.

Lemma serial_history_witness :
  let w := answered example_clock (VStr "hi") VUndefined
             (resume 0 (on_inflight (insert 0 AwaitJson)
                          (submitted example_clock "hello" initial_world))) in
  (∀ i m, history w !! i = Some m → if Nat.even i then is_user m else is_assistant m)
  ∧ waiting w ≤ 1
  ∧ length (history w) + waiting w = 2 * calls w.
Proof.
  apply (serial_history example_clock
           [EvSend "hello"; EvFetch 0 (inr (mkResponse 200));
            EvJson 0 (inr (VObj [("final_response", VStr "hi")]))]).
  vm_compute. reflexivity.
Defined.
