(* ===== verification/JsString.v ===== *)
(** * JsString: the strings of the platform and [String.prototype.trim]

    [ChatInput.tsx] uses one operation of its text: [value.trim()], as a
    condition (lines 16 and 38).  This file models it.

    [trim] removes white space and line terminators from both ends of a
    sequence of characters; it is written once, for any type of
    characters and any set of white space ([Section trim]), with what it
    is proved to be: the text between the two blank margins.

    A string of the platform is a sequence of UTF-16 code units.  The
    characters [trim] removes are ECMAScript's WhiteSpace and
    LineTerminator ([is_space]): the codes 9 to 13, 32, 160, 5760, 8192
    to 8202, 8232, 8233, 8239, 8287, 12288 and 65279.  All are single
    code units, and no half of a surrogate pair is among them, so [trim]
    looks at one code unit at a time.

    [JsString] is the interface the component is verified against: a
    type of texts with [trim], a test for the empty text and the law that
    ties them, [js_trim_blank].  It has two instances: the code units of
    the platform ([utf16_JsString]) and the 8-bit strings the rest of the
    development uses for prompts ([latin1_JsString]), which is the first
    restricted to the codes below 256 ([trim_units]). *)

From S2P Require Import Prelude.

(** ** [trim], for any characters *)

Section trim.
Context {C : Type} (space : C → bool).
Implicit Types (s t l r : list C) (c : C).

Fixpoint blank s : bool :=
  match s with
  | [] => true
  | c :: s' => space c && blank s'
  end.

Fixpoint trimStart s : list C :=
  match s with
  | [] => []
  | c :: s' => if space c then trimStart s' else s
  end.

Fixpoint trimEnd s : list C :=
  match s with
  | [] => []
  | c :: s' =>
      match trimEnd s' with
      | [] => if space c then [] else [c]
      | t => c :: t
      end
  end.

Definition trim s : list C := trimEnd (trimStart s).

(** What a trimmed text looks like: no white space at either end. *)
Definition starts_space s : bool :=
  match s with [] => false | c :: _ => space c end.

Fixpoint ends_space s : bool :=
  match s with
  | [] => false
  | [c] => space c
  | _ :: s' => ends_space s'
  end.

Definition trimmed s : Prop := starts_space s = false ∧ ends_space s = false.

Lemma blank_app l r : blank (l ++ r) = blank l && blank r.
Proof. induction l as [|c l IH]; [done|]. simpl. rewrite IH. by destruct (space c). Qed.

Lemma trimStart_app_blank l s : blank l = true → trimStart (l ++ s) = trimStart s.
Proof. induction l as [|c l IH]; [done|]. simpl. intros [-> Hl]%andb_prop. auto. Qed.

Lemma trimStart_blank s : blank s = true → trimStart s = [].
Proof. intros Hs. rewrite <- (app_nil_r s). by rewrite trimStart_app_blank. Qed.

Lemma trimStart_fixed s : starts_space s = false → trimStart s = s.
Proof. destruct s as [|c s]; [done|]. simpl. by intros ->. Qed.

(** [trimStart] removes a blank prefix and stops at the first character
    that is not white space. *)
Lemma trimStart_split s :
  ∃ l, s = l ++ trimStart s ∧ blank l = true ∧ starts_space (trimStart s) = false.
Proof.
  induction s as [|c s (l & Hs & Hl & Ht)]; [by exists []|]. simpl.
  destruct (space c) eqn:Hc.
  - exists (c :: l). simpl. by rewrite <- Hs, Hc.
  - exists []. simpl. by rewrite Hc.
Qed.

Lemma trimEnd_blank s : blank s = true → trimEnd s = [].
Proof. induction s as [|c s IH]; [done|]. simpl. intros [-> Hs]%andb_prop. by rewrite IH. Qed.

Lemma trimEnd_app_blank s r : blank r = true → trimEnd (s ++ r) = trimEnd s.
Proof.
  intros Hr. induction s as [|c s IH]; [by apply trimEnd_blank|]. simpl. by rewrite IH.
Qed.

Lemma trimEnd_fixed s : ends_space s = false → trimEnd s = s.
Proof.
  induction s as [|c s IH]; [done|]. simpl.
  destruct s as [|c' s]; [by intros ->|]. intros Hs. by rewrite IH.
Qed.

Lemma ends_space_trimEnd s : ends_space (trimEnd s) = false.
Proof.
  induction s as [|c s IH]; [done|]. simpl.
  destruct (trimEnd s) as [|c' t]; [|done].
  by destruct (space c) eqn:Hc; simpl; rewrite ?Hc.
Qed.

(** [trimEnd] removes a blank suffix. *)
Lemma trimEnd_split s : ∃ r, s = trimEnd s ++ r ∧ blank r = true.
Proof.
  induction s as [|c s (r & Hs & Hr)]; [by exists []|]. simpl.
  destruct (trimEnd s) as [|c' t] eqn:Ht.
  - simpl in Hs. subst s. destruct (space c) eqn:Hc.
    + exists (c :: r). simpl. by rewrite Hc, Hr.
    + by exists r.
  - exists r. split; [|done]. by rewrite Hs at 1.
Qed.

(** Trimming the end keeps the first character: it removes white space
    only, and from the end. *)
Lemma starts_space_trimEnd s : starts_space s = false → starts_space (trimEnd s) = false.
Proof.
  destruct s as [|c s]; [done|]. simpl. intros Hc.
  destruct (trimEnd s); simpl; by rewrite ?Hc.
Qed.

Lemma trimmed_trim s : trimmed (trim s).
Proof.
  destruct (trimStart_split s) as (l & _ & _ & Ht).
  split; [by apply starts_space_trimEnd|apply ends_space_trimEnd].
Qed.

(** The text is its trimmed part between two blank margins. *)
Lemma trim_split s : ∃ l r, s = l ++ trim s ++ r ∧ blank l = true ∧ blank r = true.
Proof.
  destruct (trimStart_split s) as (l & Hs & Hl & _).
  destruct (trimEnd_split (trimStart s)) as (r & Ht & Hr).
  exists l, r. unfold trim. by rewrite <- Ht.
Qed.

(** No other text between blank margins is trimmed. *)
Lemma trim_unique l t r :
  blank l = true → blank r = true → trimmed t → trim (l ++ t ++ r) = t.
Proof.
  intros Hl Hr [Hs He]. unfold trim. rewrite trimStart_app_blank by done.
  destruct t as [|c t]; [simpl; by rewrite trimStart_blank|].
  rewrite trimStart_fixed by done. by rewrite trimEnd_app_blank, trimEnd_fixed.
Qed.

Lemma trim_trimmed t : trimmed t → trim t = t.
Proof. intros Ht. rewrite <- (trim_unique [] t []) at 2 by done. by rewrite app_nil_r. Qed.

Lemma trim_idemp s : trim (trim s) = trim s.
Proof. apply trim_trimmed, trimmed_trim. Qed.

(** The trimmed text is empty exactly when the text is blank. *)
Lemma trim_nil s : trim s = [] ↔ blank s = true.
Proof.
  destruct (trim_split s) as (l & r & Hs & Hl & Hr).
  pose proof (trimmed_trim s) as [Hstart _]. rewrite Hs at 2.
  rewrite !blank_app, Hl, Hr, andb_true_r. simpl.
  destruct (trim s) as [|c t]; [done|]. simpl in *. by rewrite Hstart.
Qed.

Lemma trim_length s : length (trim s) ≤ length s.
Proof.
  destruct (trim_split s) as (l & r & Hs & _). rewrite Hs at 2. rewrite !length_app. lia.
Qed.

(** A text is not blank exactly when it has a character that is not
    white space. *)
Lemma blank_false s : blank s = false ↔ ∃ c, c ∈ s ∧ space c = false.
Proof.
  induction s as [|c s IH]; simpl.
  { split; [done|]. by intros (c & ?%elem_of_nil & _). }
  destruct (space c) eqn:Hc; simpl.
  - rewrite IH. split; intros (c' & Hin & Hc'); exists c'.
    + split; [by right|done].
    + apply elem_of_cons in Hin as [->|]; [congruence|done].
  - split; [|done]. intros _. exists c. split; [by left|done].
Qed.

(** C36. [trim] is the text between the two blank margins: [trim s] is [t]
    exactly when [t] neither starts nor ends with white space and [s] is [t]
    with white space only before and after it. *)
Theorem trim_spec s t :
  trim s = t ↔
  trimmed t ∧ ∃ l r, s = l ++ t ++ r ∧ blank l = true ∧ blank r = true.
Proof.
  split.
  - intros <-. split; [apply trimmed_trim|apply trim_split].
  - intros (Ht & l & r & -> & Hl & Hr). by apply trim_unique.
Qed.

End trim.

Arguments trimmed {C} space s /.

(** [trim] sees the characters through their being white space or not. *)
Lemma trim_fmap {C D} (f : C → D) (space : C → bool) (space' : D → bool) (s : list C) :
  (∀ c, space' (f c) = space c) →
  trimStart space' (f <$> s) = f <$> trimStart space s
  ∧ trimEnd space' (f <$> s) = f <$> trimEnd space s.
Proof.
  intros Hf. split; induction s as [|c s IH]; csimpl; rewrite ?Hf; try done.
  - by destruct (space c).
  - rewrite IH. destruct (trimEnd space s); csimpl; [by destruct (space c)|done].
Qed.

(** ** The interface *)

(** A type of texts with [trim] and the test [value.trim()] is used for:
    a string is truthy when it is not empty. *)
Class JsString (T : Type) : Type := {
  js_eq_dec :: EqDecision T;
  js_trim : T → T;
  js_truthy : T → bool;
  js_blank : T → bool;
  js_trim_blank s : js_truthy (js_trim s) = negb (js_blank s);
  js_trim_idemp s : js_trim (js_trim s) = js_trim s;
}.

(** ** The strings of the platform: UTF-16 code units *)

(** WhiteSpace (TAB, VT, FF, ZWNBSP and the space separators of Unicode)
    and LineTerminator (LF, CR, LS, PS). *)
Definition is_space (u : N) : bool :=
  ((9 <=? u) && (u <=? 13) || (u =? 32) || (u =? 160) || (u =? 5760)
   || (8192 <=? u) && (u <=? 8202) || (u =? 8232) || (u =? 8233) || (u =? 8239)
   || (u =? 8287) || (u =? 12288) || (u =? 65279))%N.

(** A list as a condition: truthy when not empty. *)
Definition nonempty {C} (s : list C) : bool :=
  match s with [] => false | _ => true end.

Lemma nonempty_trim {C} (space : C → bool) (s : list C) :
  nonempty (trim space s) = negb (blank space s).
Proof.
  pose proof (trim_nil space s) as Hs.
  destruct (trim space s) as [|c t], (blank space s); simpl; try done; naive_solver.
Qed.

#[export] Program Instance utf16_JsString : JsString (list N) := {|
  js_trim := trim is_space;
  js_truthy := nonempty;
  js_blank := blank is_space;
|}.
Next Obligation. apply nonempty_trim. Qed.
Next Obligation. apply trim_idemp. Qed.

(** ** The 8-bit strings *)

(** The code units of an 8-bit string. *)
Definition units (s : string) : list N := N_of_ascii <$> String.list_ascii_of_string s.

Definition is_space8 (c : ascii) : bool := is_space (N_of_ascii c).

Definition trim8 (s : string) : string :=
  String.string_of_list_ascii (trim is_space8 (String.list_ascii_of_string s)).

Definition str_truthy (s : string) : bool :=
  match s with EmptyString => false | _ => true end.

Lemma str_truthy_of_list (l : list ascii) :
  str_truthy (String.string_of_list_ascii l) = nonempty l.
Proof. by destruct l. Qed.

#[export] Program Instance latin1_JsString : JsString string := {|
  js_trim := trim8;
  js_truthy := str_truthy;
  js_blank s := blank is_space8 (String.list_ascii_of_string s);
|}.
Next Obligation. intros s. unfold trim8. by rewrite str_truthy_of_list, nonempty_trim. Qed.
Next Obligation.
  intros s. unfold trim8. by rewrite String.list_ascii_of_string_of_list_ascii, trim_idemp.
Qed.

(** The 8-bit strings are the strings of the platform with codes below
    256: trimming commutes with reading a string as its code units. *)
Lemma trim_units (s : string) : trim is_space (units s) = units (trim8 s).
Proof.
  unfold units, trim8. rewrite String.list_ascii_of_string_of_list_ascii. unfold trim.
  set (l := String.list_ascii_of_string s).
  destruct (trim_fmap N_of_ascii is_space8 is_space (trimStart is_space8 l)) as [_ <-]; [done|].
  by destruct (trim_fmap N_of_ascii is_space8 is_space l) as [<- _].
Qed.

Lemma blank_units (s : string) :
  blank is_space (units s) = blank is_space8 (String.list_ascii_of_string s).
Proof.
  unfold units. induction (String.list_ascii_of_string s) as [|c l IH]; csimpl; [done|].
  by rewrite IH.
Qed.

(** ** Maps between texts *)

(** A map between two types of texts that [trim] and the two tests go
    through: what the component does on one it does on the other. *)
Class JsHom {T U : Type} `{!JsString T, !JsString U} (f : T → U) : Prop := {
  hom_trim s : js_trim (f s) = f (js_trim s);
  hom_truthy s : js_truthy (f s) = js_truthy s;
  hom_blank s : js_blank (f s) = js_blank s;
}.

Lemma nonempty_units (s : string) : nonempty (units s) = str_truthy s.
Proof. by destruct s. Qed.

(** Reading an 8-bit string as its code units is such a map. *)
#[export] Instance units_hom : JsHom units.
Proof.
  split; intros s; simpl; [apply trim_units|apply nonempty_units|apply blank_units].
Qed.
