(* ===== verification/ChatInput.v ===== *)
(** * ChatInput: the prompt box and its send guard

    [ChatInput.tsx] is a controlled component: it holds no state, shows the
    [value] it is given and reports what the user does through its two
    callbacks.  The model gives, for each thing the user can do, the calls
    the component makes ([dispatch]): [onChange] with the new text, [onSend],
    and [preventDefault] on the key event.

    The send guard is written twice in the source, once in [handleKeyDown]
    (line 16) and once as the [disabled] attribute of the button (line 38);
    both use [value.trim()] as a condition, a string being truthy when it is
    not empty.  The component is verified against the interface [JsString]
    of its text, which says what [trim] is; the theorems therefore hold for
    the strings of the platform (UTF-16 code units, with all the white
    space of ECMAScript) and for the 8-bit strings alike, and the
    component makes the same calls on both ([dispatch_hom]).

    That a disabled button fires no click is the behaviour of the DOM, not
    of this file; it is part of [onClick] and said so there. *)

From S2P Require Import Prelude JsString.

(** ** The component *)

(** Lines 5-10; [disabled] is optional. *)
Record ChatInputProps (T : Type) : Type := mkProps {
  value : T;
  disabled : option bool;
}.

Arguments mkProps {T} value disabled.
Arguments value {T} p : rename.
Arguments disabled {T} p : rename.

(** An optional boolean used as a condition: [undefined] is falsy. *)
Definition flag (b : option bool) : bool := default false b.

(** The fields of the key event the handler reads. *)
Record KeyboardEvent : Type := mkKey {
  key : string;
  shiftKey : bool;
}.

(** The calls the component makes. *)
Inductive Call (T : Type) : Type :=
| PreventDefault
| OnSend
| OnChange (v : T).

Arguments PreventDefault {T}.
Arguments OnSend {T}.
Arguments OnChange {T} v.

#[export] Instance Call_eq_dec `{EqDecision T} : EqDecision (Call T).
Proof. solve_decision. Defined.

(** What the component renders (lines 22-44), styling apart. *)
Record InputView (T : Type) : Type := mkInputView {
  textarea_value : T;
  textarea_placeholder : string;
  textarea_disabled : bool;
  textarea_rows : nat;
  send_disabled : bool;
}.

Arguments mkInputView {T}.
Arguments textarea_value {T} v : rename.
Arguments textarea_placeholder {T} v : rename.
Arguments textarea_disabled {T} v : rename.
Arguments textarea_rows {T} v : rename.
Arguments send_disabled {T} v : rename.

(** What the user can do to the component. *)
Inductive InputEvent (T : Type) : Type :=
| KeyDown (e : KeyboardEvent)
| Click
| Change (v : T).

Arguments KeyDown {T} e.
Arguments Click {T}.
Arguments Change {T} v.

Section component.
Context `{JsString T}.
Implicit Types (p : ChatInputProps T) (e : KeyboardEvent) (ev : InputEvent T).

(** Lines 13-20. *)
Definition handleKeyDown p e : list (Call T) :=
  if bool_decide (key e = "Enter") && negb (shiftKey e) then
    PreventDefault ::
      (if negb (flag (disabled p)) && js_truthy (js_trim (value p)) then [OnSend] else [])
  else [].

(** Line 27: [(e) => onChange(e.target.value)]. *)
Definition handleChange (v : T) : list (Call T) := [OnChange v].

(** Line 38: [disabled || !value.trim()]. *)
Definition button_disabled p : bool :=
  flag (disabled p) || negb (js_truthy (js_trim (value p))).

(** Line 37: [onClick={onSend}]; a disabled button fires no click. *)
Definition onClick p : list (Call T) :=
  if button_disabled p then [] else [OnSend].

Definition ChatInput p : InputView T :=
  mkInputView (value p) "Now make 'em kith" (flag (disabled p)) 2 (button_disabled p).

Definition dispatch p ev : list (Call T) :=
  match ev with
  | KeyDown e => handleKeyDown p e
  | Click => onClick p
  | Change v => handleChange v
  end.

(** The guard both paths share. *)
Definition can_send p : bool :=
  negb (flag (disabled p)) && negb (js_blank (value p)).

(** ** The guard *)

Lemma button_disabled_can_send p : button_disabled p = negb (can_send p).
Proof.
  unfold button_disabled, can_send. rewrite js_trim_blank.
  by destruct (flag (disabled p)), (js_blank (value p)).
Qed.

Lemma handleKeyDown_enter p e :
  key e = "Enter" → shiftKey e = false →
  handleKeyDown p e = PreventDefault :: (if can_send p then [OnSend] else []).
Proof.
  intros Hk Hs. unfold handleKeyDown, can_send.
  by rewrite bool_decide_eq_true_2, Hs, js_trim_blank.
Qed.

Lemma handleKeyDown_other p e :
  key e ≠ "Enter" ∨ shiftKey e = true → handleKeyDown p e = [].
Proof.
  unfold handleKeyDown. intros [Hk| ->].
  - by rewrite bool_decide_eq_false_2.
  - by rewrite andb_false_r.
Qed.

Lemma onClick_can_send p : onClick p = if can_send p then [OnSend] else [].
Proof. unfold onClick. rewrite button_disabled_can_send. by destruct (can_send p). Qed.

Lemma OnSend_handleKeyDown p e :
  OnSend ∈ handleKeyDown p e ↔ key e = "Enter" ∧ shiftKey e = false ∧ can_send p = true.
Proof.
  destruct (decide (key e = "Enter")) as [Hk|Hk], (shiftKey e) eqn:Hs;
    rewrite ?handleKeyDown_enter, ?handleKeyDown_other by auto;
    try (destruct (can_send p)); set_solver.
Qed.

Lemma OnSend_dispatch p ev : OnSend ∈ dispatch p ev → can_send p = true.
Proof.
  destruct ev as [e| |v]; simpl.
  - by intros (_ & _ & ?)%OnSend_handleKeyDown.
  - rewrite onClick_can_send. destruct (can_send p); set_solver.
  - unfold handleChange. set_solver.
Qed.

(** What a key does: Enter without Shift is taken from the text area
    (its default action, a line break, is prevented) and sends when the
    guard allows; every other key, Shift+Enter included, is left to the
    text area and sends nothing. *)
Theorem handleKeyDown_spec p e :
  handleKeyDown p e =
  if decide (key e = "Enter" ∧ shiftKey e = false)
  then PreventDefault :: (if can_send p then [OnSend] else [])
  else [].
Proof.
  case_decide as Hd.
  - destruct Hd. by apply handleKeyDown_enter.
  - apply handleKeyDown_other. destruct (shiftKey e); [by right|left]. naive_solver.
Qed.

(** Nothing the user does to the component sends a blank prompt or sends
    while the component is disabled, for every type of texts with the
    [trim] of the platform. *)
Lemma OnSend_guard p ev :
  OnSend ∈ dispatch p ev →
  flag (disabled p) = false ∧ js_blank (value p) = false
  ∧ js_truthy (js_trim (value p)) = true.
Proof.
  intros Hsend%OnSend_dispatch. unfold can_send in Hsend.
  apply andb_prop in Hsend as [Hd%negb_true_iff Hb%negb_true_iff].
  split_and!; [done..|]. by rewrite js_trim_blank, Hb.
Qed.

(** The two guards of the source agree: the button is enabled exactly
    when Enter would send, and a click on it then sends. *)
Theorem key_button_agree p :
  (OnSend ∈ handleKeyDown p (mkKey "Enter" false) ↔ send_disabled (ChatInput p) = false)
  ∧ (OnSend ∈ onClick p ↔ send_disabled (ChatInput p) = false).
Proof.
  simpl. rewrite OnSend_handleKeyDown, onClick_can_send, button_disabled_can_send.
  destruct (can_send p); simpl; set_solver.
Qed.

End component.

(** ** The component on two types of texts *)

Section transfer.
Context {T U : Type} `{!JsString T, !JsString U} (f : T → U) `{!JsHom f}.

Definition props_map (p : ChatInputProps T) : ChatInputProps U :=
  mkProps (f (value p)) (disabled p).

Definition event_map (ev : InputEvent T) : InputEvent U :=
  match ev with
  | KeyDown e => KeyDown e
  | Click => Click
  | Change v => Change (f v)
  end.

Definition call_map (c : Call T) : Call U :=
  match c with
  | PreventDefault => PreventDefault
  | OnSend => OnSend
  | OnChange v => OnChange (f v)
  end.

Lemma can_send_hom p : can_send (props_map p) = can_send p.
Proof. unfold can_send. simpl. by rewrite hom_blank. Qed.

(** The component makes the same calls on a text and on its image: what
    is proved of it on the strings of the platform holds on every type
    of texts that maps into them, the 8-bit strings among them. *)
Theorem dispatch_hom p ev :
  dispatch (props_map p) (event_map ev) = call_map <$> dispatch p ev.
Proof.
  destruct ev as [e| |v]; simpl; [|by rewrite !onClick_can_send, can_send_hom; case_match|done].
  rewrite !handleKeyDown_spec, can_send_hom. by repeat case_match.
Qed.

End transfer.

(** ** The component on the strings of the platform *)

(** C23. Nothing the user does to the component (Enter, a click on the
    button, typing) sends a blank prompt or sends while the component is
    disabled: [onSend] is called only when [disabled] is not set and the
    text has a code unit that is not white space, so that [value.trim()]
    is not empty. *)
Theorem send_guard (p : ChatInputProps (list N)) (ev : InputEvent (list N)) :
  OnSend ∈ dispatch p ev →
  flag (disabled p) = false
  ∧ (∃ u, u ∈ value p ∧ is_space u = false)
  ∧ trim is_space (value p) ≠ [].
Proof.
  intros (Hd & Hb & Ht)%OnSend_guard. split_and!; [done|by apply blank_false|].
  intros Hnil. simpl in Ht. by rewrite Hnil in Ht.
Qed.

(** "hello" as code units. *)
Definition hello : list N := [104; 101; 108; 108; 111]%N.

Lemma send_guard_witness :
  flag (disabled (mkProps hello None)) = false
  ∧ (∃ u, u ∈ value (mkProps hello None) ∧ is_space u = false)
  ∧ trim is_space (value (mkProps hello None)) ≠ [].
Proof.
  apply (send_guard (mkProps hello None) (KeyDown (mkKey "Enter" false))).
  vm_compute. right. left.
Defined.

(** A prompt of ideographic spaces (U+3000) and a no-break space is
    blank: Enter is taken and nothing is sent, and the button is
    disabled. *)
Example wide_spaces_not_sent :
  let p := mkProps [12288; 160; 12288]%N None in
  dispatch p (KeyDown (mkKey "Enter" false)) = [PreventDefault]
  ∧ dispatch p Click = [] ∧ send_disabled (ChatInput p) = true.
Proof. by vm_compute. Qed.

(** On 8-bit strings. *)
Example trim_prompt :
  js_trim (" " +:+ "hello  world" +:+ String "010" " ") = "hello  world".
Proof. by vm_compute. Qed.

(** An 8-bit prompt is sent exactly when its code units are. *)
Example latin1_as_utf16 (s : string) (d : option bool) (e : KeyboardEvent) :
  OnSend ∈ handleKeyDown (mkProps s d) e ↔ OnSend ∈ handleKeyDown (mkProps (units s) d) e.
Proof.
  pose proof (dispatch_hom units (mkProps s d) (KeyDown e)) as Hd. simpl in Hd.
  change (mkProps (units s) d) with (props_map units (mkProps s d)). rewrite Hd.
  rewrite list_elem_of_fmap. split.
  - intros Hin. by exists OnSend.
  - by intros ([]&?&?).
Qed.
