(* ===== verification/Spec.v ===== *)
(** * Spec: the session controller the specification describes

    The specification (sections 3, 4 and 6) describes the program as a
    session: a topology, a roster, an append-only history of turns, the
    exchanges awaiting their response and the requests sent.  This file
    states that description as a labelled transition system, [AStep], with
    no clock, no promises and no JSON values in it:

    - [Submit prompt] appends the user's turn, builds the request from the
      prompt, the topology and the ids of the enabled models, and starts an
      exchange;
    - [Resolve x (Answered r)] ends exchange [x] with the assistant turn
      that shows the result's final answer, or the fallback text when the
      result has none, and carries the result's trace;
    - [Resolve x (Failed detail)] ends exchange [x] with an assistant turn
      whose text says the backend cannot be reached and embeds [detail];
      the specification fixes no more of the text, so the rule allows any
      text that does;
    - [SetTopology] and [SetModels] replace the configuration.

    [decode_result] reads a parsed body as the result of section 6: an
    object whose [final_response], when present, is a string and whose
    [header_stack], when present, is an array of objects with a string
    [model] and a string [response].  [encode_result] is the body a backend
    sends for a result.

    Nothing in this file is taken from the source; [Refinement] proves that
    the source implements it. *)

From S2P Require Import Prelude JsValue Config Wire Message.

(** ** Results *)

Record TraceEntry : Type := mkEntry {
  entry_model : string;
  entry_response : string;
}.

Record Result : Type := mkResult {
  finalAnswer : option string;
  trace : option (list TraceEntry);
}.

#[export] Instance TraceEntry_eq_dec : EqDecision TraceEntry.
Proof. solve_decision. Defined.
#[export] Instance Result_eq_dec : EqDecision Result.
Proof. solve_decision. Defined.

Definition decode_entry (v : JsValue) : option TraceEntry :=
  match v with
  | VObj ms =>
      match member "model" ms, member "response" ms with
      | Some (VStr model), Some (VStr response) => Some (mkEntry model response)
      | _, _ => None
      end
  | _ => None
  end.

(** An optional field: absent, or of the expected type. *)
Definition decode_answer (v : JsValue) : option (option string) :=
  match v with
  | VUndefined => Some None
  | VStr answer => Some (Some answer)
  | _ => None
  end.

Definition decode_trace (v : JsValue) : option (option (list TraceEntry)) :=
  match v with
  | VUndefined => Some None
  | VArr vs => Some <$> mapM decode_entry vs
  | _ => None
  end.

Definition decode_result (data : JsValue) : option Result :=
  match data with
  | VObj ms =>
      answer ← decode_answer (default VUndefined (member "final_response" ms));
      entries ← decode_trace (default VUndefined (member "header_stack" ms));
      Some (mkResult answer entries)
  | _ => None
  end.

Definition encode_entry (e : TraceEntry) : JsValue :=
  VObj [("model", VStr (entry_model e)); ("response", VStr (entry_response e))].

Definition encode_trace (entries : list TraceEntry) : JsValue :=
  VArr (encode_entry <$> entries).

Definition encode_result (r : Result) : JsValue :=
  VObj (from_option (λ a, [("final_response", VStr a)]) [] (finalAnswer r)
        ++ from_option (λ t, [("header_stack", encode_trace t)]) [] (trace r)).

(** ** The session *)

Record Turn : Type := mkTurn {
  turn_role : Role;
  turn_content : string;
  turn_trace : option (list TraceEntry);
}.

Record OrchestrationRequest : Type := mkOrchestrationRequest {
  original_prompt : string;
  request_topology : Topology;
  request_models : list string;
}.

Record Session : Type := mkSession {
  s_topology : Topology;
  s_roster : list LLMModel;
  s_history : list Turn;
  s_awaiting : gset nat;
  s_requests : list OrchestrationRequest;
}.

#[export] Instance Turn_eq_dec : EqDecision Turn.
Proof. solve_decision. Defined.
#[export] Instance OrchestrationRequest_eq_dec : EqDecision OrchestrationRequest.
Proof. solve_decision. Defined.
#[export] Instance Session_eq_dec : EqDecision Session.
Proof. solve_decision. Defined.

(** A session starts with a configuration, an empty history and nothing
    in flight; the configuration it starts with is an input. *)
Definition start (t : Topology) (roster : list LLMModel) : Session :=
  mkSession t roster [] ∅ [].

Definition initial_session : Session := start initial_topology initial_models.

(** How an exchange is resolved. *)
Inductive Resolution : Type :=
| Answered (r : Result)
| Failed (detail : string).

Inductive Action : Type :=
| Submit (prompt : string)
| Resolve (x : nat) (how : Resolution)
| SetTopology (t : Topology)
| SetModels (ms : list LLMModel).

#[export] Instance Resolution_eq_dec : EqDecision Resolution.
Proof. solve_decision. Defined.
#[export] Instance Action_eq_dec : EqDecision Action.
Proof. solve_decision. Defined.

(** Section 4.1: the ids of the models with enabled = true, in roster order. *)
Fixpoint enabledModelIds (roster : list LLMModel) : list string :=
  match roster with
  | [] => []
  | m :: roster' =>
      if m_enabled m then m_id m :: enabledModelIds roster' else enabledModelIds roster'
  end.

(** Section 4.2 *)
Definition build (prompt : string) (t : Topology) (ids : list string) : OrchestrationRequest :=
  mkOrchestrationRequest prompt t ids.

Definition user_turn (prompt : string) : Turn := mkTurn User prompt None.

Definition answer_turn (r : Result) : Turn :=
  mkTurn Assistant (default "Response from MAIRE" (finalAnswer r)) (trace r).

(** What section 6 asks of the text shown for a failure. *)
Definition diagnostic (detail content : string) : Prop :=
  str_infix "Unable to connect" content ∧ str_infix detail content.

Definition with_turn (t : Turn) (s : Session) : Session :=
  mkSession (s_topology s) (s_roster s) (s_history s ++ [t]) (s_awaiting s) (s_requests s).

Definition with_awaiting (f : gset nat → gset nat) (s : Session) : Session :=
  mkSession (s_topology s) (s_roster s) (s_history s) (f (s_awaiting s)) (s_requests s).

Definition with_request (q : OrchestrationRequest) (s : Session) : Session :=
  mkSession (s_topology s) (s_roster s) (s_history s) (s_awaiting s) (s_requests s ++ [q]).

Inductive AStep : Session → Action → Session → Prop :=
| AStep_submit s x prompt :
    x ∉ s_awaiting s →
    AStep s (Submit prompt)
      (with_awaiting (union {[x]})
         (with_request (build prompt (s_topology s) (enabledModelIds (s_roster s)))
            (with_turn (user_turn prompt) s)))
| AStep_answered s x r :
    x ∈ s_awaiting s →
    AStep s (Resolve x (Answered r))
      (with_awaiting (λ xs, xs ∖ {[x]}) (with_turn (answer_turn r) s))
| AStep_failed s x detail content :
    x ∈ s_awaiting s →
    diagnostic detail content →
    AStep s (Resolve x (Failed detail))
      (with_awaiting (λ xs, xs ∖ {[x]}) (with_turn (mkTurn Assistant content None) s))
| AStep_setTopology s t :
    AStep s (SetTopology t)
      (mkSession t (s_roster s) (s_history s) (s_awaiting s) (s_requests s))
| AStep_setModels s ms :
    AStep s (SetModels ms)
      (mkSession (s_topology s) ms (s_history s) (s_awaiting s) (s_requests s)).

Inductive ASteps : Session → list Action → Session → Prop :=
| ASteps_nil s : ASteps s [] s
| ASteps_cons s a s' acts s'' : AStep s a s' → ASteps s' acts s'' → ASteps s (a :: acts) s''.

#[export] Hint Constructors AStep ASteps : js.

(** ** Results and bodies *)

Section results.
Implicit Types (r : Result) (e : TraceEntry) (v data : JsValue).

Lemma decode_entry_encode e : decode_entry (encode_entry e) = Some e.
Proof. by destruct e. Qed.

Lemma mapM_decode_entry entries : mapM decode_entry (encode_entry <$> entries) = Some entries.
Proof.
  apply mapM_Some, Forall2_fmap_l, Forall_Forall2_diag, Forall_forall.
  intros e _. apply decode_entry_encode.
Qed.

Lemma decode_trace_encode entries :
  decode_trace (encode_trace entries) = Some (Some entries).
Proof. unfold decode_trace, encode_trace. by rewrite mapM_decode_entry. Qed.

(** The body sent for a result is read as that result. *)
Lemma decode_result_encode r : decode_result (encode_result r) = Some r.
Proof.
  destruct r as [[a|] [t|]]; unfold decode_result, encode_result; simpl;
    by rewrite ?mapM_decode_entry.
Qed.

(** A body that decodes is an object whose two fields have the expected
    shape. *)
Lemma decode_result_Some data r :
  decode_result data = Some r ↔
  ∃ ms, data = VObj ms
    ∧ decode_answer (default VUndefined (member "final_response" ms)) = Some (finalAnswer r)
    ∧ decode_trace (default VUndefined (member "header_stack" ms)) = Some (trace r).
Proof.
  destruct r as [a t]. split.
  - destruct data as [| | | | | |ms]; try done. simpl.
    intros (a' & Ha & (t' & Ht & [= -> ->])%bind_Some)%bind_Some. by exists ms.
  - intros (ms & -> & Ha & Ht). simpl in *. by rewrite Ha, Ht.
Qed.

Lemma decode_answer_Some v a :
  decode_answer v = Some a ↔ v = from_option VStr VUndefined a.
Proof. destruct v, a; naive_solver. Qed.

(** The trace has the length and the order of the array it was read from. *)
Lemma decode_trace_length vs entries :
  decode_trace (VArr vs) = Some (Some entries) →
  length entries = length vs ∧ Forall2 (λ v e, decode_entry v = Some e) vs entries.
Proof.
  simpl. intros (? & Hm%mapM_Some & [= ->])%fmap_Some.
  split; [by erewrite <- Forall2_length|done].
Qed.

Lemma enabledModelIds_enabledModels roster : enabledModelIds roster = enabledModels roster.
Proof.
  induction roster as [|m roster IH]; [done|].
  rewrite enabledModels_cons. simpl. by rewrite IH.
Qed.

End results.

(** ** The session on its own *)

Section session.
Implicit Types (s : Session) (a : Action) (x : nat).

(** A step appends at most one turn and never touches the turns before. *)
Lemma AStep_history s a s' :
  AStep s a s' → s_history s `prefix_of` s_history s'.
Proof. destruct 1; simpl; try done; by apply prefix_app_r. Qed.

Lemma ASteps_app s acts1 s' acts2 s'' :
  ASteps s acts1 s' → ASteps s' acts2 s'' → ASteps s (acts1 ++ acts2) s''.
Proof. induction 1; simpl; eauto with js. Qed.

Lemma ASteps_one s a s' : AStep s a s' → ASteps s [a] s'.
Proof. eauto with js. Qed.

(** A submission is always possible: the session is never stuck. *)
Lemma Submit_enabled s prompt : ∃ s', AStep s (Submit prompt) s'.
Proof. eexists. apply (AStep_submit s (fresh (s_awaiting s))), is_fresh. Qed.

End session.
