(* ===== verification/Refinement.v ===== *)
(** * Refinement: the program implements the session of the specification

    [Abs w s] relates a world of the program to a session of [Spec]: same
    configuration, the history turn by turn ([turn_rel]: same role, the
    content a string, the [headerStack] a value that reads as the trace),
    the activations in flight as the exchanges awaiting, the requests sent
    as the requests built.  Ids and timestamps have no counterpart in the
    session and are not related.

    [action_of] says what an event of the program is for the session: a
    send is a [Submit]; a settling that ends the exchange is a [Resolve];
    the settling of [fetch] with a 2xx status and the toggle of the
    configuration panel are no action at all.  It is partial: a body is
    within the contract of section 6 when it is [null] (a failure) or
    reads as a result ([decode_result]) whose final answer is not the empty
    string.  For bodies outside the contract the program and the
    specification differ ([Findings]).

    [refinement_step] is the forward simulation, [refinement] its closure
    over runs: every run of the program on events within the contract is a
    run of the session on their actions. *)

From S2P Require Import Prelude Decimal JsValue Config Wire Message Client App Steps.
From S2P Require Import Invariants Exchange Spec.

(** The request on the wire. *)
Definition wire (q : OrchestrationRequest) : Request :=
  run_request (original_prompt q) (request_topology q) (request_models q).

Definition turn_rel (m : Message) (t : Turn) : Prop :=
  msg_role m = turn_role t
  ∧ msg_content m = VStr (turn_content t)
  ∧ decode_trace (msg_headerStack m) = Some (turn_trace t).

Record Abs (w : World) (s : Session) : Prop := mkAbs {
  abs_topology : topology (app w) = s_topology s;
  abs_roster : models (app w) = s_roster s;
  abs_history : Forall2 turn_rel (history w) (s_history s);
  abs_awaiting : dom (inflight w) = s_awaiting s;
  abs_requests : sent w = wire <$> s_requests s;
}.

(** Both relations are decidable: whether a world and a session are
    related is a computation. *)
#[export] Instance turn_rel_dec m t : Decision (turn_rel m t).
Proof. unfold turn_rel. apply _. Defined.

#[export] Instance Abs_dec w s : Decision (Abs w s).
Proof.
  refine (cast_if (decide (topology (app w) = s_topology s
                           ∧ models (app w) = s_roster s
                           ∧ Forall2 turn_rel (history w) (s_history s)
                           ∧ dom (inflight w) = s_awaiting s
                           ∧ sent w = wire <$> s_requests s)));
    [destruct_and!; by split|intros []; tauto].
Defined.

(** What a parsed body is for the session, when it is within the contract. *)
Definition body_resolution (data : JsValue) : option Resolution :=
  match get_prop data "final_response" with
  | inl e => Some (Failed (err_message e))
  | inr _ =>
      r ← decode_result data;
      if decide (finalAnswer r = Some "") then None else Some (Answered r)
  end.

Definition action_of (ev : Event) : option (list Action) :=
  match ev with
  | EvSend content => Some [Submit content]
  | EvFetch x (inl e) => Some [Resolve x (Failed (err_message e))]
  | EvFetch x (inr response) =>
      if ok response then Some []
      else Some [Resolve x (Failed (err_message (http_error response)))]
  | EvJson x (inl e) => Some [Resolve x (Failed (err_message e))]
  | EvJson x (inr data) => how ← body_resolution data; Some [Resolve x how]
  | EvTopology t => Some [SetTopology t]
  | EvModels ms => Some [SetModels ms]
  | EvToggleConfig => Some []
  end.

(** The actions of a list of events, when all are within the contract. *)
Fixpoint actions_of (evs : list Event) : option (list Action) :=
  match evs with
  | [] => Some []
  | ev :: evs' => acts ← action_of ev; acts' ← actions_of evs'; Some (acts ++ acts')
  end.

Section simulation.
Context (now : nat → N).
Implicit Types (w : World) (s : Session) (x : nat) (e : JsError) (m : Message) (t : Turn).

Lemma Abs_initial : Abs initial_world initial_session.
Proof. by split. Qed.

(** ** Turns *)

Lemma turn_rel_userMessage n d content : turn_rel (userMessage n d content) (user_turn content).
Proof. done. Qed.

Lemma turn_rel_errorMessage n d e :
  turn_rel (errorMessage n d e) (mkTurn Assistant (unable_to_connect +:+ error_toString e) None).
Proof. done. Qed.

Lemma diagnostic_errorMessage e :
  diagnostic (err_message e) (unable_to_connect +:+ error_toString e).
Proof. by apply (errorMessage_mentions 0 0 e). Qed.

(** What the program reads in a body within the contract. *)
Lemma json_outcome_decoded data r :
  decode_result data = Some r → finalAnswer r ≠ Some "" →
  ∃ fr hs, json_outcome (inr data) = Success fr hs
    ∧ js_or fr (VStr fallback_answer) = VStr (turn_content (answer_turn r))
    ∧ decode_trace hs = Some (trace r).
Proof.
  intros (ms & -> & Ha%decode_answer_Some & Ht)%decode_result_Some Hne.
  eexists _, _. split; [apply json_outcome_object|]. split; [|done].
  rewrite Ha. destruct r as [[a|] t]; simpl in *; [|done].
  apply js_or_truthy, truthy_str. naive_solver.
Qed.

(** A body within the contract gives the turn of its result. *)
Lemma turn_rel_assistantMessage n d data r fr hs :
  decode_result data = Some r → finalAnswer r ≠ Some "" →
  get_prop data "final_response" = inr fr → get_prop data "header_stack" = inr hs →
  turn_rel (assistantMessage n d fr hs) (answer_turn r).
Proof.
  intros Hr Hne Hfr Hhs.
  destruct (json_outcome_decoded data r) as (fr' & hs' & Ho & Hc & Ht); [done..|].
  apply json_outcome_Success in Ho as (? & [= <-] & Hfr' & Hhs').
  rewrite Hfr in Hfr'. rewrite Hhs in Hhs'. simplify_eq. by split_and!.
Qed.

(** ** Bodies *)

Lemma body_resolution_Failed data detail :
  body_resolution data = Some (Failed detail) →
  ∃ e, get_prop data "final_response" = inl e ∧ detail = err_message e.
Proof.
  unfold body_resolution. destruct (get_prop data "final_response") as [e|fr].
  - intros [= <-]. by exists e.
  - intros (r & _ & Hr)%bind_Some. by case_decide.
Qed.

Lemma body_resolution_Answered data r :
  body_resolution data = Some (Answered r) →
  decode_result data = Some r ∧ finalAnswer r ≠ Some "".
Proof.
  unfold body_resolution. destruct (get_prop data "final_response") as [e|fr]; [done|].
  intros (r' & Hr & Hd)%bind_Some. case_decide; by simplify_eq.
Qed.

(** The body a backend sends for a result is within the contract, unless
    the answer is the empty string. *)
Lemma body_resolution_encode r :
  finalAnswer r ≠ Some "" → body_resolution (encode_result r) = Some (Answered r).
Proof.
  intros Hne. unfold body_resolution. rewrite decode_result_encode. simpl.
  by rewrite decide_False.
Qed.

(** ** The relation after each kind of transition *)

Lemma Abs_submitted content w s :
  Inv w → Abs w s →
  ∃ s', AStep s (Submit content) s' ∧ Abs (submitted now content w) s'.
Proof.
  intros HI [Htopo Hroster Hh Hd Hs]. eexists. split.
  - apply (AStep_submit s (calls w)). rewrite <- Hd, not_elem_of_dom. by apply Inv_next.
  - split; simpl; rewrite <- ?Htopo, <- ?Hroster; try done.
    + apply Forall2_app; [done|]. constructor; [apply turn_rel_userMessage|constructor].
    + by rewrite dom_insert_L, Hd.
    + by rewrite Hs, fmap_app, enabledModelIds_enabledModels.
Qed.

(** A world in which activation [x] has ended with the turn [m]. *)
Lemma Abs_ended x w w' s m t :
  Abs w s → turn_rel m t →
  app w' = with_messages (λ prev, prev ++ [m]) (app w) →
  inflight w' = delete x (inflight w) → sent w' = sent w →
  Abs w' (with_awaiting (λ xs, xs ∖ {[x]}) (with_turn t s)).
Proof.
  intros [Htopo Hroster Hh Hd Hs] Hm Happ Hi Hsent.
  split; unfold history in *; simpl; rewrite ?Happ, ?Hi, ?Hsent; simpl; try done.
  - apply Forall2_app; [done|]. by constructor.
  - by rewrite dom_delete_L, Hd.
Qed.

Lemma awaiting_inflight x p w s : Abs w s → inflight w !! x = Some p → x ∈ s_awaiting s.
Proof. intros [_ _ _ <- _] Hx. by apply elem_of_dom. Qed.

Lemma Abs_failed x p e w w1 s :
  Abs w s → inflight w !! x = Some p →
  app w1 = app w → inflight w1 = delete x (inflight w) → sent w1 = sent w →
  ∃ s', AStep s (Resolve x (Failed (err_message e))) s' ∧ Abs (failed now e w1) s'.
Proof.
  intros Hw Hx Happ Hi Hsent. eexists. split.
  - apply AStep_failed; [by eapply awaiting_inflight|apply diagnostic_errorMessage].
  - eapply (Abs_ended x w); [done|apply turn_rel_errorMessage|simpl..]; by rewrite ?Happ.
Qed.

Lemma Abs_answered x p data r fr hs w s :
  Abs w s → inflight w !! x = Some p →
  decode_result data = Some r → finalAnswer r ≠ Some "" →
  get_prop data "final_response" = inr fr → get_prop data "header_stack" = inr hs →
  ∃ s', AStep s (Resolve x (Answered r)) s' ∧ Abs (answered now fr hs (resume x w)) s'.
Proof.
  intros Hw Hx Hr Hne Hfr Hhs. eexists. split.
  - apply AStep_answered. by eapply awaiting_inflight.
  - eapply (Abs_ended x w); [done|by eapply turn_rel_assistantMessage|done..].
Qed.

(** What changes neither the configuration, the history, the activations
    in flight nor the requests changes nothing for the session. *)
Lemma Abs_stutter w w' s :
  Abs w s → topology (app w') = topology (app w) → models (app w') = models (app w) →
  messages (app w') = messages (app w) → dom (inflight w') = dom (inflight w) →
  sent w' = sent w → Abs w' s.
Proof.
  intros [Htopo Hroster Hh Hd Hs] Et Em Eh Ed Es.
  split; unfold history in *; by rewrite ?Et, ?Em, ?Eh, ?Ed, ?Es.
Qed.

Lemma Abs_rephase x p q w s :
  Abs w s → inflight w !! x = Some p → Abs (on_inflight (insert x q) w) s.
Proof.
  intros Hw Hx. eapply Abs_stutter; [done..| |done]. simpl.
  rewrite dom_insert_L. apply elem_of_dom_2 in Hx. set_solver.
Qed.

(** ** The simulation *)

Lemma Step_refines w ev w' s acts :
  Inv w → Abs w s → Step now w ev w' → action_of ev = Some acts →
  ∃ s', ASteps s acts s' ∧ Abs w' s'.
Proof.
  intros HI Hw Hstep Hacts.
  assert (∀ a s', AStep s a s' ∧ Abs w' s' → acts = [a] → ∃ s', ASteps s acts s' ∧ Abs w' s')
    as one by (intros a s' [??] ->; eauto using ASteps_one).
  destruct Hstep; simpl in Hacts; rewrite ?H0 in Hacts; simplify_eq/=.
  - destruct (Abs_submitted content w s) as [s' ?]; eauto.
  - destruct (Abs_failed x AwaitFetch e w (resume x w) s) as [s' ?]; eauto.
  - destruct (Abs_failed x AwaitFetch (http_error response) w (resume x w) s) as [s' ?]; eauto.
  - exists s. split; [constructor|by eapply Abs_rephase].
  - destruct (Abs_failed x AwaitJson e w (resume x w) s) as [s' ?]; eauto.
  - apply bind_Some in Hacts as (how & Hb & [= <-]).
    unfold body_resolution in Hb. rewrite H0 in Hb. simplify_eq.
    destruct (Abs_failed x AwaitJson e w (on_reads S (resume x w)) s) as [s' ?]; eauto.
  - apply bind_Some in Hacts as (how & Hb & [= <-]).
    destruct how as [r|detail].
    + apply body_resolution_Answered in Hb as [Hr Hne].
      destruct (Abs_answered x AwaitJson data r final_response header_stack w s)
        as [s' ?]; eauto.
    + apply body_resolution_Failed in Hb as (e & He & _). congruence.
  - eexists. split; [apply ASteps_one, AStep_setTopology|]. by destruct Hw.
  - eexists. split; [apply ASteps_one, AStep_setModels|]. by destruct Hw.
  - exists s. split; [constructor|]. by eapply Abs_stutter.
Qed.

Lemma Steps_refines w evs w' s acts :
  Inv w → Abs w s → Steps now w evs w' → actions_of evs = Some acts →
  ∃ s', ASteps s acts s' ∧ Abs w' s'.
Proof.
  intros HI Hw Hsteps. revert s acts HI Hw.
  induction Hsteps as [w|w ev w1 evs w' Hstep _ IH]; intros s acts HI Hw Hacts.
  - simplify_eq/=. exists s. split; [constructor|done].
  - simpl in Hacts. apply bind_Some in Hacts as (a1 & H1 & (a2 & H2 & [= <-])%bind_Some).
    destruct (Step_refines w ev w1 s a1) as (s1 & Hs1 & Hw1); [done..|].
    destruct (IH s1 a2) as (s' & Hs' & Hw'); [exact (Step_Inv _ _ _ _ Hstep HI)|done..|].
    exists s'. split; [by eapply ASteps_app|done].
Qed.

(** Forward simulation.  From related states, whatever one event within
    the contract does to the program, the session of the specification
    does by the actions of that event (one action, or none for the
    settling of [fetch] with a 2xx status and for the panel toggle), and
    the states are related again. *)
Theorem refinement_step w ev w' s acts :
  Inv w → Abs w s → step now w ev = Some w' → action_of ev = Some acts →
  ∃ s', ASteps s acts s' ∧ Abs w' s'.
Proof. intros HI Hw Hstep%step_sound. by apply (Step_refines w). Qed.

(** C3. The program implements the specification: every run of the program
    from its initial state on events within the contract is a run of the
    session from its initial state on the actions of these events, and
    ends in a state related to it: the same configuration, the same turns
    in the same order, the same exchanges awaiting, the same requests. *)
Theorem refinement evs w acts :
  run now initial_world evs = Some w → actions_of evs = Some acts →
  ∃ s, ASteps initial_session acts s ∧ Abs w s.
Proof.
  intros Hrun%run_Steps.
  apply (Steps_refines initial_world evs); [apply Inv_initial|apply Abs_initial|done].
Qed.

(** What the session shows for a result is what the program shows for
    the body a backend sends for it: the final answer, or the fallback
    text when there is none, and a [headerStack] that reads as the trace,
    entry by entry in the order sent. *)
Theorem result_roundtrip r :
  finalAnswer r ≠ Some "" →
  ∃ fr hs, json_outcome (inr (encode_result r)) = Success fr hs
    ∧ reply_content (Success fr hs) = VStr (turn_content (answer_turn r))
    ∧ decode_trace (reply_trace (Success fr hs)) = Some (turn_trace (answer_turn r)).
Proof. apply json_outcome_decoded, decode_result_encode. Qed.

End simulation.

(** The result of the specification's success scenario. *)
Definition scenario_result : Result :=
  mkResult (Some "hi there") (Some [mkEntry "grok" "draft"; mkEntry "claude" "hi there"]).

Lemma refinement_step_witness :
  ∃ s', ASteps initial_session [Submit "hello"] s'
        ∧ Abs (submitted example_clock "hello" initial_world) s'.
Proof.
  exact (refinement_step example_clock initial_world (EvSend "hello") _ initial_session _
           Inv_initial Abs_initial eq_refl eq_refl).
Defined.

Lemma refinement_witness :
  ∃ s, ASteps initial_session [Submit "hello"; Resolve 0 (Answered scenario_result)] s
       ∧ Abs (answered example_clock (VStr "hi there") scenario_trace
                (resume 0 scenario_waiting)) s.
Proof.
  apply (refinement example_clock
           [EvSend "hello"; EvFetch 0 (inr (mkResponse 200)); EvJson 0 (inr scenario_body)]).
  - vm_compute. reflexivity.
  - reflexivity.
Defined.

Lemma result_roundtrip_witness :
  ∃ fr hs, json_outcome (inr (encode_result scenario_result)) = Success fr hs
    ∧ reply_content (Success fr hs) = VStr "hi there"
    ∧ decode_trace (reply_trace (Success fr hs))
      = Some (Some [mkEntry "grok" "draft"; mkEntry "claude" "hi there"]).
Proof. apply (result_roundtrip scenario_result). discriminate. Defined.
