(* ===== verification/Complete.v ===== *)
(** * Complete: the program performs every action of the specification

    [Refinement] shows that what the program does, the session of the
    specification does.  This file shows the converse for single actions:
    from related states, every action the session can take within the
    contract, the environment can make the program take, by the events
    [events_for] gives, and the states are related again.  The session
    chooses the number of a new exchange and the text of a diagnostic; the
    program has its own, so the session reached is one of those the
    specification allows for the action, not any given one, except for the
    actions that leave no choice ([AStep_functional]). *)

From S2P Require Import Prelude Decimal JsValue Config Wire Message Client App Steps.
From S2P Require Import Invariants Exchange Spec Refinement.

(** An action within the contract of section 6: an answer is not the empty
    string. *)
Definition in_contract (a : Action) : Prop :=
  match a with
  | Resolve _ (Answered r) => finalAnswer r ≠ Some ""
  | _ => True
  end.

(** An action that leaves the session no choice. *)
Definition functional (a : Action) : Prop :=
  match a with
  | Submit _ | Resolve _ (Failed _) => False
  | _ => True
  end.

(** The settlings by which the network resolves exchange [x], waiting in
    phase [p]: a rejection with the detail as its message, or a 200 and
    the body of the result. *)
Definition settle (p : Phase) (x : nat) (how : Resolution) : list Event :=
  match how, p with
  | Failed detail, AwaitFetch => [EvFetch x (inl (mkError "TypeError" detail))]
  | Failed detail, AwaitJson => [EvJson x (inl (mkError "SyntaxError" detail))]
  | Answered r, AwaitFetch =>
      [EvFetch x (inr (mkResponse 200)); EvJson x (inr (encode_result r))]
  | Answered r, AwaitJson => [EvJson x (inr (encode_result r))]
  end.

(** The events that make the program take an action. *)
Definition events_for (w : World) (a : Action) : option (list Event) :=
  match a with
  | Submit prompt => Some [EvSend prompt]
  | Resolve x how => p ← inflight w !! x; Some (settle p x how)
  | SetTopology t => Some [EvTopology t]
  | SetModels ms => Some [EvModels ms]
  end.

Section complete.
Context (now : nat → N).
Implicit Types (w : World) (s : Session) (a : Action) (x : nat) (p : Phase).

Lemma actions_settle p x how :
  in_contract (Resolve x how) → actions_of (settle p x how) = Some [Resolve x how].
Proof.
  destruct how as [r|detail], p; simpl; try done;
    intros Hr; by rewrite body_resolution_encode.
Qed.

Lemma run_one w ev x p :
  event_phase ev = Some (x, p) → inflight w !! x = Some p → is_Some (run now w [ev]).
Proof.
  intros Hp Hx. destruct (step_enabled now w ev x p Hp Hx) as [w' Hw'].
  cbn [run]. by rewrite Hw'.
Qed.

Lemma run_settle p x how w :
  inflight w !! x = Some p → is_Some (run now w (settle p x how)).
Proof.
  intros Hx. destruct how as [r|detail], p; cbn [settle]; try by eapply run_one.
  change (is_Some (run now w
            (exchange_events x (inr (mkResponse 200)) (inr (encode_result r))))).
  by rewrite run_exchange_events.
Qed.

(** An action that is enabled has its events, and they are its actions. *)
Lemma events_for_enabled w s a s' :
  Abs w s → AStep s a s' → in_contract a →
  ∃ evs, events_for w a = Some evs ∧ actions_of evs = Some [a] ∧ is_Some (run now w evs).
Proof.
  intros Hw Hstep Hc.
  assert (∀ x, x ∈ s_awaiting s → ∃ p, inflight w !! x = Some p) as Hp.
  { intros x. rewrite <- (abs_awaiting w s Hw). intros [p Hx]%elem_of_dom. by exists p. }
  destruct Hstep as [s x prompt|s x r Hx|s x detail content Hx|s t|s ms]; cbn [events_for];
    try (by eexists; split_and!).
  all: destruct (Hp x Hx) as [p Hxp]; rewrite Hxp; eexists; split; [done|].
  all: split; [by apply actions_settle|by apply run_settle].
Qed.

Lemma ASteps_single s a s' : ASteps s [a] s' → AStep s a s'.
Proof. intros Hs. inversion Hs as [|? ? ? ? ? Ha Hnil]; subst. by inversion Hnil; subst. Qed.

(** The actions with no choice have one outcome. *)
Lemma AStep_functional s a s1 s2 : functional a → AStep s a s1 → AStep s a s2 → s1 = s2.
Proof. intros Hf H1 H2. destruct H1; inversion H2; by subst. Qed.

(** Completeness for one action.  From related states, every action
    the session can take within the contract is taken by the program on
    the events of that action: the run succeeds, its actions are that
    action alone, and it ends in a world related to a session the
    specification allows for the action; for an answer and for a change
    of configuration, to the very session given. *)
Theorem action_performed w s a s' :
  Inv w → Abs w s → AStep s a s' → in_contract a →
  ∃ evs w' s'', events_for w a = Some evs
    ∧ actions_of evs = Some [a]
    ∧ run now w evs = Some w'
    ∧ AStep s a s'' ∧ Abs w' s''
    ∧ (functional a → s'' = s').
Proof.
  intros HI Hw Hstep Hc.
  destruct (events_for_enabled w s a s') as (evs & Hevs & Hacts & w' & Hrun); [done..|].
  destruct (Steps_refines now w evs w' s [a]) as (s'' & Hs'' & Hw'');
    [done..|by apply run_Steps|done|].
  apply ASteps_single in Hs''. exists evs, w', s''. split_and!; [done..|].
  intros Hf. by eapply AStep_functional.
Qed.

End complete.

Lemma action_performed_witness :
  ∃ evs w' s'', events_for (submitted example_clock "hello" initial_world)
                  (Resolve 0 (Answered scenario_result)) = Some evs
    ∧ actions_of evs = Some [Resolve 0 (Answered scenario_result)]
    ∧ run example_clock (submitted example_clock "hello" initial_world) evs = Some w'
    ∧ AStep (with_awaiting (union {[0]})
               (with_request (build "hello" initial_topology (enabledModelIds initial_models))
                  (with_turn (user_turn "hello") initial_session)))
        (Resolve 0 (Answered scenario_result)) s''
    ∧ Abs w' s''
    ∧ (functional (Resolve 0 (Answered scenario_result)) →
       s'' = with_awaiting (λ xs, xs ∖ {[0]})
               (with_turn (answer_turn scenario_result)
                  (with_awaiting (union {[0]})
                     (with_request
                        (build "hello" initial_topology (enabledModelIds initial_models))
                        (with_turn (user_turn "hello") initial_session))))).
Proof.
  apply (action_performed example_clock).
  - apply (Inv_submitted example_clock "hello"), Inv_initial.
  - apply (bool_decide_unpack _). by vm_compute.
  - apply AStep_answered. set_solver.
  - discriminate.
Defined.
