(* ===== verification/Backward.v ===== *)
(** * Backward: the program shows every session of the specification

    [Refinement] follows the program by the session; [Complete] makes the
    program take one action of the session.  This file closes the loop
    for whole runs: whatever run of actions within the contract the
    specification allows, there are events on which the program reaches a
    world that shows the session reached ([session_performed]).

    The session is free where the program is not: it numbers a new
    exchange as it likes, and words a diagnostic as it likes as long as
    it names the failure.  So the world reached shows the session up to
    these two choices ([Matches]): the exchanges awaiting correspond one
    to one ([rho]), and a diagnostic turn stands for any diagnostic of
    the same failure ([turn_sim]). *)

From S2P Require Import Prelude Decimal JsValue Config Wire Message Client App Steps.
From S2P Require Import Invariants Exchange Spec Refinement Complete.

(** Two turns the specification does not tell apart: the same turn, or
    two diagnostics of the same failure. *)
Definition turn_sim (t t' : Turn) : Prop :=
  t = t' ∨
  ∃ detail, t = mkTurn Assistant (turn_content t) None
          ∧ t' = mkTurn Assistant (turn_content t') None
          ∧ diagnostic detail (turn_content t) ∧ diagnostic detail (turn_content t').

(** The session [s'] is the session [s] with its exchanges renamed by
    [rho] and its diagnostics worded otherwise. *)
Record Matches (rho : nat → nat) (s s' : Session) : Prop := mkMatches {
  m_topology : s_topology s = s_topology s';
  m_roster : s_roster s = s_roster s';
  m_history : Forall2 turn_sim (s_history s) (s_history s');
  m_awaiting : s_awaiting s' = set_map rho (s_awaiting s);
  m_inj : ∀ x y, x ∈ s_awaiting s → y ∈ s_awaiting s → rho x = rho y → x = y;
  m_requests : s_requests s = s_requests s';
}.

(** The action of [s'] that stands for an action of [s]. *)
Definition renamed (rho : nat → nat) (a : Action) : Action :=
  match a with
  | Resolve x how => Resolve (rho x) how
  | _ => a
  end.

(** ** The sessions *)

Section sessions.
Implicit Types (s : Session) (a : Action) (x y : nat) (rho : nat → nat).

Lemma turn_sim_refl t : turn_sim t t.
Proof. by left. Qed.

Lemma Matches_refl s : Matches id s s.
Proof.
  split; try done.
  - apply Forall_Forall2_diag, Forall_forall. intros t _. apply turn_sim_refl.
  - apply set_eq. intros x. rewrite elem_of_map. naive_solver.
Qed.

(** What a session can do, the renamed session can do. *)
Lemma Matches_enabled rho s s1 a s' :
  Matches rho s s1 → AStep s a s' → ∃ s1', AStep s1 (renamed rho a) s1'.
Proof.
  intros Hm Hstep. assert (∀ x, x ∈ s_awaiting s → rho x ∈ s_awaiting s1) as Hin.
  { intros x Hx. rewrite (m_awaiting _ _ _ Hm). by apply elem_of_map_2. }
  destruct Hstep; simpl; eauto using Submit_enabled with js.
Qed.

(** A new exchange: the renaming learns its name. *)
Lemma Matches_submit rho s s1 x x1 prompt :
  Matches rho s s1 → x ∉ s_awaiting s → x1 ∉ s_awaiting s1 →
  Matches (λ y, if decide (y = x) then x1 else rho y)
    (with_awaiting (union {[x]})
       (with_request (build prompt (s_topology s) (enabledModelIds (s_roster s)))
          (with_turn (user_turn prompt) s)))
    (with_awaiting (union {[x1]})
       (with_request (build prompt (s_topology s1) (enabledModelIds (s_roster s1)))
          (with_turn (user_turn prompt) s1))).
Proof.
  intros [Ht Hr Hh Ha Hi Hq] Hx Hx1. rewrite Ha in Hx1.
  split; simpl; rewrite <- ?Ht, <- ?Hr, ?Hq; try done.
  - apply Forall2_app; [done|]. constructor; [apply turn_sim_refl|constructor].
  - rewrite Ha. apply set_eq. intros y. set_unfold. split.
    + intros [->|(z & -> & Hz)]; [exists x; by rewrite decide_True; auto|].
      exists z. destruct (decide (z = x)) as [->|]; [done|auto].
    + intros (z & -> & [->|Hz]); [rewrite decide_True by done; auto|].
      destruct (decide (z = x)) as [->|]; [done|eauto].
  - intros y z Hy Hz. set_unfold. repeat case_decide; subst; try done.
    + intros ->. destruct Hx1. destruct Hz as [?|Hz]; [done|]. by exists z.
    + intros <-. destruct Hx1. destruct Hy as [?|Hy]; [done|]. by exists y.
    + destruct Hy as [?|Hy], Hz as [?|Hz]; try done. by apply Hi.
Qed.

(** An exchange ends with turns the specification does not tell apart. *)
Lemma Matches_resolve rho s s1 x t t1 :
  Matches rho s s1 → x ∈ s_awaiting s → turn_sim t t1 →
  Matches rho (with_awaiting (λ xs, xs ∖ {[x]}) (with_turn t s))
    (with_awaiting (λ xs, xs ∖ {[rho x]}) (with_turn t1 s1)).
Proof.
  intros [Ht Hr Hh Ha Hi Hq] Hx Hsim. split; simpl; try done.
  - apply Forall2_app; [done|]. by constructor.
  - rewrite Ha. apply set_eq. intros y. set_unfold. split.
    + intros [(z & -> & Hz) Hne]. exists z. split_and!; [done..|]. by intros ->.
    + intros (z & -> & Hz & Hne). split; [by exists z|]. intros Heq. apply Hne, Hi; auto.
  - intros y z. set_unfold. intros [??] [??]. by apply Hi.
Qed.

(** One action of the session, and the action that stands for it. *)
Lemma Matches_step rho s s1 a s' s1' :
  Matches rho s s1 → AStep s a s' → AStep s1 (renamed rho a) s1' →
  ∃ rho', Matches rho' s' s1'.
Proof.
  intros Hm H1 H2. destruct H1 as [s x prompt Hx|s x r Hx|s x detail content Hx Hd|s t|s ms];
    simpl in H2; inversion H2; subst.
  - eexists. by apply Matches_submit.
  - exists rho. apply Matches_resolve; [done..|apply turn_sim_refl].
  - exists rho. apply Matches_resolve; [done..|]. right. by exists detail.
  - exists rho. destruct Hm. by split.
  - exists rho. destruct Hm. by split.
Qed.

Lemma in_contract_renamed rho a : in_contract a → in_contract (renamed rho a).
Proof. by destruct a. Qed.

End sessions.

Section backward.
Context (now : nat → N).
Implicit Types (w : World) (s : Session) (a : Action) (x : nat) (rho : nat → nat).

(** From related states the program takes the action, to related states. *)
Lemma performed w s a s' :
  Inv w → Abs w s → AStep s a s' → in_contract a →
  ∃ evs w' s'', run now w evs = Some w' ∧ AStep s a s'' ∧ Abs w' s''.
Proof.
  intros HI Hw Hstep Hc.
  destruct (events_for_enabled now w s a s') as (evs & _ & Hacts & w' & Hrun); [done..|].
  destruct (Steps_refines now w evs w' s [a]) as (s'' & Hs'' & Hw'');
    [done..|by apply run_Steps|done|].
  exists evs, w', s''. by split_and!; [|apply ASteps_single|].
Qed.

(** A run of the session, from states that match. *)
Lemma sessions_performed s acts s' :
  ASteps s acts s' → Forall in_contract acts →
  ∀ w rho s1, Inv w → Abs w s1 → Matches rho s s1 →
  ∃ evs w' rho' s1', run now w evs = Some w' ∧ Abs w' s1' ∧ Matches rho' s' s1'.
Proof.
  induction 1 as [s|s a s2 acts s' Hstep _ IH]; intros Hc w rho s1 HI Hw Hm.
  { by exists [], w, rho, s1. }
  apply Forall_cons in Hc as [Ha Hc].
  destruct (Matches_enabled rho s s1 a s2 Hm Hstep) as [s1a Hs1a].
  destruct (performed w s1 (renamed rho a) s1a) as (evs1 & w1 & s1b & Hrun1 & Hs1b & Hw1);
    [done..|by apply in_contract_renamed|].
  destruct (Matches_step rho s s1 a s2 s1b Hm Hstep Hs1b) as [rho1 Hm1].
  destruct (IH Hc w1 rho1 s1b) as (evs2 & w' & rho' & s1' & Hrun2 & Hw' & Hm');
    [by eapply Steps_Inv; [apply run_Steps|]|done..|].
  exists (evs1 ++ evs2), w', rho', s1'. by rewrite run_app, Hrun1.
Qed.

(** C4. The program shows every session of the specification: for every
    run of actions within the contract that the specification allows
    from the initial session, there are events on which the program
    runs, from its initial state, to a world related to the session
    reached, up to the two choices the specification leaves open: the
    names of the exchanges awaiting and the wording of the diagnostics. *)
Theorem session_performed acts s :
  ASteps initial_session acts s → Forall in_contract acts →
  ∃ evs w rho s', run now initial_world evs = Some w ∧ Abs w s' ∧ Matches rho s s'.
Proof.
  intros Hsteps Hc.
  apply (sessions_performed initial_session acts s Hsteps Hc initial_world id initial_session);
    [apply Inv_initial|apply Abs_initial|apply Matches_refl].
Qed.

End backward.

(** A session that calls its first exchange 7 and words the diagnostic
    in its own way: the program shows it, with its own name and words. *)
Lemma session_performed_witness :
  let s1 := with_awaiting (union {[7]})
              (with_request (build "hello" initial_topology (enabledModelIds initial_models))
                 (with_turn (user_turn "hello") initial_session)) in
  let s2 := with_awaiting (λ xs, xs ∖ {[7]})
              (with_turn (mkTurn Assistant "Unable to connect: boom" None) s1) in
  ∃ evs w rho s', run example_clock initial_world evs = Some w ∧ Abs w s' ∧ Matches rho s2 s'.
Proof.
  intros s1 s2.
  apply (session_performed example_clock [Submit "hello"; Resolve 7 (Failed "boom")]);
    [|by repeat constructor].
  econstructor; [apply (AStep_submit _ 7); set_solver|].
  econstructor; [|constructor].
  apply (AStep_failed _ 7 "boom"); [set_solver|].
  split; [by exists "", ": boom"|by exists "Unable to connect: ", ""].
Defined.
