(* ===== verification/Backend.v ===== *)
(** * Backend: the orchestration service as an interface

    The program sees the backend through two promises.  [Backend] is a
    service that settles them as a function of the request; [Conforming]
    is what section 6 of the specification asks of it: a 2xx status and a
    body that reads as a result with a final answer that is not empty.

    [converse] is a conversation with a backend: each prompt is sent and
    its exchange settled by the service before the next prompt.  Whatever
    the backend does the conversation goes on, two turns per prompt
    ([converse_any]); with a conforming backend the history is the
    transcript the specification describes, the prompts and the results'
    answers in turn, and nothing is logged ([converse_conforming]).  The
    theorems are proved against the interface; [echo] is a backend that
    satisfies it. *)

From S2P Require Import Prelude Decimal JsValue Config Wire Message Client App Steps.
From S2P Require Import Invariants Exchange Frame Spec Refinement.

Class Backend : Type := serve : Request → Settled Response * Settled JsValue.

Class Conforming (B : Backend) : Type := {
  result_of : Request → Result;
  serve_status q : ∃ response, (serve q).1 = inr response ∧ ok response = true;
  serve_body q : ∃ data, (serve q).2 = inr data ∧ decode_result data = Some (result_of q);
  serve_answer q : finalAnswer (result_of q) ≠ Some "";
}.

(** The request a send makes in a world. *)
Definition request_for (w : World) (prompt : string) : Request :=
  run_request prompt (topology (app w)) (enabledModels (models (app w))).

(** The outcome of an exchange served by the backend. *)
Definition served `{Backend} (q : Request) : Outcome :=
  exchange_outcome (serve q).1 (serve q).2.

(** A send and the settlings the backend answers it with. *)
Definition ask `{Backend} (w : World) (prompt : string) : list Event :=
  EvSend prompt ::
    exchange_events (calls w) (serve (request_for w prompt)).1 (serve (request_for w prompt)).2.

(** A backend that answers every prompt with the prompt. *)
Definition echo_result (q : Request) : Result :=
  mkResult
    (Some ("You said: " +:+ match request_prompt q with inr (VStr p) => p | _ => "" end))
    (Some [mkEntry "echo" "ok"]).

Definition echo : Backend :=
  λ q, (inr (mkResponse 200), inr (encode_result (echo_result q))).

(** A backend that is down. *)
Definition down : Backend :=
  λ q, (inl (mkError "TypeError" "Failed to fetch"), inl (mkError "TypeError" "Failed to fetch")).

Section conversation.
Context `{B : Backend} (now : nat → N).
Implicit Types (w : World) (prompt : string) (prompts : list string).

Fixpoint converse (w : World) (prompts : list string) : option World :=
  match prompts with
  | [] => Some w
  | prompt :: prompts' => w' ← run now w (ask w prompt); converse w' prompts'
  end.

(** One prompt: the world after its exchange. *)
Lemma run_ask w prompt :
  Inv w →
  ∃ w' k, run now w (ask w prompt) = Some w'
    ∧ history w' = history w ++ [userMessage (now (reads w)) (now (S (reads w))) prompt;
                                 reply (now k) (now (S k)) (served (request_for w prompt))]
    ∧ inflight w' = inflight w
    ∧ topology (app w') = topology (app w) ∧ models (app w') = models (app w)
    ∧ console w' = console w ++
        match served (request_for w prompt) with
        | Failure e => [(console_label, e)]
        | Success _ _ => []
        end
    ∧ Inv w'.
Proof.
  intros HI. unfold ask. eexists _, _. split; [apply run_send_exchange|].
  rewrite history_send_exchange, inflight_send_exchange by done.
  split_and!; try done.
  - unfold served. simpl. destruct (exchange_outcome _ _); by rewrite ?app_nil_r.
  - eapply Steps_Inv; [|done]. apply run_Steps, run_send_exchange.
Qed.

(** The two turns of an exchange: the prompt and the reply to [o]. *)
Definition exchange_turns (prompt : string) (o : Outcome) (ms : list Message) : Prop :=
  ∃ u a, ms = [u; a]
    ∧ is_user u ∧ msg_content u = VStr prompt ∧ msg_headerStack u = VUndefined
    ∧ is_assistant a ∧ msg_content a = reply_content o ∧ msg_headerStack a = reply_trace o.

Lemma exchange_turns_length prompts (os : string → Outcome) mss :
  Forall2 (λ prompt ms, exchange_turns prompt (os prompt) ms) prompts mss →
  length (concat mss) = 2 * length prompts.
Proof. induction 1 as [|p ms ps mss (u & a & -> & _) _ IH]; simpl; lia. Qed.

(** What a conversation logs: the errors of the exchanges that failed. *)
Definition logged (os : list Outcome) : list (string * JsError) :=
  omap (λ o, match o with Failure e => Some (console_label, e) | Success _ _ => None end) os.

Lemma converse_turns (q : string → Request) w prompts :
  Inv w → (∀ prompt, request_for w prompt = q prompt) →
  ∃ w' mss, converse w prompts = Some w'
    ∧ history w' = history w ++ concat mss
    ∧ Forall2 (λ prompt ms, exchange_turns prompt (served (q prompt)) ms) prompts mss
    ∧ console w' = console w ++ logged ((served ∘ q) <$> prompts)
    ∧ inflight w' = inflight w.
Proof.
  revert w. induction prompts as [|prompt prompts IH]; intros w HI Hq; cbn [converse].
  { exists w, []. simpl. by rewrite !app_nil_r. }
  destruct (run_ask w prompt HI) as (w1 & k & -> & Hh & Hi & Ht & Hm & Hc & HI1). simpl.
  destruct (IH w1 HI1) as (w' & mss & -> & Hh' & Hmss & Hc' & Hi').
  { intros p. unfold request_for. rewrite Ht, Hm. apply Hq. }
  rewrite Hq in Hh, Hc. eexists w', ([userMessage _ _ _; reply _ _ _] :: mss).
  split; [done|].
  split_and!; [by rewrite Hh', Hh, <- app_assoc| |
               rewrite Hc', Hc, <- app_assoc; by destruct (served _)|congruence].
  constructor; [|done]. eexists (userMessage _ _ _), (reply _ _ _).
  split_and!; auto with js.
Qed.

(** With a conforming backend every exchange is a success that shows the
    result. *)
Lemma served_conforming `{!Conforming B} (q : Request) :
  ∃ fr hs, served q = Success fr hs
    ∧ reply_content (served q) = VStr (turn_content (answer_turn (result_of q)))
    ∧ decode_trace (reply_trace (served q)) = Some (trace (result_of q)).
Proof.
  destruct (serve_status q) as (response & Hs & Hok), (serve_body q) as (data & Hb & Hr).
  destruct (json_outcome_decoded data (result_of q) Hr (serve_answer q))
    as (fr & hs & Ho & Hc & Ht).
  assert (served q = Success fr hs) as ->; [|by exists fr, hs].
  unfold served, exchange_outcome. rewrite Hs, Hb. cbn [fetch_outcome]. by rewrite Hok.
Qed.

Lemma exchange_turns_conforming `{!Conforming B} (q : Request) prompt ms :
  exchange_turns prompt (served q) ms →
  Forall2 turn_rel ms [user_turn prompt; answer_turn (result_of q)].
Proof.
  destruct (served_conforming q) as (fr & hs & _ & Hc & Ht).
  intros (u & a & -> & Hu & Hcu & Htu & Ha & Hca & Hta).
  rewrite Hc in Hca. rewrite <- Hta in Ht.
  constructor; [|constructor; [|constructor]].
  - split_and!; [exact Hu|exact Hcu|by rewrite Htu].
  - split_and!; [exact Ha|exact Hca|exact Ht].
Qed.

Lemma transcript_conforming `{!Conforming B} (q : string → Request) prompts mss :
  Forall2 (λ prompt ms, exchange_turns prompt (served (q prompt)) ms) prompts mss →
  Forall2 turn_rel (concat mss)
    (prompts ≫= λ prompt, [user_turn prompt; answer_turn (result_of (q prompt))]).
Proof.
  induction 1 as [|p ms ps mss Hms _ IH]; [constructor|].
  apply Forall2_app; [by apply exchange_turns_conforming|done].
Qed.

Lemma logged_conforming `{!Conforming B} (qs : list Request) : logged (served <$> qs) = [].
Proof.
  induction qs as [|q qs IH]; [done|]. unfold logged in *. simpl.
  by destruct (served_conforming q) as (? & ? & -> & _).
Qed.

(** No exchange is fatal to the session.  Whatever the backend serves,
    a conversation of any length runs to its end: each prompt adds its
    user turn and the reply to what the backend served for it, in that
    order, the errors of the failed exchanges are logged, and the
    exchanges in flight before the conversation are still in flight. *)
Theorem converse_any w prompts :
  Inv w →
  ∃ w' mss, converse w prompts = Some w'
    ∧ history w' = history w ++ concat mss
    ∧ Forall2 (λ prompt ms, exchange_turns prompt (served (request_for w prompt)) ms)
        prompts mss
    ∧ length (history w') = length (history w) + 2 * length prompts
    ∧ inflight w' = inflight w.
Proof.
  intros HI. destruct (converse_turns (request_for w) w prompts)
    as (w' & mss & Hrun & Hh & Hmss & _ & Hi); [done..|].
  exists w', mss. split_and!; try done.
  by rewrite Hh, length_app, (exchange_turns_length _ _ _ Hmss).
Qed.

(** C37. With a backend that conforms to the contract, the history of a
    conversation is the transcript the specification describes: for each
    prompt, in order, the user's turn with the prompt and the assistant's
    turn with the final answer and the trace of the result the backend
    gave for it; and nothing is logged. *)
Theorem converse_conforming `{!Conforming B} w prompts :
  Inv w →
  ∃ w' ms, converse w prompts = Some w'
    ∧ history w' = history w ++ ms
    ∧ Forall2 turn_rel ms
        (prompts ≫= λ prompt,
           [user_turn prompt; answer_turn (result_of (request_for w prompt))])
    ∧ console w' = console w.
Proof.
  intros HI. destruct (converse_turns (request_for w) w prompts)
    as (w' & mss & Hrun & Hh & Hmss & Hc & _); [done..|].
  exists w', (concat mss). split_and!; [done..|by apply transcript_conforming|].
  by rewrite Hc, list_fmap_compose, logged_conforming, app_nil_r.
Qed.

End conversation.

(** ** A backend that conforms *)

Lemma echo_answer q : finalAnswer (echo_result q) ≠ Some "".
Proof. simpl. by rewrite str_app_cons. Qed.

#[export] Instance echo_conforming : Conforming echo.
Proof.
  refine {| result_of := echo_result |}.
  - intros q. by exists (mkResponse 200).
  - intros q. eexists. split; [done|apply decode_result_encode].
  - apply echo_answer.
Defined.

(** A conversation with [echo]. *)
Example converse_echo :
  (λ w, msg_content <$> history w) <$> converse (B:=echo) example_clock initial_world ["hello"; "bye"]
  = Some [VStr "hello"; VStr "You said: hello"; VStr "bye"; VStr "You said: bye"].
Proof. vm_compute. reflexivity. Qed.

(** A conversation with a backend that is down: every prompt gets its
    diagnostic, and the session goes on. *)
Example converse_down :
  (λ w, (msg_role <$> history w, length (console w), size (inflight w)))
    <$> converse (B:=down) example_clock initial_world ["hello"; "anyone?"]
  = Some ([User; Assistant; User; Assistant], 2, 0).
Proof. vm_compute. reflexivity. Qed.

Lemma converse_any_witness :
  ∃ w' mss, converse (B:=down) example_clock initial_world ["hello"] = Some w'
    ∧ history w' = history initial_world ++ concat mss
    ∧ Forall2 (λ prompt ms,
                 exchange_turns prompt (served (H:=down) (request_for initial_world prompt)) ms)
        ["hello"] mss
    ∧ length (history w') = length (history initial_world) + 2 * length ["hello"]
    ∧ inflight w' = inflight initial_world.
Proof. exact (converse_any (B:=down) example_clock initial_world ["hello"] Inv_initial). Defined.

Lemma converse_conforming_witness :
  ∃ w' ms, converse (B:=echo) example_clock initial_world ["hello"] = Some w'
    ∧ history w' = history initial_world ++ ms
    ∧ Forall2 turn_rel ms
        [user_turn "hello"; answer_turn (mkResult (Some "You said: hello") (Some [mkEntry "echo" "ok"]))]
    ∧ console w' = console initial_world.
Proof. exact (converse_conforming (B:=echo) example_clock initial_world ["hello"] Inv_initial). Defined.
