(* ===== verification/Transport.v ===== *)
(** * Transport: the two texts of an exchange

    What leaves the program is a text, [JSON.stringify] of the payload
    (lines 47-51), and what comes back is a text that [response.json()]
    parses (line 58).  With [Json] both ends can be stated on texts:

    - the body determines the payload ([request_text]): the backend that
      parses it reads the prompt, the topology and the ids exactly as the
      program had them, whatever characters the prompt holds, and no two
      payloads have the same body;
    - the text a backend prints for a result is shown as that result
      ([response_text]). *)

From S2P Require Import Prelude Decimal JsValue Json Config Wire Message Client.
From S2P Require Import Spec Refinement.

(** The body handed to [fetch], as text. *)
Definition body_text (q : Request) : option string := stringify (req_body q).

Section transport.
Implicit Types (content : string) (topology : Topology) (ids : list string) (r : Result).

Lemma json_strings ids : forallb json (VStr <$> ids) = true.
Proof. by induction ids. Qed.

Lemma json_request_payload content topology ids :
  json (request_payload content topology ids) = true.
Proof. simpl. by rewrite json_strings. Qed.

Lemma json_encode_trace (entries : list TraceEntry) : json (encode_trace entries) = true.
Proof. simpl. by induction entries. Qed.

Lemma json_encode_result r : json (encode_result r) = true.
Proof.
  destruct r as [[a|] [t|]]; unfold encode_result;
    cbn [finalAnswer trace from_option app json forallb snd];
    by rewrite ?json_encode_trace.
Qed.

(** The body is always printed. *)
Lemma body_text_print content topology ids :
  body_text (run_request content topology ids)
  = Some (print (request_payload content topology ids)).
Proof. apply stringify_json, json_request_payload. Qed.

(** C34. The body determines the payload.  The text sent for a prompt, a
    topology and a list of ids parses back to the payload with exactly
    these three fields, and a body is the text of one payload only: no
    prompt, whatever quotes, backslashes or control characters it holds,
    can change the topology or the ids the backend reads. *)
Theorem request_text content topology ids :
  ∃ text, body_text (run_request content topology ids) = Some text
    ∧ parse text = Some (request_payload content topology ids)
    ∧ ∀ content' topology' ids',
        body_text (run_request content' topology' ids') = Some text →
        content' = content ∧ topology' = topology ∧ ids' = ids.
Proof.
  eexists. split; [apply body_text_print|]. split.
  - apply parse_print, json_request_payload.
  - intros content' topology' ids' Hs. rewrite body_text_print in Hs.
    apply request_payload_inj, print_inj; [apply json_request_payload..|congruence].
Qed.

(** The text a backend prints for a result is shown as that result:
    parsed by [response.json()] and read by the handler, it gives the
    assistant turn with the result's final answer (or the fallback text
    when it has none) and a [headerStack] that reads as the result's
    trace. *)
Theorem response_text r :
  finalAnswer r ≠ Some "" →
  ∃ text data fr hs,
    stringify (encode_result r) = Some text
    ∧ parse text = Some data
    ∧ json_outcome (inr data) = Success fr hs
    ∧ reply_content (Success fr hs) = VStr (turn_content (answer_turn r))
    ∧ decode_trace (reply_trace (Success fr hs)) = Some (turn_trace (answer_turn r)).
Proof.
  intros Hne.
  destruct (json_outcome_decoded (encode_result r) r (decode_result_encode r) Hne)
    as (fr & hs & Ho & Hc & Ht).
  exists (print (encode_result r)), (encode_result r), fr, hs.
  split_and!; [apply stringify_json, json_encode_result|
               apply parse_print, json_encode_result|done..].
Qed.

End transport.

Lemma response_text_witness :
  ∃ text data fr hs,
    stringify (encode_result scenario_result) = Some text
    ∧ parse text = Some data
    ∧ json_outcome (inr data) = Success fr hs
    ∧ reply_content (Success fr hs) = VStr "hi there"
    ∧ decode_trace (reply_trace (Success fr hs))
      = Some (Some [mkEntry "grok" "draft"; mkEntry "claude" "hi there"]).
Proof. apply (response_text scenario_result). discriminate. Defined.
