(* ===== verification/Interleave.v ===== *)
(** * Interleave: what the clock and the order of the events decide

    The world a run reaches depends on the events, on their order and on
    the clock.  This file says on which of them each part depends.

    - What a turn shows (its role, its content, its trace) comes from the
      event that added it, and so does every entry of the log: the
      conversation of a run is the turns its events add, in the order of
      the events, and the number of calls and of clock reads is the sum
      of theirs ([conversation_of_events]).
    - The clock decides the ids and the timestamps and nothing else: two
      clocks give, on the same events, worlds that differ in these two
      fields only, and the same events are stuck ([clock_only_stamps]).
    - The order of the events decides the order of the turns and nothing
      else of what is shown.  Two events that do not conflict
      ([conflict]: two sends, a send and a change of topology or roster,
      two changes of one cell, two settlings of one activation) can be
      taken in either order, with the same configuration, the same
      requests, the same activations left waiting and the same turns
      shown, in another order ([events_commute]); two runs of the same
      events in any two orders show the same turns, log the same errors
      and leave the same activations waiting ([order_only_orders]). *)

From S2P Require Import Prelude Decimal JsValue Config Wire Message Client App Steps.
From S2P Require Import Invariants Exchange Log Frame.

(** What a turn shows: the id and the timestamp apart. *)
Definition shown (m : Message) : Role * JsValue * JsValue :=
  (msg_role m, msg_content m, msg_headerStack m).

Definition conversation (w : World) : list (Role * JsValue * JsValue) :=
  shown <$> history w.

(** The turn an event adds: a send the prompt, a settling that ends an
    exchange the reply to its outcome. *)
Definition adds (ev : Event) : list (Role * JsValue * JsValue) :=
  match ev with
  | EvSend content => [(User, VStr content, VUndefined)]
  | _ =>
      match event_outcome ev with
      | Some (_, o) => [(Assistant, reply_content o, reply_trace o)]
      | None => []
      end
  end.

(** The entry of the log an event adds. *)
Definition logs (ev : Event) : list (string * JsError) :=
  match event_outcome ev with
  | Some (_, o) => option_list (logged_for o)
  | None => []
  end.

(** The clock reads an event makes: two per message built, and the one
    lost when a property read throws. *)
Definition ticks (ev : Event) : nat :=
  match ev with
  | EvSend _ => 2
  | _ => if event_outcome ev is Some _ then 2 + event_wasted ev else 0
  end.

(** The activations an event starts. *)
Definition sends (ev : Event) : nat :=
  match ev with EvSend _ => 1 | _ => 0 end.

(** The wait list after an event, [c] being the number of the next
    activation. *)
Definition waits_after (c : nat) (ev : Event) (waits : gmap nat Phase) : gmap nat Phase :=
  match ev with
  | EvSend _ => <[c := AwaitFetch]> waits
  | EvFetch x fo =>
      if fetch_outcome fo is Some _ then delete x waits else <[x := AwaitJson]> waits
  | EvJson x _ => delete x waits
  | _ => waits
  end.

(** The event ends the exchange of activation [x]; the event is the
    2xx response of activation [x]. *)
Definition ends (x : nat) (ev : Event) : bool :=
  if event_outcome ev is Some (y, _) then bool_decide (y = x) else false.

Definition passes (x : nat) (ev : Event) : bool :=
  match ev with
  | EvFetch y fo => bool_decide (y = x) && bool_decide (fetch_outcome fo = None)
  | _ => false
  end.

(** Where activation [x] waits after the events [evs], whatever their
    order: nowhere once an event ended it, for the body once its
    response passed, for the response once it was called. *)
Definition phase_after (evs : list Event) (x : nat) : option Phase :=
  if existsb (ends x) evs then None
  else if existsb (passes x) evs then Some AwaitJson
  else if decide (x < sum_list_with sends evs) then Some AwaitFetch
  else None.

(** Two events conflict when their order shows in the configuration or
    in the requests (two sends, a send and a change of the topology or of
    the roster, two changes of the same cell), or when they settle the
    same activation. *)
Definition conflict (ev1 ev2 : Event) : bool :=
  match ev1, ev2 with
  | EvSend _, (EvSend _ | EvTopology _ | EvModels _)
  | (EvTopology _ | EvModels _), EvSend _
  | EvTopology _, EvTopology _ | EvModels _, EvModels _ => true
  | (EvFetch x _ | EvJson x _), (EvFetch y _ | EvJson y _) => bool_decide (x = y)
  | _, _ => false
  end.

(** A message without what the clock gave it. *)
Definition unstamp (m : Message) : Message :=
  mkMessage "" (msg_role m) (msg_content m) 0 (msg_headerStack m).

Definition unstamped (w : World) : World := on_app (with_messages (fmap unstamp)) w.

(** Two worlds that differ at most in the order of their turns and of
    their log, and in ids and timestamps. *)
Record reordered (w1 w2 : World) : Prop := mkReordered {
  re_topology : topology (app w1) = topology (app w2);
  re_models : models (app w1) = models (app w2);
  re_isConfigOpen : isConfigOpen (app w1) = isConfigOpen (app w2);
  re_inflight : inflight w1 = inflight w2;
  re_calls : calls w1 = calls w2;
  re_sent : sent w1 = sent w2;
  re_reads : reads w1 = reads w2;
  re_conversation : conversation w1 ≡ₚ conversation w2;
  re_console : console w1 ≡ₚ console w2;
}.

(** The premises of a rule of [Step] on the response or on the body,
    used to decide the matches of the goal. *)
Ltac by_premises :=
  repeat match goal with
         | H : ok _ = _ |- _ => rewrite H
         | H : get_prop _ _ = _ |- _ => rewrite H
         end.

Section interleave.
Context (now : nat → N).
Implicit Types (w : World) (x y : nat) (ev : Event) (evs : list Event).

(** ** What an event adds *)

Lemma Step_adds w ev w' : Step now w ev w' → conversation w' = conversation w ++ adds ev.
Proof.
  destruct 1; unfold conversation, history; simpl; by_premises; simpl;
    by rewrite ?fmap_app, ?app_nil_r.
Qed.

Lemma Step_logs w ev w' : Step now w ev w' → console w' = console w ++ logs ev.
Proof. destruct 1; unfold logs; simpl; by_premises; simpl; by rewrite ?app_nil_r. Qed.

Lemma Step_ticks w ev w' :
  Step now w ev w' → reads w' = ticks ev + reads w ∧ calls w' = sends ev + calls w.
Proof. destruct 1; unfold ticks; simpl; by_premises; simpl; done. Qed.

Lemma Step_waits w ev w' : Step now w ev w' → inflight w' = waits_after (calls w) ev (inflight w).
Proof. destruct 1; simpl; by_premises; simpl; try done; by rewrite insert_delete_eq. Qed.

(** An event leaves alone the activations it does not name. *)
Lemma waits_after_other c ev y (waits : gmap nat Phase) :
  (sends ev = 1 → c ≠ y) → (∀ x p, event_phase ev = Some (x, p) → x ≠ y) →
  waits_after c ev waits !! y = waits !! y.
Proof.
  destruct ev as [|x fo|x jo| | |]; simpl; intros Hc Hx; try done.
  - by rewrite lookup_insert_ne by auto.
  - destruct (fetch_outcome fo); by rewrite ?lookup_delete_ne, ?lookup_insert_ne by eauto.
  - by rewrite lookup_delete_ne by eauto.
Qed.

(** What a run adds is what its events add. *)
Lemma Steps_adds w evs w' :
  Steps now w evs w' →
  conversation w' = conversation w ++ (evs ≫= adds)
  ∧ console w' = console w ++ (evs ≫= logs)
  ∧ reads w' = sum_list_with ticks evs + reads w
  ∧ calls w' = sum_list_with sends evs + calls w.
Proof.
  induction 1 as [w|w ev w1 evs w2 Hstep _ (IHa & IHl & IHr & IHc)];
    [by rewrite !app_nil_r|].
  destruct (Step_ticks _ _ _ Hstep) as [Hr Hc].
  rewrite IHa, IHl, IHr, IHc, (Step_adds _ _ _ Hstep), (Step_logs _ _ _ Hstep), Hr, Hc.
  rewrite !bind_cons, !(assoc_L (++)). simpl. split_and!; [done..|lia|lia].
Qed.

End interleave.

(** ** The clock *)

Section clock.
Implicit Types (now : nat → N) (w : World) (ev : Event) (evs : list Event).

(** From worlds that differ in stamps only, a step under one clock is a
    step under any other, to worlds that differ in stamps only. *)
Lemma Step_unstamped now1 now2 w1 w2 ev w1' :
  unstamped w1 = unstamped w2 → Step now1 w1 ev w1' →
  ∃ w2', Step now2 w2 ev w2' ∧ unstamped w1' = unstamped w2'.
Proof.
  destruct w1 as [[t1 ms1 h1 b1] i1 c1 s1 l1 r1], w2 as [[t2 ms2 h2 b2] i2 c2 s2 l2 r2].
  intros [= -> -> Hh -> -> -> -> -> ->] Hstep.
  inversion Hstep; subst; simpl in *; (eexists; split; [by econstructor|]).
  all: unfold unstamped, on_app, with_messages; simpl; rewrite ?fmap_app, ?Hh; done.
Qed.

Lemma step_unstamped now1 now2 w1 w2 ev :
  unstamped w1 = unstamped w2 →
  match step now1 w1 ev, step now2 w2 ev with
  | Some w1', Some w2' => unstamped w1' = unstamped w2'
  | None, None => True
  | _, _ => False
  end.
Proof.
  intros Hu. destruct (step now1 w1 ev) as [w1'|] eqn:H1, (step now2 w2 ev) as [w2'|] eqn:H2;
    [| |exfalso|done].
  - destruct (Step_unstamped now1 now2 w1 w2 ev w1' Hu) as (w & Hw%step_complete & ?);
      [by apply step_sound|]. congruence.
  - destruct (Step_unstamped now1 now2 w1 w2 ev w1' Hu) as (w & Hw%step_complete & ?);
      [by apply step_sound|]. congruence.
  - destruct (Step_unstamped now2 now1 w2 w1 ev w2') as (w & Hw%step_complete & ?);
      [done|by apply step_sound|]. congruence.
Qed.

Lemma run_unstamped now1 now2 evs : ∀ w1 w2,
  unstamped w1 = unstamped w2 →
  unstamped <$> run now1 w1 evs = unstamped <$> run now2 w2 evs.
Proof.
  induction evs as [|ev evs IH]; intros w1 w2 Hu; simpl; [by f_equal|].
  pose proof (step_unstamped now1 now2 w1 w2 ev Hu) as Hstep.
  destruct (step now1 w1 ev), (step now2 w2 ev); try done. by apply IH.
Qed.

End clock.

(** ** The wait list *)

Section waits.
Context (now : nat → N).
Implicit Types (w : World) (x y : nat) (p q : Phase) (ev : Event) (evs : list Event).

(** The events [evs] led to [w]: they account for its wait list and its
    calls, and settle activations that were called. *)
Record Traced evs w : Prop := mkTraced {
  tr_waits : ∀ x, inflight w !! x = phase_after evs x;
  tr_calls : calls w = sum_list_with sends evs;
  tr_called : ∀ x, existsb (ends x) evs || existsb (passes x) evs = true → x < calls w;
}.

Lemma phase_after_snoc evs ev x :
  phase_after (evs ++ [ev]) x =
  if existsb (ends x) evs || ends x ev then None
  else if existsb (passes x) evs || passes x ev then Some AwaitJson
  else if decide (x < sum_list_with sends evs + sends ev) then Some AwaitFetch
  else None.
Proof.
  unfold phase_after. rewrite !existsb_app, sum_list_with_app. simpl.
  by rewrite !orb_false_r, Nat.add_0_r.
Qed.

Lemma Traced_initial : Traced [] initial_world.
Proof. split; [intros x; apply lookup_empty|done|done]. Qed.

(** An activation not yet called has no event. *)
Lemma Traced_fresh evs w :
  Traced evs w →
  existsb (ends (calls w)) evs = false ∧ existsb (passes (calls w)) evs = false.
Proof.
  intros [_ _ Hc]. specialize (Hc (calls w)).
  destruct (existsb (ends _) evs), (existsb (passes _) evs); simpl in *; try done; lia.
Qed.

Lemma Traced_send evs w content :
  Traced evs w → Traced (evs ++ [EvSend content]) (submitted now content w).
Proof.
  intros Ht. destruct (Traced_fresh evs w Ht) as [He Hp]. destruct Ht as [Hw Hc Hk].
  split; [intros x; rewrite phase_after_snoc|..]; simpl.
  - rewrite !orb_false_r, <- Hc. destruct (decide (x = calls w)) as [->|Hx].
    + rewrite lookup_insert_eq, He, Hp. by rewrite decide_True by lia.
    + rewrite lookup_insert_ne, Hw by done. unfold phase_after. rewrite <- Hc.
      repeat case_match; try done; lia.
  - rewrite sum_list_with_app, <- Hc. simpl. lia.
  - intros x. rewrite !existsb_app. simpl. rewrite !orb_false_r. intros ?%Hk. lia.
Qed.

(** A settling is about its own activation only. *)
Lemma settling_other ev y p x :
  event_phase ev = Some (y, p) → y ≠ x → ends x ev = false ∧ passes x ev = false.
Proof.
  unfold ends. destruct ev as [|y' fo|y' jo| | |]; simpl; intros; simplify_eq;
    [destruct (fetch_outcome fo); simpl|]; by rewrite ?bool_decide_false.
Qed.

(** It ends the exchange, or it is the response that passes. *)
Lemma settling_self ev y p c (waits : gmap nat Phase) :
  event_phase ev = Some (y, p) → sends ev = 0 ∧
  (ends y ev = true ∧ waits_after c ev waits !! y = None
   ∨ ends y ev = false ∧ passes y ev = true ∧ waits_after c ev waits !! y = Some AwaitJson).
Proof.
  unfold ends. destruct ev as [|y' fo|y' jo| | |]; simpl; intros; simplify_eq;
    [destruct (fetch_outcome fo) eqn:Hfo; simpl|]; rewrite ?bool_decide_true by done;
    rewrite ?lookup_delete_eq, ?lookup_insert_eq; auto.
Qed.

Lemma Step_enabled_phase w ev w' y p :
  Step now w ev w' → event_phase ev = Some (y, p) → inflight w !! y = Some p.
Proof. destruct 1; simpl; intros; by simplify_eq. Qed.

(** An activation that waits was called and has not ended. *)
Lemma Traced_waiting evs w y p :
  Traced evs w → inflight w !! y = Some p → existsb (ends y) evs = false ∧ y < calls w.
Proof.
  intros [Hw Hc Hk]. rewrite Hw. specialize (Hk y). unfold phase_after. rewrite <- Hc.
  destruct (existsb (ends y) evs); [done|]. destruct (existsb (passes y) evs); [auto|].
  case_decide; [auto|done].
Qed.

Lemma Traced_settle evs w ev w' y p :
  event_phase ev = Some (y, p) → Step now w ev w' → Traced evs w → Traced (evs ++ [ev]) w'.
Proof.
  intros Hp Hstep Ht. pose proof (Step_enabled_phase _ _ _ _ _ Hstep Hp) as Hy.
  destruct (Traced_waiting _ _ _ _ Ht Hy) as [He Hlt].
  destruct (settling_self ev y p (calls w) (inflight w) Hp) as [H0 Hself].
  destruct (Step_ticks now _ _ _ Hstep) as [_ Hc]. rewrite H0 in Hc. simpl in Hc.
  destruct Ht as [Hw Hcalls Hk].
  split; [intros x; rewrite (Step_waits now _ _ _ Hstep), phase_after_snoc|..].
  - destruct (decide (y = x)) as [<-|Hne].
    + destruct Hself as [(-> & ->)|(-> & -> & ->)]; [by rewrite orb_true_r|].
      by rewrite He, orb_true_r.
    + destruct (settling_other ev y p x Hp Hne) as [-> ->].
      rewrite (waits_after_other _ ev x), !orb_false_r, H0, Nat.add_0_r, Hw;
        [done|by rewrite H0|congruence].
  - rewrite sum_list_with_app. simpl. lia.
  - intros x. rewrite !existsb_app, Hc. simpl. rewrite !orb_false_r.
    destruct (decide (y = x)) as [<-|Hne]; [done|].
    destruct (settling_other ev y p x Hp Hne) as [-> ->]. rewrite !orb_false_r. apply Hk.
Qed.

Lemma Traced_quiet evs w ev w' :
  inflight w' = inflight w → calls w' = calls w →
  (∀ x, ends x ev = false ∧ passes x ev = false) → sends ev = 0 →
  Traced evs w → Traced (evs ++ [ev]) w'.
Proof.
  intros Hi Hc Hev H0 [Hw Hcalls Hk].
  split; [intros x; rewrite phase_after_snoc|rewrite sum_list_with_app; simpl; lia|intros x].
  - destruct (Hev x) as [-> ->]. by rewrite Hi, !orb_false_r, H0, Nat.add_0_r.
  - rewrite !existsb_app, Hc. simpl. destruct (Hev x) as [-> ->].
    rewrite !orb_false_r. apply Hk.
Qed.

Lemma Traced_Step evs w ev w' : Step now w ev w' → Traced evs w → Traced (evs ++ [ev]) w'.
Proof.
  intros Hstep. destruct ev as [content|y fo|y jo|t|ms|].
  - inversion Hstep; subst. apply Traced_send.
  - by eapply Traced_settle.
  - by eapply Traced_settle.
  - inversion Hstep; subst. by apply Traced_quiet.
  - inversion Hstep; subst. by apply Traced_quiet.
  - inversion Hstep; subst. by apply Traced_quiet.
Qed.

Lemma Traced_run evs : ∀ w, run now initial_world evs = Some w → Traced evs w.
Proof.
  induction evs as [|ev evs IH] using rev_ind; intros w; [intros [= <-]; apply Traced_initial|].
  rewrite run_app. destruct (run now initial_world evs) as [w0|]; [simpl|done].
  destruct (step now w0 ev) as [w1|] eqn:Hstep; intros [= <-].
  apply step_sound in Hstep. eapply Traced_Step; eauto.
Qed.

End waits.

(** Where an activation waits does not depend on the order of the events. *)
#[export] Instance phase_after_Permutation : Proper ((≡ₚ) ==> (=) ==> (=)) phase_after.
Proof.
  intros evs1 evs2 Hp x ? <-. unfold phase_after.
  by rewrite (existsb_Permutation _ _ _ Hp), (existsb_Permutation _ _ _ Hp),
    (sum_list_with_Permutation_proper sends _ _ Hp).
Qed.

(** ** The order of the events *)

Section order.
Context (now : nat → N).
Implicit Types (w : World) (x y c : nat) (p q : Phase) (ev : Event) (evs : list Event).

(** What an event does to the three cells of the configuration. *)
Lemma Step_cells w ev w' :
  Step now w ev w' →
  topology (app w') = (if ev is EvTopology t then t else topology (app w))
  ∧ models (app w') = (if ev is EvModels ms then ms else models (app w))
  ∧ isConfigOpen (app w') = (if ev is EvToggleConfig then negb (isConfigOpen (app w))
                             else isConfigOpen (app w)).
Proof. by destruct 1. Qed.

(** An activation that waits is none the next call will start. *)
Lemma waiting_not_next w ev w' x p :
  Inv w → Step now w ev w' → event_phase ev = Some (x, p) → x ≠ calls w.
Proof.
  intros HI Hstep Hp ->. pose proof (Step_enabled_phase now _ _ _ _ _ Hstep Hp) as Hx.
  by rewrite (Inv_next _ HI) in Hx.
Qed.

(** Two settlings that do not conflict are of different activations. *)
Lemma conflict_phase ev1 ev2 x p y q :
  conflict ev1 ev2 = false → event_phase ev1 = Some (x, p) → event_phase ev2 = Some (y, q) →
  x ≠ y.
Proof.
  destruct ev1, ev2; simpl; intros Hc ? ?; simplify_eq; by apply bool_decide_eq_false in Hc.
Qed.

(** An event that could be taken can still be taken after an event it
    does not conflict with. *)
Lemma step_after w ev1 ev2 w1 :
  Inv w → conflict ev1 ev2 = false → Step now w ev1 w1 →
  is_Some (step now w ev2) → is_Some (step now w1 ev2).
Proof.
  intros HI Hc H1 [w2 H2%step_sound]. destruct (event_phase ev2) as [[y q]|] eqn:Hp.
  - apply (step_enabled now w1 ev2 y q Hp).
    rewrite (Step_waits now _ _ _ H1), waits_after_other;
      [by eapply Step_enabled_phase| |].
    + intros _ Heq. by eapply waiting_not_next.
    + intros x p Hx. by eapply conflict_phase.
  - destruct ev2; simplify_eq/=; eauto.
Qed.

(** The wait lists after two events that do not conflict, [c] being the
    number of the next activation. *)
Lemma waits_after_swap c ev1 ev2 (waits : gmap nat Phase) :
  conflict ev1 ev2 = false →
  (∀ x p, event_phase ev1 = Some (x, p) → x ≠ c) →
  (∀ x p, event_phase ev2 = Some (x, p) → x ≠ c) →
  waits_after (sends ev1 + c) ev2 (waits_after c ev1 waits)
  = waits_after (sends ev2 + c) ev1 (waits_after c ev2 waits).
Proof.
  intros Hc H1 H2.
  destruct ev1 as [|x fo|x jo| | |], ev2 as [|y fo'|y jo'| | |]; simpl in *; try done;
    try apply bool_decide_eq_false in Hc; repeat case_match;
    first [apply delete_delete|apply insert_insert_ne|apply delete_insert_ne
          |symmetry; apply delete_insert_ne|symmetry; apply insert_insert_ne];
    first [done|by eapply H1|by eapply H2|symmetry; by eapply H1|symmetry; by eapply H2].
Qed.

(** The worlds two events that do not conflict lead to, in one order
    and in the other. *)
Lemma Steps_swap w ev1 ev2 w1 w12 w2 w21 :
  Inv w → conflict ev1 ev2 = false →
  Step now w ev1 w1 → Step now w1 ev2 w12 →
  Step now w ev2 w2 → Step now w2 ev1 w21 →
  reordered w12 w21.
Proof.
  intros HI Hc Ha Hab Hb Hba.
  destruct (Step_cells _ _ _ Ha) as (? & ? & ?), (Step_cells _ _ _ Hab) as (? & ? & ?),
    (Step_cells _ _ _ Hb) as (? & ? & ?), (Step_cells _ _ _ Hba) as (? & ? & ?).
  destruct (Step_ticks now _ _ _ Ha) as [? Hc1], (Step_ticks now _ _ _ Hab),
    (Step_ticks now _ _ _ Hb) as [? Hc2], (Step_ticks now _ _ _ Hba).
  split; [destruct ev1, ev2; simpl in *; try done; congruence..| |lia| |lia| |].
  - rewrite (Step_waits now _ _ _ Hab), (Step_waits now _ _ _ Ha),
      (Step_waits now _ _ _ Hba), (Step_waits now _ _ _ Hb), Hc1, Hc2.
    apply waits_after_swap; [done|intros x p Hp..];
      [exact (waiting_not_next w ev1 w1 x p HI Ha Hp)
      |exact (waiting_not_next w ev2 w2 x p HI Hb Hp)].
  - rewrite (Step_sent now _ _ _ Hab), (Step_sent now _ _ _ Ha),
      (Step_sent now _ _ _ Hba), (Step_sent now _ _ _ Hb).
    destruct ev1, ev2; simpl in *; try done; rewrite ?app_nil_r; congruence.
  - rewrite (Step_adds now _ _ _ Hab), (Step_adds now _ _ _ Ha),
      (Step_adds now _ _ _ Hba), (Step_adds now _ _ _ Hb), <- !(assoc_L (++)).
    f_equiv. apply Permutation_app_comm.
  - rewrite (Step_logs now _ _ _ Hab), (Step_logs now _ _ _ Ha),
      (Step_logs now _ _ _ Hba), (Step_logs now _ _ _ Hb), <- !(assoc_L (++)).
    f_equiv. apply Permutation_app_comm.
Qed.

Lemma conflict_sym ev1 ev2 : conflict ev1 ev2 = conflict ev2 ev1.
Proof.
  destruct ev1, ev2; simpl; try done. all: apply bool_decide_ext; naive_solver.
Qed.

End order.

(** ** The theorems *)

Section theorems.
Implicit Types (now : nat → N) (w : World) (x y : nat) (p q : Phase) (ev : Event).
Implicit Types (evs : list Event).

(** C6. What a run shows and logs is a function of its events alone: the
    conversation is the turns the events add, in their order, the log
    the errors they add, and the clock has been read and the handler
    called as often as the events say, whatever the clock gave and
    whatever the configuration was. *)
Theorem conversation_of_events now evs w :
  run now initial_world evs = Some w →
  conversation w = evs ≫= adds
  ∧ console w = evs ≫= logs
  ∧ reads w = sum_list_with ticks evs
  ∧ calls w = sum_list_with sends evs
  ∧ ∀ x, inflight w !! x = phase_after evs x.
Proof.
  intros Hrun. pose proof (tr_waits _ _ (Traced_run now evs w Hrun)). apply run_Steps in Hrun.
  destruct (Steps_adds now _ _ _ Hrun) as (-> & -> & -> & ->).
  simpl. by rewrite !Nat.add_0_r.
Qed.

(** C15. The clock decides ids and timestamps and nothing else: under any
    two clocks the same events are stuck, and the worlds reached are
    equal once ids and timestamps are erased. *)
Theorem clock_only_stamps now1 now2 evs :
  unstamped <$> run now1 initial_world evs = unstamped <$> run now2 initial_world evs.
Proof. by apply run_unstamped. Qed.

(** Events that do not conflict commute.  When two events can
    both be taken and neither is a send beside another send or beside a
    change of the topology or roster, nor do they change the same cell or
    settle the same activation, they can be taken in either order, and
    the two worlds have the same configuration, requests, wait list,
    calls and clock reads, and show the same turns and log the same
    errors, in another order.  So a prompt sent while a reply arrives,
    and two replies that arrive together, are shown whichever comes
    first. *)
Theorem events_commute now w ev1 ev2 :
  Inv w → conflict ev1 ev2 = false →
  is_Some (step now w ev1) → is_Some (step now w ev2) →
  ∃ w12 w21, run now w [ev1; ev2] = Some w12 ∧ run now w [ev2; ev1] = Some w21
             ∧ reordered w12 w21.
Proof.
  intros HI Hc [w1 H1] [w2 H2]. pose proof H1 as Ha%step_sound. pose proof H2 as Hb%step_sound.
  destruct (step_after now w ev1 ev2 w1 HI Hc Ha) as [w12 H12]; [by eexists|].
  destruct (step_after now w ev2 ev1 w2 HI) as [w21 H21];
    [by rewrite conflict_sym|done|by eexists|].
  exists w12, w21. simpl. rewrite H1, H2. simpl. rewrite H12, H21. split_and!; [done..|].
  apply step_sound in H12, H21. by eapply (Steps_swap now w ev1 ev2).
Qed.

(** C14. The order of the events decides the order of the turns and
    nothing else of what is shown: two runs of the same events in two
    orders, under any clocks, show the same turns and log the same
    errors, up to their order, after as many calls and clock reads, and
    leave the same activations waiting, each for the same promise. *)
Theorem order_only_orders now1 now2 evs1 evs2 w1 w2 :
  evs1 ≡ₚ evs2 →
  run now1 initial_world evs1 = Some w1 → run now2 initial_world evs2 = Some w2 →
  conversation w1 ≡ₚ conversation w2 ∧ console w1 ≡ₚ console w2
  ∧ reads w1 = reads w2 ∧ calls w1 = calls w2 ∧ inflight w1 = inflight w2.
Proof.
  intros Hp H1 H2.
  pose proof (tr_waits _ _ (Traced_run now1 evs1 w1 H1)) as Hw1.
  pose proof (tr_waits _ _ (Traced_run now2 evs2 w2 H2)) as Hw2.
  apply run_Steps in H1, H2.
  destruct (Steps_adds now1 _ _ _ H1) as (-> & -> & -> & ->).
  destruct (Steps_adds now2 _ _ _ H2) as (-> & -> & -> & ->).
  split_and!; [by rewrite Hp..|]. apply map_eq. intros x. by rewrite Hw1, Hw2, Hp.
Qed.

End theorems.

(** ** Instances *)

(** Two prompts; the second exchange fails at once, the first is
    answered. *)
Definition crossed_events : list Event :=
  [EvSend "first"; EvSend "second";
   EvFetch 1 (inl (mkError "TypeError" "Failed to fetch"));
   EvFetch 0 (inr (mkResponse 200));
   EvJson 0 (inr (VObj [("final_response", VStr "hello")]))].

Lemma conversation_of_events_witness :
  ∃ w, run example_clock initial_world crossed_events = Some w
       ∧ conversation w = crossed_events ≫= adds
       ∧ console w = crossed_events ≫= logs
       ∧ reads w = sum_list_with ticks crossed_events
       ∧ calls w = sum_list_with sends crossed_events
       ∧ ∀ x, inflight w !! x = phase_after crossed_events x.
Proof.
  eexists. split; [vm_compute; reflexivity|].
  apply (conversation_of_events example_clock crossed_events). vm_compute. reflexivity.
Defined.

(** A prompt is sent while the reply to another arrives. *)
Lemma events_commute_witness :
  let w := submitted example_clock "first" initial_world in
  let ev1 := EvSend "second" in
  let ev2 := EvFetch 0 (inl (mkError "TypeError" "Failed to fetch")) in
  ∃ w12 w21, run example_clock w [ev1; ev2] = Some w12
             ∧ run example_clock w [ev2; ev1] = Some w21
             ∧ reordered w12 w21.
Proof.
  apply (events_commute example_clock);
    [apply Inv_submitted, Inv_initial|reflexivity|by eexists..].
Defined.

(** A conflict shows: the roster emptied before or after the send. *)
Example conflict_matters :
  sent <$> run example_clock initial_world [EvModels []; EvSend "hi"]
  ≠ sent <$> run example_clock initial_world [EvSend "hi"; EvModels []].
Proof. vm_compute. by intros [=]. Qed.

(** The same events with the prompts sent in the other order and the
    failure delivered last: activation 0 is now the second prompt. *)
Definition crossed_again : list Event :=
  [EvSend "second"; EvSend "first";
   EvFetch 0 (inr (mkResponse 200));
   EvJson 0 (inr (VObj [("final_response", VStr "hello")]));
   EvFetch 1 (inl (mkError "TypeError" "Failed to fetch"))].

Lemma order_only_orders_witness :
  ∃ w1 w2,
    run example_clock initial_world crossed_events = Some w1
    ∧ run (λ _, 0%N) initial_world crossed_again = Some w2
    ∧ conversation w1 ≡ₚ conversation w2 ∧ console w1 ≡ₚ console w2
    ∧ reads w1 = reads w2 ∧ calls w1 = calls w2 ∧ inflight w1 = inflight w2.
Proof.
  eexists _, _. split; [vm_compute; reflexivity|]. split; [vm_compute; reflexivity|].
  apply (order_only_orders example_clock (λ _, 0%N) crossed_events crossed_again);
    [|vm_compute; reflexivity..].
  unfold crossed_events, crossed_again. etrans; [apply perm_swap|].
  do 2 apply perm_skip. apply (Permutation_cons_append [_; _]).
Defined.
