(* ===== verification/Async.v ===== *)
(** * Async: [handleSendMessage] as one program

    [App] cuts [handleSendMessage] at its two awaits and gives each of the
    three segments the [try] of the source by hand.  This file writes the
    function once, as the source has it (lines 28-82): a tree of the
    effects it performs ([Prog]), in which [await fetch(...)] and
    [await response.json()] are nodes whose children are the rest of the
    function, and [try { ... } catch] is [ptry], which reaches through the
    awaits.  [interp] runs a tree on the world of [App] up to its next
    await; a [Machine] keeps, beside that world, what each suspended
    activation will do when its promise settles ([tasks]), and [astep]
    resumes it with the outcome.

    The theorems: what [ptry] and [pbind] mean for a program that suspends
    ([interp_ptry], [interp_pbind]); no activation of the handler ends in
    an exception, at whichever await it is resumed and with whatever
    outcome ([handler_safe], [no_unhandled_rejection]); and the machine moves in lock step with
    [App.step], so the three segments of [App] are the function of the
    source ([step_agrees], [async_agrees]); a call with what a render
    captured is the first segment of [Closure] ([spawn_agrees_in]). *)

From S2P Require Import Prelude Decimal JsValue Config Wire Message App Closure.

(** ** Programs *)

(** What the body of an async function does next: return, throw, read the
    clock, call [setMessages] or [console.error], or wait for a promise,
    the one of [fetch(request)] or the one of [response.json()]; an await
    continues with what the promise settled to. *)
Inductive Prog (A : Type) : Type :=
| Ret (a : A)
| Throw (e : JsError)
| Now (k : N → Prog A)
| SetMessages (f : list Message → list Message) (k : Prog A)
| ConsoleError (label : string) (error : JsError) (k : Prog A)
| Fetch (request : Request) (k : Settled Response → Prog A)
| ReadJson (response : Response) (k : Settled JsValue → Prog A).

Arguments Ret {A} a.
Arguments Throw {A} e.
Arguments Now {A} k.
Arguments SetMessages {A} f k.
Arguments ConsoleError {A} label error k.
Arguments Fetch {A} request k.
Arguments ReadJson {A} response k.

(** Sequencing: [f] runs on what [p] returns, after every await of [p]. *)
Fixpoint pbind {A B} (p : Prog A) (f : A → Prog B) : Prog B :=
  match p with
  | Ret a => f a
  | Throw e => Throw e
  | Now k => Now (λ t, pbind (k t) f)
  | SetMessages g k => SetMessages g (pbind k f)
  | ConsoleError label error k => ConsoleError label error (pbind k f)
  | Fetch request k => Fetch request (λ o, pbind (k o) f)
  | ReadJson response k => ReadJson response (λ o, pbind (k o) f)
  end.

(** [try { p } catch (e) { h e }]: the handler takes what [p] throws,
    before or after an await. *)
Fixpoint ptry {A} (p : Prog A) (h : JsError → Prog A) : Prog A :=
  match p with
  | Ret a => Ret a
  | Throw e => h e
  | Now k => Now (λ t, ptry (k t) h)
  | SetMessages g k => SetMessages g (ptry k h)
  | ConsoleError label error k => ConsoleError label error (ptry k h)
  | Fetch request k => Fetch request (λ o, ptry (k o) h)
  | ReadJson response k => ReadJson response (λ o, ptry (k o) h)
  end.

Declare Scope prog_scope.
Delimit Scope prog_scope with prog.
Bind Scope prog_scope with Prog.

Notation "x <- c ;; k" := (pbind c (λ x, k))
  (at level 100, c at next level, right associativity) : prog_scope.
Notation "c ;; k" := (pbind c (λ _, k))
  (at level 100, right associativity) : prog_scope.

(** The value of a settled promise at its await: a rejection is thrown. *)
Definition settled_at {A} (outcome : Settled A) : Prog A :=
  match outcome with inl e => Throw e | inr a => Ret a end.

(** [Date.now()] and [new Date()], as its time value. *)
Definition date_now : Prog N := Now Ret.
Definition new_date : Prog N := Now Ret.

(** [setMessages(f)] and [console.error(label, error)]. *)
Definition set_messages (f : list Message → list Message) : Prog unit :=
  SetMessages f (Ret tt).
Definition log_error (label : string) (error : JsError) : Prog unit :=
  ConsoleError label error (Ret tt).

(** [await fetch('/maire/run', ...)] and [await response.json()]. *)
Definition await_fetch (request : Request) : Prog Response := Fetch request settled_at.
Definition await_json (response : Response) : Prog JsValue := ReadJson response settled_at.

(** Lines 28-82, with the [topology] and [models] of the render that
    created the function. *)
Definition handleSendMessage_prog (topology : Topology) (models : list LLMModel)
    (content : string) : Prog unit :=
  (t <- date_now ;;
   date <- new_date ;;
   set_messages (λ prev, prev ++ [userMessage t date content]) ;;
   ptry
     (response <- await_fetch (run_request content topology (enabledModels models)) ;;
      (if negb (ok response) then Throw (http_error response) else Ret tt) ;;
      data <- await_json response ;;
      t <- date_now ;;
      final_response <- settled_at (get_prop data "final_response") ;;
      date <- new_date ;;
      header_stack <- settled_at (get_prop data "header_stack") ;;
      set_messages (λ prev, prev ++ [assistantMessage t date final_response header_stack]))
     (λ error,
      log_error "Error calling MAIRE backend:" error ;;
      t <- date_now ;;
      date <- new_date ;;
      set_messages (λ prev, prev ++ [errorMessage t date error])))%prog.

(** ** Running a program up to its next await *)

(** What a suspended activation waits for, and what it does then. *)
Inductive Suspended (A : Type) : Type :=
| OnFetch (k : Settled Response → Prog A)
| OnJson (k : Settled JsValue → Prog A).

Arguments OnFetch {A} k.
Arguments OnJson {A} k.

Definition phase_of {A} (s : Suspended A) : Phase :=
  match s with OnFetch _ => AwaitFetch | OnJson _ => AwaitJson end.

(** How a run ends: the function returned, or it waits. *)
Inductive Status (A : Type) : Type :=
| Finished (a : A)
| Waiting (s : Suspended A).

Arguments Finished {A} a.
Arguments Waiting {A} s.

(** The rest of a suspended activation, under a handler and before a
    continuation. *)
Definition guarded {A} (h : JsError → Prog A) (s : Suspended A) : Suspended A :=
  match s with
  | OnFetch k => OnFetch (λ o, ptry (k o) h)
  | OnJson k => OnJson (λ o, ptry (k o) h)
  end.

Definition followed {A B} (f : A → Prog B) (s : Suspended A) : Suspended B :=
  match s with
  | OnFetch k => OnFetch (λ o, pbind (k o) f)
  | OnJson k => OnJson (λ o, pbind (k o) f)
  end.

(** The program has no [throw] left that a handler does not take,
    whatever the clock and the promises give it. *)
Inductive safe {A} : Prog A → Prop :=
| safe_Ret a : safe (Ret a)
| safe_Now k : (∀ t, safe (k t)) → safe (Now k)
| safe_SetMessages f k : safe k → safe (SetMessages f k)
| safe_ConsoleError label error k : safe k → safe (ConsoleError label error k)
| safe_Fetch request k : (∀ o, safe (k o)) → safe (Fetch request k)
| safe_ReadJson response k : (∀ o, safe (k o)) → safe (ReadJson response k).

Definition safe_suspended {A} (s : Suspended A) : Prop :=
  match s with
  | OnFetch k => ∀ o, safe (k o)
  | OnJson k => ∀ o, safe (k o)
  end.

Section machine.
Context (now : nat → N).

Notation Js := (Eff World JsError).

(** One run of the event loop on the activation: every effect up to the
    next await, by the operations of [App].  The call of [fetch] sends the
    request; [response.json()] only waits. *)
Fixpoint interp {A} (p : Prog A) : Js (Status A) :=
  match p with
  | Ret a => eret (Finished a)
  | Throw e => throw e
  | Now k => t <- Date_now now ;; interp (k t)
  | SetMessages f k => setMessages f ;; interp k
  | ConsoleError label error k => console_error label error ;; interp k
  | Fetch request k => fetch request ;; eret (Waiting (OnFetch k))
  | ReadJson _ k => eret (Waiting (OnJson k))
  end.

(** The world of [App], and the suspended activations by number.  The
    wait list of the world records the phase of each. *)
Record Machine : Type := mkMachine {
  world : World;
  tasks : gmap nat (Suspended unit);
  unhandled : list JsError;
}.

Definition initial_machine : Machine := mkMachine initial_world ∅ [].

(** Activation [x] runs [p] until it waits again or ends.  An exception
    that escapes the function rejects its promise, which nothing awaits:
    an unhandled rejection. *)
Definition advance (x : nat) (p : Prog unit) (m : Machine) : Machine :=
  match interp p (world m) with
  | (inr (Waiting s), w) =>
      mkMachine (exec (await x (phase_of s)) w) (<[x := s]> (tasks m)) (unhandled m)
  | (inr (Finished _), w) => mkMachine w (tasks m) (unhandled m)
  | (inl e, w) => mkMachine w (tasks m) (unhandled m ++ [e])
  end.

(** A call of the function: a new activation. *)
Definition spawn (p : Prog unit) (m : Machine) : Machine :=
  advance (calls (world m)) p (mkMachine (on_calls S (world m)) (tasks m) (unhandled m)).

(** The promise activation [x] waits on settles: it leaves the wait list. *)
Definition wake (x : nat) (m : Machine) : Machine :=
  mkMachine (resume x (world m)) (delete x (tasks m)) (unhandled m).

Definition on_world (f : World → World) (m : Machine) : Machine :=
  mkMachine (f (world m)) (tasks m) (unhandled m).

(** One event: the handler of a user action runs, or a settled promise
    resumes the activation that waits on it with its continuation. *)
Definition astep (m : Machine) (ev : Event) : option Machine :=
  match ev with
  | EvSend content =>
      Some (spawn (handleSendMessage_prog (topology (app (world m)))
                     (models (app (world m))) content) m)
  | EvFetch x outcome =>
      match tasks m !! x with
      | Some (OnFetch k) => Some (advance x (k outcome) (wake x m))
      | _ => None
      end
  | EvJson x outcome =>
      match tasks m !! x with
      | Some (OnJson k) => Some (advance x (k outcome) (wake x m))
      | _ => None
      end
  | EvTopology t => Some (on_world (exec (setTopology t)) m)
  | EvModels ms => Some (on_world (exec (setModels ms)) m)
  | EvToggleConfig => Some (on_world (exec onToggleConfig) m)
  end.

Fixpoint arun (m : Machine) (evs : list Event) : option Machine :=
  match evs with
  | [] => Some m
  | ev :: evs' => m' ← astep m ev; arun m' evs'
  end.

(** The page as the browser has it: the machine, and the handlers of the
    last render, which hold the [topology], [models] and [isConfigOpen]
    of that render. *)
Record Browser : Type := mkBrowser {
  machine : Machine;
  handlers : Captured;
}.

Definition loaded : Browser := mkBrowser initial_machine (capture initial_app).

(** An event handled by the closures [c]. *)
Definition dispatch_async (c : Captured) (m : Machine) (ev : Event) : option Machine :=
  match ev with
  | EvSend content =>
      Some (spawn (handleSendMessage_prog (cap_topology c) (cap_models c) content) m)
  | EvToggleConfig => Some (on_world (exec (onToggleConfig_in c)) m)
  | _ => astep m ev
  end.

Definition browser_step (b : Browser) (pev : PageEvent) : option Browser :=
  match pev with
  | Render => Some (mkBrowser (machine b) (capture (app (world (machine b)))))
  | Dispatch ev =>
      m' ← dispatch_async (handlers b) (machine b) ev;
      Some (mkBrowser m' (handlers b))
  end.

Fixpoint browser_run (b : Browser) (pevs : list PageEvent) : option Browser :=
  match pevs with
  | [] => Some b
  | pev :: pevs' => b' ← browser_step b pev; browser_run b' pevs'
  end.

(** The page of [Closure] a browser shows: its world and its handlers. *)
Definition page_of (b : Browser) : Page := mkPage (world (machine b)) (handlers b).

End machine.

(** ** The meaning of sequencing and of [try] across an await *)

Section interp.
Context (now : nat → N).
Implicit Types (w : World) (x : nat).

(** [pbind p f] runs [p]; if [p] returns, it goes on with [f]; if [p]
    waits, [f] is kept for after the await. *)
Lemma interp_pbind {A B} (p : Prog A) (f : A → Prog B) w :
  interp now (pbind p f) w =
  match interp now p w with
  | (inl e, w') => (inl e, w')
  | (inr (Finished a), w') => interp now (f a) w'
  | (inr (Waiting s), w') => (inr (Waiting (followed f s)), w')
  end.
Proof.
  revert w. induction p as [| |k IH|g k IH|l e k IH| |]; intros w; try done.
  - apply IH.
  - apply IH.
  - apply IH.
Qed.

(** No operation of a program touches the wait list. *)
Lemma interp_inflight {A} (p : Prog A) w : inflight (interp now p w).2 = inflight w.
Proof.
  revert w. induction p as [| |k IH|g k IH|l e k IH| |]; intros w; try done.
  - exact (IH _ _).
  - exact (IH _).
  - exact (IH _).
Qed.

(** [ptry p h] runs [p]; what [p] throws before its next await goes to
    [h]; if [p] waits, the rest of it stays under [h]. *)
Lemma interp_ptry_run {A} (p : Prog A) (h : JsError → Prog A) w :
  interp now (ptry p h) w =
  match interp now p w with
  | (inl e, w') => interp now (h e) w'
  | (inr (Finished a), w') => (inr (Finished a), w')
  | (inr (Waiting s), w') => (inr (Waiting (guarded h s)), w')
  end.
Proof.
  revert w. induction p as [| |k IH|g k IH|l e k IH| |]; intros w; try done.
  - apply IH.
  - apply IH.
  - apply IH.
Qed.

(** ** Safe programs do not throw *)

Lemma safe_pbind {A B} (p : Prog A) (f : A → Prog B) :
  safe p → (∀ a, safe (f a)) → safe (pbind p f).
Proof. intros Hp Hf. induction Hp; simpl; [done|by constructor..]. Qed.

Lemma safe_ptry {A} (p : Prog A) (h : JsError → Prog A) :
  (∀ e, safe (h e)) → safe (ptry p h).
Proof.
  intros Hh. induction p as [| |k IH|g k IH|l e k IH|r k IH|r k IH]; simpl; [|done|..];
    by constructor.
Qed.

(** A safe program returns or waits, and what it waits with is safe. *)
Lemma safe_interp {A} (p : Prog A) w :
  safe p →
  ∃ st, (interp now p w).1 = inr st
        ∧ match st with Finished _ => True | Waiting s => safe_suspended s end.
Proof.
  intros Hp. revert w. induction Hp as [a|k _ IH|g k _ IH|l e k _ IH|r k Hk _|r k Hk _];
    intros w; [by exists (Finished a)|exact (IH _ _)|exact (IH _)|exact (IH _)|..].
  - by exists (Waiting (OnFetch k)).
  - by exists (Waiting (OnJson k)).
Qed.

Lemma handler_safe topology models content :
  safe (handleSendMessage_prog topology models content).
Proof.
  unfold handleSendMessage_prog. repeat (apply safe_pbind; [by repeat constructor|intros ?]).
  apply safe_ptry. intros e. by repeat constructor.
Qed.

End interp.

(** ** No unhandled rejection *)

Section sound.
Context (now : nat → N).
Implicit Types (m : Machine) (w : World) (x : nat) (ev : Event).

(** Every suspended activation is safe, and none has thrown. *)
Record Sound m : Prop := mkSound {
  sound_tasks : map_Forall (λ _, safe_suspended) (tasks m);
  sound_unhandled : unhandled m = [];
}.

Lemma Sound_initial : Sound initial_machine.
Proof. split; [apply map_Forall_empty|done]. Qed.

Lemma Sound_advance x p m : safe p → Sound m → Sound (advance now x p m).
Proof.
  intros Hp [Ht Hu]. unfold advance.
  destruct (safe_interp now p (world m) Hp) as (st & Hst & Hs).
  destruct (interp now p (world m)) as [[e|[a|s]] w]; simplify_eq/=; [done|].
  split; [by apply map_Forall_insert_2|done].
Qed.

Lemma Sound_wake x m : Sound m → Sound (wake x m).
Proof. intros [Ht Hu]. split; [by apply map_Forall_delete|done]. Qed.

Lemma Sound_astep m ev m' : astep now m ev = Some m' → Sound m → Sound m'.
Proof.
  intros Hstep Hm. destruct ev as [content|x o|x o|t|ms|]; simpl in Hstep.
  - simplify_eq. apply Sound_advance; [apply handler_safe|by destruct Hm].
  - destruct (tasks m !! x) as [[k|k]|] eqn:E; simplify_eq.
    apply Sound_advance; [exact (sound_tasks m Hm x _ E o)|by apply Sound_wake].
  - destruct (tasks m !! x) as [[k|k]|] eqn:E; simplify_eq.
    apply Sound_advance; [exact (sound_tasks m Hm x _ E o)|by apply Sound_wake].
  - simplify_eq. by destruct Hm.
  - simplify_eq. by destruct Hm.
  - simplify_eq. by destruct Hm.
Qed.

Lemma Sound_arun evs : ∀ m m', arun now m evs = Some m' → Sound m → Sound m'.
Proof.
  induction evs as [|ev evs IH]; intros m m' Hrun Hm; simplify_eq/=; [done|].
  destruct (astep now m ev) as [m1|] eqn:E; simplify_eq/=. eauto using Sound_astep.
Qed.

End sound.

(** ** Agreement with the segments of [App] *)

Section agreement.
Context (now : nat → N).
Implicit Types (m : Machine) (w : World) (x : nat) (ev : Event).

(** The continuation does what [after_json] does, and ends. *)
Definition json_like (k : Settled JsValue → Prog unit) : Prop :=
  ∀ o w, interp now (k o) w = (inr (Finished tt), exec (after_json now o) w).

(** The continuation does what [after_fetch] does: it ends, or it waits
    for the body with a continuation that does what [after_json] does. *)
Definition fetch_like x (k : Settled Response → Prog unit) : Prop :=
  ∀ o w, ∃ st w', interp now (k o) w = (inr st, w') ∧
    match st with
    | Finished _ => w' = exec (after_fetch now x o) w
    | Waiting (OnJson k') =>
        json_like k' ∧ exec (await x AwaitJson) w' = exec (after_fetch now x o) w
    | Waiting (OnFetch _) => False
    end.

Definition task_like x (s : Suspended unit) : Prop :=
  match s with OnFetch k => fetch_like x k | OnJson k => json_like k end.

(** The wait list is the phases of the tasks, and each task is the rest
    of the handler as [App] has it. *)
Record Agrees m : Prop := mkAgrees {
  agrees_inflight : inflight (world m) = phase_of <$> tasks m;
  agrees_tasks : map_Forall task_like (tasks m);
}.

Lemma handler_first topology models content w :
  ∃ k w', interp now (handleSendMessage_prog topology models content) w
          = (inr (Waiting (OnFetch k)), w')
    ∧ (∀ x, fetch_like x k)
    ∧ w' = exec (t <- Date_now now ;; date <- new_Date now ;;
                 setMessages (λ prev, prev ++ [userMessage t date content]) ;;
                 fetch (run_request content topology (enabledModels models))) w.
Proof.
  eexists _, _. split; [reflexivity|]. split; [|done].
  intros x [e|response] w1.
  - by eexists (Finished tt), _.
  - destruct (ok response) eqn:Hok.
    + eexists (Waiting (OnJson _)), _. split; [by simpl; rewrite Hok|]. split.
      * intros [e|data] w2; [done|]. unfold after_json, exec, try_catch, ebind; simpl.
        by destruct (get_prop data "final_response"), (get_prop data "header_stack").
      * unfold after_fetch, exec, try_catch, ebind; simpl. by rewrite Hok.
    + eexists (Finished tt), _. split; [by simpl; rewrite Hok|].
      unfold after_fetch, exec, try_catch, ebind; simpl. by rewrite Hok.
Qed.

Lemma Agrees_initial : Agrees initial_machine.
Proof. split; [by apply map_eq; intros x; rewrite lookup_fmap|apply map_Forall_empty]. Qed.

Lemma Agrees_wake x m : Agrees m → Agrees (wake x m).
Proof.
  intros [Hi Ht]. split; simpl; [by rewrite Hi, fmap_delete|by apply map_Forall_delete].
Qed.

(** An activation that ran without throwing: the world it leaves. *)
Lemma world_advance x p m st w' :
  interp now p (world m) = (inr st, w') →
  world (advance now x p m)
  = match st with Finished _ => w' | Waiting s => exec (await x (phase_of s)) w' end.
Proof. unfold advance. intros ->. by destruct st. Qed.

Lemma Agrees_advance x p m st w' :
  interp now p (world m) = (inr st, w') →
  match st with Finished _ => True | Waiting s => task_like x s end →
  Agrees m → Agrees (advance now x p m).
Proof.
  intros Hp Hst [Hi Ht]. pose proof (interp_inflight now p (world m)) as Hw.
  unfold advance. rewrite Hp in *. destruct st as [a|s]; split; simpl in *; [congruence|done|..].
  - by rewrite fmap_insert, <- Hi, <- Hw.
  - by apply map_Forall_insert_2.
Qed.

(** A call of the handler is the first segment, with the [topology] and
    [models] the function captured. *)
Lemma spawn_agrees_in m c content :
  let m' := spawn now (handleSendMessage_prog (cap_topology c) (cap_models c) content) m in
  Agrees m → world m' = exec (handleSendMessage_in now c content) (world m) ∧ Agrees m'.
Proof.
  intros m' Hm. subst m'. unfold spawn.
  set (m1 := mkMachine (on_calls S (world m)) (tasks m) (unhandled m)).
  destruct (handler_first (cap_topology c) (cap_models c) content (world m1))
    as (k & w' & Hk & Hlike & ->).
  split; [by rewrite (world_advance _ _ _ _ _ Hk)|].
  apply (Agrees_advance _ _ _ _ _ Hk); [apply Hlike|by destruct Hm].
Qed.

Lemma spawn_agrees m content :
  let m' := spawn now (handleSendMessage_prog (topology (app (world m)))
                         (models (app (world m))) content) m in
  Agrees m → world m' = exec (handleSendMessage now content) (world m) ∧ Agrees m'.
Proof. exact (spawn_agrees_in m (capture (app (world m))) content). Qed.

(** A settled [fetch] resumes the second segment. *)
Lemma fetch_agrees m x k o :
  tasks m !! x = Some (OnFetch k) → Agrees m →
  let m' := advance now x (k o) (wake x m) in
  world m' = exec (after_fetch now x o) (resume x (world m)) ∧ Agrees m'.
Proof.
  intros Hx Hm m'. subst m'.
  destruct (agrees_tasks m Hm x _ Hx o (world (wake x m))) as (st & w' & Hk & Hst).
  split.
  - rewrite (world_advance _ _ _ _ _ Hk). by destruct st as [[]|[k'|k']]; destruct_and?.
  - apply (Agrees_advance _ _ _ _ _ Hk); [|by apply Agrees_wake].
    by destruct st as [[]|[k'|k']]; destruct_and?.
Qed.

(** A settled [response.json()] resumes the third segment. *)
Lemma json_agrees m x k o :
  tasks m !! x = Some (OnJson k) → Agrees m →
  let m' := advance now x (k o) (wake x m) in
  world m' = exec (after_json now o) (resume x (world m)) ∧ Agrees m'.
Proof.
  intros Hx Hm m'. subst m'. pose proof (agrees_tasks m Hm x _ Hx o (world (wake x m))) as Hk.
  split; [by rewrite (world_advance _ _ _ _ _ Hk)|].
  apply (Agrees_advance _ _ _ _ _ Hk); [done|by apply Agrees_wake].
Qed.

Lemma Agrees_lookup m x : Agrees m → inflight (world m) !! x = phase_of <$> tasks m !! x.
Proof. intros [-> _]. apply lookup_fmap. Qed.

(** The machine and [App] take the same step, and stay in agreement. *)
Lemma step_agrees m ev :
  Agrees m →
  world <$> astep now m ev = step now (world m) ev
  ∧ ∀ m', astep now m ev = Some m' → Agrees m'.
Proof.
  intros Hm. destruct ev as [content|x o|x o|t|ms|]; cbn [astep step].
  - destruct (spawn_agrees m content Hm) as [Hw ?].
    split; [exact (f_equal Some Hw)|by intros ? [= <-]].
  - rewrite (Agrees_lookup m x Hm). destruct (tasks m !! x) as [[k|k]|] eqn:Hx; [|done..].
    destruct (fetch_agrees m x k o Hx Hm) as [Hw ?].
    split; [exact (f_equal Some Hw)|by intros ? [= <-]].
  - rewrite (Agrees_lookup m x Hm). destruct (tasks m !! x) as [[k|k]|] eqn:Hx; [done| |done].
    destruct (json_agrees m x k o Hx Hm) as [Hw ?].
    split; [exact (f_equal Some Hw)|by intros ? [= <-]].
  - split; [done|]. by intros ? [= <-]; destruct Hm.
  - split; [done|]. by intros ? [= <-]; destruct Hm.
  - split; [done|]. by intros ? [= <-]; destruct Hm.
Qed.

Lemma run_agrees evs : ∀ m,
  Agrees m → world <$> arun now m evs = run now (world m) evs.
Proof.
  induction evs as [|ev evs IH]; intros m Hm; [done|]. simpl.
  destruct (step_agrees m ev Hm) as [Hw Hm']. destruct (astep now m ev) as [m1|]; simpl in *.
  - rewrite <- Hw. eauto.
  - by rewrite <- Hw.
Qed.

(** With the closures of a render, the machine and the page of [Closure]
    take the same step. *)
Lemma dispatch_agrees c m ev :
  Agrees m →
  world <$> dispatch_async now c m ev = dispatch_in now c (world m) ev
  ∧ ∀ m', dispatch_async now c m ev = Some m' → Agrees m'.
Proof.
  intros Hm. destruct ev as [content|x o|x o|t|ms|]; try exact (step_agrees m _ Hm).
  - destruct (spawn_agrees_in m c content Hm) as [Hw ?].
    split; [exact (f_equal Some Hw)|by intros ? [= <-]].
  - split; [done|]. by intros ? [= <-]; destruct Hm.
Qed.

Lemma browser_step_agrees b pev :
  Agrees (machine b) →
  page_of <$> browser_step now b pev = page_step now (page_of b) pev
  ∧ ∀ b', browser_step now b pev = Some b' → Agrees (machine b').
Proof.
  intros Hb. destruct pev as [ev|]; [|split; [done|by intros ? [= <-]]].
  destruct (dispatch_agrees (handlers b) (machine b) ev Hb) as [Hw Hm].
  cbn [browser_step page_step page_of page_world page_handlers]. rewrite <- Hw.
  destruct (dispatch_async now _ _ ev) as [m'|]; [|done].
  split; [done|]. intros ? [= <-]. by apply Hm.
Qed.

Lemma browser_run_agrees pevs : ∀ b,
  Agrees (machine b) → page_of <$> browser_run now b pevs = page_run now (page_of b) pevs.
Proof.
  induction pevs as [|pev pevs IH]; intros b Hb; [done|]. rewrite page_run_cons. simpl.
  destruct (browser_step_agrees b pev Hb) as [Hw Hb']. rewrite <- Hw.
  destruct (browser_step now b pev) as [b'|]; [|done]. apply IH. by apply Hb'.
Qed.

Lemma Agrees_arun evs : ∀ m m', arun now m evs = Some m' → Agrees m → Agrees m'.
Proof.
  induction evs as [|ev evs IH]; intros m m' Hrun Hm; simplify_eq/=; [done|].
  destruct (step_agrees m ev Hm) as [_ Hm']. destruct (astep now m ev) as [m1|]; naive_solver.
Qed.

End agreement.

(** ** The theorems *)

Section theorems.
Context (now : nat → N).
Implicit Types (m : Machine) (evs : list Event).

(** C2. The handler written once, with its awaits and its [try], run by
    a machine that keeps the continuation of each suspended activation,
    does on every list of events what the three segments of [App] do: the
    same worlds, stuck on the same events; and the wait list of [App]
    is the phases of the continuations the machine holds. *)
Theorem async_agrees evs :
  world <$> arun now initial_machine evs = run now initial_world evs
  ∧ ∀ m, arun now initial_machine evs = Some m →
         inflight (world m) = phase_of <$> tasks m.
Proof.
  split; [exact (run_agrees now evs initial_machine (Agrees_initial now))|].
  intros m Hm. by destruct (Agrees_arun now evs _ _ Hm (Agrees_initial now)).
Qed.

(** The page as the browser runs it, with handlers that are closures
    of the last render and activations kept as continuations, is the page
    of [Closure] however the renders fall between the events; and when a
    render follows every event it reaches the worlds of [App]. *)
Theorem browser_agrees pevs evs :
  page_of <$> browser_run now loaded pevs = page_run now (rendered initial_world) pevs
  ∧ (λ b, world (machine b)) <$> browser_run now loaded (with_renders evs)
    = run now initial_world evs.
Proof.
  pose proof (λ pevs, browser_run_agrees now pevs loaded (Agrees_initial now)) as Hrun.
  split; [apply Hrun|].
  trans (page_world <$> (page_of <$> browser_run now loaded (with_renders evs)));
    [by destruct (browser_run _ _ _)|].
  rewrite Hrun. change (page_of loaded) with (rendered initial_world).
  rewrite page_run_with_renders. by destruct (run now initial_world evs).
Qed.

(** C17. No activation of [handleSendMessage] ever ends in an exception:
    whatever the events, the promises the function returned are never
    rejected, and every activation still waiting is safe at whatever its
    promise settles to. *)
Theorem no_unhandled_rejection evs m :
  arun now initial_machine evs = Some m →
  unhandled m = [] ∧ map_Forall (λ _, safe_suspended) (tasks m).
Proof. intros Hm. by destruct (Sound_arun now evs _ _ Hm Sound_initial). Qed.

(** A [try] reaches through an await: [ptry p h] hands to [h] what
    [p] throws before its next await, and when [p] waits, what it does
    after the await is still under [h]. *)
Theorem interp_ptry {A} (p : Prog A) (h : JsError → Prog A) (w : World) :
  interp now (ptry p h) w =
  match interp now p w with
  | (inl e, w') => interp now (h e) w'
  | (inr (Finished a), w') => (inr (Finished a), w')
  | (inr (Waiting s), w') => (inr (Waiting (guarded h s)), w')
  end.
Proof. apply interp_ptry_run. Qed.

End theorems.

Lemma no_unhandled_rejection_witness :
  ∃ m, arun example_clock initial_machine
         [EvSend "hi"; EvFetch 0 (inl (mkError "TypeError" "Failed to fetch"));
          EvSend "again"; EvFetch 1 (inr (mkResponse 200))] = Some m
       ∧ unhandled m = [] ∧ map_Forall (λ _, safe_suspended) (tasks m).
Proof.
  eexists. split; [vm_compute; reflexivity|].
  apply (no_unhandled_rejection example_clock
           [EvSend "hi"; EvFetch 0 (inl (mkError "TypeError" "Failed to fetch"));
            EvSend "again"; EvFetch 1 (inr (mkResponse 200))]).
  vm_compute. reflexivity.
Defined.
