(* ===== verification/Utf16.v ===== *)
(** * Utf16: code units and code points

    A string of the platform is a sequence of 16-bit code units.  What
    [JSON.stringify] (line 47 of [App.tsx]) and the encoding of a request
    body (line 42) do to a string is defined on its code points; this file
    holds the conversions, named as ECMAScript names them:

    - [StringToCodePoints]: a leading surrogate followed by a trailing
      one is one code point above [0xFFFF]; every other code unit, a
      surrogate that stands alone included, is the code point of its
      value;
    - [UTF16EncodeCodePoint] and [CodePointsToString], the other way;
    - [IsStringWellFormedUnicode]: no surrogate stands alone.

    The two conversions are inverse of each other, on every string of code
    units one way and on every sequence of scalar values the other. *)

From S2P Require Import Prelude.

Local Open Scope N_scope.

Definition is_lead (u : N) : bool := (0xD800 <=? u) && (u <=? 0xDBFF).
Definition is_trail (u : N) : bool := (0xDC00 <=? u) && (u <=? 0xDFFF).
Definition is_surrogate (c : N) : bool := (0xD800 <=? c) && (c <=? 0xDFFF).

(** A Unicode scalar value: a code point that is no surrogate. *)
Definition is_scalar (c : N) : bool := (c <? 0x110000) && negb (is_surrogate c).

Definition UTF16SurrogatePairToCodePoint (lead trail : N) : N :=
  (lead - 0xD800) * 0x400 + (trail - 0xDC00) + 0x10000.

(** [CodePointAt], from the first code unit to the last. *)
Fixpoint StringToCodePoints (s : list N) : list N :=
  match s with
  | [] => []
  | u :: s' =>
      match s' with
      | t :: s'' =>
          if is_lead u && is_trail t
          then UTF16SurrogatePairToCodePoint u t :: StringToCodePoints s''
          else u :: StringToCodePoints s'
      | [] => [u]
      end
  end.

Definition UTF16EncodeCodePoint (cp : N) : list N :=
  if cp <? 0x10000 then [cp]
  else [(cp - 0x10000) / 0x400 + 0xD800; (cp - 0x10000) mod 0x400 + 0xDC00].

Definition CodePointsToString (cps : list N) : list N := cps ≫= UTF16EncodeCodePoint.

Definition IsStringWellFormedUnicode (s : list N) : bool :=
  forallb is_scalar (StringToCodePoints s).

(** A string of code units. *)
Definition code_units (s : list N) : Prop := Forall (λ u, u < 0x10000) s.

(** ** The ranges *)

Section ranges.
Implicit Types (u t c : N).

Lemma is_lead_range u : is_lead u = true ↔ 0xD800 ≤ u ≤ 0xDBFF.
Proof. unfold is_lead. rewrite andb_true_iff, !N.leb_le. done. Qed.

Lemma is_trail_range u : is_trail u = true ↔ 0xDC00 ≤ u ≤ 0xDFFF.
Proof. unfold is_trail. rewrite andb_true_iff, !N.leb_le. done. Qed.

Lemma is_surrogate_range c : is_surrogate c = true ↔ 0xD800 ≤ c ≤ 0xDFFF.
Proof. unfold is_surrogate. rewrite andb_true_iff, !N.leb_le. done. Qed.

Lemma is_surrogate_false c : is_surrogate c = false ↔ c < 0xD800 ∨ 0xDFFF < c.
Proof.
  rewrite <- not_true_iff_false, is_surrogate_range. lia.
Qed.

Lemma is_surrogate_split u : is_surrogate u = is_lead u || is_trail u.
Proof.
  unfold is_surrogate, is_lead, is_trail.
  repeat match goal with
         | |- context [?a <=? ?b] => destruct (N.leb_spec a b)
         end; simpl; try done; lia.
Qed.

Lemma is_scalar_range c : is_scalar c = true ↔ c < 0xD800 ∨ 0xDFFF < c < 0x110000.
Proof.
  unfold is_scalar. rewrite andb_true_iff, negb_true_iff, N.ltb_lt, is_surrogate_false. lia.
Qed.

Lemma pair_range u t :
  is_lead u = true → is_trail t = true →
  0x10000 ≤ UTF16SurrogatePairToCodePoint u t < 0x110000.
Proof.
  intros Hu%is_lead_range Ht%is_trail_range. unfold UTF16SurrogatePairToCodePoint. lia.
Qed.

(** A surrogate pair is the encoding of its code point. *)
Lemma UTF16EncodeCodePoint_pair u t :
  is_lead u = true → is_trail t = true →
  UTF16EncodeCodePoint (UTF16SurrogatePairToCodePoint u t) = [u; t].
Proof.
  intros Hu Ht. pose proof (pair_range u t Hu Ht) as Hc.
  apply is_lead_range in Hu. apply is_trail_range in Ht.
  unfold UTF16EncodeCodePoint. rewrite (proj2 (N.ltb_ge _ _)) by lia.
  unfold UTF16SurrogatePairToCodePoint in *. f_equal; [|f_equal]; nlia.
Qed.

(** A code point above [0xFFFF] is encoded as a surrogate pair. *)
Lemma UTF16EncodeCodePoint_high c :
  0x10000 ≤ c < 0x110000 →
  ∃ u t, UTF16EncodeCodePoint c = [u; t] ∧ is_lead u = true ∧ is_trail t = true
         ∧ UTF16SurrogatePairToCodePoint u t = c.
Proof.
  intros Hc. unfold UTF16EncodeCodePoint. rewrite (proj2 (N.ltb_ge _ _)) by lia.
  eexists _, _. split; [done|].
  rewrite is_lead_range, is_trail_range. unfold UTF16SurrogatePairToCodePoint. nlia.
Qed.

Lemma UTF16EncodeCodePoint_low c : c < 0x10000 → UTF16EncodeCodePoint c = [c].
Proof. intros Hc. unfold UTF16EncodeCodePoint. by rewrite (proj2 (N.ltb_lt _ _)). Qed.

End ranges.

(** ** The two conversions *)

Section conversions.
Implicit Types (s : list N) (cps : list N) (u c : N).

Lemma StringToCodePoints_pair u t s :
  is_lead u = true → is_trail t = true →
  StringToCodePoints (u :: t :: s) = UTF16SurrogatePairToCodePoint u t :: StringToCodePoints s.
Proof. intros Hu Ht. simpl. by rewrite Hu, Ht. Qed.

(** A code unit that is no leading surrogate is a code point by itself. *)
Lemma StringToCodePoints_single u s :
  is_lead u = false → StringToCodePoints (u :: s) = u :: StringToCodePoints s.
Proof. intros Hu. simpl. rewrite Hu. by destruct s. Qed.

(** So is a leading surrogate that no trailing one follows. *)
Lemma StringToCodePoints_alone u s :
  match s with t :: _ => is_trail t = false | [] => True end →
  StringToCodePoints (u :: s) = u :: StringToCodePoints s.
Proof. destruct s as [|t s]; [done|]. simpl. intros ->. by rewrite andb_false_r. Qed.

Lemma CodePointsToString_cons c cps :
  CodePointsToString (c :: cps) = UTF16EncodeCodePoint c ++ CodePointsToString cps.
Proof. done. Qed.

Lemma CodePointsToString_app cps1 cps2 :
  CodePointsToString (cps1 ++ cps2) = CodePointsToString cps1 ++ CodePointsToString cps2.
Proof. apply bind_app. Qed.

(** Induction on a string, a code point at a time: a pair, or a code
    unit that is a code point by itself. *)
Lemma code_point_ind (P : list N → Prop) :
  P [] →
  (∀ u t s, is_lead u = true → is_trail t = true → P s → P (u :: t :: s)) →
  (∀ u s, StringToCodePoints (u :: s) = u :: StringToCodePoints s → P s → P (u :: s)) →
  ∀ s, P s.
Proof.
  intros Hnil Hpair Hone s.
  induction s as [s IH] using (induction_ltof1 _ length). unfold ltof in IH.
  destruct s as [|u [|t s]]; [done|by apply Hone|].
  destruct (is_lead u && is_trail t) eqn:Hp.
  - apply andb_prop in Hp as [Hu Ht]. apply Hpair; [done..|]. apply IH. simpl. lia.
  - apply Hone; [|apply IH; simpl; lia].
    change (StringToCodePoints (u :: t :: s)) with
      (if is_lead u && is_trail t
       then UTF16SurrogatePairToCodePoint u t :: StringToCodePoints s
       else u :: StringToCodePoints (t :: s)).
    by rewrite Hp.
Qed.

(** The code points of a string are code units or the code points of
    pairs. *)
Lemma StringToCodePoints_bound s :
  code_units s → Forall (λ c, c < 0x110000) (StringToCodePoints s).
Proof.
  induction s as [|u t s Hu Ht IH|u s Hs IH] using code_point_ind; intros Hcu.
  - constructor.
  - rewrite StringToCodePoints_pair by done. do 2 apply Forall_cons_1 in Hcu as [_ Hcu].
    constructor; [|by apply IH]. pose proof (pair_range u t Hu Ht). lia.
  - rewrite Hs. apply Forall_cons_1 in Hcu as [Hlt Hcu]. constructor; [lia|by apply IH].
Qed.

(** Every string of code units is the string of its code points. *)
Lemma CodePointsToString_StringToCodePoints s :
  code_units s → CodePointsToString (StringToCodePoints s) = s.
Proof.
  induction s as [|u t s Hu Ht IH|u s Hs IH] using code_point_ind; intros Hcu.
  - done.
  - rewrite StringToCodePoints_pair, CodePointsToString_cons by done.
    do 2 apply Forall_cons_1 in Hcu as [_ Hcu].
    by rewrite UTF16EncodeCodePoint_pair, IH.
  - rewrite Hs, CodePointsToString_cons. apply Forall_cons_1 in Hcu as [Hlt Hcu].
    by rewrite UTF16EncodeCodePoint_low, IH.
Qed.

(** The string of a sequence of scalar values has these code points, and
    is well formed. *)
Lemma StringToCodePoints_CodePointsToString cps :
  forallb is_scalar cps = true → StringToCodePoints (CodePointsToString cps) = cps.
Proof.
  induction cps as [|c cps IH]; [done|]. cbn [forallb].
  intros [Hc Hcps]%andb_prop. rewrite CodePointsToString_cons.
  apply is_scalar_range in Hc. destruct (N.lt_ge_cases c 0x10000) as [Hlow|Hhigh].
  - rewrite UTF16EncodeCodePoint_low by done. simpl app.
    rewrite StringToCodePoints_single, IH; [done..|].
    apply not_true_iff_false. rewrite is_lead_range. lia.
  - destruct (UTF16EncodeCodePoint_high c) as (u & t & -> & Hu & Ht & <-); [lia|].
    simpl app. by rewrite StringToCodePoints_pair, IH.
Qed.

Lemma IsStringWellFormedUnicode_CodePointsToString cps :
  forallb is_scalar cps = true → IsStringWellFormedUnicode (CodePointsToString cps) = true.
Proof.
  intros Hcps. unfold IsStringWellFormedUnicode.
  by rewrite StringToCodePoints_CodePointsToString.
Qed.

Lemma code_units_CodePointsToString cps :
  Forall (λ c, c < 0x110000) cps → code_units (CodePointsToString cps).
Proof.
  induction 1 as [|c cps Hc _ IH]; [constructor|].
  rewrite CodePointsToString_cons. apply Forall_app. split; [|done].
  unfold UTF16EncodeCodePoint. destruct (N.ltb_spec c 0x10000); repeat constructor; nlia.
Qed.

(** Code points below [0x10000] are their own code units. *)
Lemma CodePointsToString_low s : code_units s → CodePointsToString s = s.
Proof.
  induction 1 as [|u s Hu _ IH]; [done|].
  by rewrite CodePointsToString_cons, IH, UTF16EncodeCodePoint_low.
Qed.

(** A string without surrogates is the sequence of its code points. *)
Lemma StringToCodePoints_plain s :
  Forall (λ u, is_surrogate u = false) s → StringToCodePoints s = s.
Proof.
  induction 1 as [|u s Hu _ IH]; [done|].
  rewrite StringToCodePoints_single, IH; [done|].
  rewrite is_surrogate_split in Hu. by apply orb_false_elim in Hu as [-> _].
Qed.

End conversions.
