(* ===== verification/Utf8.v ===== *)
(** * Utf8: the bytes of a text

    The body of the request is a string (line 47 of [App.tsx]); [fetch]
    sends it as the UTF-8 encoding of its scalar values (line 42).  A
    string is first made a sequence of scalar values, a surrogate that
    stands alone being replaced by [U+FFFD] ([to_scalar]); each scalar
    value is then written on one to four bytes ([encode_cp]).

    [utf8_decode] is the decoder of the receiving end, which fails on the
    first byte that does not belong to the encoding of a scalar value:
    a continuation byte out of place, a sequence longer than its value
    needs, a surrogate, a value above [0x10FFFF].

    Encoder and decoder are inverse of each other ([utf8_decode_encode],
    [utf8_encode_decode]): the bytes of a text have one reading, and the
    well-formed strings are sent without loss ([utf8_roundtrip]). *)

From S2P Require Import Prelude Utf16.

Local Open Scope N_scope.

(** The scalar value sent for a code point. *)
Definition to_scalar (c : N) : N := if is_surrogate c then 0xFFFD else c.

Definition encode_cp (c : N) : list N :=
  if c <? 0x80 then [c]
  else if c <? 0x800 then [0xC0 + c / 0x40; 0x80 + c mod 0x40]
  else if c <? 0x10000 then
    [0xE0 + c / 0x1000; 0x80 + c / 0x40 mod 0x40; 0x80 + c mod 0x40]
  else
    [0xF0 + c / 0x40000; 0x80 + c / 0x1000 mod 0x40; 0x80 + c / 0x40 mod 0x40;
     0x80 + c mod 0x40].

Definition utf8_encode (s : list N) : list N :=
  (to_scalar <$> StringToCodePoints s) ≫= encode_cp.

(** The six bits of a continuation byte. *)
Definition continuation (b : N) : option N :=
  if (0x80 <=? b) && (b <? 0xC0) then Some (b - 0x80) else None.

(** The value read, when the sequence is not longer than it needs and
    the value is a scalar value. *)
Definition accept (low : N) (c : N) : option N :=
  if (low <=? c) && is_scalar c then Some c else None.

Fixpoint utf8_decode (bs : list N) : option (list N) :=
  match bs with
  | [] => Some []
  | b0 :: r0 =>
      if b0 <? 0x80 then cons b0 <$> utf8_decode r0
      else if b0 <? 0xC0 then None
      else if b0 <? 0xE0 then
        match r0 with
        | b1 :: r1 =>
            x1 ← continuation b1;
            c ← accept 0x80 ((b0 - 0xC0) * 0x40 + x1);
            cons c <$> utf8_decode r1
        | _ => None
        end
      else if b0 <? 0xF0 then
        match r0 with
        | b1 :: b2 :: r2 =>
            x1 ← continuation b1; x2 ← continuation b2;
            c ← accept 0x800 ((b0 - 0xE0) * 0x1000 + x1 * 0x40 + x2);
            cons c <$> utf8_decode r2
        | _ => None
        end
      else if b0 <? 0xF8 then
        match r0 with
        | b1 :: b2 :: b3 :: r3 =>
            x1 ← continuation b1; x2 ← continuation b2; x3 ← continuation b3;
            c ← accept 0x10000 ((b0 - 0xF0) * 0x40000 + x1 * 0x1000 + x2 * 0x40 + x3);
            cons c <$> utf8_decode r3
        | _ => None
        end
      else None
  end.

(** The string the receiving end reads. *)
Definition utf8_text (bs : list N) : option (list N) :=
  CodePointsToString <$> utf8_decode bs.

(** ** One scalar value *)

Section scalar.
Implicit Types (b c x low : N) (bs : list N).

Lemma continuation_tail x : x < 0x40 → continuation (0x80 + x) = Some x.
Proof.
  intros Hx. unfold continuation.
  rewrite (proj2 (N.leb_le _ _)), (proj2 (N.ltb_lt _ _)) by lia. simpl. f_equal. lia.
Qed.

Lemma continuation_Some b x : continuation b = Some x ↔ b = 0x80 + x ∧ x < 0x40.
Proof.
  split; [|intros [-> Hx]; by apply continuation_tail].
  unfold continuation. destruct (N.leb_spec 0x80 b), (N.ltb_spec b 0xC0); simpl; try done.
  intros [= <-]. lia.
Qed.

Lemma accept_Some low c c' : accept low c = Some c' ↔ c' = c ∧ low ≤ c ∧ is_scalar c = true.
Proof.
  unfold accept. destruct (N.leb_spec low c), (is_scalar c); simpl; naive_solver lia.
Qed.

Lemma accept_scalar low c : low ≤ c → is_scalar c = true → accept low c = Some c.
Proof. intros. by apply accept_Some. Qed.

(** The decoder, one step. *)
Lemma utf8_decode_cons b0 r0 :
  utf8_decode (b0 :: r0) =
  if b0 <? 0x80 then cons b0 <$> utf8_decode r0
  else if b0 <? 0xC0 then None
  else if b0 <? 0xE0 then
    match r0 with
    | b1 :: r1 =>
        x1 ← continuation b1;
        c ← accept 0x80 ((b0 - 0xC0) * 0x40 + x1);
        cons c <$> utf8_decode r1
    | _ => None
    end
  else if b0 <? 0xF0 then
    match r0 with
    | b1 :: b2 :: r2 =>
        x1 ← continuation b1; x2 ← continuation b2;
        c ← accept 0x800 ((b0 - 0xE0) * 0x1000 + x1 * 0x40 + x2);
        cons c <$> utf8_decode r2
    | _ => None
    end
  else if b0 <? 0xF8 then
    match r0 with
    | b1 :: b2 :: b3 :: r3 =>
        x1 ← continuation b1; x2 ← continuation b2; x3 ← continuation b3;
        c ← accept 0x10000 ((b0 - 0xF0) * 0x40000 + x1 * 0x1000 + x2 * 0x40 + x3);
        cons c <$> utf8_decode r3
    | _ => None
    end
  else None.
Proof. done. Qed.

(** The comparisons of the goal, decided by what is known. *)
Ltac decide_ltb :=
  repeat match goal with
         | |- context [?a <? ?b] =>
             first [rewrite (proj2 (N.ltb_lt a b)) by nlia
                   |rewrite (proj2 (N.ltb_ge a b)) by nlia]
         end.

(** The decoder reads back the scalar value the encoder wrote. *)
Lemma utf8_decode_encode_cp c bs :
  is_scalar c = true → utf8_decode (encode_cp c ++ bs) = cons c <$> utf8_decode bs.
Proof.
  intros Hs. pose proof (proj1 (is_scalar_range c) Hs) as Hc. unfold encode_cp.
  destruct (N.ltb_spec c 0x80); [|destruct (N.ltb_spec c 0x800);
    [|destruct (N.ltb_spec c 0x10000)]];
    simpl app; rewrite utf8_decode_cons; decide_ltb; [done|..];
    rewrite !continuation_tail by nlia; cbn [mbind option_bind].
  - replace (_ * 0x40 + _) with c by nlia. by rewrite accept_scalar.
  - replace (_ * 0x1000 + _ + _) with c by nlia. by rewrite accept_scalar.
  - replace (_ * 0x40000 + _ + _ + _) with c by nlia. by rewrite accept_scalar by (done || lia).
Qed.

(** What the decoder accepts is the encoding of a scalar value, followed
    by what it accepts. *)
Lemma utf8_decode_Some bs cps :
  utf8_decode bs = Some cps →
  bs = [] ∧ cps = [] ∨
  ∃ c bs' cps', bs = encode_cp c ++ bs' ∧ cps = c :: cps' ∧ is_scalar c = true
                ∧ utf8_decode bs' = Some cps'.
Proof.
  destruct bs as [|b0 r0]; [intros [= <-]; by left|]. rewrite utf8_decode_cons. intros H. right.
  destruct (N.ltb_spec b0 0x80).
  { apply fmap_Some in H as (cps' & Hd & ->). exists b0, r0, cps'.
    split_and!; [unfold encode_cp; by decide_ltb|done|apply is_scalar_range; lia|done]. }
  repeat match type of H with
         | (if ?a <? ?b then _ else _) = _ => destruct (N.ltb_spec a b)
         | match ?r with [] => _ | _ :: _ => _ end = Some _ => destruct r as [|? ?]
         | mbind _ ?m = Some _ =>
             let E := fresh "E" in destruct m eqn:E; cbn [mbind option_bind] in H
         | None = Some _ => discriminate H
         end;
    repeat match goal with
           | E : continuation _ = Some _ |- _ => apply continuation_Some in E as [-> ?]
           | E : accept _ _ = Some _ |- _ =>
               apply accept_Some in E as (-> & ? & ?%is_scalar_range)
           end;
    apply fmap_Some in H as (cps' & Hd & ->);
    eexists _, _, cps'; (split_and!; [|reflexivity|by apply is_scalar_range|done]);
    unfold encode_cp; decide_ltb; simpl app;
    repeat (apply (f_equal2 (@cons N)); [nlia|]); reflexivity.
Qed.

End scalar.

(** ** Texts *)

Section texts.
Implicit Types (s bs cps : list N).

Lemma utf8_decode_encode cps :
  forallb is_scalar cps = true → utf8_decode (cps ≫= encode_cp) = Some cps.
Proof.
  induction cps as [|c cps IH]; [done|]. cbn [forallb]. intros [Hc Hcps]%andb_prop.
  rewrite bind_cons, utf8_decode_encode_cp, IH; done.
Qed.

Lemma utf8_encode_decode bs cps :
  utf8_decode bs = Some cps → forallb is_scalar cps = true ∧ cps ≫= encode_cp = bs.
Proof.
  revert bs. induction cps as [|c cps IH]; intros bs Hd;
    apply utf8_decode_Some in Hd as [[-> ?]|(c' & bs' & cps' & -> & ? & Hc & Hd)];
    simplify_eq; [done|].
  destruct (IH _ Hd) as [Hs <-]. cbn [forallb]. by rewrite Hc, Hs.
Qed.

Lemma to_scalar_scalar c : is_scalar c = true → to_scalar c = c.
Proof.
  unfold to_scalar, is_scalar. intros [_ Hc%negb_true_iff]%andb_prop. by rewrite Hc.
Qed.

Lemma is_scalar_to_scalar c : c < 0x110000 → is_scalar (to_scalar c) = true.
Proof.
  intros Hc. unfold to_scalar. destruct (is_surrogate c) eqn:Hs; [done|].
  apply is_scalar_range. apply is_surrogate_false in Hs. lia.
Qed.

(** A code point is sent as itself exactly when it is a scalar value. *)
Lemma to_scalar_fixed c : c < 0x110000 → to_scalar c = c ↔ is_scalar c = true.
Proof.
  intros Hc. split; [|apply to_scalar_scalar].
  intros Heq. rewrite <- Heq. by apply is_scalar_to_scalar.
Qed.

Lemma to_scalar_fmap cps : forallb is_scalar cps = true → to_scalar <$> cps = cps.
Proof.
  induction cps as [|c cps IH]; [done|]. cbn [forallb]. intros [Hc Hcps]%andb_prop.
  csimpl. by rewrite to_scalar_scalar, IH.
Qed.

Lemma scalars_sent s :
  code_units s → forallb is_scalar (to_scalar <$> StringToCodePoints s) = true.
Proof.
  intros Hs%StringToCodePoints_bound. apply forallb_Forall.
  apply Forall_fmap. eapply Forall_impl; [done|]. intros c Hc. simpl.
  by apply is_scalar_to_scalar.
Qed.

(** The string the receiving end reads: the string sent, each surrogate
    that stands alone replaced by [U+FFFD]. *)
Lemma utf8_text_encode s :
  code_units s →
  utf8_text (utf8_encode s) = Some (CodePointsToString (to_scalar <$> StringToCodePoints s)).
Proof.
  intros Hs. unfold utf8_text, utf8_encode. by rewrite utf8_decode_encode by by apply scalars_sent.
Qed.

(** The bytes are bytes. *)
Lemma encode_cp_bytes c : c < 0x110000 → Forall (λ b, b < 256) (encode_cp c).
Proof.
  intros Hc. unfold encode_cp.
  repeat match goal with |- context [?a <? ?b] => destruct (N.ltb_spec a b) end;
    repeat constructor; nlia.
Qed.

Lemma utf8_encode_bytes s : code_units s → Forall (λ b, b < 256) (utf8_encode s).
Proof.
  intros Hs%scalars_sent. unfold utf8_encode. apply Forall_bind.
  apply forallb_Forall in Hs. eapply Forall_impl; [done|]. intros c Hc.
  apply encode_cp_bytes. apply is_scalar_range in Hc. lia.
Qed.

(** ASCII characters are their own bytes. *)
Lemma encode_cp_ascii c : c < 0x80 → encode_cp c = [c].
Proof. intros Hc. unfold encode_cp. by rewrite (proj2 (N.ltb_lt _ _)). Qed.

Lemma encoded_ascii cps : Forall (λ c, c < 0x80) cps → cps ≫= encode_cp = cps.
Proof.
  induction 1 as [|c cps Hc _ IH]; [done|]. by rewrite bind_cons, IH, encode_cp_ascii.
Qed.

(** A text of ASCII characters is sent as it is. *)
Lemma utf8_encode_ascii s : Forall (λ u, u < 0x80) s → utf8_encode s = s.
Proof.
  intros Hs. unfold utf8_encode. rewrite StringToCodePoints_plain, to_scalar_fmap.
  - by apply encoded_ascii.
  - apply forallb_Forall. eapply Forall_impl; [done|].
    intros u Hu. apply is_scalar_range. simpl in Hu. lia.
  - eapply Forall_impl; [done|]. intros u Hu. apply is_surrogate_false. simpl in Hu. lia.
Qed.

Lemma utf8_text_well_formed s :
  code_units s → IsStringWellFormedUnicode s = true → utf8_text (utf8_encode s) = Some s.
Proof.
  intros Hs Hwf. rewrite utf8_text_encode by done.
  by rewrite to_scalar_fmap, CodePointsToString_StringToCodePoints.
Qed.

(** A string is sent without loss exactly when it is well formed:
    the receiving end decodes the bytes [fetch] sends for a string of
    code units to that very string when no surrogate of it stands alone,
    and to another string otherwise. *)
Theorem utf8_lossless s :
  code_units s →
  utf8_text (utf8_encode s) = Some s ↔ IsStringWellFormedUnicode s = true.
Proof.
  intros Hs. split; [|by apply utf8_text_well_formed].
  rewrite utf8_text_encode by done. unfold IsStringWellFormedUnicode.
  intros [= Heq]. pose proof (f_equal StringToCodePoints Heq) as Hcps.
  rewrite StringToCodePoints_CodePointsToString in Hcps by by apply scalars_sent.
  rewrite <- Hcps. by apply scalars_sent.
Qed.

(** C29. The bytes of a text have one reading.  The decoder accepts a
    sequence of bytes exactly when it is the encoding of a sequence of
    scalar values, and gives that sequence: it refuses every sequence
    longer than its value needs, every surrogate and every value above
    [0x10FFFF], and no two sequences of scalar values have the same
    bytes. *)
Theorem utf8_decode_spec bs cps :
  utf8_decode bs = Some cps ↔ forallb is_scalar cps = true ∧ cps ≫= encode_cp = bs.
Proof.
  split; [apply utf8_encode_decode|]. intros [Hs <-]. by apply utf8_decode_encode.
Qed.

End texts.

(** "Aé€😀": one, two, three and four bytes. *)
Example utf8_encode_lengths :
  utf8_encode [0x41; 0xE9; 0x20AC; 0xD83D; 0xDE00]
  = [0x41; 0xC3; 0xA9; 0xE2; 0x82; 0xAC; 0xF0; 0x9F; 0x98; 0x80].
Proof. by vm_compute. Qed.

(** A surrogate that stands alone is sent as [U+FFFD]. *)
Example utf8_encode_lone : utf8_encode [0x41; 0xD83D; 0x42] = [0x41; 0xEF; 0xBF; 0xBD; 0x42].
Proof. by vm_compute. Qed.

(** The decoder refuses a sequence longer than its value needs, a
    surrogate, a value above [0x10FFFF] and a sequence cut short. *)
Example utf8_decode_refuses :
  utf8_decode [0xC0; 0x80] = None ∧ utf8_decode [0xE0; 0x80; 0x80] = None
  ∧ utf8_decode [0xED; 0xA0; 0x80] = None ∧ utf8_decode [0xF4; 0x90; 0x80; 0x80] = None
  ∧ utf8_decode [0xE2; 0x82] = None ∧ utf8_decode [0x80] = None.
Proof. by vm_compute. Qed.

Lemma utf8_lossless_witness :
  utf8_text (utf8_encode [0x41; 0xD83D; 0xDE00]) = Some [0x41; 0xD83D; 0xDE00]
  ↔ IsStringWellFormedUnicode [0x41; 0xD83D; 0xDE00] = true.
Proof. apply utf8_lossless. repeat constructor. Defined.
