(* ===== verification/JsonString.v ===== *)
(** * JsonString: a string in a JSON text, on code units

    [JSON.stringify] (line 47 of [App.tsx]) prints the prompt as a string
    literal.  [Json.quote] does it for 8-bit strings; this file does it
    for the strings of the platform, as ECMAScript defines it
    ([QuoteJSONString]): the string is read a code point at a time; the
    quote, the backslash and the control characters are escaped, and so
    is a surrogate that stands alone, as [\uXXXX] with lower-case digits;
    every other code point is written as its code units.

    [read_string] reads a literal back, as [JSON.parse] does: any code
    unit from [0x20] on stands for itself, an escape for its character,
    and [\uXXXX] for the code unit [XXXX], digits in either case.

    Proved: the reader gives back the string printed, whatever it holds
    ([read_string_QuoteJSONString]); the literal is well formed even when
    the string is not ([QuoteJSONString_well_formed]); on 8-bit strings
    the literal is that of [Json.quote] ([QuoteJSONString_units]). *)

From S2P Require Import Prelude Decimal JsValue Json JsString Utf16.

Local Open Scope N_scope.

(** ** Printing *)

(** A hexadecimal digit, in lower case. *)
Definition hex_digit (n : N) : N := if n <? 10 then 48 + n else 87 + n.

Definition UnicodeEscape (c : N) : list N :=
  [92; 117; hex_digit (c / 4096); hex_digit (c / 256 mod 16); hex_digit (c / 16 mod 16);
   hex_digit (c mod 16)].

(** What is printed for a code point. *)
Definition escape_cp (c : N) : list N :=
  if c =? 8 then [92; 98]
  else if c =? 9 then [92; 116]
  else if c =? 10 then [92; 110]
  else if c =? 12 then [92; 102]
  else if c =? 13 then [92; 114]
  else if c =? 34 then [92; 34]
  else if c =? 92 then [92; 92]
  else if (c <? 32) || is_surrogate c then UnicodeEscape c
  else UTF16EncodeCodePoint c.

Definition QuoteJSONString (s : list N) : list N :=
  [34] ++ (StringToCodePoints s ≫= escape_cp) ++ [34].

(** ** Reading *)

Definition hex_val (u : N) : option N :=
  if (48 <=? u) && (u <=? 57) then Some (u - 48)
  else if (97 <=? u) && (u <=? 102) then Some (u - 87)
  else if (65 <=? u) && (u <=? 70) then Some (u - 55)
  else None.

(** The code unit of [\uXXXX]. *)
Definition hex4_unit (h1 h2 h3 h4 : N) : option N :=
  a ← hex_val h1; b ← hex_val h2; c ← hex_val h3; d ← hex_val h4;
  Some (4096 * a + 256 * b + 16 * c + d).

(** The code unit of a short escape. *)
Definition short_unit (e : N) : option N :=
  if e =? 34 then Some 34
  else if e =? 92 then Some 92
  else if e =? 47 then Some 47
  else if e =? 98 then Some 8
  else if e =? 102 then Some 12
  else if e =? 110 then Some 10
  else if e =? 114 then Some 13
  else if e =? 116 then Some 9
  else None.

(** A string literal after its opening quote: its string and what
    follows the closing quote. *)
Fixpoint read_string (s : list N) : option (list N * list N) :=
  match s with
  | [] => None
  | c :: s1 =>
      if c =? 34 then Some ([], s1)
      else if c =? 92 then
        match s1 with
        | [] => None
        | e :: s2 =>
            match short_unit e with
            | Some u => '(t, r) ← read_string s2; Some (u :: t, r)
            | None =>
                match s2 with
                | h1 :: h2 :: h3 :: h4 :: s3 =>
                    if e =? 117 then
                      u ← hex4_unit h1 h2 h3 h4;
                      '(t, r) ← read_string s3; Some (u :: t, r)
                    else None
                | _ => None
                end
            end
        end
      else if c <? 32 then None
      else '(t, r) ← read_string s1; Some (c :: t, r)
  end.

(** ** The reader reads what was printed *)

Section reading.
Implicit Types (c u n : N) (s t r cps : list N).

Lemma hex_val_hex_digit n : n < 16 → hex_val (hex_digit n) = Some n.
Proof.
  intros Hn. unfold hex_digit, hex_val. destruct (N.ltb_spec n 10).
  - rewrite (proj2 (N.leb_le 48 _)), (proj2 (N.leb_le _ 57)) by lia. simpl. f_equal. lia.
  - rewrite (proj2 (N.leb_gt _ 57)), andb_false_r by lia.
    rewrite (proj2 (N.leb_le 97 _)), (proj2 (N.leb_le _ 102)) by lia. simpl. f_equal. lia.
Qed.

Lemma hex4_unit_UnicodeEscape c :
  c < 0x10000 →
  hex4_unit (hex_digit (c / 4096)) (hex_digit (c / 256 mod 16)) (hex_digit (c / 16 mod 16))
    (hex_digit (c mod 16)) = Some c.
Proof.
  intros Hc. unfold hex4_unit. rewrite !hex_val_hex_digit by nlia. simpl. f_equal. nlia.
Qed.

(** A code unit that stands for itself. *)
Lemma read_string_plain u s t r :
  32 ≤ u → u ≠ 34 → u ≠ 92 →
  read_string s = Some (t, r) → read_string (u :: s) = Some (u :: t, r).
Proof.
  intros Hu H34 H92 Hs. simpl.
  rewrite (proj2 (N.eqb_neq _ _) H34), (proj2 (N.eqb_neq _ _) H92), (proj2 (N.ltb_ge _ _) Hu).
  by rewrite Hs.
Qed.

Lemma read_string_UnicodeEscape c s t r :
  c < 0x10000 →
  read_string s = Some (t, r) → read_string (UnicodeEscape c ++ s) = Some (c :: t, r).
Proof.
  intros Hc Hs. unfold UnicodeEscape. simpl. by rewrite hex4_unit_UnicodeEscape, Hs.
Qed.

(** What is printed for a code point is read as its code units. *)
Lemma read_string_escape_cp c s t r :
  c < 0x110000 →
  read_string s = Some (t, r) →
  read_string (escape_cp c ++ s) = Some (UTF16EncodeCodePoint c ++ t, r).
Proof.
  intros Hc Hs. unfold escape_cp.
  repeat match goal with
         | |- context [?a =? ?b] => destruct (N.eqb_spec a b); [subst; simpl; by rewrite Hs|]
         end.
  destruct (N.ltb_spec c 32); simpl orb.
  { rewrite UTF16EncodeCodePoint_low by lia. apply read_string_UnicodeEscape; [lia|done]. }
  destruct (is_surrogate c) eqn:Hsur.
  { apply is_surrogate_range in Hsur. rewrite UTF16EncodeCodePoint_low by lia.
    apply read_string_UnicodeEscape; [lia|done]. }
  apply is_surrogate_false in Hsur. destruct (N.lt_ge_cases c 0x10000).
  - rewrite UTF16EncodeCodePoint_low by done. by apply read_string_plain.
  - destruct (UTF16EncodeCodePoint_high c) as (u & t' & -> & Hu%is_lead_range
      & Ht%is_trail_range & _); [lia|].
    simpl app. apply read_string_plain; [lia..|]. apply read_string_plain; [lia..|done].
Qed.

Lemma read_string_escaped cps r :
  Forall (λ c, c < 0x110000) cps →
  read_string ((cps ≫= escape_cp) ++ 34 :: r) = Some (CodePointsToString cps, r).
Proof.
  induction 1 as [|c cps Hc _ IH]; [done|].
  rewrite bind_cons, <- app_assoc. by apply read_string_escape_cp.
Qed.

End reading.

(** ** The literal is well formed *)

Section printing.
Implicit Types (c u n : N) (s t r cps : list N).

Lemma hex_digit_ascii n : n < 16 → hex_digit n < 0x80.
Proof. intros Hn. unfold hex_digit. destruct (N.ltb_spec n 10); lia. Qed.

Lemma ascii_scalar s : Forall (λ u, u < 0x80) s → forallb is_scalar s = true.
Proof.
  intros Hs. apply forallb_Forall. eapply Forall_impl; [done|].
  intros u Hu. apply is_scalar_range. simpl in Hu. lia.
Qed.

(** What is printed for a code point is an escape in ASCII or the code
    point itself, a scalar value then. *)
Lemma escape_cp_cases c :
  c < 0x110000 →
  Forall (λ u, u < 0x80) (escape_cp c)
  ∨ escape_cp c = UTF16EncodeCodePoint c ∧ is_scalar c = true.
Proof.
  intros Hc. unfold escape_cp.
  repeat match goal with
         | |- context [?a =? ?b] => destruct (N.eqb_spec a b); [left; by repeat constructor|]
         end.
  destruct ((c <? 32) || is_surrogate c) eqn:He.
  - left. assert (c < 0x10000) as Hlow.
    { apply orb_prop in He as [?%N.ltb_lt|?%is_surrogate_range]; lia. }
    unfold UnicodeEscape.
    repeat (apply Forall_cons_2; [try done; apply hex_digit_ascii; nlia|]). constructor.
  - right. split; [done|]. apply orb_false_elim in He as [_ He].
    unfold is_scalar. by rewrite He, (proj2 (N.ltb_lt _ _)).
Qed.

(** The text printed for a sequence of code points is the string of a
    sequence of scalar values. *)
Lemma escaped_scalars cps :
  Forall (λ c, c < 0x110000) cps →
  ∃ ps, forallb is_scalar ps = true ∧ cps ≫= escape_cp = CodePointsToString ps.
Proof.
  induction 1 as [|c cps Hc _ (ps & Hps & IH)]; [by exists []|].
  rewrite bind_cons, IH. destruct (escape_cp_cases c Hc) as [Ha|[-> Hs]].
  - exists (escape_cp c ++ ps).
    rewrite CodePointsToString_app, (CodePointsToString_low (escape_cp c))
      by (eapply Forall_impl; [done|]; simpl; lia).
    split; [|done]. rewrite forallb_app, Hps, andb_true_r. by apply ascii_scalar.
  - exists (c :: ps). split; [|done]. cbn [forallb]. by rewrite Hs.
Qed.

Lemma QuoteJSONString_scalars s :
  code_units s →
  ∃ ps, forallb is_scalar ps = true ∧ QuoteJSONString s = CodePointsToString ps.
Proof.
  intros (ps & Hps & Heq)%StringToCodePoints_bound%escaped_scalars.
  exists ([34] ++ ps ++ [34]). unfold QuoteJSONString.
  rewrite Heq, !CodePointsToString_app. split; [|done].
  by rewrite !forallb_app, Hps.
Qed.

End printing.

(** ** On 8-bit strings *)

Section latin1.
Implicit Types (a : ascii) (s : string).

Lemma units_cons a s : units (String a s) = N_of_ascii a :: units s.
Proof. done. Qed.

Lemma units_app s1 s2 : units (s1 +:+ s2) = units s1 ++ units s2.
Proof. induction s1 as [|a s1 IH]; [done|]. rewrite str_app_cons, !units_cons, IH. done. Qed.

Lemma units_bound s : Forall (λ u, u < 256) (units s).
Proof.
  induction s as [|a s IH]; [constructor|]. rewrite units_cons. constructor; [|done].
  apply N_ascii_bounded.
Qed.

Lemma units_code_units s : code_units (units s).
Proof. eapply Forall_impl; [apply units_bound|]. simpl. lia. Qed.

Lemma units_scalar s : forallb is_scalar (units s) = true.
Proof.
  apply forallb_Forall. eapply Forall_impl; [apply units_bound|].
  intros u Hu. apply is_scalar_range. simpl in Hu. lia.
Qed.

(** An 8-bit string has no surrogates: it is its own code points. *)
Lemma StringToCodePoints_units s : StringToCodePoints (units s) = units s.
Proof.
  apply StringToCodePoints_plain. eapply Forall_impl; [apply units_bound|].
  intros u Hu. apply is_surrogate_false. simpl in Hu. lia.
Qed.

Lemma escape_cp_units a : escape_cp (N_of_ascii a) = units (escape a).
Proof. destruct a as [[] [] [] [] [] [] [] []]; by vm_compute. Qed.

Lemma escaped_units s : units s ≫= escape_cp = units (escape_all s).
Proof.
  induction s as [|a s IH]; [done|].
  rewrite units_cons, bind_cons, IH. simpl. by rewrite units_app, escape_cp_units.
Qed.

(** The literal of an 8-bit string is the one [Json.quote] prints. *)
Lemma QuoteJSONString_units s : QuoteJSONString (units s) = units (quote s).
Proof.
  unfold QuoteJSONString, quote.
  rewrite StringToCodePoints_units, escaped_units, units_cons, units_app. done.
Qed.

End latin1.

(** ** The literal of a string *)

Section literal.
Implicit Types (s r : list N).

(** The literal, from its opening quote on. *)
Lemma QuoteJSONString_app s r :
  QuoteJSONString s ++ r = 34 :: (StringToCodePoints s ≫= escape_cp) ++ 34 :: r.
Proof. unfold QuoteJSONString. by rewrite <- !app_assoc. Qed.

Lemma read_string_literal s r :
  code_units s → read_string ((StringToCodePoints s ≫= escape_cp) ++ 34 :: r) = Some (s, r).
Proof.
  intros Hs. rewrite read_string_escaped by by apply StringToCodePoints_bound.
  by rewrite CodePointsToString_StringToCodePoints.
Qed.

(** C27. The prompt can be read back from its literal, whatever it holds.
    For every string of code units, surrogates that stand alone included,
    the reader of JSON strings reads the literal [JSON.stringify] prints
    up to its closing quote and gives that very string and what follows
    the literal; so two strings with the same literal are the same. *)
Theorem read_string_QuoteJSONString s r :
  code_units s →
  (∃ literal, QuoteJSONString s ++ r = 34 :: literal ∧ read_string literal = Some (s, r))
  ∧ ∀ s', code_units s' → QuoteJSONString s' = QuoteJSONString s → s' = s.
Proof.
  intros Hs. split.
  - eexists. split; [apply QuoteJSONString_app|by apply read_string_literal].
  - intros s' Hs' Heq. pose proof (QuoteJSONString_app s' []) as Hq.
    rewrite Heq, QuoteJSONString_app in Hq. injection Hq as Hq.
    pose proof (read_string_literal s [] Hs) as Hr. rewrite Hq in Hr.
    rewrite read_string_literal in Hr by done. congruence.
Qed.

(** C28. The literal is well formed even when the string is not: no
    surrogate stands alone in the text [JSON.stringify] prints for a
    string, so that the text can be sent in UTF-8 without loss. *)
Theorem QuoteJSONString_well_formed s :
  code_units s →
  code_units (QuoteJSONString s) ∧ IsStringWellFormedUnicode (QuoteJSONString s) = true.
Proof.
  intros (ps & Hps & ->)%QuoteJSONString_scalars. split.
  - apply code_units_CodePointsToString. apply forallb_Forall in Hps.
    eapply Forall_impl; [done|]. intros c Hc%is_scalar_range. simpl. lia.
  - by apply IsStringWellFormedUnicode_CodePointsToString.
Qed.

End literal.

(** "a", a quote, a line feed, a surrogate that stands alone, U+1F600. *)
Example QuoteJSONString_example :
  QuoteJSONString [97; 34; 10; 0xD83D; 0xD83D; 0xDE00]
  = [34; 97; 92; 34; 92; 110; 92; 117; 100; 56; 51; 100; 0xD83D; 0xDE00; 34].
Proof. by vm_compute. Qed.

Lemma read_string_QuoteJSONString_witness :
  (∃ literal, QuoteJSONString [97; 0xDC00; 34] ++ [44] = 34 :: literal
              ∧ read_string literal = Some ([97; 0xDC00; 34], [44]))
  ∧ ∀ s', code_units s' → QuoteJSONString s' = QuoteJSONString [97; 0xDC00; 34] →
          s' = [97; 0xDC00; 34].
Proof. apply read_string_QuoteJSONString. repeat constructor. Defined.

Lemma QuoteJSONString_well_formed_witness :
  code_units (QuoteJSONString [0xDE00; 97; 0xD83D])
  ∧ IsStringWellFormedUnicode (QuoteJSONString [0xDE00; 97; 0xD83D]) = true.
Proof. apply QuoteJSONString_well_formed. repeat constructor. Defined.
