(* ===== verification/Body.v ===== *)
(** * Body: the request body, from the prompt to the bytes

    The body of the request is [JSON.stringify] of the object literal of
    lines 47-51 of [App.tsx], and [fetch] sends it in UTF-8 (line 42).
    [Wire] and [Json] give the body for an 8-bit prompt; here the prompt is
    a string of the platform, any sequence of code units: [body_units] is
    the text, [body_bytes] the bytes.

    [read_prompt] is the receiving end of the wire contract, as far as the
    prompt goes: it reads the literal that follows the first key.

    Proved: on 8-bit prompts the text is the one [Json.print] gives
    ([body_units_print]); the bytes decode to the text, and the prompt
    read from it is the prompt sent, code unit for code unit, even when a
    surrogate of it stands alone ([prompt_received]); for a well-formed
    prompt the bytes are the text [Json.print] gives when the 8-bit
    strings are read as bytes in UTF-8 ([body_bytes_print]). *)

From S2P Require Import Prelude Decimal JsValue Json Config Wire JsString.
From S2P Require Import Transport Utf16 Utf8 JsonString.

Local Open Scope N_scope.

(** The text up to the prompt: the opening brace, the first key and the
    colon. *)
Definition prompt_key : string := String "{" (quote "original_prompt" +:+ ":").

(** The text after the prompt: the two other members and the closing
    brace. *)
Definition after_prompt (topology : Topology) (enabledModels : list string) : string :=
  String "," (print_member ("topology", VStr topology)
    +:+ String "," (print_member ("models", VArr (VStr <$> enabledModels)) +:+ "}")).

(** [JSON.stringify] of the payload, lines 47-51. *)
Definition body_units (content : list N) (topology : Topology)
    (enabledModels : list string) : list N :=
  units prompt_key ++ QuoteJSONString content ++ units (after_prompt topology enabledModels).

(** The bytes [fetch] sends, line 42. *)
Definition body_bytes (content : list N) (topology : Topology)
    (enabledModels : list string) : list N :=
  utf8_encode (body_units content topology enabledModels).

(** [s] without the prefix [p]. *)
Fixpoint strip (p s : list N) : option (list N) :=
  match p, s with
  | [], _ => Some s
  | a :: p', b :: s' => if a =? b then strip p' s' else None
  | _ :: _, [] => None
  end.

(** The prompt of a body: the literal after the first key. *)
Definition read_prompt (text : list N) : option (list N) :=
  r ← strip (units prompt_key) text;
  match r with
  | 34 :: literal => fst <$> read_string literal
  | _ => None
  end.

(** What the receiving end reads in the bytes. *)
Definition received_prompt (bytes : list N) : option (list N) :=
  utf8_text bytes ≫= read_prompt.

Section body.
Implicit Types (content : list N) (topology : Topology) (ids : list string).

Lemma strip_app p s : strip p (p ++ s) = Some s.
Proof. induction p as [|a p IH]; [done|]. simpl. by rewrite N.eqb_refl. Qed.

(** On an 8-bit prompt the text is the text of the payload. *)
Lemma body_units_print (prompt : string) topology ids :
  body_units (units prompt) topology ids = units (print (request_payload prompt topology ids)).
Proof.
  unfold body_units, request_payload. rewrite print_object by (simpl; by rewrite json_strings).
  rewrite QuoteJSONString_units, <- !units_app. f_equal.
  unfold prompt_key, after_prompt, print_member. cbn [map join fst snd].
  change (print (VStr prompt)) with (quote prompt).
  by repeat first [rewrite str_app_cons|rewrite str_app_assoc].
Qed.

Lemma read_prompt_body content topology ids :
  code_units content → read_prompt (body_units content topology ids) = Some content.
Proof.
  intros Hc. unfold read_prompt, body_units. rewrite strip_app. cbn [mbind option_bind].
  by rewrite QuoteJSONString_app, read_string_literal.
Qed.

(** The text of a body is well formed. *)
Lemma body_units_scalars content topology ids :
  code_units content →
  ∃ ps, forallb is_scalar ps = true ∧ body_units content topology ids = CodePointsToString ps.
Proof.
  intros (ps & Hps & Hq)%QuoteJSONString_scalars.
  exists (units prompt_key ++ ps ++ units (after_prompt topology ids)). split.
  - by rewrite !forallb_app, Hps, !units_scalar.
  - unfold body_units.
    rewrite Hq, !CodePointsToString_app.
    by rewrite !(CodePointsToString_low (units _)) by apply units_code_units.
Qed.

Lemma body_units_well_formed content topology ids :
  code_units content →
  code_units (body_units content topology ids)
  ∧ IsStringWellFormedUnicode (body_units content topology ids) = true.
Proof.
  intros (ps & Hps & ->)%(body_units_scalars _ topology ids). split.
  - apply code_units_CodePointsToString. apply forallb_Forall in Hps.
    eapply Forall_impl; [done|]. intros c Hc%is_scalar_range. simpl. lia.
  - by apply IsStringWellFormedUnicode_CodePointsToString.
Qed.

(** C12. The prompt is received as typed.  For every prompt, a string of
    code units in which surrogates may stand alone, what [fetch] sends
    is a sequence of bytes that decodes to the text [JSON.stringify]
    printed, and the prompt read from that text is the prompt, code unit
    for code unit; so two prompts with the same bytes are the same. *)
Theorem prompt_received content topology ids :
  code_units content →
  Forall (λ b, b < 256) (body_bytes content topology ids)
  ∧ utf8_text (body_bytes content topology ids) = Some (body_units content topology ids)
  ∧ received_prompt (body_bytes content topology ids) = Some content.
Proof.
  intros Hc. destruct (body_units_well_formed content topology ids Hc) as [Hu Hwf].
  unfold received_prompt, body_bytes. rewrite utf8_text_well_formed by done.
  split_and!; [by apply utf8_encode_bytes|done|by apply read_prompt_body].
Qed.

(** On 8-bit prompts the text of the body is the text of the
    payload: what [Json] and [Wire] prove of the body holds of the text
    sent, the code units of [Json.print] of the payload. *)
Theorem body_units_latin1 (prompt : string) topology ids :
  body_units (units prompt) topology ids = units (print (request_payload prompt topology ids))
  ∧ stringify (req_body (run_request prompt topology ids))
    = Some (print (request_payload prompt topology ids)).
Proof. split; [apply body_units_print|apply body_text_print]. Qed.

End body.

(** ** The 8-bit texts read as bytes

    An 8-bit string can be read in two ways: as the code units of a
    string of the platform ([units], what [body_units_latin1] uses), or
    as the bytes of a text in UTF-8.  [Json.print] is exact in the second
    reading too, for every well-formed prompt: escaping and encoding
    commute, because what [JSON.stringify] escapes is ASCII and the bytes
    of anything else are above it. *)

(** The 8-bit string of a sequence of bytes. *)
Definition text_of (bs : list N) : string :=
  String.string_of_list_ascii (ascii_of_N <$> bs).

(** A text of ASCII characters. *)
Definition ascii_text (s : string) : Prop := Forall (λ u, u < 0x80) (units s).

Section bytes.
Implicit Types (content ps pts bs : list N) (topology : Topology) (ids : list string).

Lemma units_text_of bs : Forall (λ b, b < 256) bs → units (text_of bs) = bs.
Proof.
  unfold units, text_of. rewrite String.list_ascii_of_string_of_list_ascii.
  induction 1 as [|b bs Hb _ IH]; [done|]. csimpl. by rewrite IH, N_ascii_embedding.
Qed.

Lemma utf8_encode_scalars pts :
  forallb is_scalar pts = true → utf8_encode (CodePointsToString pts) = pts ≫= encode_cp.
Proof.
  intros Hs. unfold utf8_encode.
  by rewrite StringToCodePoints_CodePointsToString, to_scalar_fmap.
Qed.

(** The bytes of a scalar value above ASCII are above ASCII. *)
Lemma encode_cp_high c :
  0x80 ≤ c < 0x110000 → Forall (λ b, 0x80 ≤ b < 256) (encode_cp c).
Proof.
  intros Hc. unfold encode_cp.
  repeat match goal with |- context [?a <? ?b] => destruct (N.ltb_spec a b) end;
    [lia|..]; repeat (apply Forall_cons_2; [nlia|]); constructor.
Qed.

(** A code unit above ASCII that is no surrogate is printed as it is. *)
Lemma escape_cp_high c : 0x80 ≤ c → is_surrogate c = false → escape_cp c = UTF16EncodeCodePoint c.
Proof.
  intros Hc Hs. unfold escape_cp. rewrite Hs.
  repeat match goal with
         | |- context [?a =? ?b] => destruct (N.eqb_spec a b); [lia|]
         end.
  by rewrite (proj2 (N.ltb_ge _ _)) by lia.
Qed.

Lemma escaped_high bs : Forall (λ b, 0x80 ≤ b < 256) bs → bs ≫= escape_cp = bs.
Proof.
  induction 1 as [|b bs Hb _ IH]; [done|]. rewrite bind_cons, IH.
  rewrite escape_cp_high, UTF16EncodeCodePoint_low; [done|lia..|].
  apply is_surrogate_false. lia.
Qed.

(** An ASCII character is printed in ASCII. *)
Lemma escape_cp_ascii c : c < 0x80 → Forall (λ u, u < 0x80) (escape_cp c).
Proof.
  intros Hc. destruct (escape_cp_cases c) as [?|[-> _]]; [lia|done|].
  rewrite UTF16EncodeCodePoint_low by lia. by repeat constructor.
Qed.

(** Escaping and encoding commute, one scalar value at a time. *)
Lemma escape_encode_cp c :
  is_scalar c = true →
  ∃ pts, forallb is_scalar pts = true ∧ escape_cp c = CodePointsToString pts
         ∧ pts ≫= encode_cp = encode_cp c ≫= escape_cp.
Proof.
  intros Hs. pose proof (proj1 (is_scalar_range c) Hs) as Hc.
  destruct (N.lt_ge_cases c 0x80) as [Hlow|Hhigh].
  - exists (escape_cp c). pose proof (escape_cp_ascii c Hlow) as Ha.
    split_and!; [by apply ascii_scalar| |].
    + symmetry. apply CodePointsToString_low. eapply Forall_impl; [done|]. simpl. lia.
    + rewrite encoded_ascii, encode_cp_ascii by done. csimpl. by rewrite app_nil_r.
  - exists [c]. rewrite escape_cp_high by (done || apply is_surrogate_false; lia).
    split_and!; [by cbn [forallb]; rewrite Hs|by rewrite CodePointsToString_cons, app_nil_r|].
    csimpl. rewrite app_nil_r, escaped_high; [done|]. apply encode_cp_high. lia.
Qed.

Lemma escape_encode ps :
  forallb is_scalar ps = true →
  ∃ pts, forallb is_scalar pts = true ∧ ps ≫= escape_cp = CodePointsToString pts
         ∧ pts ≫= encode_cp = (ps ≫= encode_cp) ≫= escape_cp.
Proof.
  induction ps as [|c ps IH]; [by exists []|]. cbn [forallb].
  intros [(p1 & Hp1 & He1 & Hb1)%escape_encode_cp (p2 & Hp2 & He2 & Hb2)%IH]%andb_prop.
  exists (p1 ++ p2). rewrite !bind_cons, !bind_app, CodePointsToString_app, forallb_app.
  by rewrite Hp1, Hp2, He1, He2, Hb1, Hb2.
Qed.

(** The bytes of the literal of a well-formed string are the literal of
    its bytes. *)
Lemma literal_bytes content :
  code_units content → IsStringWellFormedUnicode content = true →
  ∃ pts, forallb is_scalar pts = true
         ∧ QuoteJSONString content = CodePointsToString ([34] ++ pts ++ [34])
         ∧ QuoteJSONString (utf8_encode content) = [34] ++ (pts ≫= encode_cp) ++ [34].
Proof.
  intros Hc Hwf. destruct (escape_encode _ Hwf) as (pts & Hpts & He & Hb).
  exists pts. split_and!; [done|..].
  - unfold QuoteJSONString. by rewrite He, !CodePointsToString_app.
  - unfold QuoteJSONString. rewrite StringToCodePoints_plain.
    + unfold utf8_encode. by rewrite to_scalar_fmap, Hb.
    + eapply Forall_impl; [by apply utf8_encode_bytes|].
      intros b Hb'. apply is_surrogate_false. simpl in Hb'. lia.
Qed.

(** The bytes of a text between two ASCII texts. *)
Lemma utf8_encode_between a pts b :
  Forall (λ u, u < 0x80) a → forallb is_scalar pts = true → Forall (λ u, u < 0x80) b →
  utf8_encode (a ++ CodePointsToString pts ++ b) = a ++ (pts ≫= encode_cp) ++ b.
Proof.
  intros Ha Hpts Hb. trans (utf8_encode (CodePointsToString (a ++ pts ++ b))).
  - rewrite !CodePointsToString_app, !(CodePointsToString_low a), !(CodePointsToString_low b);
      [done|eapply Forall_impl; [done|]; simpl; lia..].
  - rewrite utf8_encode_scalars by by rewrite !forallb_app, Hpts, !ascii_scalar.
    by rewrite !bind_app, (encoded_ascii a), (encoded_ascii b).
Qed.

Lemma ascii_text_app s1 s2 : ascii_text s1 → ascii_text s2 → ascii_text (s1 +:+ s2).
Proof. unfold ascii_text. rewrite units_app, Forall_app. done. Qed.

Lemma ascii_text_cons a s :
  N_of_ascii a < 0x80 → ascii_text s → ascii_text (String a s).
Proof. unfold ascii_text. rewrite units_cons, Forall_cons. done. Qed.

Lemma ascii_text_quote s : ascii_text s → ascii_text (quote s).
Proof.
  unfold ascii_text. rewrite <- QuoteJSONString_units. unfold QuoteJSONString. intros Hs.
  rewrite StringToCodePoints_units. repeat (apply Forall_app; split); [by repeat constructor| |
    by repeat constructor].
  apply Forall_bind. eapply Forall_impl; [done|]. intros c Hc. by apply escape_cp_ascii.
Qed.

Lemma ascii_text_join ts : Forall ascii_text ts → ascii_text (join ts).
Proof.
  induction 1 as [|t ts Ht Hts IH]; [constructor|]. destruct ts as [|t' ts]; [done|].
  change (join (t :: t' :: ts)) with (t +:+ String "," (join (t' :: ts))).
  apply ascii_text_app; [done|]. by apply ascii_text_cons.
Qed.

Lemma after_prompt_ascii topology ids :
  ascii_text topology → Forall ascii_text ids → ascii_text (after_prompt topology ids).
Proof.
  intros Ht Hids. unfold after_prompt, print_member. cbn [fst snd].
  change (print (VStr topology)) with (quote topology). rewrite print_array.
  repeat first [apply ascii_text_quote|apply ascii_text_join|apply ascii_text_app
               |apply ascii_text_cons]; try done; try by repeat constructor.
  induction Hids as [|s ids Hs _ IH]; [constructor|].
  change (Forall ascii_text (quote s :: map print (VStr <$> ids))).
  constructor; [by apply ascii_text_quote|done].
Qed.

(** The bytes of the body are the text [Json.print] gives for the
    payload, the prompt and the text read as bytes in UTF-8: for every
    well-formed prompt and every configuration in ASCII, what [Json] and
    [Transport] prove of the 8-bit text holds of the bytes on the wire. *)
Theorem body_bytes_print content topology ids :
  code_units content → IsStringWellFormedUnicode content = true →
  ascii_text topology → Forall ascii_text ids →
  body_bytes content topology ids
  = units (print (request_payload (text_of (utf8_encode content)) topology ids)).
Proof.
  intros Hc Hwf Ht Hids. destruct (literal_bytes content Hc Hwf) as (pts & Hpts & Hq & Hb).
  pose proof (after_prompt_ascii topology ids Ht Hids) as Ha.
  assert (ascii_text prompt_key) as Hk by by repeat constructor.
  rewrite <- body_units_print, units_text_of by by apply utf8_encode_bytes.
  unfold body_bytes, body_units.
  rewrite Hb, Hq, utf8_encode_between; [|exact Hk|by rewrite !forallb_app, Hpts|exact Ha].
  by rewrite !bind_app.
Qed.

End bytes.

Lemma body_bytes_print_witness :
  body_bytes [0xE9; 0xD83D; 0xDE00] "standard-chain" ["grok"; "gpt-4"]
  = units (print (request_payload (text_of (utf8_encode [0xE9; 0xD83D; 0xDE00]))
                    "standard-chain" ["grok"; "gpt-4"])).
Proof. apply body_bytes_print; by repeat constructor. Defined.

(** The prompt "né" followed by a surrogate that stands alone and a
    quote, under the initial configuration. *)
Definition odd_prompt : list N := [110; 0xE9; 0xD83D; 34].

Lemma prompt_received_witness :
  Forall (λ b, b < 256) (body_bytes odd_prompt "standard-chain" ["grok"; "claude"])
  ∧ utf8_text (body_bytes odd_prompt "standard-chain" ["grok"; "claude"])
    = Some (body_units odd_prompt "standard-chain" ["grok"; "claude"])
  ∧ received_prompt (body_bytes odd_prompt "standard-chain" ["grok"; "claude"])
    = Some odd_prompt.
Proof. apply prompt_received. repeat constructor. Defined.

(** The bytes of that body: "é" on two bytes, the surrogate as the six
    characters of its escape, the quote escaped. *)
Example body_bytes_odd_prompt :
  body_bytes odd_prompt "standard-chain" []
  = units prompt_key
    ++ [34; 110; 0xC3; 0xA9; 92; 117; 100; 56; 51; 100; 92; 34; 34]
    ++ units (after_prompt "standard-chain" []).
Proof. by vm_compute. Qed.
