(* ===== verification/JsonGrammar.v ===== *)
(** * JsonGrammar: what the parser accepts

    [Json.parse] is a program; this file says what it reads, as the
    grammar of JSON written with inductive relations: [Chars] (a string
    literal after its opening quote), [Number], and [Value], [Elements]
    and [Members] for the values, white space allowed before every token.
    The two restrictions of the model are two rules of the grammar: a
    number is an integer numeral ([Number], no fraction, no exponent),
    and the character of an escape [\uXXXX] is an 8-bit character
    ([Chars_hex], through [Json.hex4]).

    Proved: the parser accepts a text with a value exactly when the
    grammar derives it ([parse_grammar]).  So the parser is deterministic
    on the grammar, reads no text the grammar does not have, and misses
    none. *)

From S2P Require Import Prelude Decimal JsValue Json JsonFuel.

Local Open Scope N_scope.

(** ** The grammar *)

(** The next token of [s] starts with the character [c], and [r] follows
    that character. *)
Definition At (c : ascii) (s r : string) : Prop := skip_ws s = String c r.

(** A string literal after its opening quote, the string it denotes and
    what follows its closing quote. *)
Inductive Chars : string → string → string → Prop :=
| Chars_end r : Chars (String dquote r) "" r
| Chars_plain c s t r :
    32 ≤ N_of_ascii c → c ≠ dquote → c ≠ backslash →
    Chars s t r → Chars (String c s) (String c t) r
| Chars_short e c s t r :
    short_escape e = Some c →
    Chars s t r → Chars (String backslash (String e s)) (String c t) r
| Chars_hex h1 h2 h3 h4 c s t r :
    hex4 h1 h2 h3 h4 = Some c →
    Chars s t r →
    Chars (String backslash (String "u" (String h1 (String h2 (String h3 (String h4 s))))))
      (String c t) r.

(** What may follow a number: no digit, no fraction, no exponent. *)
Definition follows_number (r : string) : bool :=
  match r with
  | EmptyString => true
  | String c _ => negb (is_digit c) && ends_number r
  end.

(** An integer numeral: the decimal digits of a natural number, without
    a leading zero, after an optional minus sign. *)
Inductive Number : string → Z → string → Prop :=
| Number_nat n r : follows_number r = true → Number (toString n +:+ r) (Z.of_N n) r
| Number_neg n r :
    follows_number r = true → Number (String "-" (toString n +:+ r)) (- Z.of_N n)%Z r.

Inductive Value : string → JsValue → string → Prop :=
| Value_string s s1 t r : At dquote s s1 → Chars s1 t r → Value s (VStr t) r
| Value_number s z r : Number (skip_ws s) z r → Value s (VNum z) r
| Value_null s r : At "n" s ("ull" +:+ r) → Value s VNull r
| Value_true s r : At "t" s ("rue" +:+ r) → Value s (VBool true) r
| Value_false s r : At "f" s ("alse" +:+ r) → Value s (VBool false) r
| Value_empty_array s s1 r : At "[" s s1 → At "]" s1 r → Value s (VArr []) r
| Value_array s s1 vs r : At "[" s s1 → Elements s1 vs r → Value s (VArr vs) r
| Value_empty_object s s1 r : At "{" s s1 → At "}" s1 r → Value s (VObj []) r
| Value_object s s1 ms r : At "{" s s1 → Members s1 ms r → Value s (VObj ms) r
with Elements : string → list JsValue → string → Prop :=
| Elements_last s v s1 r : Value s v s1 → At "]" s1 r → Elements s [v] r
| Elements_more s v s1 s2 vs r :
    Value s v s1 → At "," s1 s2 → Elements s2 vs r → Elements s (v :: vs) r
with Members : string → list (string * JsValue) → string → Prop :=
| Members_last s s1 k s2 s3 v s4 r :
    At dquote s s1 → Chars s1 k s2 → At ":" s2 s3 → Value s3 v s4 → At "}" s4 r →
    Members s [(k, v)] r
| Members_more s s1 k s2 s3 v s4 s5 ms r :
    At dquote s s1 → Chars s1 k s2 → At ":" s2 s3 → Value s3 v s4 → At "," s4 s5 →
    Members s5 ms r → Members s ((k, v) :: ms) r.

Scheme Value_mut := Minimality for Value Sort Prop
  with Elements_mut := Minimality for Elements Sort Prop
  with Members_mut := Minimality for Members Sort Prop.

Combined Scheme grammar_ind from Value_mut, Elements_mut, Members_mut.

(** A JSON text: one value, and white space only after it. *)
Definition Text (text : string) (v : JsValue) : Prop :=
  ∃ r, Value text v r ∧ skip_ws r = "".

(** ** Tokens *)

Section tokens.
Implicit Types (c : ascii) (s r : string) (n : N).

Lemma next_At c s r : next (skip_ws s) = Some (N_of_ascii c, r) ↔ At c s r.
Proof.
  unfold At. destruct (skip_ws s) as [|c' r']; [done|]. simpl. split.
  - intros [= Hc ->]. f_equal. rewrite <- (ascii_N_embedding c'), Hc. apply ascii_N_embedding.
  - by intros [= -> ->].
Qed.

(** The next token, by the code the parser tests. *)
Lemma next_code s n r :
  n < 256 → next (skip_ws s) = Some (n, r) ↔ At (ascii_of_N n) s r.
Proof. intros Hn. by rewrite <- next_At, N_ascii_embedding. Qed.

Lemma after_app p s r : after p s = Some r ↔ s = p +:+ r.
Proof.
  revert s. induction p as [|a p IH]; intros s; simpl.
  - rewrite str_app_nil_l. naive_solver.
  - destruct s as [|b s]; [done|]. rewrite str_app_cons. case_decide; [|naive_solver].
    rewrite IH. naive_solver.
Qed.

End tokens.

(** ** String literals *)

Section strings.
Implicit Types (c : ascii) (s t r : string).

Lemma code_neq c n : n < 256 → c ≠ ascii_of_N n → (N_of_ascii c =? n) = false.
Proof.
  intros Hn Hc. apply N.eqb_neq. intros Heq. apply Hc.
  by rewrite <- Heq, ascii_N_embedding.
Qed.

Lemma Chars_parse_string s t r : Chars s t r → parse_string s = Some (t, r).
Proof.
  induction 1 as [r|c s t r Hc Hq Hb _ IH|e c s t r He _ IH|h1 h2 h3 h4 c s t r Hh _ IH].
  - done.
  - cbn [parse_string]. rewrite (code_neq c 34), (code_neq c 92) by done.
    by rewrite (proj2 (N.ltb_ge _ _) Hc), IH.
  - cbn [parse_string]. change (N_of_ascii backslash) with 92. simpl N.eqb.
    by rewrite He, IH.
  - cbn [parse_string]. change (N_of_ascii backslash) with 92. simpl N.eqb.
    change (short_escape "u") with (@None ascii). cbn match. by rewrite Hh, IH.
Qed.

Lemma parse_string_Chars s : ∀ t r, parse_string s = Some (t, r) → Chars s t r.
Proof.
  induction s as [s IH] using (induction_ltof1 _ String.length). unfold ltof in IH.
  intros t r H. destruct s as [|c s1]; [done|]. cbn [parse_string] in H.
  destruct (N.eqb_spec (N_of_ascii c) 34) as [Hq|Hq].
  { simplify_eq. replace c with dquote; [constructor|].
    by rewrite <- (ascii_N_embedding c), Hq. }
  destruct (N.eqb_spec (N_of_ascii c) 92) as [Hb|Hb].
  - replace c with backslash by by rewrite <- (ascii_N_embedding c), Hb.
    destruct s1 as [|e s2]; [done|]. destruct (short_escape e) as [c'|] eqn:He.
    + destruct (parse_string s2) as [[t' r']|] eqn:E; [|done]. simplify_eq/=.
      apply Chars_short; [done|]. apply IH; [simpl; lia|done].
    + destruct s2 as [|h1 [|h2 [|h3 [|h4 s3]]]]; try done.
      destruct (N.eqb_spec (N_of_ascii e) 117) as [Hu|]; [|done].
      replace e with "u"%char by by rewrite <- (ascii_N_embedding e), Hu.
      destruct (hex4 h1 h2 h3 h4) as [c'|] eqn:Hh; [|done].
      destruct (parse_string s3) as [[t' r']|] eqn:E; [|done]. simplify_eq/=.
      apply Chars_hex; [done|]. apply IH; [simpl; lia|done].
  - destruct (N.ltb_spec (N_of_ascii c) 32); [done|].
    destruct (parse_string s1) as [[t' r']|] eqn:E; [|done]. simplify_eq/=.
    apply Chars_plain; [done|by intros ->|by intros ->|]. apply IH; [simpl; lia|done].
Qed.

End strings.

(** ** Numbers *)

Section numbers.
Implicit Types (c : ascii) (s d r : string) (n : N) (z : Z).

Lemma follows_number_ends r :
  follows_number r = true ↔ ends_number r = true ∧ span_digits r = ("", r).
Proof.
  destruct r as [|c r]; [done|]. cbn [follows_number span_digits].
  destruct (is_digit c); simpl; naive_solver.
Qed.

(** The digits a number starts with, and what follows them. *)
Lemma span_digits_split s :
  s = (span_digits s).1 +:+ (span_digits s).2
  ∧ all_digits (span_digits s).1 = true
  ∧ span_digits (span_digits s).2 = ("", (span_digits s).2).
Proof.
  induction s as [|c s (IH1 & IH2 & IH3)]; [done|]. simpl.
  destruct (is_digit c) eqn:Hc; simpl; [|by rewrite Hc].
  rewrite Hc, str_app_cons, <- IH1. done.
Qed.

Lemma parse_nat_follows n r :
  follows_number r = true → parse_nat (toString n +:+ r) = Some (n, r).
Proof.
  intros [He Hs]%follows_number_ends. unfold parse_nat.
  rewrite span_digits_app by (done || apply all_digits_toString). simpl.
  by rewrite parseDecimal_toString, He.
Qed.

Lemma parse_nat_numeral s n r :
  parse_nat s = Some (n, r) → s = toString n +:+ r ∧ follows_number r = true.
Proof.
  unfold parse_nat. destruct (span_digits_split s) as (Hs & _ & Hr).
  destruct (parseDecimal _) as [n'|] eqn:Hn; [|done]. simpl.
  destruct (ends_number _) eqn:He; [|done]. intros [= -> <-].
  apply toString_parseDecimal in Hn. rewrite Hn. split; [done|].
  by apply follows_number_ends.
Qed.

Lemma Number_parse_number s z r : Number s z r ↔ parse_number s = Some (z, r).
Proof.
  split.
  - intros [n r' Hr|n r' Hr].
    + destruct (toString_head n) as (c & t & Hc & Hd%is_digit_code).
      pose proof (parse_nat_follows n r' Hr) as Hp. rewrite Hc, str_app_cons in *.
      unfold parse_number. other_codes (N_of_ascii c). by rewrite Hp.
    + cbn [parse_number]. simpl N.eqb. by rewrite parse_nat_follows.
  - destruct s as [|c s']; [done|]. cbn [parse_number].
    destruct (N.eqb_spec (N_of_ascii c) 45) as [Hm|Hm].
    + replace c with "-"%char by by rewrite <- (ascii_N_embedding c), Hm.
      destruct (parse_nat s') as [[n r']|] eqn:E; [|done]. intros [= <- <-].
      apply parse_nat_numeral in E as [-> Hr]. by constructor.
    + destruct (parse_nat (String c s')) as [[n r']|] eqn:E; [|done]. intros [= <- <-].
      apply parse_nat_numeral in E as [-> Hr]. by constructor.
Qed.

(** A number starts with a digit or the minus sign. *)
Lemma Number_head s z r :
  Number s z r → ∃ c t, s = String c t ∧ (N_of_ascii c = 45 ∨ 48 ≤ N_of_ascii c ≤ 57).
Proof.
  intros [n r' _|n r' _].
  - destruct (toString_head n) as (c & t & -> & Hd%is_digit_code).
    eexists _, _. split; [by rewrite str_app_cons|by right].
  - eexists _, _. split; [done|by left].
Qed.

End numbers.

(** ** Values *)

(** The tests of the parser that came out true, as tokens of the
    grammar. *)
Ltac tokens :=
  repeat match goal with
         | H : (_ =? _) = true |- _ => apply N.eqb_eq in H; subst
         | H : next (skip_ws _) = Some (_, _) |- _ => apply next_code in H; [|done]
         | H : after _ _ = Some _ |- _ => apply after_app in H; subst
         | H : parse_string _ = Some _ |- _ => apply parse_string_Chars in H
         | H : parse_number _ = Some _ |- _ => apply Number_parse_number in H
         end.

Section sound.
Implicit Types (s r : string) (v : JsValue) (fuel : nat).

(** The parser reads what the grammar derives, and nothing else. *)
Lemma grammar_sound fuel :
  (∀ s v r, parse_value fuel s = Some (v, r) → Value s v r)
  ∧ (∀ s vs r, parse_elements fuel s = Some (vs, r) → Elements s vs r)
  ∧ (∀ s ms r, parse_members fuel s = Some (ms, r) → Members s ms r).
Proof.
  induction fuel as [|fuel (IHv & IHe & IHm)]; [done|]. split_and!; intros s x r H.
  - rewrite parse_value_S in H. bind_inv H; simplify_eq; tokens;
      eauto using Value, Elements, Members.
  - rewrite parse_elements_S in H. bind_inv H; simplify_eq; tokens;
      eauto using Value, Elements, Members.
  - rewrite parse_members_S in H. bind_inv H; simplify_eq; tokens;
      eauto 7 using Value, Elements, Members.
Qed.

End sound.

Section complete.
Implicit Types (s r : string) (v : JsValue) (fuel : nat).

(** A derivation as the parser takes it: the parser gives the value
    with any fuel from the number of characters consumed. *)
Definition derives {A} (p : nat → string → option (A * string)) (s : string) (x : A)
    (r : string) : Prop :=
  (String.length r < String.length s)%nat
  ∧ ∀ fuel, (String.length s - String.length r ≤ fuel)%nat → p fuel s = Some (x, r).

(** The tokens of a rule, as the tests of the parser. *)
Ltac tests :=
  repeat match goal with
         | H : At _ _ _ |- _ =>
             apply next_At in H; vm_compute (N_of_ascii _) in H; learn_length H
         | H : Chars _ _ _ |- _ => apply Chars_parse_string in H; learn_length H
         | H : derives _ _ _ _ |- _ => destruct H as [? ?]
         end.

(** One rule: the parser, with the fuel of the rule, takes the steps of
    its premises. *)
Ltac rule eqn :=
  tests; rewrite ?str_app_length in *; split; [simpl in *; lia|];
  intros [|fuel] Hfuel; [simpl in *; lia|]; rewrite eqn;
  repeat (cbn [mbind option_bind]; simpl (N.eqb _ _);
          rewrite ?(proj2 (after_app _ _ _) eq_refl);
          match goal with
          | H : ?x = _ |- context [?x] => rewrite H
          | H : ∀ fuel', _ → ?p fuel' ?s = Some _ |- context [?p ?n ?s] =>
              rewrite (H n) by (simpl in *; lia)
          end);
  try done.

Lemma derives_number s z r : Number (skip_ws s) z r → derives parse_value s (VNum z) r.
Proof.
  intros Hn. destruct (Number_head _ _ _ Hn) as (c & t & Hs & Hc).
  apply Number_parse_number in Hn. pose proof (parse_number_length _ _ _ Hn) as Hlen.
  pose proof (skip_ws_length s). split; [lia|].
  intros [|fuel] Hfuel; [lia|]. rewrite parse_value_S. rewrite Hs in *.
  cbn [next mbind option_bind]. destruct Hc; other_codes (N_of_ascii c); by rewrite Hn.
Qed.

(** A value does not start with a closing bracket. *)
Lemma Value_head s v r :
  Value s v r → ∃ c t, next (skip_ws s) = Some (c, t) ∧ (c =? 93) = false.
Proof.
  destruct 1;
    try match goal with H : Number _ _ _ |- _ =>
          destruct (Number_head _ _ _ H) as (c & t & -> & Hc);
          exists (N_of_ascii c), t; split; [done|]; destruct Hc; by other_codes (N_of_ascii c)
        end;
    match goal with H : At _ s _ |- _ => apply next_At in H; rewrite H end;
    by eexists _, _.
Qed.

Lemma Elements_head s vs r :
  Elements s vs r → ∃ c t, next (skip_ws s) = Some (c, t) ∧ (c =? 93) = false.
Proof. destruct 1; by eapply Value_head. Qed.

Lemma Members_head s ms r : Members s ms r → ∃ t, next (skip_ws s) = Some (34, t).
Proof. destruct 1; match goal with H : At _ s _ |- _ => apply next_At in H end; by eexists. Qed.

(** The parser reads all the grammar derives. *)
Lemma grammar_complete :
  (∀ s v r, Value s v r → derives parse_value s v r)
  ∧ (∀ s vs r, Elements s vs r → derives parse_elements s vs r)
  ∧ (∀ s ms r, Members s ms r → derives parse_members s ms r).
Proof.
  apply grammar_ind; intros.
  - rule parse_value_S.
  - by apply derives_number.
  - rule parse_value_S.
  - rule parse_value_S.
  - rule parse_value_S.
  - rule parse_value_S.
  - match goal with H : Elements _ _ _ |- _ =>
      destruct (Elements_head _ _ _ H) as (c & t & Hc & Hne)
    end.
    rule parse_value_S.
  - rule parse_value_S.
  - match goal with H : Members _ _ _ |- _ => destruct (Members_head _ _ _ H) as (t & Hc) end.
    rule parse_value_S.
  - rule parse_elements_S.
  - rule parse_elements_S.
  - rule parse_members_S.
  - rule parse_members_S.
Qed.

End complete.

(** ** Texts *)

Section texts.
Implicit Types (text : string) (v : JsValue).

Lemma parse_Text text v : parse text = Some v → Text text v.
Proof.
  unfold parse. destruct (parse_value _ text) as [[v' r]|] eqn:E; [|done]. simpl.
  case_decide; [|done]. intros [= ->]. exists r. split; [|done].
  by eapply (proj1 (grammar_sound _)).
Qed.

Lemma Text_parse text v : Text text v → parse text = Some v.
Proof.
  intros (r & [Hlen Hp]%grammar_complete & Hr). unfold parse.
  rewrite Hp by lia. simpl. by rewrite decide_True.
Qed.

(** C31. The parser and the grammar agree: [parse] gives a value for a
    text exactly when the grammar derives that value from the whole
    text.  The parser reads no text the grammar does not have, misses
    none it has, and the grammar gives a text one value at most. *)
Theorem parse_grammar text v : parse text = Some v ↔ Text text v.
Proof. split; [apply parse_Text|apply Text_parse]. Qed.

(** A text has one value. *)
Lemma Text_functional text v1 v2 : Text text v1 → Text text v2 → v1 = v2.
Proof. intros H1%Text_parse H2%Text_parse. congruence. Qed.

(** What [stringify] prints is a text of its value. *)
Lemma Text_print v : json v = true → Text (print v) v.
Proof. intros Hv. by apply parse_Text, parse_print. Qed.

End texts.

(** A text with white space, a nested array and a key written twice. *)
Example Text_example :
  Text (" { " +:+ quote "a" +:+ " : [ 1 , -20 ] , " +:+ quote "a" +:+ ":null} ")
    (VObj [("a", VArr [VNum 1; VNum (-20)]); ("a", VNull)]).
Proof. apply parse_Text. by vm_compute. Qed.

(** Texts of JSON that are outside the grammar of the model: a fraction
    and an exponent; and texts that are not JSON: a leading zero, a
    comma before the closing bracket, a key that is no string. *)
Example Text_outside v :
  ¬ Text "1.5" v ∧ ¬ Text "1e3" v ∧ ¬ Text "01" v ∧ ¬ Text "[1,]" v ∧ ¬ Text "{a:1}" v.
Proof. split_and!; intros H%Text_parse; by vm_compute in H. Qed.
